(* ===== verification/_CoqProject ===== *)
-Q . S2P
Prelude.v
Guards.v
LaunchRecord.v
Resolver.v
SiloSecurity.v
McsAllocator.v
Fnmatch.v
Rules.v
RateLimit.v
Json.v
Cache.v
LineageStore.v
LineageChain.v
Chokepoint.v
Grants.v
Mutation.v
Transfer.v
AuditTrail.v
Broker.v
BrokerDecisions.v
BrokerStanding.v
BrokerWaiters.v
BrokerRequests.v
Gates.v
GateProofs.v
GateClients.v
PyText.v
WfCron.v
WfConditions.v
WfSchema.v
WfEngine.v
WfRuns.v
WfAuth.v
WfAdmission.v
WfChannels.v
SiloEgress.v
SiloNetns.v
SiloData.v
SiloStore.v
SiloRuns.v
SiloWork.v
SiloInv.v
SiloRegions.v
SiloRegistry.v
SiloSafety.v
SiloStops.v
SiloDisk.v
SiloUids.v
