(* ===== verification/Prelude.v ===== *)
(** * Verification of the qdistro permission broker and session manager

    qdistro is a desktop in which every application runs in a silo and asks a broker
    before it does anything that crosses a boundary. This library models the decision
    logic of the broker, [src/broker/]: who a caller is, what a silo is guarded by, which
    rule or remembered approval answers a request, which flows the guards let through,
    what is recorded about them, and who may change the guards. It also models the silo
    registry of the session manager, [src/session_manager/]: how silos are created, started,
    stopped, frozen and deleted by threads that share the registry; and the workflow engine,
    [src/workflow/]: what an approval of a workflow is worth and when a secret is unsealed.

    ** How the parts fit together

    A request arrives from a process. The resolver finds the launch record of the process
    and checks it against the live facts; the silo registry gives the silo's security
    profile; the rate limiter, the rules and the approval cache decide without asking the
    user when they can. A flow of data goes through a chokepoint: the guard registry
    evaluates every input, and the lineage store records the activity, its inputs and the
    contaminated output. Security fields change only through the mutator, under grants
    that are themselves assertions in the lineage store; a narrowing is a declassification.
    The lineage store seals every row in a hash chain.

    The silos themselves belong to the session manager. Its store keeps one row per silo, in
    memory and in silos.yaml, and drives systemd, podman, cgroups and the accounts of the
    machine through a layer of system calls. The slow calls run without the store's lock,
    under a claim on the silo's slot.

    Workflows are files the engine of the broker loads. A trigger makes a run, which waits
    for an approval bound to the digest of the captured plan, or is queued at once when the
    workflow is automatic; a worker then checks the plan and the firing process again and
    executes the steps, which open secret channels the engine must close.

    ** The files

    - [Prelude]: results of calls that may raise, strings, ordered dictionaries, generic
      list lemmas, tactics and the hint database [qd].
    - [Guards] ([GuardRegistry], qdistro_guard_registry.py): verdicts, the two guard
      evaluators, [evaluate_flow]. [evaluate_flow_spec] states the boundary a flow obeys.
    - [LaunchRecord] ([LaunchRecords], qdistro_launch_record.py): the store with its two
      indexes, expiry, capacity and eviction; an invariant of every reachable store.
    - [Resolver] ([Resolve], qdistro_resolver.py): [resolve_subject] over the launch
      records; a subject is verified exactly when the record agrees with the live facts.
    - [SiloSecurity] ([SiloSec], qdistro_silo_security.py): the registry loader, and the
      authority as a type class [SnapshotAuthority] with its laws; the client theorem
      [require_resolved_chain] is proved against the laws.
    - [McsAllocator] ([Mcs], qdistro_mcs_allocator.py): SELinux categories; isolation of
      live labels in every reachable allocator.
    - [Fnmatch] and [Rules] ([AdminRules], qdistro_admin_rules.py): shell globs, rule
      validation, loading, first match.
    - [RateLimit] (qdistro_admin_ratelimit.py): refines a sliding-window specification.
    - [Json]: the reader and writer of Python's json module that the stores use, with
      their round trip. The reader runs on fuel, the length of its text, and
      [loads_total] proves that the fuel never runs out.
    - [Cache] ([ApprovalCache], qdistro_admin_cache.py): remembered approvals, their
      migration, lookup, revocation and collection.
    - [LineageStore] ([Lineage]) and [LineageChain] ([Chain], qdistro_lineage_store.py):
      the nine tables, the hash chain, retention, [verify_chain] and the graph queries;
      the second file proves what the chain promises and where it does not hold.
    - [Chokepoint] ([Chokepoints], qdistro_lineage.py): [record_chokepoint] and
      [declassify] as compositions of the guard registry and the store's writers.
    - [Grants] (qdistro_security_grants.py): delegation replayed from the store;
      [capability_confinement] is proved by rule induction over a broker's steps.
    - [Mutation] (qdistro_security_mutation.py): classification of a requested change and
      its three ways of being recorded, over [Grants], [Chokepoint] and [LineageStore].
    - [Transfer] (transfer_protocol.py and the broker's use of it): strict reading of
      receivers' answers and the receipt ledger; safety of outcomes, and liveness of
      admission: a full ledger admits again once the time to live has passed.
    - [AuditTrail] (qdistro_admin_audit.py): the audit log, what is logged and what retention keeps.
    - [Broker] (qdistro_admin_broker.py, the decision core of its class): the synchronous
      check, filing, hooks, the admin's [DecideRequest] in its two locked halves, waiters,
      relayed messages, polkit sessions, the reaper, revocation and history, over the rules,
      the cache, the rate limiter, the resolver's answers and the audit log.
    - [BrokerDecisions] ([Decisions]): the step relation [bstep] of all these operations and
      the invariant [binv]. [no_allow_without_record]: every allow has its audit row.
      [decisions_are_final]: one verdict per request, for ever.
    - [BrokerStanding] ([Standing]): where cache rows come from; an allow nobody was asked
      for is traced to an allow rule or to an audited prompt ([silent_allow_justified]).
    - [BrokerWaiters] ([Waiters]): no waiter is lost ([waiters_are_answered]).
    - [BrokerRequests] ([Requests]): claimed identities have no influence under enforcement,
      and [DecideRequest] branch by branch.
    - [Gates] (the same class): the transfer, receive and handoff gates between silos, the
      clipboard's lineage, launch registration, the identity check of the admin client and
      the share-to check, over the broker, the launch records and the lineage store.
    - [GateProofs]: an allowed crossing has an attested source and a rule, a paste is
      recorded, every gate call leaves its audit row, claims are ignored.
    - [GateClients]: a registered launch resolves, and what a share answer rests on.
    - [PyText]: the text operations of Python the workflow files use.
    - [WfCron] ([Cron], cron_parser.py and the constructor of CronTrigger): the calendar, the
      parser against the cron grammar ([cron_grammar]), and the search for the next fire
      time, which is exact ([next_after_spec]) and finds every date that comes each year
      ([next_after_finds]). The search runs on the code's own bound of minutes.
    - [WfConditions] ([Conditions], condition_eval.py): the gate on the firing process, exact
      and fail-closed ([evaluate_exact]), and the invoker roles ([invoker_enforced]).
    - [WfSchema] ([Schema], workflow_schema.py and workflow_loader.py): definitions, the plan
      captured as canonical JSON and read back ([plan_roundtrip]), and the loader.
    - [WfEngine] ([Engine], workflow_engine.py and the handle of secret_delivery.py): the
      operations of the engine as computations over its state and an arbitrary world.
    - [WfRuns] ([WfRuns.Runs]): its threads as the step relation [sstep], and what each
      operation leaves alone, proved once for each relation by the hint database [keeps].
    - [WfAuth] ([Auth]): the invariant of runs, workers and queue; an approval is for the plan
      that runs ([approved_plan_runs]) and no secret is unsealed without authorisation,
      declaration and a fresh check of the process ([secret_release_justified]).
    - [WfAdmission] ([Admission]): the limit on runs in flight and the collapsing of repeated
      triggers ([concurrency_bounded]).
    - [WfChannels] ([Channels]): no secret channel is forgotten ([no_channel_lost]).
    - [SiloEgress] ([Egress], qdistro_silo_egress.py): the egress policy grammar and the
      addresses of the direct links: exact grammar, pool bounds, disjoint links.
    - [SiloNetns] ([Netns], the class EgressBackend and the store's use of it): bringing a
      namespace to its policy and down again, and the link watchers, over a system layer
      that may raise at any call. [egress_contained]: a launch never sees more network than
      its policy; [egress_never_fails_start]: it comes up dark instead of failing;
      [stale_watcher_silent]: old watchers touch nothing.
    - [SiloData] ([Silos], qdistro_session_manager.py): states, kinds, rows, validators,
      [load] and what a save writes: every loaded row passes the validators of its
      fields, and a save reads back.
    - [SiloStore] ([Store], the class _SiloStore): every lifecycle operation, cut at the
      store lock into regions run by threads.
    - [SiloRuns] ([Runs]) and [SiloWork] ([Work]): what the log of system calls says about the
      unit of a silo ([evidence_of]: down, up or unknown) and about the processes in its own
      cgroup, which the launcher moves the workload into ([leftover]); and what each primitive
      and each lock-free sequence does to both.
    - [SiloInv] ([Inv]): the invariant of the store between two regions, and [region_ok],
      which is enough for it to survive a region.
    - [SiloRegions] ([Regions]) and [SiloRegistry] ([Registry]): every region is [region_ok].
    - [SiloSafety] ([Safety]): runs from a boot in which no Frozen silo is started;
      [deletable_rows_are_down] about units, [removals_meet_no_workload] about units and
      processes, [claimed_slot_released].
    - [SiloStops] ([Stops]): a tier-3 stop ends its workload when the kernel behaves as
      documented ([stop_ends_workload]); what it records when the kernel does not answer
      ([blind_stop]); and the start of a Frozen silo, the reason for the condition on the
      runs of [SiloSafety] ([frozen_start_loses_workload]).
    - [SiloDisk] ([Disk]): silos.yaml is in step while saves succeed, and the stop that a
      failed save wedges.
    - [SiloUids] ([Uids]): no uid belongs to two tier-3 silos, and the account a delete
      removes without having made it.

    ** Conventions

    - A method of a stateful object takes the state and returns the new one. A call that
      may raise returns [result E A], with the exceptions it raises as the constructors of
      [E]; a raise leaves the state as it was where the code runs in one transaction.
      Message texts are constructors carrying the interpolated values.
    - Clock readings, drawn identifiers, the digest of the hash chain, directory listings,
      the answers of yaml and tomllib and the /proc facts are arguments. Times are integers.
      The order in which Python iterates a set is an argument or is shown not to matter.
    - The broker's handlers run to their end on one main loop, so a handler is one step of
      [bstep]; [DecideRequest], which releases its lock to audit and to write the cache and
      guards the gap with [finalizing], is two. Request objects are shared between the queue
      and the closures that finish them and live in a heap. The retention of the audit log
      deletes rows by age and is no step of [bstep].
    - The silo store is multithreaded: a step runs one region of one thread, or lets a call
      in, and its lock-free work is one region of its own. The regions are those of the
      code: what runs in one hold of the lock, or between two holds. Every call of the
      system layer is logged with its answer, which is an arbitrary function of the log and
      may be an exception; [after_event] states what an answer says about a unit, and
      [leftover] what it says about the cgroup: that it is empty is concluded only from a
      removal that succeeded, which the kernel refuses on a populated cgroup, or from a
      probe. A waiter on a claimed slot returns when it is free or gives up, so it is no step of its
      own.
    - The workflow engine is multithreaded too: a step of [sstep] is a call under its lock, the
      rest of a trigger, or one phase of a worker, cut where another thread can see the run
      (before the dispatch, the record of the start, the conditions, each step and the end).
      Run identifiers are drawn fresh; SHA-256 is a function of the configuration, about
      which nothing is assumed. Timestamps, timeouts and log lines are left out.
    - A Python string is a sequence of code points below 256, one character each. Set
      columns are written and read back through the modelled JSON text.
    - Loops whose recursion is not structural run on fuel with a proof that it suffices:
      the JSON reader on the length of its text (any depth; the interpreter's recursion
      limit is not modelled), the graph walk on the code's own depth bound.
    - A callback of a link watcher checks its generation and re-attaches in one step; one
      that is already past its check when the watcher is stopped is not modelled. The rows
      [load] quarantines, which a save writes back unchanged, are no part of [st_disk].

    ** Theorems about the code as it is

    Where the code does not do what its comments say the theorem states what it does:
    [allocate_decides], [reload_unhashable_escapes], [retired_row_resurrected],
    [repeated_retention_breaks], [tighten_unchecked_facets], [narrow_drops_sensitivity],
    [share_dest_raises], [frozen_start_loses_workload], [container_delete_removes_account],
    [blind_stop], [failed_save_wedges_stop], [leap_schedule_lost], [malformed_conditions_abort_load].

    ** Not modelled

    Of the broker's class: the identity gates over /proc (their answer is an argument), the
    lineage receipt methods, rule editing, and the methods
    that forward to the workflow engine, snapper and the receivers. Of the session manager:
    the system layer itself, autostart and the startup reconcilers,
    podapps, disposables and imports. Beside them: lineage
    receipts, hooks' executor, the VM schema, the multimachine system,
    snapshots, the password daemon, the browser bridge and the graphical applications; D-Bus, sockets, polkit and file system effects (ownership and permissions of
    databases, SQLite pragmas). Of the workflow engine: the watchers of the triggers and their
    registration, the listings, the waiting bridge call, the agent relay, the audit database
    and what the delivery channels do to their processes and mounts. The effects have no logic of their own; the rest are components
    a later extension can add beside these. *)

From stdpp Require Export base list gmap strings pretty sorting.
From Stdlib Require Export Ascii.
From stdpp Require Export strings.

(** ** Notation scope, hint databases *)

Declare Scope qd_scope.
Delimit Scope qd_scope with qd.
Open Scope qd_scope.

Create HintDb qd discriminated.

(** ** Results: Python functions that may raise *)

(** A call either returns or raises; [E] is the component's enumeration of the
    exceptions it raises. *)
Inductive result (E A : Type) : Type :=
| Ok (a : A)
| Err (e : E).
Arguments Ok {E A} a.
Arguments Err {E A} e.

Definition result_bind {E A B} (r : result E A) (k : A → result E B) : result E B :=
  match r with Ok a => k a | Err e => Err e end.

Definition is_ok {E A} (r : result E A) : bool :=
  match r with Ok _ => true | Err _ => false end.

Notation "'let*' x ':=' r 'in' k" := (result_bind r (λ x, k))
  (at level 10, x pattern, r at level 100, k at level 200) : qd_scope.

(** [guard b e k]: [if not b: raise e], then [k]. *)
Definition guard_else {E A} (b : bool) (e : E) (k : result E A) : result E A :=
  if b then k else Err e.

Lemma result_bind_ok {E A B} (r : result E A) (k : A → result E B) b :
  result_bind r k = Ok b ↔ ∃ a, r = Ok a ∧ k a = Ok b.
Proof.
  destruct r as [a|e]; simpl; split.
  - intros Hk. by exists a.
  - by intros (a' & [= ->] & Hk).
  - done.
  - by intros (a' & Hr & _).
Qed.

Lemma guard_else_ok {E A} (b : bool) (e : E) (k : result E A) a :
  guard_else b e k = Ok a ↔ b = true ∧ k = Ok a.
Proof. destruct b; simpl; split; by intros ?; destruct_and?. Qed.

(** Split a hypothesis [c = Ok _] built from binds, guards, matches and ifs. *)
Ltac inv_ok :=
  repeat match goal with
  | H : Err _ = Ok _ |- _ => discriminate H
  | H : Ok _ = Err _ |- _ => discriminate H
  | H : Ok _ = Ok _ |- _ => injection H as H; try subst
  | H : Some _ = None |- _ => discriminate H
  | H : None = Some _ |- _ => discriminate H
  | H : result_bind _ _ = Ok _ |- _ =>
      apply result_bind_ok in H as (? & ? & H)
  | H : guard_else _ _ _ = Ok _ |- _ => apply guard_else_ok in H as [? H]
  | H : (if ?b then _ else _) = Ok _ |- _ => destruct b eqn:?
  | H : match ?x with _ => _ end = Ok _ |- _ => destruct x eqn:?
  end.

(** ** Lists *)

Lemma NoDup_fmap_filter {A B} (f : A → B) (P : A → Prop) `{∀ x, Decision (P x)} l :
  NoDup (f <$> l) → NoDup (f <$> filter P l).
Proof.
  induction l as [|x l IH]; [done|]. rewrite fmap_cons, filter_cons.
  intros [Hx Hnd]%NoDup_cons. case_decide; [|auto]. rewrite fmap_cons.
  apply NoDup_cons. split; [|auto]. intros (y & Hy & Hin)%list_elem_of_fmap.
  apply Hx. rewrite Hy. apply list_elem_of_filter in Hin as [_ Hin].
  by apply list_elem_of_fmap_2.
Qed.

Lemma Forall_filter {A} (P Q : A → Prop) `{∀ x, Decision (Q x)} (l : list A) :
  Forall P l → Forall P (filter Q l).
Proof. rewrite !Forall_forall. intros HP x [_ Hx]%list_elem_of_filter. auto. Qed.

Lemma list_filter_all {A} (P : A → Prop) `{∀ x, Decision (P x)} (l : list A) :
  (∀ x, x ∈ l → P x) → filter P l = l.
Proof.
  induction l as [|x l IH]; intros HP; [done|]. rewrite filter_cons, decide_True by set_solver.
  f_equal. apply IH. set_solver.
Qed.

Lemma list_filter_none {A} (P : A → Prop) `{∀ x, Decision (P x)} (l : list A) :
  (∀ x, x ∈ l → ¬ P x) → filter P l = [].
Proof.
  induction l as [|x l IH]; intros HP; [done|]. rewrite filter_cons, decide_False by set_solver.
  apply IH. set_solver.
Qed.

Lemma list_filter_ext_in {A} (P Q : A → Prop) `{∀ x, Decision (P x), ∀ x, Decision (Q x)} (l : list A) :
  (∀ x, x ∈ l → P x ↔ Q x) → filter P l = filter Q l.
Proof.
  induction l as [|x l IH]; intros HPQ; [done|]. rewrite !filter_cons.
  rewrite IH by (intros y Hy; apply HPQ; by constructor).
  assert (P x ↔ Q x) as Hx by (apply HPQ; constructor).
  repeat case_decide; tauto.
Qed.

(** Rule induction: a property the steps preserve holds of every reachable state. *)
Lemma rtc_invariant {A} (R : relation A) (I : A → Prop) x y :
  rtc R x y → I x → (∀ a b, R a b → I a → I b) → I y.
Proof. intros Hr Hx Hs. induction Hr as [|a b c Hab Hbc IH]; eauto. Qed.

(** ** Booleans *)

Ltac bool_hyps :=
  repeat match goal with
  | H : _ && _ = true |- _ => apply andb_true_iff in H as [? ?]
  | H : _ || _ = false |- _ => apply orb_false_iff in H as [? ?]
  | H : negb _ = true |- _ => apply negb_true_iff in H
  | H : negb _ = false |- _ => apply negb_false_iff in H
  | H : bool_decide _ = true |- _ => apply bool_decide_eq_true in H
  | H : bool_decide _ = false |- _ => apply bool_decide_eq_false in H
  end.

(** ** Python strings

    A Python [str] is a sequence of code points; here the code points below 256,
    one [ascii] each. Comparison is by code point. *)

(** [bool(s)] *)
Definition truthy (s : string) : bool := match s with "" => false | _ => true end.

(** [c in s] for one character *)
Fixpoint has_char (c : ascii) (s : string) : bool :=
  match s with
  | "" => false
  | String a s' => bool_decide (a = c) || has_char c s'
  end.

(** [s.startswith(p)] *)
Fixpoint starts_with (p s : string) : bool :=
  match p, s with
  | "", _ => true
  | String a p', String b s' => bool_decide (a = b) && starts_with p' s'
  | String _ _, "" => false
  end.

(** [s.endswith(p)] *)
Fixpoint ends_with (p s : string) : bool :=
  bool_decide (s = p) ||
  match s with "" => false | String _ s' => ends_with p s' end.

(** [p in s] for strings *)
Fixpoint substr_in (p s : string) : bool :=
  starts_with p s || match s with "" => false | String _ s' => substr_in p s' end.

Fixpoint forall_char (f : ascii → bool) (s : string) : bool :=
  match s with "" => true | String a s' => f a && forall_char f s' end.

(** [s[:n]] *)
Fixpoint str_take (n : nat) (s : string) : string :=
  match n, s with
  | S n', String a s' => String a (str_take n' s')
  | _, _ => ""
  end.

(** [ord(c)] *)
Definition ord (c : ascii) : N := N_of_ascii c.

(** [os.path.basename]: what follows the last slash. *)
Fixpoint basename_go (acc s : string) : string :=
  match s with
  | "" => acc
  | String a s' => if bool_decide (a = "/"%char) then basename_go s' s'
                   else basename_go acc s'
  end.
Definition basename (s : string) : string := basename_go s s.

(** [sorted(xs)] on strings, and on the elements of a set of strings. *)
Definition py_sorted (l : list string) : list string := merge_sort String.le l.
Definition sorted_set (s : gset string) : list string := py_sorted (elements s).

Lemma str_app_nil_l s : "" +:+ s = s.
Proof. done. Qed.
Lemma str_app_cons c s1 s2 : String c s1 +:+ s2 = String c (s1 +:+ s2).
Proof. done. Qed.
Lemma str_app_nil_r s : s +:+ "" = s.
Proof. induction s as [|c s IH]; [done|]. by rewrite str_app_cons, IH. Qed.
Lemma str_app_assoc s1 s2 s3 : (s1 +:+ s2) +:+ s3 = s1 +:+ (s2 +:+ s3).
Proof. induction s1 as [|c s1 IH]; [done|]. by rewrite !str_app_cons, IH. Qed.
Lemma str_app_length s1 s2 :
  String.length (s1 +:+ s2) = String.length s1 + String.length s2.
Proof. induction s1 as [|c s1 IH]; [done|]. rewrite str_app_cons. simpl. by rewrite IH. Qed.

Lemma truthy_true s : truthy s = true ↔ s ≠ "".
Proof. by destruct s. Qed.
Lemma truthy_false s : truthy s = false ↔ s = "".
Proof. by destruct s. Qed.

Lemma sorted_set_elem_of s x : x ∈ sorted_set s ↔ x ∈ s.
Proof.
  unfold sorted_set, py_sorted. rewrite merge_sort_Permutation.
  apply elem_of_elements.
Qed.

Lemma sorted_set_to_set (s : gset string) : list_to_set (sorted_set s) = s.
Proof. apply set_eq. intros x. by rewrite elem_of_list_to_set, sorted_set_elem_of. Qed.

Lemma sorted_set_inj s1 s2 : sorted_set s1 = sorted_set s2 → s1 = s2.
Proof. intros H. by rewrite <- (sorted_set_to_set s1), H, sorted_set_to_set. Qed.

#[export] Hint Resolve sorted_set_elem_of : qd.

(** ** Ordered dictionaries

    Python dictionaries whose iteration order the code relies on ([min] over
    [items()], [OrderedDict], the first terminal row) are association lists in
    insertion order. Assigning to a present key keeps its position. *)
Section odict.
Context {K : Type} `{EqDecision K} {V : Type}.
Implicit Types (d : list (K * V)) (k : K) (v : V).

Definition keys d : list K := d.*1.

(** [d.get(k)] *)
Fixpoint od_get d k : option V :=
  match d with
  | [] => None
  | (k', v) :: d' => if bool_decide (k' = k) then Some v else od_get d' k
  end.

(** [d[k] = v] *)
Fixpoint od_set d k v : list (K * V) :=
  match d with
  | [] => [(k, v)]
  | (k', v') :: d' =>
      if bool_decide (k' = k) then (k', v) :: d' else (k', v') :: od_set d' k v
  end.

(** [d.pop(k, None)], as a dictionary *)
Definition od_del d k : list (K * V) := filter (λ p, p.1 ≠ k) d.

Lemma od_get_elem d k v : od_get d k = Some v → (k, v) ∈ d.
Proof.
  induction d as [|[k' v'] d IH]; simpl; [done|].
  case_bool_decide; [intros [= ->]; subst; constructor|].
  intros H'. constructor. auto.
Qed.

Lemma od_get_None d k : od_get d k = None ↔ k ∉ keys d.
Proof.
  unfold keys. induction d as [|[k' v'] d IH]; simpl.
  { split; [intros _; apply not_elem_of_nil|done]. }
  rewrite not_elem_of_cons. case_bool_decide; [naive_solver|].
  rewrite IH. naive_solver.
Qed.

Lemma od_get_is_Some d k : is_Some (od_get d k) ↔ k ∈ keys d.
Proof.
  destruct (od_get d k) as [v|] eqn:E.
  - split; [|eauto]. intros _. apply list_elem_of_fmap. exists (k, v).
    split; [done|by apply od_get_elem].
  - apply od_get_None in E. split; [by intros [? [=]]|done].
Qed.

Lemma od_elem_get d k v : NoDup (keys d) → (k, v) ∈ d → od_get d k = Some v.
Proof.
  unfold keys. induction d as [|[k' v'] d IH]; simpl; [intros _ []%not_elem_of_nil|].
  intros [Hk Hnd]%NoDup_cons [Heq|Hin]%elem_of_cons.
  - injection Heq as -> ->. by rewrite bool_decide_true.
  - case_bool_decide as Hc; [|by apply IH]. subst. exfalso. apply Hk.
    apply list_elem_of_fmap. by exists (k, v).
Qed.

Lemma od_get_set_eq d k v : od_get (od_set d k v) k = Some v.
Proof.
  induction d as [|[k' v'] d IH]; simpl; [by rewrite bool_decide_true|].
  case_bool_decide as Hc; simpl; [by rewrite bool_decide_true|].
  by rewrite bool_decide_false.
Qed.

Lemma od_get_set_ne d k k' v : k ≠ k' → od_get (od_set d k v) k' = od_get d k'.
Proof.
  intros Hne. induction d as [|[k'' v'] d IH]; simpl; [by rewrite bool_decide_false|].
  case_bool_decide as Hc; simpl; [|by rewrite IH].
  subst. by rewrite !bool_decide_false.
Qed.

Lemma od_keys_set d k v :
  keys (od_set d k v) = if bool_decide (k ∈ keys d) then keys d else keys d ++ [k].
Proof.
  induction d as [|[k' v'] d IH]; [done|].
  change (keys ((k', v') :: d)) with (k' :: keys d). cbn [od_set].
  destruct (decide (k' = k)) as [->|Hc].
  - by rewrite (bool_decide_true (k = k)), bool_decide_true by first [done|constructor].
  - rewrite (bool_decide_false (k' = k)) by done. change (keys ((k', v') :: od_set d k v)) with (k' :: keys (od_set d k v)).
    rewrite IH. assert (k ∈ k' :: keys d ↔ k ∈ keys d) as Hiff.
    { rewrite elem_of_cons. naive_solver. }
    by rewrite (bool_decide_ext _ _ Hiff); case_bool_decide.
Qed.

Lemma od_set_NoDup d k v : NoDup (keys d) → NoDup (keys (od_set d k v)).
Proof.
  intros Hnd. rewrite od_keys_set. case_bool_decide as Hc; [done|].
  apply NoDup_app. repeat split; [done| |apply NoDup_singleton]. set_solver.
Qed.

Lemma od_set_fresh d k v : k ∉ keys d → od_set d k v = d ++ [(k, v)].
Proof.
  induction d as [|[k' v'] d IH]; [done|]. change (keys ((k', v') :: d)) with (k' :: keys d).
  rewrite not_elem_of_cons. intros [Hk Hd]. simpl. rewrite bool_decide_false by congruence. by rewrite IH.
Qed.

Lemma od_set_length d k v :
  length (od_set d k v) = if bool_decide (k ∈ keys d) then length d else S (length d).
Proof.
  assert (Hl : ∀ d, length d = length (keys d)) by (intros; unfold keys; by rewrite length_fmap).
  rewrite !Hl, od_keys_set. case_bool_decide; [done|]. rewrite length_app; simpl. lia.
Qed.

Lemma od_set_elem d k v p : p ∈ od_set d k v → p = (k, v) ∨ p ∈ d.
Proof.
  induction d as [|[k' v'] d IH]; simpl; [set_solver|].
  rewrite elem_of_cons. case_bool_decide as Hc.
  - subst. intros [->|?]%elem_of_cons; auto.
  - intros [->|[->|?]%IH]%elem_of_cons; auto.
Qed.

Lemma od_get_del_eq d k : od_get (od_del d k) k = None.
Proof.
  apply od_get_None. unfold keys, od_del. intros (p & -> & Hp)%list_elem_of_fmap.
  apply list_elem_of_filter in Hp as [? _]. done.
Qed.

Lemma od_get_del_ne d k k' : k ≠ k' → od_get (od_del d k) k' = od_get d k'.
Proof.
  intros Hne. unfold od_del. induction d as [|[k'' v'] d IH]; [done|].
  rewrite filter_cons. simpl. case_decide as Hc; simpl.
  - by rewrite IH.
  - rewrite IH. rewrite bool_decide_false; [done|]. intros ->. by subst.
Qed.

Lemma od_del_subset d k p : p ∈ od_del d k → p ∈ d ∧ p.1 ≠ k.
Proof. unfold od_del. rewrite list_elem_of_filter. tauto. Qed.

Lemma od_filter_keys_subset (P : K * V → Prop) `{∀ p, Decision (P p)} d :
  keys (filter P d) ⊆ keys d.
Proof.
  unfold keys. intros k (p & -> & Hp)%list_elem_of_fmap.
  apply list_elem_of_filter in Hp as [_ Hp]. apply list_elem_of_fmap. by exists p.
Qed.

Lemma od_filter_NoDup (P : K * V → Prop) `{∀ p, Decision (P p)} d :
  NoDup (keys d) → NoDup (keys (filter P d)).
Proof.
  apply NoDup_fmap_filter.
Qed.

Lemma od_del_NoDup d k : NoDup (keys d) → NoDup (keys (od_del d k)).
Proof. apply od_filter_NoDup. Qed.

Lemma od_del_length_le d k : length (od_del d k) ≤ length d.
Proof. apply length_filter. Qed.

Lemma od_del_length_lt d k : k ∈ keys d → length (od_del d k) < length d.
Proof.
  unfold keys, od_del. intros (p & -> & Hp)%list_elem_of_fmap.
  induction d as [|q d IH]; [by apply not_elem_of_nil in Hp|].
  rewrite filter_cons. apply elem_of_cons in Hp as [->|Hp].
  - rewrite decide_False by auto. simpl. pose proof (od_del_length_le d q.1).
    unfold od_del in *. lia.
  - case_decide; simpl; [by apply -> Nat.succ_lt_mono; auto|].
    specialize (IH Hp). lia.
Qed.
End odict.

(** [min(xs)] under a strict order: the first element no later one is below. The
    head is an argument, since Python's [min] raises on an empty sequence. *)
Fixpoint min_lt {A} (lt : A → A → bool) (best : A) (l : list A) : A :=
  match l with
  | [] => best
  | x :: l' => if lt x best then min_lt lt x l' else min_lt lt best l'
  end.

(** [min(xs, key=f)] *)
Definition min_by {A} (f : A → Z) : A → list A → A :=
  min_lt (λ x y, bool_decide (f x < f y)%Z).

Lemma min_lt_elem {A} (lt : A → A → bool) b l : min_lt lt b l ∈ b :: l.
Proof.
  revert b. induction l as [|x l IH]; intros b; simpl; [set_solver|].
  destruct (lt x b); [specialize (IH x)|specialize (IH b)]; set_solver.
Qed.

Lemma min_by_le {A} (f : A → Z) b l x : x ∈ b :: l → (f (min_by f b l) ≤ f x)%Z.
Proof.
  unfold min_by. revert b x. induction l as [|y l IH]; intros b x; simpl.
  { intros ->%list_elem_of_singleton. lia. }
  intros [->|[->|Hx]%elem_of_cons]%elem_of_cons; case_bool_decide.
  - transitivity (f y); [apply IH; set_solver|lia].
  - apply IH; set_solver.
  - apply IH; set_solver.
  - transitivity (f b); [apply IH; set_solver|lia].
  - apply IH; set_solver.
  - apply IH; set_solver.
Qed.

(** ** Dynamic values

    What [yaml.safe_load] and [tomllib.load] return, and what an untyped [object]
    argument may be. A mapping is the list of its entries in order, keys distinct;
    a float is its text. *)
Inductive pyval : Type :=
| PNone
| PBool (b : bool)
| PInt (z : Z)
| PFloat (lexeme : string)
| PStr (s : string)
| PList (l : list pyval)
| PDict (d : list (pyval * pyval)).

(** [d.get(key)] for a string key; a missing key reads as [None]. *)
Fixpoint dict_get (d : list (pyval * pyval)) (key : string) : pyval :=
  match d with
  | [] => PNone
  | (PStr k, v) :: d' => if bool_decide (k = key) then v else dict_get d' key
  | _ :: d' => dict_get d' key
  end.

(** [isinstance(v, str)] with the string it holds *)
Definition as_str (v : pyval) : option string :=
  match v with PStr s => Some s | _ => None end.

(** [isinstance(v, int)]; [bool] is a subclass of [int]. *)
Definition as_int (v : pyval) : option Z :=
  match v with
  | PInt z => Some z
  | PBool b => Some (if b then 1 else 0)%Z
  | _ => None
  end.

(** [bool(v)]; a float is false when its text denotes zero. *)
Definition float_zero (lexeme : string) : bool :=
  bool_decide (lexeme ∈ ["0.0"; "-0.0"]).
Definition pytruthy (v : pyval) : bool :=
  match v with
  | PNone => false
  | PBool b => b
  | PInt z => negb (z =? 0)%Z
  | PFloat x => negb (float_zero x)
  | PStr s => truthy s
  | PList l => match l with [] => false | _ => true end
  | PDict d => match d with [] => false | _ => true end
  end.

Definition is_none (v : pyval) : bool := match v with PNone => true | _ => false end.

(** Lists and mappings have no hash: [v in frozenset(...)] raises on them. *)
Definition hashable (v : pyval) : bool :=
  match v with PList _ | PDict _ => false | _ => true end.

(** The strings of a list, dropping other members:
    [frozenset(v for v in val if isinstance(v, str))]. *)
Definition strs_of (l : list pyval) : gset string := list_to_set (omap as_str l).
