(* ===== verification/Guards.v ===== *)
(** * The behavioural guard registry

    [src/broker/qdistro_guard_registry.py]: the verdict a guarded flow gets at a
    chokepoint. A decision's [reason] is the enumeration [GuardReason], whose
    constructors carry what the code interpolates into the message text. *)

From S2P Require Import Prelude.

Module GuardRegistry.

(** [RESERVED_GUARDS] of [qdistro_metadata_schema.py] *)
Definition RESERVED_GUARDS : gset string := {["local-only"; "no-cross-contaminate"]}.

(** ** Verdicts *)

Inductive GuardVerdict := ALLOW | CONTAMINATE | WARN | PROMPT | DENY.

#[export] Instance GuardVerdict_eq_dec : EqDecision GuardVerdict.
Proof. solve_decision. Defined.

Definition verdict_rank (v : GuardVerdict) : nat :=
  match v with ALLOW => 0 | CONTAMINATE => 1 | WARN => 2 | PROMPT => 3 | DENY => 4 end.

(** [max(a, b)] on the [IntEnum] *)
Definition verdict_max (a b : GuardVerdict) : GuardVerdict :=
  if verdict_rank a <? verdict_rank b then b else a.

Definition name_lower (v : GuardVerdict) : string :=
  match v with
  | ALLOW => "allow" | CONTAMINATE => "contaminate" | WARN => "warn"
  | PROMPT => "prompt" | DENY => "deny"
  end.

(** ** Vocabularies *)

Definition REMOTE_EGRESS_CHOKEPOINTS : gset string :=
  {["browser-upload"; "api-call"; "cloud-save"; "recall-export"; "backup-export";
    "git-push"; "issue-upload"; "pull-request"; "telemetry"]}.

Definition LOCAL_CHOKEPOINTS : gset string :=
  {["clipboard"; "recall-ingest"; "archive-create"; "archive-extract";
    "commit-create"; "backup-local"]}.

Definition LOCAL_HOST_CLASSES : gset string := {["local"; "local-vm"; "local-container"]}.
Definition NONLOCAL_HOST_CLASSES : gset string := {["remote-service"; "unknown"]}.

(** ** Flow data *)

Record ProcessingDescriptor := {
  host_class : string;
  network_egress : string;
  payload_submitted : bool;
  telemetry_submitted : bool;
}.

(** [ProcessingDescriptor()]: the field defaults *)
Definition default_processing : ProcessingDescriptor :=
  {| host_class := "unknown"; network_egress := "unknown";
     payload_submitted := true; telemetry_submitted := false |}.

Definition is_local (p : ProcessingDescriptor) : bool :=
  bool_decide (host_class p ∈ LOCAL_HOST_CLASSES).

Definition submits_remotely (p : ProcessingDescriptor) : bool :=
  if negb (payload_submitted p || telemetry_submitted p) then false
  else if bool_decide (host_class p ∈ NONLOCAL_HOST_CLASSES) then true
  else bool_decide (network_egress p ≠ "none").

Record FlowEndpoint := {
  guards : gset string;
  compartments : gset string;
  conflict_classes : gset string;
}.

#[export] Instance FlowEndpoint_eq_dec : EqDecision FlowEndpoint.
Proof. solve_decision. Defined.

(** [FlowEndpoint()] *)
Definition empty_endpoint : FlowEndpoint :=
  {| guards := ∅; compartments := ∅; conflict_classes := ∅ |}.

(** [FlowEndpoint.from_security]: a manifest's [security] value; a missing or
    ill-typed field is an empty set, a non-string member is dropped. *)
Definition security_set (security : pyval) (key : string) : gset string :=
  match security with
  | PDict d => match dict_get d key with PList l => strs_of l | _ => ∅ end
  | _ => ∅
  end.
Definition from_security (security : pyval) : FlowEndpoint :=
  {| guards := security_set security "guards";
     compartments := security_set security "compartments";
     conflict_classes := security_set security "conflictClasses" |}.

Record FlowContext := {
  source : FlowEndpoint;
  chokepoint : string;
  destination : FlowEndpoint;
  processing : ProcessingDescriptor;
}.

Inductive GuardReason :=
| R_local_controlled (chokepoint : string)
| R_remote_endpoint (chokepoint : string)
| R_submits_remotely (host_class network_egress : string)
| R_local_host (host_class : string)
| R_not_provably_local (host_class : string)
| R_no_shared_conflict
| R_covered (dst src shared : list string)
| R_not_subset (src dst shared : list string).

Record GuardDecision := {
  guard : string;
  verdict : GuardVerdict;
  reason : GuardReason;
  propagate : gset string;
}.

(** ** Evaluators *)

Definition eval_local_only (ctx : FlowContext) : GuardDecision :=
  let guard := "local-only" in
  let propagate := {[guard]} in
  if bool_decide (chokepoint ctx ∈ LOCAL_CHOKEPOINTS) then
    {| guard := guard; verdict := ALLOW;
       reason := R_local_controlled (chokepoint ctx); propagate := propagate |}
  else if bool_decide (chokepoint ctx ∈ REMOTE_EGRESS_CHOKEPOINTS) then
    {| guard := guard; verdict := DENY;
       reason := R_remote_endpoint (chokepoint ctx); propagate := propagate |}
  else if submits_remotely (processing ctx) then
    {| guard := guard; verdict := DENY;
       reason := R_submits_remotely (host_class (processing ctx))
                                    (network_egress (processing ctx));
       propagate := propagate |}
  else if is_local (processing ctx) then
    {| guard := guard; verdict := ALLOW;
       reason := R_local_host (host_class (processing ctx)); propagate := propagate |}
  else
    {| guard := guard; verdict := DENY;
       reason := R_not_provably_local (host_class (processing ctx));
       propagate := propagate |}.

Definition subset_compatible (src dst : FlowEndpoint) : bool :=
  bool_decide (compartments src ≠ ∅) &&
  bool_decide (compartments src ⊆ compartments dst).

Definition eval_no_cross_contaminate (ctx : FlowContext) : GuardDecision :=
  let guard := "no-cross-contaminate" in
  let src := source ctx in
  let dst := destination ctx in
  let propagate := {[guard]} in
  let shared_conflict := conflict_classes src ∩ conflict_classes dst in
  if bool_decide (shared_conflict = ∅) then
    {| guard := guard; verdict := ALLOW; reason := R_no_shared_conflict;
       propagate := propagate |}
  else if subset_compatible src dst then
    {| guard := guard; verdict := ALLOW;
       reason := R_covered (sorted_set (compartments dst)) (sorted_set (compartments src))
                           (sorted_set shared_conflict);
       propagate := propagate |}
  else
    {| guard := guard; verdict := DENY;
       reason := R_not_subset (sorted_set (compartments src)) (sorted_set (compartments dst))
                              (sorted_set shared_conflict);
       propagate := propagate |}.

(** ** Registry *)

Record GuardBehaviour := {
  name : string;
  viral : bool;
  description : string;
  evaluate : FlowContext → GuardDecision;
}.

Definition GUARD_REGISTRY : list (string * GuardBehaviour) :=
  [("local-only",
     {| name := "local-only"; viral := true;
        description := "Data may be processed only on qdistro-controlled local compute; submitting it to a remote/unknown host is denied.";
        evaluate := eval_local_only |});
   ("no-cross-contaminate",
     {| name := "no-cross-contaminate"; viral := true;
        description := "A compartment family that must not silently mix with a conflicting compartment; cross-compartment flows deny or require a workflow.";
        evaluate := eval_no_cross_contaminate |})].

(** [_assert_registry_covers_vocabulary]: import succeeds exactly when neither
    difference is inhabited. *)
Definition registry_covers_vocabulary : bool :=
  let names : gset string := list_to_set (keys GUARD_REGISTRY) in
  bool_decide (RESERVED_GUARDS ∖ names = ∅) && bool_decide (names ∖ RESERVED_GUARDS = ∅).

(** ** Aggregate evaluation *)

Record FlowVerdict := {
  fv_verdict : GuardVerdict;
  fv_decisions : list GuardDecision;
  fv_propagate : gset string;
}.

Definition verdict_allowed (v : GuardVerdict) : bool := verdict_rank v <=? verdict_rank WARN.
Definition fv_allowed (v : FlowVerdict) : bool := verdict_allowed (fv_verdict v).
Definition fv_reasons (v : FlowVerdict) : list GuardReason := reason <$> fv_decisions v.

(** One iteration of the loop over [sorted(ctx.source.guards)] *)
Definition evaluate_step (ctx : FlowContext) (acc : FlowVerdict) (g : string) : FlowVerdict :=
  match od_get GUARD_REGISTRY g with
  | None =>
      {| fv_verdict := fv_verdict acc; fv_decisions := fv_decisions acc;
         fv_propagate := fv_propagate acc ∪ {[g]} |}
  | Some behaviour =>
      let decision := evaluate behaviour ctx in
      {| fv_verdict := verdict_max (fv_verdict acc) (verdict decision);
         fv_decisions := fv_decisions acc ++ [decision];
         fv_propagate := fv_propagate acc ∪ propagate decision |}
  end.

Definition evaluate_flow (ctx : FlowContext) : FlowVerdict :=
  foldl (evaluate_step ctx)
    {| fv_verdict := ALLOW; fv_decisions := []; fv_propagate := ∅ |}
    (sorted_set (guards (source ctx))).

(** [propagate_guards]: the union of the guard sets. *)
Definition propagate_guards (sets : list (gset string)) : gset string := ⋃ sets.

(** ** Properties *)

(** The local-only boundary of [doc/guards.md], as a predicate on the flow. *)
Definition local_only_ok (ctx : FlowContext) : Prop :=
  chokepoint ctx ∈ LOCAL_CHOKEPOINTS ∨
  chokepoint ctx ∉ REMOTE_EGRESS_CHOKEPOINTS ∧
  host_class (processing ctx) ∈ LOCAL_HOST_CLASSES ∧
  (payload_submitted (processing ctx) = false ∧ telemetry_submitted (processing ctx) = false ∨
   network_egress (processing ctx) = "none").

(** The cross-silo rule: no shared conflict class, or a classified source whose
    compartments the destination covers. *)
Definition no_cross_ok (ctx : FlowContext) : Prop :=
  conflict_classes (source ctx) ∩ conflict_classes (destination ctx) = ∅ ∨
  compartments (source ctx) ≠ ∅ ∧
  compartments (source ctx) ⊆ compartments (destination ctx).

Lemma verdict_rank_max a b :
  verdict_rank (verdict_max a b) = Nat.max (verdict_rank a) (verdict_rank b).
Proof. by destruct a, b. Qed.

Lemma verdict_allowed_max a b :
  verdict_allowed (verdict_max a b) = verdict_allowed a && verdict_allowed b.
Proof. by destruct a, b. Qed.

Lemma local_class_not_nonlocal h : h ∈ LOCAL_HOST_CLASSES → h ∉ NONLOCAL_HOST_CLASSES.
Proof. unfold LOCAL_HOST_CLASSES, NONLOCAL_HOST_CLASSES. set_solver. Qed.

Lemma submits_remotely_false p :
  is_local p = true →
  submits_remotely p = false ↔
    payload_submitted p = false ∧ telemetry_submitted p = false ∨ network_egress p = "none".
Proof.
  intros Hl%bool_decide_eq_true. unfold submits_remotely.
  rewrite (bool_decide_false (host_class p ∈ NONLOCAL_HOST_CLASSES))
    by by apply local_class_not_nonlocal.
  destruct (payload_submitted p), (telemetry_submitted p); simpl;
    try case_bool_decide; naive_solver.
Qed.

Lemma eval_local_only_verdict ctx :
  verdict_allowed (verdict (eval_local_only ctx)) = true ↔ local_only_ok ctx.
Proof.
  unfold eval_local_only, local_only_ok.
  case_bool_decide as H1; [simpl; tauto|].
  case_bool_decide as H2; [simpl; split; [done|naive_solver]|].
  destruct (is_local (processing ctx)) eqn:Hl.
  - pose proof (submits_remotely_false _ Hl) as Hs. apply bool_decide_eq_true in Hl.
    destruct (submits_remotely _); simpl.
    + split; [done|]. intros [?|(_ & _ & Hp)]; [done|]. by apply Hs in Hp.
    + split; [|done]. intros _. right. split; [done|]. split; [done|]. by apply Hs.
  - apply bool_decide_eq_false in Hl.
    destruct (submits_remotely _); simpl; (split; [done|]); intros [?|(_ & ? & _)]; done.
Qed.

Lemma eval_no_cross_verdict ctx :
  verdict_allowed (verdict (eval_no_cross_contaminate ctx)) = true ↔ no_cross_ok ctx.
Proof.
  unfold eval_no_cross_contaminate, no_cross_ok, subset_compatible. cbv zeta.
  case_bool_decide as H1; [simpl; tauto|].
  repeat case_bool_decide; simpl; naive_solver.
Qed.

(** The registry's two entries *)
Lemma registry_cases g b :
  od_get GUARD_REGISTRY g = Some b →
  g = "local-only" ∧ evaluate b = eval_local_only ∨
  g = "no-cross-contaminate" ∧ evaluate b = eval_no_cross_contaminate.
Proof.
  intros H%od_get_elem. unfold GUARD_REGISTRY in H.
  apply elem_of_cons in H as [[= -> ->]|H]; [by left|].
  apply elem_of_cons in H as [[= -> ->]|H]; [by right|].
  by apply elem_of_nil in H.
Qed.

(** What one guard of the source demands of the flow *)
Definition guard_ok (ctx : FlowContext) (g : string) : Prop :=
  (g = "local-only" → local_only_ok ctx) ∧ (g = "no-cross-contaminate" → no_cross_ok ctx).

Lemma evaluate_step_allowed ctx acc g :
  fv_allowed (evaluate_step ctx acc g) = true ↔ fv_allowed acc = true ∧ guard_ok ctx g.
Proof.
  unfold fv_allowed, evaluate_step, guard_ok.
  destruct (od_get GUARD_REGISTRY g) as [b|] eqn:Hg; cbn [fv_verdict].
  - rewrite verdict_allowed_max, andb_true_iff.
    apply registry_cases in Hg as [[-> ->]|[-> ->]].
    + rewrite eval_local_only_verdict. naive_solver.
    + rewrite eval_no_cross_verdict. naive_solver.
  - apply od_get_None in Hg. split; [|tauto]. intros H. split; [done|].
    split; intros ->; exfalso; apply Hg; vm_compute; set_solver.
Qed.

Lemma evaluate_step_propagate ctx acc g :
  fv_propagate (evaluate_step ctx acc g) = fv_propagate acc ∪ {[g]}.
Proof.
  unfold evaluate_step. destruct (od_get GUARD_REGISTRY g) as [b|] eqn:Hg; [|done].
  cbn [fv_propagate]. f_equal. apply registry_cases in Hg as [[-> ->]|[-> ->]].
  - unfold eval_local_only. by repeat case_match.
  - unfold eval_no_cross_contaminate. cbv zeta. by repeat case_match.
Qed.

Lemma evaluate_steps_allowed ctx l acc :
  fv_allowed (foldl (evaluate_step ctx) acc l) = true ↔
  fv_allowed acc = true ∧ Forall (guard_ok ctx) l.
Proof.
  revert acc. induction l as [|g l IH]; intros acc; cbn [foldl].
  - split; [|tauto]. intros H. split; [done|constructor].
  - rewrite IH, evaluate_step_allowed, Forall_cons. tauto.
Qed.

Lemma evaluate_steps_propagate ctx l acc :
  fv_propagate (foldl (evaluate_step ctx) acc l) = fv_propagate acc ∪ list_to_set l.
Proof.
  revert acc. induction l as [|g l IH]; intros acc; cbn [foldl list_to_set].
  - set_solver.
  - rewrite IH, evaluate_step_propagate. set_solver.
Qed.

Lemma evaluate_steps_conservative ctx l acc :
  (fv_verdict acc = ALLOW ∨ fv_verdict acc = DENY) →
  fv_verdict (foldl (evaluate_step ctx) acc l) = ALLOW ∨
  fv_verdict (foldl (evaluate_step ctx) acc l) = DENY.
Proof.
  revert acc. induction l as [|g l IH]; intros acc Hacc; cbn [foldl]; [done|].
  apply IH. unfold evaluate_step.
  destruct (od_get GUARD_REGISTRY g) as [b|] eqn:Hg; cbn [fv_verdict]; [|done].
  assert (verdict (evaluate b ctx) = ALLOW ∨ verdict (evaluate b ctx) = DENY) as Hv.
  { apply registry_cases in Hg as [[_ ->]|[_ ->]].
    - unfold eval_local_only. cbv zeta. repeat case_match; by auto.
    - unfold eval_no_cross_contaminate. cbv zeta. repeat case_match; by auto. }
  destruct Hacc as [->| ->], Hv as [->| ->]; vm_compute; auto.
Qed.

Lemma flow_allowed ctx :
  fv_allowed (evaluate_flow ctx) = true ↔
  ("local-only" ∈ guards (source ctx) → local_only_ok ctx) ∧
  ("no-cross-contaminate" ∈ guards (source ctx) → no_cross_ok ctx).
Proof.
  unfold evaluate_flow. rewrite evaluate_steps_allowed, Forall_forall.
  unfold guard_ok. setoid_rewrite sorted_set_elem_of. naive_solver.
Qed.

Lemma flow_propagate ctx : fv_propagate (evaluate_flow ctx) = guards (source ctx).
Proof.
  unfold evaluate_flow. rewrite evaluate_steps_propagate, sorted_set_to_set.
  cbn [fv_propagate]. set_solver.
Qed.

Lemma flow_verdict ctx :
  fv_verdict (evaluate_flow ctx) =
  if fv_allowed (evaluate_flow ctx) then ALLOW else DENY.
Proof.
  unfold fv_allowed. unfold evaluate_flow.
  by destruct (evaluate_steps_conservative ctx (sorted_set (guards (source ctx)))
    {| fv_verdict := ALLOW; fv_decisions := []; fv_propagate := ∅ |} (or_introl eq_refl))
    as [-> | ->].
Qed.

(** [evaluate_flow] allows a flow exactly when the
    local-only boundary holds if the source is guarded [local-only] and the
    cross-silo rule holds if it is guarded [no-cross-contaminate]; it then answers
    ALLOW and otherwise DENY (never the intermediate verdicts), and the guards it
    propagates are exactly the source's, unregistered ones included. *)
Theorem evaluate_flow_spec (ctx : FlowContext) :
  fv_verdict (evaluate_flow ctx) = (if fv_allowed (evaluate_flow ctx) then ALLOW else DENY) ∧
  (fv_allowed (evaluate_flow ctx) = true ↔
    ("local-only" ∈ guards (source ctx) → local_only_ok ctx) ∧
    ("no-cross-contaminate" ∈ guards (source ctx) → no_cross_ok ctx)) ∧
  fv_propagate (evaluate_flow ctx) = guards (source ctx) ∧
  registry_covers_vocabulary = true.
Proof.
  split; [apply flow_verdict|]. split; [apply flow_allowed|].
  split; [apply flow_propagate|]. reflexivity.
Qed.

End GuardRegistry.
