(* ===== verification/LaunchRecord.v ===== *)
(** * Broker-issued launch records

    [src/broker/qdistro_launch_record.py]: the authority record a trusted launcher
    registers for a live process, keyed by id and by [(pid, starttime)]. Time is an
    integer number of ticks; the clock reading and the random [record_id] a call
    draws are arguments. The lock makes each method one step. *)

From S2P Require Import Prelude.

Module LaunchRecords.

Definition DEFAULT_TTL_S : Z := 12 * 3600.
Definition MAX_RECORDS : nat := Z.to_nat 4096.

Record LaunchRecord := {
  record_id : string;
  silo : string;
  sandbox_engine : string;
  app_id : string;
  instance_id : string;
  uid : Z;
  pid : Z;
  starttime : Z;
  exe : string;
  selinux_label : string;
  cgroup : string;
  namespace : string;
  issued_at : Z;
  expires_at : Z;
}.

Definition is_expired (r : LaunchRecord) (now : Z) : bool :=
  negb (expires_at r =? 0)%Z && (expires_at r <=? now)%Z.

Definition proc_key (r : LaunchRecord) : Z * Z := (pid r, starttime r).

(** ** Store *)

Record LaunchRecordStore := {
  ttl_s : Z;
  max_records : nat;
  by_id : list (string * LaunchRecord);
  by_proc : list ((Z * Z) * string);
}.

Definition new_store (ttl : Z) (max : nat) : LaunchRecordStore :=
  {| ttl_s := ttl; max_records := max; by_id := []; by_proc := [] |}.

Definition with_tables (s : LaunchRecordStore) ids procs : LaunchRecordStore :=
  {| ttl_s := ttl_s s; max_records := max_records s; by_id := ids; by_proc := procs |}.

(** [_drop_locked] *)
Definition drop_locked (s : LaunchRecordStore) (rec : LaunchRecord) : LaunchRecordStore :=
  let key := proc_key rec in
  with_tables s (od_del (by_id s) (record_id rec))
    (if bool_decide (od_get (by_proc s) key = Some (record_id rec))
     then od_del (by_proc s) key else by_proc s).

(** [_reap_locked]: the store and the number dropped *)
Definition reap_locked (s : LaunchRecordStore) (now : Z) : LaunchRecordStore * nat :=
  let expired := filter (λ r, is_expired r now = true) (by_id s).*2 in
  (foldl drop_locked s expired, length expired).

(** The key [(exp, issued_at)] of [_evict_one_locked]; a zero [expires_at] counts
    as infinite. *)
Definition evict_lt (a b : LaunchRecord) : bool :=
  match bool_decide (expires_at a = 0%Z), bool_decide (expires_at b = 0%Z) with
  | true, true => (issued_at a <? issued_at b)%Z
  | true, false => false
  | false, true => true
  | false, false =>
      (expires_at a <? expires_at b)%Z
      || (expires_at a =? expires_at b)%Z && (issued_at a <? issued_at b)%Z
  end.

(** [_evict_one_locked] *)
Definition evict_one_locked (s : LaunchRecordStore) : LaunchRecordStore :=
  match (by_id s).*2 with
  | [] => s
  | r :: rs => drop_locked s (min_lt evict_lt r rs)
  end.

(** The keyword arguments of [register] *)
Record launch_request := {
  rq_silo : string; rq_uid : Z; rq_pid : Z; rq_starttime : Z; rq_exe : string;
  rq_selinux_label : string; rq_cgroup : string; rq_sandbox_engine : string;
  rq_app_id : string; rq_instance_id : string; rq_namespace : string;
  rq_ttl_s : option Z;
}.

Definition make_record (s : LaunchRecordStore) (now : Z) (rid : string)
    (q : launch_request) : LaunchRecord :=
  let ttl := default (ttl_s s) (rq_ttl_s q) in
  {| record_id := rid; silo := rq_silo q; sandbox_engine := rq_sandbox_engine q;
     app_id := rq_app_id q; instance_id := rq_instance_id q; uid := rq_uid q;
     pid := rq_pid q; starttime := rq_starttime q; exe := rq_exe q;
     selinux_label := rq_selinux_label q; cgroup := rq_cgroup q;
     namespace := rq_namespace q; issued_at := now;
     expires_at := if (0 <? ttl)%Z then (now + ttl)%Z else 0%Z |}.

(** [register] *)
Definition register (s : LaunchRecordStore) (now : Z) (rid : string) (q : launch_request)
    : LaunchRecordStore * LaunchRecord :=
  let rec := make_record s now rid q in
  let s1 := (reap_locked s now).1 in
  let key := proc_key rec in
  let s2 := match od_get (by_proc s1) key with
            | Some old_id => with_tables s1 (od_del (by_id s1) old_id) (by_proc s1)
            | None => s1
            end in
  let s3 := if max_records s2 <=? length (by_id s2) then evict_one_locked s2 else s2 in
  (with_tables s3 (od_set (by_id s3) rid rec) (od_set (by_proc s3) key rid), rec).

(** [get] *)
Definition get (s : LaunchRecordStore) (now : Z) (rid : string)
    : LaunchRecordStore * option LaunchRecord :=
  match od_get (by_id s) rid with
  | None => (s, None)
  | Some rec => if is_expired rec now then (drop_locked s rec, None) else (s, Some rec)
  end.

(** [find_by_proc] *)
Definition find_by_proc (s : LaunchRecordStore) (now : Z) (pid starttime : Z)
    : LaunchRecordStore * option LaunchRecord :=
  match od_get (by_proc s) (pid, starttime) with
  | None => (s, None)
  | Some rid =>
      match od_get (by_id s) rid with
      | None => (with_tables s (by_id s) (od_del (by_proc s) (pid, starttime)), None)
      | Some rec => if is_expired rec now then (drop_locked s rec, None) else (s, Some rec)
      end
  end.

(** [revoke_proc] *)
Definition revoke_proc (s : LaunchRecordStore) (pid starttime : Z)
    : LaunchRecordStore * bool :=
  match od_get (by_proc s) (pid, starttime) with
  | None => (s, false)
  | Some rid =>
      (with_tables s (od_del (by_id s) rid) (od_del (by_proc s) (pid, starttime)), true)
  end.

(** [reap_expired] *)
Definition reap_expired (s : LaunchRecordStore) (now : Z) : LaunchRecordStore * nat :=
  reap_locked s now.

(** ** Invariant

    The two tables index the same records: ids and process keys are distinct, every
    record is filed under its own id and its own [(pid, starttime)], and every
    process entry leads to a record of that process. [wf_except x] leaves the entry
    of [x] out, for the window in [register] where it dangles. *)
Record wf_except (x : option (Z * Z)) (s : LaunchRecordStore) : Prop := {
  wf_ids : NoDup (keys (by_id s));
  wf_procs : NoDup (keys (by_proc s));
  wf_id_rec : ∀ k r, od_get (by_id s) k = Some r →
    record_id r = k ∧ od_get (by_proc s) (proc_key r) = Some k ∧ Some (proc_key r) ≠ x;
  wf_proc_rec : ∀ p k, Some p ≠ x → od_get (by_proc s) p = Some k →
    ∃ r, od_get (by_id s) k = Some r ∧ proc_key r = p;
}.
Definition wf (s : LaunchRecordStore) : Prop := wf_except None s.

Lemma od_get_del_Some {K} `{EqDecision K} {V} (d : list (K * V)) k k' v :
  od_get (od_del d k) k' = Some v → k ≠ k' ∧ od_get d k' = Some v.
Proof.
  destruct (decide (k = k')) as [->|Hne]; [by rewrite od_get_del_eq|].
  by rewrite od_get_del_ne.
Qed.

Lemma drop_locked_wf x s r :
  wf_except x s → od_get (by_id s) (record_id r) = Some r → wf_except x (drop_locked s r).
Proof.
  intros [Hi Hp Hir Hpr] Hr. destruct (Hir _ _ Hr) as (_ & Hkey & Hx).
  unfold drop_locked, with_tables. rewrite bool_decide_true by done.
  split; simpl; [by apply od_del_NoDup..| |].
  - intros k r' [Hne Hk]%od_get_del_Some. destruct (Hir _ _ Hk) as (? & Hk' & ?).
    split; [done|]. split; [|done]. rewrite od_get_del_ne; [done|].
    intros He. rewrite <- He in Hk'. congruence.
  - intros p k Hpx [Hne Hk]%od_get_del_Some. destruct (Hpr _ _ Hpx Hk) as (r' & Hk' & Hpk).
    exists r'. split; [|done]. rewrite od_get_del_ne; [done|]. intros <-.
    rewrite Hr in Hk'. injection Hk' as <-. by apply Hne.
Qed.

Lemma drop_locked_by_id s r : by_id (drop_locked s r) = od_del (by_id s) (record_id r).
Proof. done. Qed.

Lemma drop_locked_max s r : max_records (drop_locked s r) = max_records s.
Proof. done. Qed.

(** Dropping a list of distinct stored records *)
Lemma drop_all_wf x s rs :
  wf_except x s → NoDup (record_id <$> rs) →
  Forall (λ r, od_get (by_id s) (record_id r) = Some r) rs →
  wf_except x (foldl drop_locked s rs) ∧
  (∀ k, od_get (by_id (foldl drop_locked s rs)) k =
        if bool_decide (k ∈ record_id <$> rs) then None else od_get (by_id s) k) ∧
  max_records (foldl drop_locked s rs) = max_records s ∧
  length (by_id (foldl drop_locked s rs)) ≤ length (by_id s).
Proof.
  revert s. induction rs as [|r rs IH]; intros s Hwf Hnd Hall; cbn [foldl].
  { split; [done|]. split; [|done]. intros k.
    by rewrite bool_decide_false by apply not_elem_of_nil. }
  apply NoDup_cons in Hnd as [Hr Hnd]. apply Forall_cons in Hall as [Hget Hall].
  destruct (IH (drop_locked s r)) as (H1 & H2 & H3 & H4);
    [by apply drop_locked_wf|done| |].
  { apply Forall_forall. intros r' Hin.
    rewrite drop_locked_by_id, od_get_del_ne; [by eapply Forall_forall in Hall|].
    intros He. apply Hr. rewrite He. by apply list_elem_of_fmap_2. }
  split; [done|]. split; [|split; [done|]].
  - intros k. rewrite H2, drop_locked_by_id, fmap_cons.
    destruct (decide (k = record_id r)) as [->|Hne].
    + rewrite (bool_decide_true (_ ∈ _ :: _)) by constructor.
      rewrite od_get_del_eq. by case_bool_decide.
    + rewrite od_get_del_ne by done.
      rewrite (bool_decide_ext (k ∈ record_id r :: _) (k ∈ record_id <$> rs)); [done|].
      rewrite elem_of_cons. naive_solver.
  - etransitivity; [exact H4|]. rewrite drop_locked_by_id. apply od_del_length_le.
Qed.

Lemma wf_value_ids x s : wf_except x s → record_id <$> (by_id s).*2 = keys (by_id s).
Proof.
  intros Hwf. unfold keys. rewrite <- list_fmap_compose. apply list_fmap_ext.
  intros i [k r] Hi%list_elem_of_lookup_2. simpl.
  by apply od_elem_get, (wf_id_rec _ _ Hwf) in Hi as [? _]; [|apply Hwf].
Qed.

Lemma wf_value_get x s r :
  wf_except x s → r ∈ (by_id s).*2 → od_get (by_id s) (record_id r) = Some r.
Proof.
  intros Hwf ([k r'] & -> & Hin)%list_elem_of_fmap. simpl.
  apply od_elem_get in Hin; [|apply Hwf].
  by destruct (wf_id_rec _ _ Hwf _ _ Hin) as [-> _].
Qed.

Lemma evict_one_wf x s :
  wf_except x s →
  wf_except x (evict_one_locked s) ∧
  (∀ k r, od_get (by_id (evict_one_locked s)) k = Some r → od_get (by_id s) k = Some r) ∧
  length (by_id (evict_one_locked s)) ≤ length (by_id s) - 1 ∧
  max_records (evict_one_locked s) = max_records s.
Proof.
  intros Hwf. unfold evict_one_locked. destruct ((by_id s).*2) as [|r rs] eqn:E.
  { apply fmap_nil_inv in E. rewrite E. simpl. auto. }
  assert (min_lt evict_lt r rs ∈ (by_id s).*2) as Hin by (rewrite E; apply min_lt_elem).
  pose proof (wf_value_get _ _ _ Hwf Hin) as Hget.
  split; [by apply drop_locked_wf|]. rewrite drop_locked_by_id. split; [|split; [|done]].
  - by intros k r' [_ Hk]%od_get_del_Some.
  - assert (record_id (min_lt evict_lt r rs) ∈ keys (by_id s)) as Hk
      by (apply od_get_is_Some; eauto).
    apply od_del_length_lt in Hk. lia.
Qed.

Lemma reap_wf s now :
  wf s →
  wf (reap_locked s now).1 ∧
  (∀ k, od_get (by_id (reap_locked s now).1) k =
        r ← od_get (by_id s) k; if is_expired r now then None else Some r) ∧
  max_records (reap_locked s now).1 = max_records s ∧
  length (by_id (reap_locked s now).1) ≤ length (by_id s).
Proof.
  intros Hwf. unfold reap_locked. cbn [fst].
  set (rs := filter (λ r, is_expired r now = true) (by_id s).*2).
  destruct (drop_all_wf None s rs) as (H1 & H2 & H3 & H4); [done| | |].
  { apply NoDup_fmap_filter. rewrite (wf_value_ids _ _ Hwf). apply Hwf. }
  { apply Forall_forall. intros r [_ Hr]%list_elem_of_filter. by eapply wf_value_get. }
  split; [done|]. split; [|done]. intros k. rewrite H2.
  destruct (od_get (by_id s) k) as [r|] eqn:Hk; simpl; [|by case_bool_decide].
  destruct (wf_id_rec _ _ Hwf _ _ Hk) as [Hrk _].
  destruct (is_expired r now) eqn:He.
  - rewrite bool_decide_true; [done|]. rewrite <- Hrk. apply list_elem_of_fmap_2.
    apply list_elem_of_filter. split; [done|]. apply list_elem_of_fmap.
    exists (k, r). split; [done|by apply od_get_elem].
  - rewrite bool_decide_false; [done|]. intros (r' & Hr' & Hin)%list_elem_of_fmap.
    apply list_elem_of_filter in Hin as [He' Hin].
    apply (wf_value_get _ _ _ Hwf) in Hin. rewrite <- Hr', Hk in Hin. congruence.
Qed.

(** The window of [register] between the two tables' updates *)
Lemma pop_old_wf s key :
  wf s →
  let s2 := match od_get (by_proc s) key with
            | Some old_id => with_tables s (od_del (by_id s) old_id) (by_proc s)
            | None => s
            end in
  wf_except (Some key) s2 ∧
  (∀ k r, od_get (by_id s2) k = Some r → od_get (by_id s) k = Some r) ∧
  length (by_id s2) ≤ length (by_id s) ∧ max_records s2 = max_records s.
Proof.
  intros [Hi Hp Hir Hpr]. destruct (od_get (by_proc s) key) as [old|] eqn:Hkey; simpl.
  - destruct (Hpr key old) as (r0 & Hr0 & Hpk); [done..|].
    split; [split; simpl; [by apply od_del_NoDup|done| |]|split; [|split; [|done]]].
    + intros k r [Hne Hk]%od_get_del_Some. destruct (Hir _ _ Hk) as (? & Hk' & _).
      repeat split; [done..|]. intros [= He]. congruence.
    + intros p k Hpx Hk. destruct (Hpr p k) as (r & Hr & Hpr'); [done..|].
      exists r. split; [|done]. rewrite od_get_del_ne; [done|]. intros <-. congruence.
    + by intros k r [_ Hk]%od_get_del_Some.
    + apply od_del_length_le.
  - split; [split; [done..| |]|done].
    + intros k r Hk. destruct (Hir _ _ Hk) as (? & Hk' & _).
      repeat split; [done..|]. intros [= He]. congruence.
    + intros p k _ Hk. by apply Hpr.
Qed.

Lemma put_record_wf s rec :
  wf_except (Some (proc_key rec)) s → od_get (by_id s) (record_id rec) = None →
  wf (with_tables s (od_set (by_id s) (record_id rec) rec)
        (od_set (by_proc s) (proc_key rec) (record_id rec))).
Proof.
  intros [Hi Hp Hir Hpr] Hfresh. split; simpl; [by apply od_set_NoDup..| |].
  - intros k r. destruct (decide (record_id rec = k)) as [<-|Hne].
    + rewrite od_get_set_eq. intros [= <-]. by rewrite od_get_set_eq.
    + rewrite od_get_set_ne by done. intros Hk. destruct (Hir _ _ Hk) as (? & ? & Hx).
      split; [done|]. rewrite od_get_set_ne; [done|]. congruence.
  - intros p k _. destruct (decide (proc_key rec = p)) as [<-|Hne].
    + rewrite od_get_set_eq. intros [= <-]. exists rec. by rewrite od_get_set_eq.
    + rewrite od_get_set_ne by done. intros Hk.
      destruct (Hpr p k) as (r & Hr & Hpk); [congruence|done|].
      exists r. split; [|done]. rewrite od_get_set_ne; [done|]. congruence.
Qed.

(** [register] keeps the invariant and the capacity, and files the record. *)
Lemma register_wf s now rid q :
  wf s → od_get (by_id s) rid = None →
  let '(s', rec) := register s now rid q in
  wf s' ∧ rec = make_record s now rid q ∧
  od_get (by_proc s') (proc_key rec) = Some rid ∧ od_get (by_id s') rid = Some rec ∧
  max_records s' = max_records s ∧
  (1 ≤ max_records s → length (by_id s) ≤ max_records s →
   length (by_id s') ≤ max_records s) ∧
  (∀ k r, k ≠ rid → od_get (by_id s') k = Some r → od_get (by_id s) k = Some r).
Proof.
  intros Hwf Hfresh. unfold register. set (rec := make_record s now rid q).
  destruct (reap_wf s now Hwf) as (Hwf1 & Hget1 & Hmax1 & Hlen1).
  set (s1 := (reap_locked s now).1) in *.
  destruct (pop_old_wf s1 (proc_key rec) Hwf1) as (Hwf2 & Hnone2 & Hlen2 & Hmax2).
  set (s2 := match od_get (by_proc s1) (proc_key rec) with Some _ => _ | None => _ end) in *.
  destruct (evict_one_wf _ _ Hwf2) as (Hwf3 & Hnone3 & Hlen3 & Hmax3).
  set (s3 := if max_records s2 <=? length (by_id s2) then evict_one_locked s2 else s2).
  assert (wf_except (Some (proc_key rec)) s3 ∧ max_records s3 = max_records s ∧
          (1 ≤ max_records s → length (by_id s) ≤ max_records s →
           length (by_id s3) ≤ max_records s - 1) ∧
          (∀ k r, od_get (by_id s3) k = Some r → od_get (by_id s) k = Some r))
    as (Hw & Hm & Hl & Hincl).
  { assert (∀ k r, od_get (by_id s2) k = Some r → od_get (by_id s) k = Some r) as Hincl2.
    { intros k r Hk%Hnone2. rewrite Hget1 in Hk.
      destruct (od_get (by_id s) k) as [r'|]; simpl in Hk; [|done].
      by destruct (is_expired r' now). }
    unfold s3. destruct (Nat.leb_spec (max_records s2) (length (by_id s2)));
      (split; [done|split; [congruence|split; [intros; lia|by auto]]]). }
  assert (od_get (by_id s3) rid = None) as Hf.
  { destruct (od_get (by_id s3) rid) as [r|] eqn:E; [|done]. apply Hincl in E. congruence. }
  split; [by apply (put_record_wf s3 rec)|]. simpl.
  split; [done|]. split; [apply od_get_set_eq|]. split; [apply od_get_set_eq|].
  split; [done|]. split.
  - intros H1 H2. specialize (Hl H1 H2). rewrite od_set_length. case_bool_decide; lia.
  - intros k r Hne. rewrite od_get_set_ne by done. apply Hincl.
Qed.

Lemma find_by_proc_wf s now p st :
  wf s →
  find_by_proc s now p st =
  match od_get (by_proc s) (p, st) with
  | None => (s, None)
  | Some rid =>
      match od_get (by_id s) rid with
      | Some r => if is_expired r now then (drop_locked s r, None) else (s, Some r)
      | None => (s, None)
      end
  end.
Proof.
  intros Hwf. unfold find_by_proc. destruct (od_get (by_proc s) (p, st)) as [rid|] eqn:E; [|done].
  destruct (wf_proc_rec _ _ Hwf (p, st) rid) as (r & -> & _); [done..|]. done.
Qed.

Lemma find_by_proc_Some s now p st r :
  wf s →
  (find_by_proc s now p st).2 = Some r ↔
  is_expired r now = false ∧ proc_key r = (p, st) ∧ od_get (by_id s) (record_id r) = Some r.
Proof.
  intros Hwf. rewrite find_by_proc_wf by done.
  destruct (od_get (by_proc s) (p, st)) as [rid|] eqn:E; simpl.
  - destruct (wf_proc_rec _ _ Hwf (p, st) rid) as (r' & Hr' & Hk); [done..|]. rewrite Hr'.
    destruct (wf_id_rec _ _ Hwf _ _ Hr') as (Hid & _). subst rid.
    destruct (is_expired r' now) eqn:He; simpl; split; intros H; simplify_eq.
    + destruct H as (Hx & Hkey & Hg). destruct (wf_id_rec _ _ Hwf _ _ Hg) as (_ & Hp & _).
      rewrite Hkey, E in Hp. injection Hp as Hp. rewrite <- Hp, Hr' in Hg. congruence.
    + done.
    + destruct H as (Hx & Hkey & Hg). destruct (wf_id_rec _ _ Hwf _ _ Hg) as (_ & Hp & _).
      rewrite Hkey, E in Hp. injection Hp as Hp. rewrite <- Hp, Hr' in Hg. congruence.
  - split; [done|]. intros (Hx & Hkey & Hg).
    destruct (wf_id_rec _ _ Hwf _ _ Hg) as (_ & Hp & _). rewrite Hkey, E in Hp. done.
Qed.

(** A lookup only drops records. *)
Lemma find_by_proc_keeps s now p st :
  wf s → wf (find_by_proc s now p st).1 ∧
  ∀ k r, od_get (by_id (find_by_proc s now p st).1) k = Some r → od_get (by_id s) k = Some r.
Proof.
  intros Hwf. rewrite find_by_proc_wf by done.
  destruct (od_get (by_proc s) (p, st)) as [rid|]; [|done].
  destruct (od_get (by_id s) rid) as [r|] eqn:Hr; [|done]. destruct (is_expired r now); [|done].
  cbn [fst]. destruct (wf_id_rec _ _ Hwf _ _ Hr) as [Hid _]. split.
  - apply drop_locked_wf; [done|]. by rewrite Hid.
  - intros k r'. rewrite drop_locked_by_id. by intros [_ ?]%od_get_del_Some.
Qed.

(** ** Reachable stores *)

(** One locked call on the store. [register] draws an id no live record carries,
    which is what [secrets.token_hex(16)] is relied on for. *)
Inductive step : LaunchRecordStore → LaunchRecordStore → Prop :=
| step_register s now rid q :
    od_get (by_id s) rid = None → step s (register s now rid q).1
| step_get s now rid : step s (get s now rid).1
| step_find s now p st : step s (find_by_proc s now p st).1
| step_revoke s p st : step s (revoke_proc s p st).1
| step_reap s now : step s (reap_expired s now).1.

Lemma drop_locked_length s r : length (by_id (drop_locked s r)) ≤ length (by_id s).
Proof. apply od_del_length_le. Qed.

Lemma revoke_wf s p st : wf s → wf (revoke_proc s p st).1.
Proof.
  intros Hwf. unfold revoke_proc.
  destruct (od_get (by_proc s) (p, st)) as [rid|] eqn:E; [|done]. cbn [fst].
  destruct (wf_proc_rec _ _ Hwf (p, st) rid) as (r & Hr & Hk); [done..|].
  destruct (wf_id_rec _ _ Hwf _ _ Hr) as (Hid & _).
  pose proof (drop_locked_wf None s r Hwf) as Hd. rewrite Hid in Hd. specialize (Hd Hr).
  unfold drop_locked in Hd. by rewrite Hid, Hk, bool_decide_true in Hd.
Qed.

Lemma step_wf s s' :
  step s s' → wf s → 1 ≤ max_records s → length (by_id s) ≤ max_records s →
  wf s' ∧ max_records s' = max_records s ∧ length (by_id s') ≤ max_records s'.
Proof.
  intros Hstep Hwf H1 Hlen. destruct Hstep.
  - pose proof (register_wf s now rid q Hwf H) as Hreg.
    destruct (register s now rid q) as [s' rec]. simpl. destruct Hreg as (?&?&?&?&Hm&Hl&?).
    rewrite Hm. auto.
  - unfold get. destruct (od_get (by_id s) rid) as [r|] eqn:E; [|done].
    destruct (is_expired r now); [|done]. cbn [fst]. split; [|split; [done|]].
    + apply drop_locked_wf; [done|]. by destruct (wf_id_rec _ _ Hwf _ _ E) as [-> _].
    + pose proof (drop_locked_length s r). rewrite drop_locked_max. lia.
  - rewrite find_by_proc_wf by done. repeat case_match; cbn [fst]; [|done..].
    split; [|split; [done|]].
    + apply drop_locked_wf; [done|]. by destruct (wf_id_rec _ _ Hwf _ _ H0) as [-> _].
    + pose proof (drop_locked_length s l). rewrite drop_locked_max. lia.
  - split; [by apply revoke_wf|]. unfold revoke_proc.
    case_match; [|done]. simpl. split; [done|].
    etransitivity; [apply od_del_length_le|done].
  - unfold reap_expired. destruct (reap_wf s now Hwf) as (?&?&Hm&?).
    split; [done|]. rewrite Hm. split; [done|lia].
Qed.

Lemma reachable_wf ttl max s :
  1 ≤ max → rtc step (new_store ttl max) s →
  wf s ∧ max_records s = max ∧ length (by_id s) ≤ max.
Proof.
  intros Hmax Hr.
  apply (rtc_invariant _ (λ s, wf s ∧ max_records s = max ∧ length (by_id s) ≤ max) _ _ Hr).
  - split; [|simpl; lia]. by split; simpl; [constructor..| |].
  - intros s1 s2 Hs (Hwf & Hm & Hl). destruct (step_wf _ _ Hs Hwf) as (?&Hm'&?); [lia..|].
    rewrite Hm' in *. rewrite Hm in *. done.
Qed.

(** C24: Every store reachable from an empty one by registrations (with a fresh id),
    lookups, revocations and reaps keeps its two indexes consistent and holds at
    most [max_records] records; and a lookup by [(pid, starttime)] answers exactly
    the unexpired record registered under that very pair, so a recycled pid (another
    start time) never resolves to an old record. *)
Theorem launch_store_reachable (ttl : Z) (max : nat) (s : LaunchRecordStore) :
  1 ≤ max → rtc step (new_store ttl max) s →
  wf s ∧ length (by_id s) ≤ max ∧
  ∀ now p st r,
    (find_by_proc s now p st).2 = Some r ↔
    is_expired r now = false ∧ pid r = p ∧ starttime r = st ∧
    od_get (by_id s) (record_id r) = Some r.
Proof.
  intros Hmax Hr. destruct (reachable_wf _ _ _ Hmax Hr) as (Hwf & Hm & Hl).
  split; [done|]. split; [done|]. intros. rewrite find_by_proc_Some by done.
  unfold proc_key. naive_solver.
Qed.

(** After [register], looking the process up answers the new record until it
    expires (never, for a non-positive ttl), replacing any record the process had;
    a lookup of any other process answers what it answered before or nothing. *)
Theorem register_then_find (s : LaunchRecordStore) (now : Z) (rid : string)
    (q : launch_request) :
  wf s → od_get (by_id s) rid = None →
  let ttl := default (ttl_s s) (rq_ttl_s q) in
  let s' := (register s now rid q).1 in
  let rec := (register s now rid q).2 in
  record_id rec = rid ∧ silo rec = rq_silo q ∧
  (∀ t, (0 ≤ now)%Z →
    (find_by_proc s' t (rq_pid q) (rq_starttime q)).2 =
    if (0 <? ttl)%Z && (now + ttl <=? t)%Z then None else Some rec) ∧
  (∀ t p st r, (p, st) ≠ (rq_pid q, rq_starttime q) →
    (find_by_proc s' t p st).2 = Some r → (find_by_proc s t p st).2 = Some r).
Proof.
  intros Hwf Hfresh ttl s' rec. pose proof (register_wf s now rid q Hwf Hfresh) as Hreg.
  unfold s', rec. destruct (register s now rid q) as [s2 rec2]. cbn [fst snd].
  destruct Hreg as (Hwf' & -> & Hp & Hi & _ & _ & Hincl).
  split; [done|]. split; [done|]. split.
  - intros t Hnow.
    assert (is_expired (make_record s now rid q) t = (0 <? ttl)%Z && (now + ttl <=? t)%Z) as He.
    { unfold is_expired, make_record. cbn [expires_at]. fold ttl.
      destruct (Z.ltb_spec 0 ttl); [|done]. by destruct (Z.eqb_spec (now + ttl) 0); [lia|]. }
    rewrite find_by_proc_wf by done. change (rq_pid q, rq_starttime q) with
      (proc_key (make_record s now rid q)). rewrite Hp, Hi, He. by case_match.
  - intros t p st r Hne. rewrite !find_by_proc_Some by done. intros (He & Hk & Hg).
    split; [done|]. split; [done|]. apply Hincl; [|done]. intros Hid.
    rewrite Hid, Hi in Hg. injection Hg as <-. by apply Hne.
Qed.

(** ** Concrete instances *)

Definition sample_request : launch_request :=
  {| rq_silo := "work"; rq_uid := 1001; rq_pid := 42; rq_starttime := 900;
     rq_exe := "/usr/bin/editor"; rq_selinux_label := ""; rq_cgroup := "";
     rq_sandbox_engine := "qdistro.tier2"; rq_app_id := "org.example.Editor";
     rq_instance_id := "i1"; rq_namespace := ""; rq_ttl_s := None |}.
Definition sample_store : LaunchRecordStore :=
  (register (new_store DEFAULT_TTL_S 8) 100 "r1" sample_request).1.

Lemma launch_store_reachable_witness :
  1 ≤ 8 ∧ rtc step (new_store DEFAULT_TTL_S 8) sample_store ∧
  ∃ r, (find_by_proc sample_store 101 42 900).2 = Some r ∧ starttime r = 900%Z.
Proof.
  assert (1 ≤ 8) as H1 by lia.
  assert (rtc step (new_store DEFAULT_TTL_S 8) sample_store) as H2
    by (apply rtc_once, step_register; reflexivity).
  split; [exact H1|]. split; [exact H2|].
  destruct (launch_store_reachable DEFAULT_TTL_S 8 sample_store H1 H2) as (_ & _ & H).
  eexists. split; [vm_compute; reflexivity|].
  apply (proj1 (H 101%Z 42%Z 900%Z _)). vm_compute. reflexivity.
Defined.

Lemma register_then_find_witness :
  wf (new_store DEFAULT_TTL_S 8) ∧
  (find_by_proc sample_store 200 42 900).2 =
    Some (register (new_store DEFAULT_TTL_S 8) 100 "r1" sample_request).2 ∧
  (find_by_proc sample_store 43300 42 900).2 = None.
Proof.
  assert (wf (new_store DEFAULT_TTL_S 8)) as Hwf
    by (split; simpl; [constructor|constructor|done|done]).
  split; [exact Hwf|].
  destruct (register_then_find (new_store DEFAULT_TTL_S 8) 100 "r1" sample_request
              Hwf eq_refl) as (_ & _ & H & _).
  split; [apply (H 200%Z)|apply (H 43300%Z)]; lia.
Defined.

End LaunchRecords.
