(* ===== verification/Resolver.v ===== *)
(** * Resolving a live process to a permission subject

    [src/broker/qdistro_resolver.py]: the live kernel facts of a pid are compared
    with the launch record of [(pid, starttime)]; the attested silo, engine and app
    id are believed only when every fact the record carries agrees. The [/proc]
    readers of [qdistro_proc_identity.py] are the argument [live]. *)

From S2P Require Import Prelude LaunchRecord.
Import LaunchRecords.

Module Resolve.

Definition UNKNOWN_SILO : string := "".

(** What the [/proc] readers return for a pid: [starttime] is 0 and [exe] is "?"
    when unreadable, the uid is [None] when unreadable. *)
Record live_proc := {
  lv_exe : string;
  lv_starttime : Z;
  lv_uid : option Z;
  lv_label : string;
  lv_cgroup : string;
}.

Inductive axis := Ax_uid | Ax_exe | Ax_label | Ax_cgroup.

Inductive subject_reason :=
| SR_invalid_pid
| SR_proc_gone
| SR_no_store
| SR_no_record
| SR_mismatch (axes : list axis)
| SR_ok.

Record Subject := {
  sj_uid : Z;
  sj_exe : string;
  sj_silo : string;
  sj_sandbox_engine : string;
  sj_app_id : string;
  sj_selinux_label : string;
  sj_cgroup : string;
  sj_verified : bool;
  sj_record_id : string;
  sj_reason : subject_reason;
}.

(** [_unknown] *)
Definition unknown (uid : Z) (exe label cgroup : string) (reason : subject_reason) : Subject :=
  {| sj_uid := uid; sj_exe := exe; sj_silo := UNKNOWN_SILO;
     sj_sandbox_engine := ""; sj_app_id := "";
     sj_selinux_label := label; sj_cgroup := cgroup;
     sj_verified := false; sj_record_id := ""; sj_reason := reason |}.

(** The [mismatches] list: which recorded facts the live process does not present. *)
Definition mismatches (rec : LaunchRecord) (lv : live_proc) : list axis :=
  (if bool_decide (lv_uid lv = Some (uid rec)) then [] else [Ax_uid]) ++
  (if truthy (exe rec) && bool_decide (exe rec ≠ "?") &&
      (negb (truthy (lv_exe lv)) || bool_decide (lv_exe lv = "?")
       || bool_decide (lv_exe lv ≠ exe rec)) then [Ax_exe] else []) ++
  (if truthy (selinux_label rec) &&
      (negb (truthy (lv_label lv)) || bool_decide (lv_label lv ≠ selinux_label rec))
   then [Ax_label] else []) ++
  (if truthy (cgroup rec) &&
      (negb (truthy (lv_cgroup lv)) || bool_decide (lv_cgroup lv ≠ cgroup rec))
   then [Ax_cgroup] else []).

(** [resolve_subject]. [pid] is the outcome of [int(pid)], [None] when the
    conversion raises; [store] is [None] when no launch records are wired. The
    lookup drops an expired record, so the store is returned too. *)
Definition resolve_subject (live : Z → live_proc) (now : Z) (pid : option Z)
    (store : option LaunchRecordStore) : Subject * option LaunchRecordStore :=
  match pid with
  | None => (unknown (-1) "?" "" "" SR_invalid_pid, store)
  | Some pid_i =>
      if (pid_i <=? 0)%Z then (unknown (-1) "?" "" "" SR_invalid_pid, store)
      else
        let lv := live pid_i in
        if (lv_starttime lv =? 0)%Z then (unknown (-1) (lv_exe lv) "" "" SR_proc_gone, store)
        else
          let uid_val := default (-1)%Z (lv_uid lv) in
          let unk := unknown uid_val (lv_exe lv) (lv_label lv) (lv_cgroup lv) in
          match store with
          | None => (unk SR_no_store, None)
          | Some st =>
              let '(st', found) := find_by_proc st now pid_i (lv_starttime lv) in
              match found with
              | None => (unk SR_no_record, Some st')
              | Some rec =>
                  match mismatches rec lv with
                  | [] =>
                      ({| sj_uid := uid_val; sj_exe := lv_exe lv; sj_silo := silo rec;
                          sj_sandbox_engine := sandbox_engine rec; sj_app_id := app_id rec;
                          sj_selinux_label := lv_label lv; sj_cgroup := lv_cgroup lv;
                          sj_verified := true; sj_record_id := record_id rec;
                          sj_reason := SR_ok |}, Some st')
                  | ms => (unk (SR_mismatch ms), Some st')
                  end
              end
          end
  end.

(** ** Properties *)

(** The live process presents every fact the record carries; the uid always. *)
Definition facts_agree (rec : LaunchRecord) (lv : live_proc) : Prop :=
  lv_uid lv = Some (uid rec) ∧
  (exe rec ≠ "" → exe rec ≠ "?" → lv_exe lv = exe rec) ∧
  (selinux_label rec ≠ "" → lv_label lv = selinux_label rec) ∧
  (cgroup rec ≠ "" → lv_cgroup lv = cgroup rec).

Lemma axis_agrees (recorded live : string) :
  truthy recorded && (negb (truthy live) || bool_decide (live ≠ recorded)) = false ↔
  (recorded ≠ "" → live = recorded).
Proof.
  destruct (truthy recorded) eqn:Hr; simpl.
  - apply truthy_true in Hr. rewrite orb_false_iff, negb_false_iff, bool_decide_eq_false.
    rewrite truthy_true. split.
    + intros [_ H] _. by apply dec_stable.
    + intros H. specialize (H Hr). subst. auto.
  - apply truthy_false in Hr. subst. naive_solver.
Qed.

Lemma mismatches_nil rec lv : mismatches rec lv = [] ↔ facts_agree rec lv.
Proof.
  unfold mismatches, facts_agree. rewrite !app_nil.
  rewrite <- (axis_agrees (selinux_label rec)), <- (axis_agrees (cgroup rec)).
  assert ((exe rec ≠ "" → exe rec ≠ "?" → lv_exe lv = exe rec) ↔
    truthy (exe rec) && bool_decide (exe rec ≠ "?") &&
      (negb (truthy (lv_exe lv)) || bool_decide (lv_exe lv = "?")
       || bool_decide (lv_exe lv ≠ exe rec)) = false) as ->.
  { case_bool_decide as Hq; [|rewrite andb_false_r; split; [done|intros _ _ []; done]].
    rewrite andb_true_r. destruct (decide (lv_exe lv = "?")) as [He|He].
    - rewrite (bool_decide_true (lv_exe lv = "?")) by done.
      rewrite orb_true_r, andb_true_r, truthy_false. split.
      + intros H. apply dec_stable. intros Hn. specialize (H Hn Hq). congruence.
      + intros -> []; done.
    - rewrite (bool_decide_false (lv_exe lv = "?")), orb_false_r, axis_agrees by done.
      naive_solver. }
  case_bool_decide; repeat case_match; naive_solver.
Qed.

(** The record [resolve_subject] may believe for a pid *)
Definition attests (live : Z → live_proc) (now : Z) (pid : option Z)
    (store : option LaunchRecordStore) (rec : LaunchRecord) : Prop :=
  ∃ p st, pid = Some p ∧ (0 < p)%Z ∧ lv_starttime (live p) ≠ 0%Z ∧ store = Some st ∧
    od_get (by_id st) (record_id rec) = Some rec ∧
    LaunchRecords.pid rec = p ∧ starttime rec = lv_starttime (live p) ∧
    is_expired rec now = false ∧ facts_agree rec (live p).

Definition store_wf (store : option LaunchRecordStore) : Prop :=
  match store with Some st => wf st | None => True end.

Lemma resolve_verified live now pid store :
  store_wf store →
  sj_verified (resolve_subject live now pid store).1 = true →
  ∃ rec, attests live now pid store rec ∧
    sj_silo (resolve_subject live now pid store).1 = silo rec ∧
    sj_sandbox_engine (resolve_subject live now pid store).1 = sandbox_engine rec ∧
    sj_app_id (resolve_subject live now pid store).1 = app_id rec ∧
    sj_record_id (resolve_subject live now pid store).1 = record_id rec.
Proof.
  intros Hwf. unfold resolve_subject. destruct pid as [p|]; [|done].
  destruct (Z.leb_spec p 0); [done|]. destruct (Z.eqb_spec (lv_starttime (live p)) 0); [done|].
  destruct store as [st|]; [|done]. simpl in Hwf.
  pose proof (find_by_proc_Some st now p (lv_starttime (live p))) as Hfind.
  destruct (find_by_proc st now p (lv_starttime (live p))) as [st' [rec|]]; [|done].
  destruct (mismatches rec (live p)) as [|a ms] eqn:Hm; [|done]. intros _.
  apply mismatches_nil in Hm. exists rec. split; [|done].
  destruct (Hfind rec Hwf) as [(He & Hk & Hg) _]; [done|].
  unfold proc_key in Hk. exists p, st. naive_solver.
Qed.

Lemma resolve_unverified live now pid store :
  sj_verified (resolve_subject live now pid store).1 = false →
  sj_silo (resolve_subject live now pid store).1 = UNKNOWN_SILO ∧
  sj_sandbox_engine (resolve_subject live now pid store).1 = "" ∧
  sj_app_id (resolve_subject live now pid store).1 = "".
Proof.
  unfold resolve_subject. repeat case_match; simpl; by auto.
Qed.

Lemma resolve_complete live now pid store rec :
  store_wf store → attests live now pid store rec →
  sj_verified (resolve_subject live now pid store).1 = true.
Proof.
  intros Hwf (p & st & -> & Hp & Hs & -> & Hg & Hpid & Hst & He & Hagree). simpl in Hwf.
  unfold resolve_subject. destruct (Z.leb_spec p 0); [lia|].
  destruct (Z.eqb_spec (lv_starttime (live p)) 0); [done|].
  assert ((find_by_proc st now p (lv_starttime (live p))).2 = Some rec) as Hf.
  { apply find_by_proc_Some; [done|]. unfold proc_key. by rewrite Hpid, Hst. }
  destruct (find_by_proc _ _ _ _) as [st' found]. simpl in Hf. subst found.
  apply mismatches_nil in Hagree. by rewrite Hagree.
Qed.

(** C23: [resolve_subject] verifies a pid exactly when the store holds an unexpired
    launch record for the live [(pid, starttime)] whose recorded uid, exe, label and
    cgroup the live process presents; the silo, engine and app id are then that
    record's. Otherwise all three are empty, so no claim of the caller ever becomes
    a policy subject. *)
Theorem resolve_subject_spec (live : Z → live_proc) (now : Z) (pid : option Z)
    (store : option LaunchRecordStore) :
  store_wf store →
  let sj := (resolve_subject live now pid store).1 in
  (sj_verified sj = true ↔ ∃ rec, attests live now pid store rec) ∧
  (sj_verified sj = true →
    ∃ rec, attests live now pid store rec ∧ sj_silo sj = silo rec ∧
      sj_sandbox_engine sj = sandbox_engine rec ∧ sj_app_id sj = app_id rec ∧
      sj_record_id sj = record_id rec) ∧
  (sj_verified sj = false →
    sj_silo sj = UNKNOWN_SILO ∧ sj_sandbox_engine sj = "" ∧ sj_app_id sj = "").
Proof.
  intros Hwf sj. unfold sj. split; [split|split].
  - intros H. destruct (resolve_verified _ _ _ _ Hwf H) as (rec & Ha & _). eauto.
  - intros [rec Ha]. by eapply resolve_complete.
  - by apply resolve_verified.
  - apply resolve_unverified.
Qed.

(** ** Concrete instance *)

Definition sample_live (p : Z) : live_proc :=
  if (p =? 42)%Z then {| lv_exe := "/usr/bin/editor"; lv_starttime := 900;
                         lv_uid := Some 1001%Z; lv_label := ""; lv_cgroup := "" |}
  else {| lv_exe := "?"; lv_starttime := 0; lv_uid := None; lv_label := ""; lv_cgroup := "" |}.

Lemma resolve_subject_spec_witness :
  store_wf (Some sample_store) ∧
  sj_silo (resolve_subject sample_live 101 (Some 42%Z) (Some sample_store)).1 = "work" ∧
  ∃ rec, attests sample_live 101 (Some 42%Z) (Some sample_store) rec.
Proof.
  assert (store_wf (Some sample_store)) as Hwf.
  { apply (reachable_wf DEFAULT_TTL_S 8); [lia|]. apply rtc_once, step_register. reflexivity. }
  split; [exact Hwf|]. split; [reflexivity|].
  destruct (resolve_subject_spec sample_live 101 (Some 42%Z) (Some sample_store) Hwf)
    as (H & _). apply (proj1 H). vm_compute. reflexivity.
Defined.

End Resolve.
