(* ===== verification/SiloSecurity.v ===== *)
(** * Silo security snapshots

    [src/broker/qdistro_silo_security.py]: the strict registry loader, the
    [SnapshotAuthority] seam with its two implementations, and the chain from a live
    pid to an authoritative snapshot. The file system enters as [registry_file]: the
    outcomes of [open], [fstat] and [tomllib.load]. *)

From S2P Require Import Prelude Guards LaunchRecord Resolver.
Import GuardRegistry Resolve.

Module SiloSec.

(** [STATE_RESOLVED] and [STATE_UNRESOLVED] *)
Inductive snapshot_state := Resolved | Unresolved.

#[export] Instance snapshot_state_eq_dec : EqDecision snapshot_state.
Proof. solve_decision. Defined.

Definition ALLOWED_KEYS : gset string := {["guards"; "compartments"; "conflict_classes"]}.

(** ** Slugs *)

Definition is_alnum (c : ascii) : bool :=
  let n := ord c in
  ((97 <=? n) && (n <=? 122) || (48 <=? n) && (n <=? 57))%N.

Definition is_interior (c : ascii) : bool :=
  is_alnum c || bool_decide (c = "."%char) || bool_decide (c = "-"%char).

(** Interior characters up to a final alphanumeric one *)
Fixpoint slug_tail (s : string) : bool :=
  match s with
  | "" => false
  | String c "" => is_alnum c
  | String c s' => is_interior c && slug_tail s'
  end.

(** [_valid_slug]: the regular expression and the [..] check *)
Definition valid_slug (s : string) : bool :=
  match s with
  | "" => false
  | String c s' =>
      is_alnum c &&
      match s' with
      | "" => true
      | _ => slug_tail s' && (String.length s' <=? 63)%nat
      end
  end && negb (substr_in ".." s).

(** ** Profiles and snapshots *)

Record SiloSecurityProfile := {
  pf_silo : string;
  pf_guards : gset string;
  pf_compartments : gset string;
  pf_conflict_classes : gset string;
}.

Definition endpoint (p : SiloSecurityProfile) : FlowEndpoint :=
  {| guards := pf_guards p; compartments := pf_compartments p;
     conflict_classes := pf_conflict_classes p |}.

Inductive RegistryError :=
| RE_not_a_table | RE_unknown_key | RE_guards_not_list | RE_guard_not_str
| RE_unknown_guard | RE_field_not_list (key : string) | RE_bad_member (key : string)
| RE_unstattable | RE_not_regular | RE_writable | RE_not_root | RE_unopenable
| RE_unreadable | RE_silo_not_table | RE_bad_silo_name.

Inductive snapshot_reason :=
| NR_unknown_silo | NR_no_entry | NR_store_unavailable (e : RegistryError)
| NR_not_verified (r : subject_reason) | NR_no_silo | NR_resolved.

Record SiloSecuritySnapshot := {
  sn_silo : string;
  sn_state : snapshot_state;
  sn_endpoint : FlowEndpoint;
  sn_reason : snapshot_reason;
}.

Definition resolved (sn : SiloSecuritySnapshot) : bool :=
  bool_decide (sn_state sn = Resolved).

(** [UnresolvedSilo], raised by [require_resolved] *)
Inductive UnresolvedSilo := UnresolvedSiloError (silo : string) (reason : snapshot_reason).

Definition require_resolved (sn : SiloSecuritySnapshot) : result UnresolvedSilo FlowEndpoint :=
  if resolved sn then Ok (sn_endpoint sn)
  else Err (UnresolvedSiloError (sn_silo sn) (sn_reason sn)).

(** [_unresolved] *)
Definition unresolved (silo : string) (reason : snapshot_reason) : SiloSecuritySnapshot :=
  {| sn_silo := silo; sn_state := Unresolved; sn_endpoint := empty_endpoint;
     sn_reason := reason |}.

(** ** Registry loading *)

(** The loop of [_parse_str_set] *)
Fixpoint parse_members (key : string) (l : list pyval) (out : gset string)
    : result RegistryError (gset string) :=
  match l with
  | [] => Ok out
  | PStr s :: l' => if valid_slug s then parse_members key l' (out ∪ {[s]})
                    else Err (RE_bad_member key)
  | _ :: _ => Err (RE_bad_member key)
  end.

(** [_parse_str_set], with [_valid_slug] as the validator *)
Definition parse_str_set (table : list (pyval * pyval)) (key : string)
    : result RegistryError (gset string) :=
  match dict_get table key with
  | PNone => Ok ∅
  | PList raw => parse_members key raw ∅
  | _ => Err (RE_field_not_list key)
  end.

(** The loop over [raw_guards] of [_parse_silo] *)
Fixpoint parse_guards (l : list pyval) (out : gset string)
    : result RegistryError (gset string) :=
  match l with
  | [] => Ok out
  | PStr g :: l' => if bool_decide (g ∈ RESERVED_GUARDS) then parse_guards l' (out ∪ {[g]})
                    else Err RE_unknown_guard
  | _ :: _ => Err RE_guard_not_str
  end.

Definition known_key (k : pyval) : bool :=
  match k with PStr s => bool_decide (s ∈ ALLOWED_KEYS) | _ => false end.

(** [_parse_silo] *)
Definition parse_silo (name : string) (table : pyval) : result RegistryError SiloSecurityProfile :=
  match table with
  | PDict d =>
      let* _ := guard_else (forallb known_key d.*1) RE_unknown_key (Ok tt) in
      let* gs := match dict_get d "guards" with
                 | PNone => Ok ∅
                 | PList raw => parse_guards raw ∅
                 | _ => Err RE_guards_not_list
                 end in
      let* comps := parse_str_set d "compartments" in
      let* confs := parse_str_set d "conflict_classes" in
      Ok {| pf_silo := name; pf_guards := gs; pf_compartments := comps;
            pf_conflict_classes := confs |}
  | _ => Err RE_not_a_table
  end.

(** What the loader sees of the file: the opened descriptor's [fstat] ([None] when it
    raises) and what [tomllib.load] returns ([None] when reading or decoding
    raises). [None] for the whole when [os.open] raises. *)
Record file_stat := { st_is_reg : bool; st_mode : Z; st_uid : Z }.
Record registry_file := { rf_stat : option file_stat; rf_toml : option (list (pyval * pyval)) }.

(** [stat.S_IWGRP | stat.S_IWOTH] *)
Definition S_IWGRP_IWOTH : Z := 18.

(** [_check_fd_ownership] *)
Definition check_fd_ownership (euid : Z) (st : option file_stat) : result RegistryError unit :=
  match st with
  | None => Err RE_unstattable
  | Some st =>
      if negb (st_is_reg st) then Err RE_not_regular
      else if negb (Z.land (st_mode st) S_IWGRP_IWOTH =? 0)%Z then Err RE_writable
      else if (euid =? 0)%Z && negb (st_uid st =? 0)%Z then Err RE_not_root
      else Ok tt
  end.

(** The loop of [load_registry] over [silo_tbl.items()] *)
Fixpoint parse_silos (items : list (pyval * pyval)) (out : gmap string SiloSecurityProfile)
    : result RegistryError (gmap string SiloSecurityProfile) :=
  match items with
  | [] => Ok out
  | (PStr name, table) :: items' =>
      if valid_slug name then
        let* p := parse_silo name table in parse_silos items' (<[name := p]> out)
      else Err RE_bad_silo_name
  | _ :: _ => Err RE_bad_silo_name
  end.

(** [load_registry] *)
Definition load_registry (euid : Z) (file : option registry_file)
    : result RegistryError (gmap string SiloSecurityProfile) :=
  match file with
  | None => Err RE_unopenable
  | Some f =>
      let* _ := check_fd_ownership euid (rf_stat f) in
      match rf_toml f with
      | None => Err RE_unreadable
      | Some raw =>
          match dict_get raw "silo" with
          | PNone => Ok ∅
          | PDict silo_tbl => parse_silos silo_tbl ∅
          | _ => Err RE_silo_not_table
          end
      end
  end.

(** [resolve_silo_security] *)
Definition resolve_silo_security (silo : string)
    (registry : gmap string SiloSecurityProfile) : SiloSecuritySnapshot :=
  if negb (truthy silo) || bool_decide (silo = UNKNOWN_SILO) then
    unresolved (if truthy silo then silo else UNKNOWN_SILO) NR_unknown_silo
  else
    match registry !! silo with
    | None => unresolved silo NR_no_entry
    | Some profile =>
        {| sn_silo := silo; sn_state := Resolved; sn_endpoint := endpoint profile;
           sn_reason := NR_resolved |}
    end.

(** ** The [SnapshotAuthority] seam *)

(** The abstract base class: one lookup from an attested silo name. *)
Class SnapshotAuthority (A : Type) :=
  snapshot_for_silo : A → string → SiloSecuritySnapshot.

(** The behavioural contract its docstring states: an unresolved answer carries the
    empty placeholder endpoint, and the unknown silo is never resolved. *)
Class SnapshotAuthorityLaws (A : Type) `{SnapshotAuthority A} : Prop := {
  law_unresolved_empty a silo :
    sn_state (snapshot_for_silo a silo) = Unresolved →
    sn_endpoint (snapshot_for_silo a silo) = empty_endpoint;
  law_unknown_unresolved a :
    sn_state (snapshot_for_silo a UNKNOWN_SILO) = Unresolved;
  law_silo a silo : sn_silo (snapshot_for_silo a silo) = silo;
}.

(** [InMemorySnapshotAuthority] *)
Record InMemory := { im_registry : gmap string SiloSecurityProfile }.
#[export] Instance InMemory_authority : SnapshotAuthority InMemory :=
  λ a silo, resolve_silo_security silo (im_registry a).

(** [TomlSnapshotAuthority]: the file is read again at each lookup. *)
Record TomlAuthority := { ta_euid : Z; ta_file : option registry_file }.
#[export] Instance Toml_authority : SnapshotAuthority TomlAuthority :=
  λ a silo,
    if negb (truthy silo) || bool_decide (silo = UNKNOWN_SILO) then
      unresolved (if truthy silo then silo else UNKNOWN_SILO) NR_unknown_silo
    else
      match load_registry (ta_euid a) (ta_file a) with
      | Err e => unresolved silo (NR_store_unavailable e)
      | Ok registry => resolve_silo_security silo registry
      end.

(** [resolve_subject_silo_security], against any authority *)
Definition resolve_subject_silo_security {A} `{SnapshotAuthority A}
    (live : Z → live_proc) (now : Z) (pid : option Z)
    (store : option LaunchRecords.LaunchRecordStore) (authority : A) : SiloSecuritySnapshot :=
  let subject := (resolve_subject live now pid store).1 in
  if negb (sj_verified subject) then
    unresolved UNKNOWN_SILO (NR_not_verified (sj_reason subject))
  else
    let silo := sj_silo subject in
    if negb (truthy silo) || bool_decide (silo = UNKNOWN_SILO) then
      unresolved UNKNOWN_SILO NR_no_silo
    else snapshot_for_silo authority silo.

(** ** Properties of the loader *)

Definition slugs (s : gset string) : Prop := ∀ x, x ∈ s → valid_slug x = true.

Definition profile_ok (name : string) (p : SiloSecurityProfile) : Prop :=
  pf_silo p = name ∧ pf_guards p ⊆ RESERVED_GUARDS ∧
  slugs (pf_compartments p) ∧ slugs (pf_conflict_classes p).

Lemma parse_members_ok key l out r :
  parse_members key l out = Ok r → slugs out → slugs r.
Proof.
  revert out. induction l as [|v l IH]; intros out; simpl; [by intros [= ->]|].
  destruct v; try done. destruct (valid_slug s) eqn:Hs; [|done].
  intros Hp Hout. apply (IH _ Hp). intros x [Hx|Hx]%elem_of_union; [by apply Hout|].
  by apply elem_of_singleton in Hx as ->.
Qed.

Lemma parse_str_set_ok d key r : parse_str_set d key = Ok r → slugs r.
Proof.
  unfold parse_str_set. destruct (dict_get d key); try done.
  - by intros [= <-].
  - intros H. eapply parse_members_ok; [exact H|]. by intros x Hx%not_elem_of_empty.
Qed.

Lemma parse_guards_ok l out r :
  parse_guards l out = Ok r → out ⊆ RESERVED_GUARDS → r ⊆ RESERVED_GUARDS.
Proof.
  revert out. induction l as [|v l IH]; intros out; simpl; [by intros [= ->]|].
  destruct v; try done. case_bool_decide; [|done]. intros Hp Hout.
  apply (IH _ Hp). set_solver.
Qed.

Lemma parse_silo_ok name table p : parse_silo name table = Ok p → profile_ok name p.
Proof.
  unfold parse_silo. destruct table as [| | | | | |d]; try done.
  intros (_ & _ & (gs & Hgs & (cs & Hcs & (fs & Hfs & H)%result_bind_ok)%result_bind_ok)
    %result_bind_ok)%result_bind_ok. injection H as <-.
  apply parse_str_set_ok in Hcs, Hfs. repeat split; simpl; [|done..].
  destruct (dict_get d "guards"); try done; [by simplify_eq|].
  eapply parse_guards_ok; [done|set_solver].
Qed.

Lemma parse_silos_ok items out r :
  parse_silos items out = Ok r →
  map_Forall (λ n p, valid_slug n = true ∧ profile_ok n p) out →
  map_Forall (λ n p, valid_slug n = true ∧ profile_ok n p) r.
Proof.
  revert out. induction items as [|[k v] items IH]; intros out; simpl; [by intros [= ->]|].
  destruct k; try done. destruct (valid_slug s) eqn:Hs; [|done].
  intros (p & Hp & H)%result_bind_ok Hout. apply (IH _ H). apply map_Forall_insert_2; [|done].
  split; [done|by eapply parse_silo_ok].
Qed.

Lemma check_fd_ok euid ost u :
  check_fd_ownership euid ost = Ok u →
  ∃ st, ost = Some st ∧ st_is_reg st = true ∧
    Z.land (st_mode st) S_IWGRP_IWOTH = 0%Z ∧ (euid = 0%Z → st_uid st = 0%Z).
Proof.
  destruct ost as [st|]; simpl; [|done]. intros H. exists st.
  destruct (st_is_reg st); [|done]. simpl in H.
  destruct (Z.eqb_spec (Z.land (st_mode st) S_IWGRP_IWOTH) 0); [|done]. simpl in H.
  repeat split; [done|]. intros ->. by destruct (Z.eqb_spec (st_uid st) 0).
Qed.

(** A registry that loads comes from an opened regular file that is neither
    group- nor world-writable and, for a root broker, root-owned; and every profile
    in it is filed under a valid slug, carries only reserved guards and only valid
    compartment and conflict-class slugs. *)
Theorem load_registry_ok (euid : Z) (file : option registry_file)
    (reg : gmap string SiloSecurityProfile) :
  load_registry euid file = Ok reg →
  (∃ f st, file = Some f ∧ rf_stat f = Some st ∧ st_is_reg st = true ∧
     Z.land (st_mode st) S_IWGRP_IWOTH = 0%Z ∧ (euid = 0%Z → st_uid st = 0%Z)) ∧
  ∀ name p, reg !! name = Some p →
    valid_slug name = true ∧ pf_silo p = name ∧ pf_guards p ⊆ RESERVED_GUARDS ∧
    slugs (pf_compartments p) ∧ slugs (pf_conflict_classes p).
Proof.
  destruct file as [f|]; [|done]. simpl. intros ([] & Hst & H)%result_bind_ok. split.
  { apply check_fd_ok in Hst as (st & Hst). by exists f, st. }
  destruct (rf_toml f) as [raw|]; [|done]. destruct (dict_get raw "silo"); try done.
  - injection H as <-. intros name p Hp. by rewrite lookup_empty in Hp.
  - apply parse_silos_ok in H; [|apply map_Forall_empty].
    intros name p Hp. apply (H name p Hp).
Qed.

(** ** The authorities keep the contract *)

Lemma resolve_silo_unresolved silo reg :
  sn_state (resolve_silo_security silo reg) = Unresolved →
  sn_endpoint (resolve_silo_security silo reg) = empty_endpoint.
Proof. unfold resolve_silo_security. by repeat case_match. Qed.

Lemma resolve_silo_silo silo reg : sn_silo (resolve_silo_security silo reg) = silo.
Proof. unfold resolve_silo_security. destruct silo; simpl; [done|]. by repeat case_match. Qed.

#[export] Instance InMemory_laws : SnapshotAuthorityLaws InMemory.
Proof.
  split; unfold snapshot_for_silo, InMemory_authority.
  - intros. by apply resolve_silo_unresolved.
  - done.
  - intros. apply resolve_silo_silo.
Qed.

#[export] Instance Toml_laws : SnapshotAuthorityLaws TomlAuthority.
Proof.
  split; unfold snapshot_for_silo, Toml_authority.
  - intros a silo. destruct (_ || _); [done|].
    destruct (load_registry _ _); [apply resolve_silo_unresolved|done].
  - done.
  - intros a silo. destruct (_ || _) eqn:E; [by destruct silo|].
    destruct (load_registry _ _); [apply resolve_silo_silo|done].
Qed.

(** ** The chain from a live pid to a snapshot *)
Section chain.
Context {A : Type} `{SnapshotAuthorityLaws A}.
Context (live : Z → live_proc) (now : Z) (pid : option Z).
Context (store : option LaunchRecords.LaunchRecordStore) (authority : A).

Abbreviation snap := (resolve_subject_silo_security live now pid store authority).

Lemma chain_unresolved :
  sn_state snap = Unresolved → sn_endpoint snap = empty_endpoint.
Proof.
  unfold resolve_subject_silo_security. case_match; [done|]. case_match; [done|].
  apply law_unresolved_empty.
Qed.

Lemma chain_resolved :
  store_wf store → sn_state snap = Resolved →
  ∃ rec, attests live now pid store rec ∧ LaunchRecords.silo rec ≠ UNKNOWN_SILO ∧
    snap = snapshot_for_silo authority (LaunchRecords.silo rec).
Proof.
  intros Hwf. unfold resolve_subject_silo_security.
  destruct (sj_verified _) eqn:Hv; [|done]. simpl. case_match eqn:He; [done|]. intros _.
  destruct (resolve_verified _ _ _ _ Hwf Hv) as (rec & Ha & Hs & _).
  exists rec. rewrite <- Hs. apply orb_false_iff in He as [_ He%bool_decide_eq_false]. done.
Qed.

(** C25: For any authority that keeps the seam's contract, an endpoint leaves the
    snapshot through [require_resolved] only when the live pid is attested by a
    launch record with a non-empty silo and the authority itself resolves that
    attested silo to that endpoint; in every other case [require_resolved] raises
    and the snapshot carries the empty placeholder. *)
Theorem require_resolved_chain (ep : FlowEndpoint) :
  store_wf store →
  (require_resolved snap = Ok ep ↔
    ∃ rec, attests live now pid store rec ∧ LaunchRecords.silo rec ≠ UNKNOWN_SILO ∧
      snap = snapshot_for_silo authority (LaunchRecords.silo rec) ∧
      sn_state (snapshot_for_silo authority (LaunchRecords.silo rec)) = Resolved ∧
      sn_endpoint (snapshot_for_silo authority (LaunchRecords.silo rec)) = ep) ∧
  (is_ok (require_resolved snap) = false → sn_endpoint snap = empty_endpoint).
Proof.
  intros Hwf. unfold require_resolved, resolved. split.
  - split.
    + case_bool_decide as Hs; [|done]. intros [= <-].
      destruct (chain_resolved Hwf Hs) as (rec & Ha & Hne & Heq).
      exists rec. rewrite <- Heq. done.
    + intros (rec & _ & _ & -> & Hs & <-). by rewrite bool_decide_true.
  - case_bool_decide as Hs; [done|]. intros _. apply chain_unresolved.
    by destruct (sn_state snap).
Qed.
End chain.

(** ** Concrete instances *)

Definition sample_toml : list (pyval * pyval) :=
  [(PStr "silo", PDict [(PStr "work", PDict
     [(PStr "guards", PList [PStr "local-only"]);
      (PStr "compartments", PList [PStr "work"])])])].
Definition sample_file : registry_file :=
  {| rf_stat := Some {| st_is_reg := true; st_mode := 33188; st_uid := 0 |};
     rf_toml := Some sample_toml |}.
Definition sample_authority : TomlAuthority :=
  {| ta_euid := 0; ta_file := Some sample_file |}.

Lemma load_registry_ok_witness :
  ∃ reg p, load_registry 0 (Some sample_file) = Ok reg ∧ reg !! "work" = Some p ∧
    pf_guards p ⊆ RESERVED_GUARDS.
Proof.
  assert (match load_registry 0 (Some sample_file) with
          | Ok reg => bool_decide (is_Some (reg !! "work")) | Err _ => false end = true) as Hw
    by (vm_compute; reflexivity).
  destruct (load_registry 0 (Some sample_file)) as [reg|] eqn:E; [|discriminate Hw].
  apply bool_decide_eq_true in Hw as [p Hp]. exists reg, p. split; [reflexivity|].
  split; [exact Hp|].
  destruct (load_registry_ok 0 (Some sample_file) reg E) as (_ & H).
  destruct (H "work" p Hp) as (_ & _ & Hg & _). exact Hg.
Defined.

Lemma require_resolved_chain_witness :
  store_wf (Some LaunchRecords.sample_store) ∧
  ∃ rec, attests sample_live 101 (Some 42%Z) (Some LaunchRecords.sample_store) rec ∧
    LaunchRecords.silo rec ≠ UNKNOWN_SILO.
Proof.
  assert (store_wf (Some LaunchRecords.sample_store)) as Hwf.
  { apply (LaunchRecords.reachable_wf LaunchRecords.DEFAULT_TTL_S 8); [lia|].
    apply rtc_once, LaunchRecords.step_register. reflexivity. }
  split; [exact Hwf|].
  destruct (require_resolved_chain sample_live 101 (Some 42%Z)
    (Some LaunchRecords.sample_store) sample_authority
    {| guards := {["local-only"]}; compartments := {["work"]}; conflict_classes := ∅ |} Hwf)
    as ((H & _) & _).
  destruct H as (rec & Ha & Hne & _); [vm_compute; reflexivity|]. by exists rec.
Defined.

End SiloSec.
