(* ===== verification/McsAllocator.v ===== *)
(** * SELinux MCS category allocation

    [src/broker/qdistro_mcs_allocator.py]: categories are handed to the active
    attachments of a compartment set and returned when the last one is released.
    Every public method holds the lock, so each is one step on the state. *)

From S2P Require Import Prelude.

Module Mcs.

Definition DEFAULT_POOL_SIZE : Z := 1024.
Definition SENSITIVITY : string := "s0".

(** An equivalence class: the compartments and the conflict classes. *)
Abbreviation mcs_key := (gset string * gset string)%type.

(** ** Values *)

(** The [reason] texts of [McsResult] *)
Inductive mcs_reason :=
| MR_no_compartments | MR_already_allocated (attachment_id : string)
| MR_multi_unauthorised | MR_multi_no_conflict_metadata
| MR_multi_bridge (confs : list string) | MR_shared | MR_exhausted | MR_fresh.

Record McsResult := {
  ok : bool;
  label : option string;
  categories : gset nat;
  reason : mcs_reason;
  exhausted : bool;
}.

Inductive McsAllocatorError := ME_pool_size | ME_attachment_id.

Record Allocation := {
  al_compartments : gset string;
  al_conflict_classes : gset string;
  al_categories : gset nat;
  al_attachments : gset string;
}.

Record McsAllocator := {
  pool_size : nat;
  sensitivity : string;
  free : gset nat;
  by_key : gmap mcs_key Allocation;
  by_attachment : gmap string mcs_key;
}.

(** [McsAllocator(pool_size=..., sensitivity=...)] *)
Definition new_allocator (pool : Z) (sens : string) : result McsAllocatorError McsAllocator :=
  if (pool <=? 0)%Z then Err ME_pool_size
  else Ok {| pool_size := Z.to_nat pool; sensitivity := sens;
             free := set_seq 0 (Z.to_nat pool); by_key := ∅; by_attachment := ∅ |}.

(** ** Helpers *)

(** [_frozen_strs]: [None], a bare string, or an iterable (a mapping iterates its
    keys). A number, which Python refuses to iterate, is not a possible argument. *)
Definition frozen_strs (values : pyval) : gset string :=
  match values with
  | PStr s => {[s]}
  | PList l => strs_of l
  | PDict d => strs_of d.*1
  | _ => ∅
  end.

(** [",".join(f"c{n}" for n in ...)] *)
Fixpoint join_cats (l : list nat) : string :=
  match l with
  | [] => ""
  | [n] => "c" +:+ pretty n
  | n :: l' => "c" +:+ pretty n +:+ "," +:+ join_cats l'
  end.

(** [_format_label] *)
Definition format_label (s : McsAllocator) (cats : gset nat) : string :=
  if bool_decide (cats = ∅) then sensitivity s
  else sensitivity s +:+ ":" +:+ join_cats (merge_sort Nat.le (elements cats)).

(** [min(self._free)], for a non-empty set *)
Definition set_min (x : nat) (l : list nat) : nat := foldl Nat.min x l.

(** ** Introspection *)

Definition free_count (s : McsAllocator) : nat := size (free s).
Definition active_attachments (s : McsAllocator) : nat := size (by_attachment s).

(** [label_for]; a missing [by_key] entry would be a [KeyError], modelled as [None] in
    the inner lookup and excluded by the invariant. *)
Definition label_for (s : McsAllocator) (attachment_id : string) : option string :=
  key ← by_attachment s !! attachment_id;
  alloc ← by_key s !! key;
  Some (format_label s (al_categories alloc)).

(** ** Allocation *)

Definition refused (r : mcs_reason) (exh : bool) : McsResult :=
  {| ok := false; label := None; categories := ∅; reason := r; exhausted := exh |}.

Definition granted (s : McsAllocator) (cats : gset nat) (r : mcs_reason) : McsResult :=
  {| ok := true; label := Some (format_label s cats); categories := cats; reason := r;
     exhausted := false |}.

(** [existing.attachments.add(attachment_id)] on the shared allocation object *)
Definition add_attachment (a : Allocation) (id : string) : Allocation :=
  {| al_compartments := al_compartments a; al_conflict_classes := al_conflict_classes a;
     al_categories := al_categories a; al_attachments := al_attachments a ∪ {[id]} |}.

(** [alloc.attachments.discard(attachment_id)] *)
Definition discard_attachment (a : Allocation) (id : string) : Allocation :=
  {| al_compartments := al_compartments a; al_conflict_classes := al_conflict_classes a;
     al_categories := al_categories a; al_attachments := al_attachments a ∖ {[id]} |}.

Definition with_state (s : McsAllocator) fr bk ba : McsAllocator :=
  {| pool_size := pool_size s; sensitivity := sensitivity s; free := fr;
     by_key := bk; by_attachment := ba |}.

(** [allocate] *)
Definition allocate (s : McsAllocator) (attachment_id : string) (comps_arg confs_arg : pyval)
    (allow_multi : bool) (authority : option string)
    : result McsAllocatorError (McsAllocator * McsResult) :=
  let comps := frozen_strs comps_arg in
  let confs := frozen_strs confs_arg in
  if negb (truthy attachment_id) then Err ME_attachment_id
  else if bool_decide (comps = ∅) then Ok (s, refused MR_no_compartments false)
  else if bool_decide (is_Some (by_attachment s !! attachment_id)) then
    Ok (s, refused (MR_already_allocated attachment_id) false)
  else if 1 <? size comps then
    if negb allow_multi || negb (truthy (default "" authority)) then
      Ok (s, refused MR_multi_unauthorised false)
    else if bool_decide (confs = ∅) then Ok (s, refused MR_multi_no_conflict_metadata false)
    else Ok (s, refused (MR_multi_bridge (sorted_set confs)) false)
  else
    let key := (comps, confs) in
    match by_key s !! key with
    | Some existing =>
        Ok (with_state s (free s) (<[key := add_attachment existing attachment_id]> (by_key s))
              (<[attachment_id := key]> (by_attachment s)),
            granted s (al_categories existing) MR_shared)
    | None =>
        match elements (free s) with
        | [] => Ok (s, refused MR_exhausted true)
        | c0 :: cs =>
            let cat := set_min c0 cs in
            let cats : gset nat := {[cat]} in
            Ok (with_state s (free s ∖ {[cat]})
                  (<[key := {| al_compartments := comps; al_conflict_classes := confs;
                               al_categories := cats; al_attachments := {[attachment_id]} |}]>
                     (by_key s))
                  (<[attachment_id := key]> (by_attachment s)),
                granted s cats MR_fresh)
        end
    end.

(** [release] *)
Definition release (s : McsAllocator) (attachment_id : string) : McsAllocator * bool :=
  match by_attachment s !! attachment_id with
  | None => (s, false)
  | Some key =>
      let ba := delete attachment_id (by_attachment s) in
      match by_key s !! key with
      | None => (with_state s (free s) (by_key s) ba, false)
      | Some alloc =>
          let alloc' := discard_attachment alloc attachment_id in
          if bool_decide (al_attachments alloc' = ∅) then
            (with_state s (free s ∪ al_categories alloc') (delete key (by_key s)) ba, true)
          else (with_state s (free s) (<[key := alloc']> (by_key s)) ba, true)
      end
  end.

(** ** Invariant *)

(** The allocator's books: an allocation is filed under its own class, confines one
    category of the pool, and is referenced by at least one attachment; the two tables
    agree on who holds what; a category is free or allocated, never both, never to two
    classes, and none is lost. *)
Record inv (s : McsAllocator) : Prop := {
  inv_alloc : ∀ k a, by_key s !! k = Some a →
    (al_compartments a, al_conflict_classes a) = k ∧
    (∃ c, al_categories a = {[c]} ∧ c < pool_size s ∧ c ∉ free s) ∧
    al_attachments a ≠ ∅ ∧
    ∀ id, id ∈ al_attachments a → by_attachment s !! id = Some k;
  inv_attach : ∀ id k, by_attachment s !! id = Some k →
    ∃ a, by_key s !! k = Some a ∧ id ∈ al_attachments a;
  inv_disjoint : ∀ k1 k2 a1 a2 c, by_key s !! k1 = Some a1 → by_key s !! k2 = Some a2 →
    c ∈ al_categories a1 → c ∈ al_categories a2 → k1 = k2;
  inv_pool : ∀ c, c < pool_size s ↔
    c ∈ free s ∨ ∃ k a, by_key s !! k = Some a ∧ c ∈ al_categories a;
}.

Lemma set_min_elem x l : set_min x l ∈ x :: l.
Proof.
  unfold set_min. revert x. induction l as [|y l IH]; intros x; cbn [foldl]; [constructor|].
  specialize (IH (x `min` y)). destruct (Nat.min_spec x y) as [[_ E]|[_ E]];
    rewrite E in *; set_solver.
Qed.

Lemma set_min_free s c0 cs :
  elements (free s) = c0 :: cs → set_min c0 cs ∈ free s.
Proof.
  intros E. apply elem_of_elements. rewrite E. apply set_min_elem.
Qed.

Lemma new_allocator_inv pool sens s : new_allocator pool sens = Ok s → inv s.
Proof.
  unfold new_allocator. destruct (Z.leb_spec pool 0); [done|]. intros [= <-].
  split; simpl; try (intros *; rewrite lookup_empty; done).
  intros c. rewrite elem_of_set_seq. setoid_rewrite lookup_empty. naive_solver lia.
Qed.

(** Replacing an allocation by one with the same categories *)
Section same_categories.
Context (m : gmap mcs_key Allocation) (key : mcs_key) (a b : Allocation).
Context (Hkey : m !! key = Some a) (Hcat : al_categories b = al_categories a).

Lemma same_cats_lookup k b' :
  <[key := b]> m !! k = Some b' →
  ∃ a', m !! k = Some a' ∧ al_categories a' = al_categories b'.
Proof using Hkey Hcat.
  destruct (decide (key = k)) as [<-|Hne].
  - rewrite lookup_insert_eq. intros [= <-]. by exists a.
  - rewrite lookup_insert_ne by done. eauto.
Qed.

Lemma same_cats_held c :
  (∃ k a', <[key := b]> m !! k = Some a' ∧ c ∈ al_categories a') ↔
  (∃ k a', m !! k = Some a' ∧ c ∈ al_categories a').
Proof using Hkey Hcat.
  split; intros (k & a' & Hk & Hc).
  - apply same_cats_lookup in Hk as (a'' & Hk & He). exists k, a''. by rewrite He.
  - destruct (decide (key = k)) as [<-|Hne].
    + exists key, b. rewrite lookup_insert_eq, Hcat. by simplify_eq.
    + exists k, a'. by rewrite lookup_insert_ne.
Qed.
End same_categories.

Lemma shared_inv s id key a :
  inv s → by_attachment s !! id = None → by_key s !! key = Some a →
  inv (with_state s (free s) (<[key := add_attachment a id]> (by_key s))
         (<[id := key]> (by_attachment s))).
Proof.
  intros [Ha Hb Hd Hp] Hid Hkey. split; simpl.
  - intros k a'. destruct (decide (key = k)) as [<-|Hne].
    + rewrite lookup_insert_eq. intros [= <-]. destruct (Ha _ _ Hkey) as (Hk & Hc & Hn & Hi).
      split; [done|]. split; [done|]. simpl. split; [set_solver|].
      intros id' [Hin| ->%elem_of_singleton]%elem_of_union; [|apply lookup_insert_eq].
      rewrite lookup_insert_ne; [by auto|]. intros <-. apply Hi in Hin. congruence.
    + rewrite lookup_insert_ne by done. intros Hk. destruct (Ha _ _ Hk) as (? & ? & ? & Hi).
      repeat split; [done..|]. intros id' Hin. rewrite lookup_insert_ne; [by auto|].
      intros <-. apply Hi in Hin. congruence.
  - intros id' k. destruct (decide (id = id')) as [<-|Hne].
    + rewrite lookup_insert_eq. intros [= <-]. eexists. rewrite lookup_insert_eq.
      split; [done|]. simpl. set_solver.
    + rewrite lookup_insert_ne by done. intros Hk. destruct (Hb _ _ Hk) as (a' & Ha' & Hin).
      destruct (decide (key = k)) as [<-|Hnk].
      * eexists. rewrite lookup_insert_eq. split; [done|]. simplify_eq. simpl. set_solver.
      * exists a'. by rewrite lookup_insert_ne.
  - intros k1 k2 a1 a2 c H1 H2.
    apply (same_cats_lookup _ _ a) in H1 as (b1 & H1 & <-); [|done..].
    apply (same_cats_lookup _ _ a) in H2 as (b2 & H2 & <-); [|done..]. by apply Hd.
  - intros c. by rewrite (same_cats_held _ _ a), <- Hp.
Qed.

Lemma fresh_inv s id key c :
  inv s → by_attachment s !! id = None → by_key s !! key = None → c ∈ free s →
  inv (with_state s (free s ∖ {[c]})
        (<[key := {| al_compartments := key.1; al_conflict_classes := key.2;
                     al_categories := {[c]}; al_attachments := {[id]} |}]> (by_key s))
        (<[id := key]> (by_attachment s))).
Proof.
  intros [Ha Hb Hd Hp] Hid Hkey Hc.
  assert (∀ k a c', by_key s !! k = Some a → c' ∈ al_categories a → c' ≠ c) as Hnc.
  { intros k a c' Hk Hc' ->. destruct (Ha _ _ Hk) as (_ & (c1 & Hc1 & _ & Hnf) & _).
    rewrite Hc1 in Hc'. by apply elem_of_singleton in Hc' as ->. }
  split; simpl.
  - intros k a'. destruct (decide (key = k)) as [<-|Hne].
    + rewrite lookup_insert_eq. intros [= <-]. simpl. split; [by destruct key|].
      split; [exists c; repeat split; [apply Hp; by left|set_solver]|].
      split; [set_solver|]. intros id' ->%elem_of_singleton. apply lookup_insert_eq.
    + rewrite lookup_insert_ne by done. intros Hk.
      destruct (Ha _ _ Hk) as (? & (c1 & ? & ? & ?) & ? & Hi).
      split; [done|]. split; [exists c1; set_solver|]. split; [done|].
      intros id' Hin. rewrite lookup_insert_ne; [by auto|].
      intros <-. apply Hi in Hin. congruence.
  - intros id' k. destruct (decide (id = id')) as [<-|Hne].
    + rewrite lookup_insert_eq. intros [= <-]. eexists. rewrite lookup_insert_eq.
      split; [done|]. simpl. set_solver.
    + rewrite lookup_insert_ne by done. intros Hk. destruct (Hb _ _ Hk) as (a' & Ha' & Hin).
      exists a'. rewrite lookup_insert_ne; [done|]. intros <-. congruence.
  - intros k1 k2 a1 a2 c'.
    destruct (decide (key = k1)) as [<-|H1], (decide (key = k2)) as [<-|H2];
      rewrite ?lookup_insert_eq, ?lookup_insert_ne by done; intros E1 E2; [done|..];
      simplify_eq; simpl.
    + intros ->%elem_of_singleton Hc2. by destruct (Hnc _ _ _ E2 Hc2).
    + intros Hc1 ->%elem_of_singleton. by destruct (Hnc _ _ _ E1 Hc1).
    + by apply Hd.
  - intros c'. rewrite Hp. split.
    + intros [Hf|(k & a & Hk & Hin)].
      * destruct (decide (c' = c)) as [->|]; [right|left; set_solver].
        eexists key, _. rewrite lookup_insert_eq. split; [done|]. simpl. set_solver.
      * right. exists k, a. rewrite lookup_insert_ne; [done|]. intros <-. congruence.
    + intros [Hf|(k & a & Hk & Hin)]; [left; set_solver|].
      destruct (decide (key = k)) as [<-|Hne].
      * rewrite lookup_insert_eq in Hk. simplify_eq. simpl in Hin.
        apply elem_of_singleton in Hin as ->. by left.
      * rewrite lookup_insert_ne in Hk by done. right. eauto.
Qed.

(** [allocate], by outcome: the state changes only by a grant, which is either a share
    of the class's live allocation or the least free category for a class without one. *)
Lemma allocate_cases s id ca fa multi auth s' r :
  allocate s id ca fa multi auth = Ok (s', r) →
  let key := (frozen_strs ca, frozen_strs fa) in
  ok r = false ∧ s' = s ∨
  by_attachment s !! id = None ∧ size (frozen_strs ca) = 1 ∧ id ≠ "" ∧
  (∃ a, by_key s !! key = Some a ∧ r = granted s (al_categories a) MR_shared ∧
     s' = with_state s (free s) (<[key := add_attachment a id]> (by_key s))
            (<[id := key]> (by_attachment s))) ∨
  by_attachment s !! id = None ∧ size (frozen_strs ca) = 1 ∧ id ≠ "" ∧
  (∃ c, by_key s !! key = None ∧ c ∈ free s ∧ r = granted s {[c]} MR_fresh ∧
     s' = with_state s (free s ∖ {[c]})
        (<[key := {| al_compartments := key.1; al_conflict_classes := key.2;
                     al_categories := {[c]}; al_attachments := {[id]} |}]> (by_key s))
        (<[id := key]> (by_attachment s))).
Proof.
  intros H key. unfold allocate in H.
  destruct (truthy id) eqn:Hid; [|done]. apply truthy_true in Hid. simpl in H.
  destruct (bool_decide_reflect (frozen_strs ca = ∅)) as [|Hne];
    [injection H as <- <-; by left|].
  destruct (bool_decide_reflect (is_Some (by_attachment s !! id))) as [|Hna];
    [injection H as <- <-; by left|]. apply eq_None_not_Some in Hna.
  destruct (Nat.ltb_spec 1 (size (frozen_strs ca))) as [|Hsz].
  { repeat case_match; injection H as <- <-; by left. }
  assert (size (frozen_strs ca) = 1) as Hs1.
  { assert (size (frozen_strs ca) ≠ 0) by (by intros ?%size_empty_inv%leibniz_equiv). lia. }
  destruct (by_key s !! (frozen_strs ca, frozen_strs fa)) as [a|] eqn:Hk.
  { injection H as <- <-. right. left. eauto 10. }
  destruct (elements (free s)) as [|c0 cs] eqn:He; [injection H as <- <-; by left|].
  injection H as <- <-. right. right. repeat split; [done..|].
  exists (set_min c0 cs). split; [done|]. split; [by apply set_min_free|]. done.
Qed.

Lemma allocate_inv s id ca fa multi auth s' r :
  inv s → allocate s id ca fa multi auth = Ok (s', r) → inv s'.
Proof.
  intros Hinv [[_ ->]|[(Hn & _ & _ & a & Hk & _ & ->)|(Hn & _ & _ & c & Hk & Hc & _ & ->)]]
    %allocate_cases; [done| |].
  - by apply shared_inv.
  - by apply fresh_inv.
Qed.

Lemma inv_alloc_at s id key :
  inv s → by_attachment s !! id = Some key →
  ∃ a, by_key s !! key = Some a ∧ id ∈ al_attachments a.
Proof. intros Hinv. apply Hinv. Qed.

Lemma release_inv s id : inv s → inv (release s id).1.
Proof.
  intros Hinv. unfold release. destruct (by_attachment s !! id) as [key|] eqn:Hid; [|done].
  destruct (inv_alloc_at _ _ _ Hinv Hid) as (a & Hk & Hin). rewrite Hk.
  destruct Hinv as [Ha Hb Hd Hp]. destruct (Ha _ _ Hk) as (Hkey & (c & Hc & Hlt & Hnf) & _ & Hi).
  case_bool_decide as He; cbn [fst].
  - simpl in He. split; simpl.
    + intros k a' [Hne Hk']%lookup_delete_Some.
      destruct (Ha _ _ Hk') as (? & (c' & Hc' & ? & ?) & ? & Hi').
      split; [done|]. split; [|split; [done|]].
      * exists c'. split; [done|]. split; [done|]. rewrite Hc.
        intros [?|Hcc%elem_of_singleton]%elem_of_union; [done|]. apply Hne.
        eapply (Hd key k a a' c); [done..| |]; rewrite ?Hc, ?Hc', ?Hcc; set_solver.
      * intros id' Hin'. rewrite lookup_delete_ne; [by auto|].
        intros <-. apply Hi' in Hin'. congruence.
    + intros id' k [Hne Hk']%lookup_delete_Some. destruct (Hb _ _ Hk') as (a' & Ha' & Hin').
      exists a'. rewrite lookup_delete_ne; [done|]. intros <-. simplify_eq. set_solver.
    + intros k1 k2 a1 a2 c' [_ H1]%lookup_delete_Some [_ H2]%lookup_delete_Some. by apply Hd.
    + intros c'. rewrite Hp, Hc. split.
      * intros [?|(k & a' & Hk' & Hc')]; [left; set_solver|].
        destruct (decide (key = k)) as [<-|Hne]; [left; simplify_eq; set_solver|].
        right. exists k, a'. by rewrite lookup_delete_ne.
      * intros [[?|Hcc]%elem_of_union|(k & a' & [_ Hk']%lookup_delete_Some & Hc')];
          [by left| |right; eauto].
        right. exists key, a. by rewrite Hc.
  - simpl in He. split; simpl.
    + intros k a'. destruct (decide (key = k)) as [<-|Hne].
      * rewrite lookup_insert_eq. intros [= <-]. simpl.
        split; [done|]. split; [eauto|]. split; [done|]. intros id' Hin'.
        rewrite lookup_delete_ne; [apply Hi|]; set_solver.
      * rewrite lookup_insert_ne by done. intros Hk'.
        destruct (Ha _ _ Hk') as (? & ? & ? & Hi'). repeat split; [done..|].
        intros id' Hin'. rewrite lookup_delete_ne; [by auto|].
        intros <-. apply Hi' in Hin'. congruence.
    + intros id' k [Hne Hk']%lookup_delete_Some. destruct (Hb _ _ Hk') as (a' & Ha' & Hin').
      destruct (decide (key = k)) as [<-|Hnk].
      * eexists. rewrite lookup_insert_eq. split; [done|]. simplify_eq. simpl. set_solver.
      * exists a'. by rewrite lookup_insert_ne.
    + intros k1 k2 a1 a2 c' H1 H2.
      apply (same_cats_lookup _ _ a) in H1 as (b1 & H1 & <-); [|done..].
      apply (same_cats_lookup _ _ a) in H2 as (b2 & H2 & <-); [|done..]. by apply Hd.
    + intros c'. by rewrite (same_cats_held _ _ a), <- Hp.
Qed.

(** ** Reachable allocators *)

Inductive step : McsAllocator → McsAllocator → Prop :=
| step_allocate s id ca fa multi auth s' r :
    allocate s id ca fa multi auth = Ok (s', r) → step s s'
| step_release s id : step s (release s id).1.

(** Free categories and live classes add up to the pool. *)
Definition balanced (s : McsAllocator) : Prop :=
  size (free s) + size (by_key s) = pool_size s.

Lemma allocate_balanced s id ca fa multi auth s' r :
  inv s → allocate s id ca fa multi auth = Ok (s', r) →
  balanced s → balanced s' ∧ pool_size s' = pool_size s ∧ sensitivity s' = sensitivity s.
Proof.
  unfold balanced.
  intros Hinv [[_ ->]|[(_ & _ & _ & a & Hk & _ & ->)|(_ & _ & _ & c & Hk & Hc & _ & ->)]]
    %allocate_cases Hb; simpl; [done|split; [|done]..].
  - rewrite map_size_insert, Hk. done.
  - rewrite map_size_insert_None by done.
    rewrite size_difference by set_solver. rewrite size_singleton.
    assert (size (free s) ≠ 0) by (intros He%size_empty_inv; set_solver). lia.
Qed.

Lemma release_balanced s id :
  inv s → balanced s →
  balanced (release s id).1 ∧ pool_size (release s id).1 = pool_size s ∧
  sensitivity (release s id).1 = sensitivity s.
Proof.
  unfold balanced, release. intros Hinv Hb. destruct (by_attachment s !! id) as [key|] eqn:Hid;
    [|done]. destruct (inv_alloc_at _ _ _ Hinv Hid) as (a & Hk & Hin). rewrite Hk.
  destruct (inv_alloc _ Hinv _ _ Hk) as (_ & (c & Hc & _ & Hnf) & _).
  case_bool_decide; simpl; (split; [|done]).
  - rewrite Hc, size_union by set_solver. rewrite size_singleton, map_size_delete_Some by eauto.
    assert (size (by_key s) ≠ 0) by (intros He%map_size_empty_inv; rewrite He in Hk; done). lia.
  - rewrite map_size_insert, Hk. done.
Qed.

Lemma reachable_inv pool sens s0 s :
  new_allocator pool sens = Ok s0 → rtc step s0 s →
  inv s ∧ balanced s ∧ pool_size s = Z.to_nat pool ∧ sensitivity s = sens.
Proof.
  intros H0 Hr. apply (rtc_invariant _ (λ s, inv s ∧ balanced s ∧
    pool_size s = Z.to_nat pool ∧ sensitivity s = sens) _ _ Hr).
  - split; [by eapply new_allocator_inv|]. unfold new_allocator in H0.
    destruct (pool <=? 0)%Z; [done|]. injection H0 as <-. unfold balanced. simpl.
    rewrite size_set_seq, map_size_empty. auto with lia.
  - intros a b Hs (Hinv & Hb & Hp & Hse). rewrite <- Hp, <- Hse. destruct Hs.
    + split; [by eapply allocate_inv|by eapply allocate_balanced].
    + split; [by apply release_inv|by apply release_balanced].
Qed.

Lemma format_label_singleton s c :
  format_label s {[c]} = sensitivity s +:+ ":" +:+ "c" +:+ pretty c.
Proof.
  unfold format_label. rewrite bool_decide_false by set_solver.
  by rewrite elements_singleton.
Qed.

Lemma label_for_Some s id l :
  inv s → label_for s id = Some l →
  ∃ k a c, by_attachment s !! id = Some k ∧ by_key s !! k = Some a ∧
    al_categories a = {[c]} ∧ l = sensitivity s +:+ ":" +:+ "c" +:+ pretty c.
Proof.
  intros Hinv (k & Hk & (a & Ha & [= <-])%bind_Some)%bind_Some.
  destruct (inv_alloc _ Hinv _ _ Ha) as (_ & (c & Hc & _) & _).
  exists k, a, c. by rewrite Hc, format_label_singleton.
Qed.

(** C26: In every reachable allocator, free categories and live classes account for the
    whole pool, every live attachment has a label, and two live attachments carry the
    same SELinux label exactly when they belong to the same (compartments, conflict
    classes) class: no category is ever shared by unrelated attachments. *)
Theorem mcs_isolation (pool : Z) (sens : string) (s0 s : McsAllocator) :
  new_allocator pool sens = Ok s0 → rtc step s0 s →
  free_count s + size (by_key s) = Z.to_nat pool ∧
  (∀ id, is_Some (by_attachment s !! id) → is_Some (label_for s id)) ∧
  ∀ id1 id2 l1 l2, label_for s id1 = Some l1 → label_for s id2 = Some l2 →
    (l1 = l2 ↔ by_attachment s !! id1 = by_attachment s !! id2).
Proof.
  intros H0 Hr. destruct (reachable_inv _ _ _ _ H0 Hr) as (Hinv & Hb & Hp & _).
  split; [by rewrite <- Hp|]. split.
  { intros id [k Hk]. destruct (inv_alloc_at _ _ _ Hinv Hk) as (a & Ha & _).
    unfold label_for. rewrite Hk. simpl. rewrite Ha. by eexists. }
  intros id1 id2 l1 l2 (k1 & a1 & c1 & -> & Ha1 & Hc1 & ->)%label_for_Some
    (k2 & a2 & c2 & -> & Ha2 & Hc2 & ->)%label_for_Some; [|done..]. split.
  - intros He. do 3 apply (inj (String.app _)) in He. apply (inj pretty) in He. subst c2.
    f_equal. eapply (inv_disjoint _ Hinv k1 k2 a1 a2 c1); rewrite ?Hc1, ?Hc2; set_solver.
  - intros [= ->]. simplify_eq. rewrite Hc1 in Hc2.
    apply (inj singleton) in Hc2. by subst.
Qed.

(** Releasing an attachment right after it was granted restores the allocator
    exactly: the category goes back to the pool, the shared reference is dropped. *)
Theorem release_undoes_allocate (s s' : McsAllocator) (id : string) (ca fa : pyval)
    (multi : bool) (auth : option string) (r : McsResult) :
  inv s → allocate s id ca fa multi auth = Ok (s', r) → ok r = true →
  release s' id = (s, true).
Proof.
  intros Hinv H Hok. apply allocate_cases in H as
    [[Hf _]|[(Hn & _ & _ & a & Hk & _ & ->)|(Hn & _ & _ & c & Hk & Hc & _ & ->)]];
    [congruence| |]; unfold release, with_state; cbn [by_attachment by_key free];
    rewrite !lookup_insert_eq.
  - destruct (inv_alloc _ Hinv _ _ Hk) as (_ & _ & Hne & Hi).
    assert (id ∉ al_attachments a) as Hid by (intros Hin%Hi; congruence).
    assert (discard_attachment (add_attachment a id) id = a) as ->.
    { unfold discard_attachment, add_attachment. destruct a. simpl in *. f_equal. set_solver. }
    rewrite bool_decide_false by exact Hne. cbn [pool_size sensitivity].
    rewrite insert_insert_eq, delete_insert_id by done. rewrite insert_id by done.
    by destruct s.
  - rewrite bool_decide_true by (simpl; set_solver). simpl.
    rewrite !delete_insert_id by done.
    replace (free s ∖ {[c]} ∪ {[c]}) with (free s); [by destruct s|].
    apply set_eq. intros x. destruct (decide (x = c)); set_solver.
Qed.

(** [allocate] answers every well-formed request, and the outcome is decided as
    follows: a request naming several compartments is refused whatever [allow_multi],
    [authority] and the conflict metadata are; a fresh single-compartment request is
    granted exactly when its class is live or the pool has a free category; an
    [exhausted] refusal happens only with an empty pool. No refusal changes state. *)
Theorem allocate_decides (s : McsAllocator) (id : string) (ca fa : pyval)
    (multi : bool) (auth : option string) :
  id ≠ "" →
  ∃ s' r, allocate s id ca fa multi auth = Ok (s', r) ∧
    (ok r = false → s' = s) ∧
    (1 < size (frozen_strs ca) → ok r = false ∧ exhausted r = false) ∧
    (exhausted r = true → free s = ∅) ∧
    (size (frozen_strs ca) = 1 → by_attachment s !! id = None →
       (ok r = true ↔
        is_Some (by_key s !! (frozen_strs ca, frozen_strs fa)) ∨ free s ≠ ∅)).
Proof.
  intros Hid%truthy_true. unfold allocate. rewrite Hid. cbn [negb].
  destruct (bool_decide_reflect (frozen_strs ca = ∅)) as [->|Hne].
  { do 2 eexists. split; [done|]. naive_solver lia. }
  destruct (bool_decide_reflect (is_Some (by_attachment s !! id))) as [[k Hk]|Hna].
  { do 2 eexists. split; [done|]. simpl. rewrite Hk. naive_solver. }
  destruct (Nat.ltb_spec 1 (size (frozen_strs ca))) as [Hm|Hs].
  { repeat case_match; (do 2 eexists; split; [done|]); simpl; naive_solver lia. }
  destruct (by_key s !! _) as [a|] eqn:Hk.
  { do 2 eexists. split; [done|]. simpl. split; [done|]. split; [lia|].
    split; [done|]. intros _ _. split; [by left; eauto|done]. }
  destruct (elements (free s)) as [|c0 cs] eqn:He.
  - apply elements_empty_inv in He. apply leibniz_equiv in He.
    do 2 eexists. split; [done|]. simpl. repeat split; [lia|done..|].
    intros [[? [=]]|]. done.
  - assert (free s ≠ ∅) as Hf by (intros Hf; rewrite Hf, elements_empty in He; done).
    do 2 eexists. split; [done|]. simpl. split; [done|]. split; [lia|].
    split; [done|]. intros _ _. split; [by right|done].
Qed.

(** ** Concrete instances *)

Definition sample_s0 : McsAllocator :=
  {| pool_size := 2; sensitivity := "s0"; free := {[0; 1]}; by_key := ∅; by_attachment := ∅ |}.
Definition sample_alloc (s : McsAllocator) (id comp : string) : McsAllocator :=
  match allocate s id (PStr comp) PNone false None with Ok (s', _) => s' | Err _ => s end.
Definition sample_s1 : McsAllocator := sample_alloc (sample_alloc sample_s0 "a" "work") "b" "home".

Lemma sample_alloc_step s id comp : rtc step s (sample_alloc s id comp).
Proof.
  unfold sample_alloc. destruct (allocate _ _ _ _ _ _) as [[s' r]|e] eqn:E; [|reflexivity].
  apply rtc_once. by eapply step_allocate.
Qed.

Lemma sample_s0_new : new_allocator 2 "s0" = Ok sample_s0.
Proof. vm_compute. reflexivity. Qed.

Lemma mcs_isolation_witness :
  new_allocator 2 "s0" = Ok sample_s0 ∧ rtc step sample_s0 sample_s1 ∧
  label_for sample_s1 "a" = Some "s0:c0" ∧ label_for sample_s1 "b" = Some "s0:c1" ∧
  by_attachment sample_s1 !! "a" ≠ by_attachment sample_s1 !! "b".
Proof.
  assert (rtc step sample_s0 sample_s1) as Hr
    by (etransitivity; apply sample_alloc_step).
  assert (label_for sample_s1 "a" = Some "s0:c0") as Ha by (vm_compute; reflexivity).
  assert (label_for sample_s1 "b" = Some "s0:c1") as Hb by (vm_compute; reflexivity).
  split; [exact sample_s0_new|]. split; [exact Hr|]. split; [exact Ha|]. split; [exact Hb|].
  destruct (mcs_isolation 2 "s0" sample_s0 sample_s1 sample_s0_new Hr) as (_ & _ & H).
  rewrite <- (H "a" "b" _ _ Ha Hb). discriminate.
Defined.

Lemma release_undoes_allocate_witness :
  inv sample_s0 ∧ ∃ s' r, allocate sample_s0 "a" (PStr "work") PNone false None = Ok (s', r) ∧
    release s' "a" = (sample_s0, true).
Proof.
  assert (inv sample_s0) as Hi by exact (new_allocator_inv 2 "s0" _ sample_s0_new).
  split; [exact Hi|].
  assert (match allocate sample_s0 "a" (PStr "work") PNone false None with
          | Ok (_, r) => ok r | Err _ => false end = true) as Hok by (vm_compute; reflexivity).
  destruct (allocate sample_s0 "a" (PStr "work") PNone false None) as [[s' r]|e] eqn:E;
    [|discriminate Hok].
  exists s', r. split; [reflexivity|].
  exact (release_undoes_allocate _ _ _ _ _ _ _ _ Hi E Hok).
Defined.

Lemma allocate_decides_witness :
  "a" ≠ "" ∧ ∃ s' r,
    allocate sample_s0 "a" (PList [PStr "x"; PStr "y"]) PNone true (Some "wf:approve")
      = Ok (s', r) ∧ ok r = false.
Proof.
  assert ("a" ≠ "") as Ha by discriminate. split; [exact Ha|].
  destruct (allocate_decides sample_s0 "a" (PList [PStr "x"; PStr "y"]) PNone true
    (Some "wf:approve") Ha) as (s' & r & E & _ & H & _).
  exists s', r. split; [exact E|]. apply H. vm_compute. lia.
Defined.

End Mcs.
