(* ===== verification/Fnmatch.v ===== *)
(** * [fnmatch.fnmatchcase]

    The Standard Library matcher the rule selectors use. [tokens] reads a pattern the
    way [fnmatch.translate] does ([*], [?], bracket expressions with ranges, a bracket
    without its closing one read literally); [tok_match] is the resulting regular
    expression, anchored at both ends. *)

From S2P Require Import Prelude.

Module Glob.

Inductive set_item := One (c : ascii) | Rng (lo hi : ascii).

Inductive token :=
| Star
| AnyChar
| Class (neg : bool) (items : list set_item)
| Lit (c : ascii).

(** ** Bracket expressions *)

(** The body of a bracket expression, left to right: [x-y] is a range, any other
    character stands for itself. *)
Fixpoint read_items (fuel : nat) (s : string) : list set_item :=
  match fuel with
  | O => []
  | S fuel' =>
      match s with
      | "" => []
      | String lo (String d (String hi s')) =>
          if bool_decide (d = "-"%char) then Rng lo hi :: read_items fuel' s'
          else One lo :: read_items fuel' (String d (String hi s'))
      | String c s' => One c :: read_items fuel' s'
      end
  end.

(** An empty range is removed from the set. *)
Definition nonempty_item (i : set_item) : bool :=
  match i with One _ => true | Rng lo hi => (ord lo <=? ord hi)%N end.

Definition excl : ascii := "!"%char.
Definition items_of (s : string) : list set_item :=
  List.filter nonempty_item (read_items (String.length s) s).

(** The set of a bracket body: a leading [!] negates. It also negates when it comes
    to the front because an empty range before it was removed; a range starting with
    that [!] then degenerates to its two other characters. *)
Definition class_of (s : string) : token :=
  match s with
  | String c s' =>
      if bool_decide (c = excl) then Class true (items_of s')
      else match items_of s with
           | One c' :: items => if bool_decide (c' = excl) then Class true items
                                else Class false (One c' :: items)
           | Rng c' hi :: items => if bool_decide (c' = excl)
                                   then Class true (One "-"%char :: One hi :: items)
                                   else Class false (Rng c' hi :: items)
           | [] => Class false []
           end
  | "" => Class false []
  end.

(** Split at the first closing bracket. *)
Fixpoint to_close (s : string) : option (string * string) :=
  match s with
  | "" => None
  | String c s' =>
      if bool_decide (c = "]"%char) then Some ("", s')
      else '(b, r) ← to_close s'; Some (String c b, r)
  end.

(** [pat[i:j]] and what follows the closing bracket, which is searched after an
    optional [!] and an optional first [closing bracket]. *)
Definition bracket_body (s : string) : option (string * string) :=
  let '(neg, s1) := match s with
                    | String c s' => if bool_decide (c = excl) then (String c "", s') else ("", s)
                    | "" => ("", "")
                    end in
  let '(first, s2) := match s1 with
                      | String c s' =>
                          if bool_decide (c = "]"%char) then (String c "", s') else ("", s1)
                      | "" => ("", "")
                      end in
  '(b, r) ← to_close s2; Some (neg +:+ first +:+ b, r).

(** ** Patterns *)

Fixpoint read_tokens (fuel : nat) (s : string) : list token :=
  match fuel with
  | O => []
  | S fuel' =>
      match s with
      | "" => []
      | String c s' =>
          if bool_decide (c = "*"%char) then Star :: read_tokens fuel' s'
          else if bool_decide (c = "?"%char) then AnyChar :: read_tokens fuel' s'
          else if bool_decide (c = "["%char) then
            match bracket_body s' with
            | Some (body, rest) => class_of body :: read_tokens fuel' rest
            | None => Lit c :: read_tokens fuel' s'
            end
          else Lit c :: read_tokens fuel' s'
      end
  end.

(** Each step consumes a character, so the length is enough fuel. *)
Definition tokens (pat : string) : list token := read_tokens (String.length pat) pat.

Definition item_match (i : set_item) (c : ascii) : bool :=
  match i with
  | One c' => bool_decide (c = c')
  | Rng lo hi => ((ord lo <=? ord c) && (ord c <=? ord hi))%N
  end.

Definition one_match (t : token) (c : ascii) : bool :=
  match t with
  | Star => false
  | AnyChar => true
  | Class neg items => xorb neg (existsb (λ i, item_match i c) items)
  | Lit c' => bool_decide (c = c')
  end.

(** Some suffix of [s] is accepted. *)
Fixpoint any_suffix (f : string → bool) (s : string) : bool :=
  f s || match s with "" => false | String _ s' => any_suffix f s' end.

Fixpoint tok_match (ts : list token) (s : string) : bool :=
  match ts with
  | [] => bool_decide (s = "")
  | Star :: ts' => any_suffix (tok_match ts') s
  | t :: ts' =>
      match s with
      | "" => false
      | String c s' => one_match t c && tok_match ts' s'
      end
  end.

(** [fnmatch.fnmatchcase(name, pat)] *)
Definition fnmatchcase (name pat : string) : bool := tok_match (tokens pat) name.

(** ** The language of a pattern *)

Inductive matches_tokens : list token → string → Prop :=
| mt_nil : matches_tokens [] ""
| mt_star ts s1 s2 : matches_tokens ts s2 → matches_tokens (Star :: ts) (s1 +:+ s2)
| mt_one t ts c s : t ≠ Star → one_match t c = true → matches_tokens ts s →
    matches_tokens (t :: ts) (String c s).

Lemma any_suffix_spec f s :
  any_suffix f s = true ↔ ∃ s1 s2, s = s1 +:+ s2 ∧ f s2 = true.
Proof.
  induction s as [|c s IH]; simpl; rewrite orb_true_iff; split.
  - intros [Hf|]; [by exists "", ""|done].
  - intros (s1 & s2 & He & Hf). left. destruct s1; [|done].
    rewrite str_app_nil_l in He. by subst.
  - intros [Hf|(s1 & s2 & -> & Hf)%IH]; [by exists "", (String c s)|].
    by exists (String c s1), s2.
  - intros (s1 & s2 & He & Hf). destruct s1 as [|c' s1]; [left; rewrite str_app_nil_l in He; by subst|].
    right. rewrite str_app_cons in He. injection He as -> ->. apply IH. eauto.
Qed.

Lemma tok_match_spec ts s : tok_match ts s = true ↔ matches_tokens ts s.
Proof.
  revert s. induction ts as [|t ts IH]; intros s.
  - simpl. rewrite bool_decide_eq_true. split; [intros ->; constructor|by inversion 1].
  - assert (t = Star ∨ t ≠ Star) as [->|Ht] by (destruct t; auto).
    + simpl. rewrite any_suffix_spec. split.
      * intros (s1 & s2 & -> & H%IH). by constructor.
      * inversion 1; subst; [|done]. do 2 eexists. split; [done|]. by apply IH.
    + transitivity (∃ c s', s = String c s' ∧ one_match t c = true ∧ tok_match ts s' = true).
      { destruct t as [| |neg items|c0]; [done|..]; simpl; destruct s as [|c s']; (split; [intros H|intros (?&?&?&?&?)]);
          simplify_eq; try (apply andb_true_iff in H as [? ?]); eauto; by apply andb_true_iff. }
      split.
      * intros (c & s' & -> & H1 & H2%IH). by constructor.
      * inversion 1; subst; [done|]. do 2 eexists. split; [done|]. by rewrite IH.
Qed.

(** A pattern without [*], [?] and brackets is the literal string. *)
Definition glob_char (c : ascii) : bool :=
  bool_decide (c ∈ ["*"%char; "?"%char; "["%char]).

Lemma read_tokens_literal fuel s :
  String.length s ≤ fuel → forall_char (λ c, negb (glob_char c)) s = true →
  ∀ name, tok_match (read_tokens fuel s) name = true ↔ name = s.
Proof.
  revert s. induction fuel as [|fuel IH]; intros [|c s]; simpl; intros Hf Hl name;
    try (rewrite bool_decide_eq_true; done); [lia|].
  apply andb_true_iff in Hl as [Hc Hl]. apply negb_true_iff, bool_decide_eq_false in Hc.
  rewrite !bool_decide_false by (intros ->; apply Hc; set_solver). simpl.
  destruct name as [|c' name]; [done|].
  rewrite andb_true_iff, bool_decide_eq_true, IH by (done || lia). naive_solver.
Qed.

Lemma fnmatch_literal pat name :
  forall_char (λ c, negb (glob_char c)) pat = true →
  fnmatchcase name pat = true ↔ name = pat.
Proof. intros H. by apply read_tokens_literal. Qed.

(** The empty string is matched only by stars. *)
Lemma tok_match_empty ts : tok_match ts "" = true ↔ Forall (eq Star) ts.
Proof.
  rewrite tok_match_spec. split.
  - induction ts as [|t ts IH]; [constructor|]. inversion 1; subst.
    destruct s1; [|done]. rewrite str_app_nil_l in *. subst. constructor; auto.
  - induction 1 as [|t ts <- _ IH]; [constructor|]. apply (mt_star ts "" ""), IH.
Qed.

End Glob.
