(* ===== verification/Rules.v ===== *)
(** * Declarative pre-approval rules

    [src/broker/qdistro_admin_rules.py]: the rule record and its selectors, the loader
    that validates one YAML entry, the directory walk, and first-match lookup. YAML
    parsing and the file system enter as values: a directory maps file names to the
    outcome of [getsize] and [yaml.safe_load]. Error texts are enumerated; [name] and
    [rationale] keep the value the code renders with [str]. *)

From S2P Require Import Prelude Fnmatch.
Import Glob.

Module AdminRules.

Definition MAX_FILE_BYTES : Z := 1 * 1024 * 1024.
Definition MAX_TOTAL_BYTES : Z := 8 * 1024 * 1024.

Definition VALID_SCOPES : gset string :=
  {["once"; "1h"; "24h"; "forever"; "forever_exe"; "forever_argv"; "forever_basename";
    "forever_prefix"]}.
Definition VALID_DECISIONS : gset string := {["allow"; "deny"]}.

Record Rule := {
  rl_name : pyval;
  rl_decision : string;
  rl_source_path : string;
  rl_uid : option Z;
  rl_action : option string;
  rl_exe : option string;
  rl_app_id : option string;
  rl_sandbox_engine : option string;
  rl_mime_type : option string;
  rl_argv_exact : option (list string);
  rl_argv_basename : option string;
  rl_argv_prefix : option (list string);
  rl_scope : option string;
  rl_rationale : pyval;
}.

(** The arguments of [match]; [argv] is [None] for a caller without one. *)
Record request := {
  rq_uid : Z;
  rq_action : string;
  rq_exe : string;
  rq_app_id : string;
  rq_sandbox_engine : string;
  rq_mime_type : string;
  rq_argv : option (list string);
}.

(** ** Matching *)

(** [_str_selector_match] *)
Definition str_selector_match (rule_value request_value : string) : bool :=
  if has_char "*"%char rule_value then fnmatchcase request_value rule_value
  else bool_decide (rule_value = request_value).

(** A selector that is [None] is not consulted. *)
Definition selector_ok (sel : option string) (v : string) : bool :=
  match sel with None => true | Some p => str_selector_match p v end.

(** [Rule.matches] *)
Definition matches (r : Rule) (q : request) : bool :=
  match rl_uid r with None => true | Some u => (u =? rq_uid q)%Z end &&
  selector_ok (rl_action r) (rq_action q) &&
  selector_ok (rl_exe r) (rq_exe q) &&
  selector_ok (rl_app_id r) (rq_app_id q) &&
  selector_ok (rl_sandbox_engine r) (rq_sandbox_engine q) &&
  selector_ok (rl_mime_type r) (rq_mime_type q) &&
  match rl_argv_exact r with
  | None => true
  | Some want => bool_decide (rq_argv q = Some want)
  end &&
  match rl_argv_basename r with
  | None => true
  | Some want =>
      match rq_argv q with
      | Some (a0 :: _) => str_selector_match want (basename a0)
      | _ => false
      end
  end &&
  match rl_argv_prefix r with
  | None => true
  | Some want =>
      match rq_argv q with
      | Some argv => (length want <=? length argv) && bool_decide (take (length want) argv = want)
      | None => false
      end
  end.

(** ** Validating one entry *)

Inductive rule_error :=
| VE_not_mapping | VE_decision | VE_match_not_mapping | VE_type (selector : string)
| VE_argv_list (selector : string) | VE_argv_empty (selector : string) | VE_basename_slash
| VE_many_argv | VE_scope | VE_unknown_top | VE_unknown_match.

(** A rejected entry raises [ValueError], which the caller records. [TypeError] is what
    set membership raises on an unhashable value and [sorted] on keys it cannot
    compare; the caller does not catch it. *)
Inductive rule_exn := ValueError (e : rule_error) | TypeError.

(** [v in frozenset(...)] *)
Definition str_member (v : pyval) (s : gset string) : result rule_exn bool :=
  if hashable v then Ok (match v with PStr x => bool_decide (x ∈ s) | _ => false end)
  else Err TypeError.

(** [x = match.get(key)] that must be [None] or a string *)
Definition get_str (d : list (pyval * pyval)) (key : string) : result rule_exn (option string) :=
  match dict_get d key with
  | PNone => Ok None
  | PStr s => Ok (Some s)
  | _ => Err (ValueError (VE_type key))
  end.

(** [argv_exact] and [argv_prefix]: [None] or a non-empty list of strings *)
Definition get_argv (d : list (pyval * pyval)) (key : string)
    : result rule_exn (option (list string)) :=
  match dict_get d key with
  | PNone => Ok None
  | PList l =>
      match mapM as_str l with
      | None => Err (ValueError (VE_argv_list key))
      | Some [] => Err (ValueError (VE_argv_empty key))
      | Some strs => Ok (Some strs)
      end
  | _ => Err (ValueError (VE_argv_list key))
  end.

Definition is_str_val (v : pyval) : bool := match v with PStr _ => true | _ => false end.
Definition is_num_val (v : pyval) : bool :=
  match v with PInt _ | PBool _ | PFloat _ => true | _ => false end.

(** [set(d.keys()) - known], then [raise ValueError(... sorted(unknown))] when any is left *)
Definition check_keys (d : list (pyval * pyval)) (known : gset string) (e : rule_error)
    : result rule_exn unit :=
  let unknown := List.filter (λ k, negb (match k with PStr s => bool_decide (s ∈ known) | _ => false end)) d.*1 in
  match unknown with
  | [] => Ok tt
  | [_] => Err (ValueError e)
  | _ => if forallb is_str_val unknown || forallb is_num_val unknown
         then Err (ValueError e) else Err TypeError
  end.

Definition TOP_KEYS : gset string := {["name"; "decision"; "match"; "scope"; "rationale"]}.
Definition MATCH_KEYS : gset string :=
  {["uid"; "action"; "exe"; "app_id"; "sandbox_engine"; "mime_type"; "argv_exact";
    "argv_basename"; "argv_prefix"]}.

Definition count_some (a b c : bool) : nat := Nat.b2n a + Nat.b2n b + Nat.b2n c.

(** [d.get(key) or fallback] *)
Definition get_or (d : list (pyval * pyval)) (key : string) (fallback : pyval) : pyval :=
  let v := dict_get d key in if pytruthy v then v else fallback.

(** [_rule_from_dict] *)
Definition rule_from_dict (entry : pyval) (source_path : string) : result rule_exn Rule :=
  match entry with
  | PDict entry =>
      let* dec_ok := str_member (dict_get entry "decision") VALID_DECISIONS in
      let* _ := guard_else dec_ok (ValueError VE_decision) (Ok tt) in
      match get_or entry "match" (PDict []) with
      | PDict mtch =>
          let* uid := match dict_get mtch "uid" with
                      | PNone => Ok None
                      | v => match as_int v with
                             | Some z => Ok (Some z)
                             | None => Err (ValueError (VE_type "uid"))
                             end
                      end in
          let* action := get_str mtch "action" in
          let* exe := get_str mtch "exe" in
          let* app_id := get_str mtch "app_id" in
          let* sandbox_engine := get_str mtch "sandbox_engine" in
          let* mime_type := get_str mtch "mime_type" in
          let* argv_exact := get_argv mtch "argv_exact" in
          let* argv_basename := get_str mtch "argv_basename" in
          let* _ := guard_else (match argv_basename with
                                | Some b => negb (has_char "/"%char b) | None => true end)
                      (ValueError VE_basename_slash) (Ok tt) in
          let* argv_prefix := get_argv mtch "argv_prefix" in
          let* _ := guard_else
                      (count_some (bool_decide (is_Some argv_exact))
                         (bool_decide (is_Some argv_basename))
                         (bool_decide (is_Some argv_prefix)) <=? 1)
                      (ValueError VE_many_argv) (Ok tt) in
          let scope := dict_get entry "scope" in
          let* scope_ok := if is_none scope then Ok true else str_member scope VALID_SCOPES in
          let* _ := guard_else scope_ok (ValueError VE_scope) (Ok tt) in
          let* _ := check_keys entry TOP_KEYS VE_unknown_top in
          let* _ := check_keys mtch MATCH_KEYS VE_unknown_match in
          Ok {| rl_name := get_or entry "name" (PStr "(unnamed)");
                rl_decision := default "" (as_str (dict_get entry "decision"));
                rl_source_path := source_path; rl_uid := uid; rl_action := action;
                rl_exe := exe; rl_app_id := app_id; rl_sandbox_engine := sandbox_engine;
                rl_mime_type := mime_type; rl_argv_exact := argv_exact;
                rl_argv_basename := argv_basename; rl_argv_prefix := argv_prefix;
                rl_scope := as_str scope; rl_rationale := get_or entry "rationale" (PStr "") |}
      | _ => Err (ValueError VE_match_not_mapping)
      end
  | _ => Err (ValueError VE_not_mapping)
  end.

(** ** The engine *)

(** A file of the rules directory: its size ([None] when [getsize] raises) and what
    [yaml.safe_load] returns ([None] when opening or parsing raises). *)
Record rules_file := { rf_size : option Z; rf_data : option pyval }.

Inductive load_error :=
| LE_no_yaml | LE_stat (path : string) | LE_file_cap (path : string)
| LE_total_cap (path : string) | LE_parse (path : string) | LE_not_list (path : string)
| LE_entry (path : string) (i : nat) (e : rule_error).

Record RulesEngine := {
  eng_dir : string;
  eng_rules : list Rule;
  eng_errors : list load_error;
}.

(** [os.path.join(dir, name)] for a listed name *)
Definition path_join (dir name : string) : string :=
  if negb (truthy dir) || ends_with "/" dir then dir +:+ name else dir +:+ "/" +:+ name.

(** [for i, entry in enumerate(data)]; an escaping exception ends the load. *)
Fixpoint load_entries (path : string) (i : nat) (data : list pyval)
    (rules : list Rule) (errors : list load_error)
    : list Rule * list load_error * option rule_exn :=
  match data with
  | [] => (rules, errors, None)
  | entry :: data' =>
      match rule_from_dict entry path with
      | Ok r => load_entries path (S i) data' (rules ++ [r]) errors
      | Err (ValueError e) => load_entries path (S i) data' rules (errors ++ [LE_entry path i e])
      | Err TypeError => (rules, errors, Some TypeError)
      end
  end.

(** The loop over the sorted listing, with [total_bytes] *)
Fixpoint load_files (dir : string) (names : list string) (files : gmap string rules_file)
    (total : Z) (rules : list Rule) (errors : list load_error)
    : list Rule * list load_error * option rule_exn :=
  match names with
  | [] => (rules, errors, None)
  | name :: names' =>
      if negb (ends_with ".yaml" name || ends_with ".yml" name) then
        load_files dir names' files total rules errors
      else
        let path := path_join dir name in
        match f ← files !! name; rf_size f with
        | None => load_files dir names' files total rules (errors ++ [LE_stat path])
        | Some size =>
            if (MAX_FILE_BYTES <? size)%Z then
              load_files dir names' files total rules (errors ++ [LE_file_cap path])
            else if (MAX_TOTAL_BYTES <? total + size)%Z then
              (rules, errors ++ [LE_total_cap path], None)
            else
              let total' := (total + size)%Z in
              match f ← files !! name; rf_data f with
              | None => load_files dir names' files total' rules (errors ++ [LE_parse path])
              | Some PNone => load_files dir names' files total' rules errors
              | Some (PList data) =>
                  match load_entries path 0 data rules errors with
                  | (rules', errors', None) => load_files dir names' files total' rules' errors'
                  | stop => stop
                  end
              | Some _ => load_files dir names' files total' rules (errors ++ [LE_not_list path])
              end
        end
  end.

(** [RulesEngine.reload]: the engine afterwards and the exception that escapes, if any.
    [listing] is [None] when the directory does not exist. *)
Definition reload (e : RulesEngine) (has_yaml : bool)
    (listing : option (gmap string rules_file)) : RulesEngine * option rule_exn :=
  let set rules errors := {| eng_dir := eng_dir e; eng_rules := rules; eng_errors := errors |} in
  if negb has_yaml then (set [] [LE_no_yaml], None)
  else
    match listing with
    | None => (set [] [], None)
    | Some files =>
        let '(rules, errors, exn) :=
          load_files (eng_dir e) (py_sorted (elements (dom files))) files 0 [] [] in
        (set rules errors, exn)
    end.

(** [RulesEngine.match], with its optional [decision] filter *)
Fixpoint match_rules (rules : list Rule) (q : request) (decision : option string)
    : option Rule :=
  match rules with
  | [] => None
  | r :: rules' =>
      if match decision with Some d => bool_decide (rl_decision r ≠ d) | None => false end then
        match_rules rules' q decision
      else if matches r q then Some r
      else match_rules rules' q decision
  end.

Definition match_ (e : RulesEngine) (q : request) (decision : option string) : option Rule :=
  match_rules (eng_rules e) q decision.

(** ** Properties of matching *)

Lemma match_rules_Some rules q dec r :
  match_rules rules q dec = Some r ↔
  ∃ pre post, rules = pre ++ r :: post ∧ matches r q = true ∧
    (∀ d, dec = Some d → rl_decision r = d) ∧
    Forall (λ r', (∀ d, dec = Some d → rl_decision r' = d) → matches r' q = false) pre.
Proof.
  induction rules as [|x rules IH]; simpl.
  { split; [done|]. by intros ([|??] & ? & ? & _). }
  set (skip := match dec with Some d => bool_decide (rl_decision x ≠ d) | None => false end).
  assert (skip = false ↔ ∀ d, dec = Some d → rl_decision x = d) as Hskip.
  { unfold skip. destruct dec as [d|]; [|naive_solver].
    rewrite bool_decide_eq_false. split; [intros H d' [= <-]; by apply dec_stable|naive_solver]. }
  assert ((∃ pre post, x :: rules = pre ++ r :: post ∧ matches r q = true ∧
    (∀ d, dec = Some d → rl_decision r = d) ∧
    Forall (λ r', (∀ d, dec = Some d → rl_decision r' = d) → matches r' q = false) pre) ↔
    (x = r ∧ skip = false ∧ matches x q = true) ∨
    (skip = true ∨ matches x q = false) ∧ match_rules rules q dec = Some r) as ->.
  { rewrite IH. split.
    - intros ([|y pre] & post & He & Hm & Hd & Hpre); simplify_eq/=.
      + left. by rewrite Hskip.
      + right. apply Forall_cons in Hpre as [Hy Hpre]. split; [|by exists pre, post].
        rewrite <- Hskip in Hy. destruct skip; auto.
    - intros [(-> & Hs & Hm)|(Hx & pre & post & -> & Hm & Hd & Hpre)].
      + exists [], rules. split; [done|]. split; [done|]. split; [by apply Hskip|constructor].
      + exists (x :: pre), post. do 3 (split; [done|]). constructor; [|done].
        rewrite <- Hskip. intros Hs. destruct Hx; congruence. }
  destruct skip; [naive_solver|]. destruct (matches x q) eqn:Hm.
  - split; [intros [= ->]; auto|naive_solver].
  - naive_solver.
Qed.

(** [match] is first-match: it answers a rule exactly when that rule matches (and
    carries the requested decision, if one is asked for) and no earlier candidate in
    load order does; it answers nothing exactly when no candidate matches. *)
Theorem match_first (e : RulesEngine) (q : request) (decision : option string) :
  (∀ r, match_ e q decision = Some r ↔
    ∃ pre post, eng_rules e = pre ++ r :: post ∧ matches r q = true ∧
      (∀ d, decision = Some d → rl_decision r = d) ∧
      Forall (λ r', (∀ d, decision = Some d → rl_decision r' = d) → matches r' q = false) pre) ∧
  (match_ e q decision = None ↔
    Forall (λ r, (∀ d, decision = Some d → rl_decision r = d) → matches r q = false)
      (eng_rules e)).
Proof.
  unfold match_. split; [apply match_rules_Some|].
  induction (eng_rules e) as [|x rules IH]; simpl; [split; [constructor|done]|].
  rewrite Forall_cons, <- IH.
  destruct decision as [d|]; [case_bool_decide as Hd|].
  - split; [intros H; split; [|done]; intros Hc; by destruct Hd; apply Hc|naive_solver].
  - destruct (matches x q); naive_solver.
  - destruct (matches x q); naive_solver.
Qed.

(** What a selector accepts: itself, or the language of the glob it is. *)
Definition selector_accepts (sel : option string) (v : string) : Prop :=
  match sel with
  | None => True
  | Some p => if has_char "*"%char p then matches_tokens (tokens p) v else v = p
  end.

Lemma str_selector_spec p v :
  str_selector_match p v = true ↔ selector_accepts (Some p) v.
Proof.
  unfold str_selector_match, selector_accepts. case_match.
  - apply tok_match_spec.
  - rewrite bool_decide_eq_true. naive_solver.
Qed.

Lemma selector_ok_spec sel v : selector_ok sel v = true ↔ selector_accepts sel v.
Proof. destruct sel as [p|]; [apply str_selector_spec|simpl; naive_solver]. Qed.

(** A rule matches a request exactly when every selector it names accepts the
    corresponding attribute (equality, or the glob's language), and each argv selector
    it names is met by an argv the request carries: the whole vector, the basename of
    its first element, or a prefix of it. *)
Theorem matches_spec (r : Rule) (q : request) :
  matches r q = true ↔
  (∀ u, rl_uid r = Some u → rq_uid q = u) ∧
  selector_accepts (rl_action r) (rq_action q) ∧
  selector_accepts (rl_exe r) (rq_exe q) ∧
  selector_accepts (rl_app_id r) (rq_app_id q) ∧
  selector_accepts (rl_sandbox_engine r) (rq_sandbox_engine q) ∧
  selector_accepts (rl_mime_type r) (rq_mime_type q) ∧
  (∀ want, rl_argv_exact r = Some want → rq_argv q = Some want) ∧
  (∀ want, rl_argv_basename r = Some want →
    ∃ a0 rest, rq_argv q = Some (a0 :: rest) ∧ selector_accepts (Some want) (basename a0)) ∧
  (∀ want, rl_argv_prefix r = Some want → ∃ rest, rq_argv q = Some (want ++ rest)).
Proof.
  unfold matches. rewrite !andb_true_iff, !selector_ok_spec.
  assert (match rl_uid r with None => true | Some u => (u =? rq_uid q)%Z end = true ↔
    ∀ u, rl_uid r = Some u → rq_uid q = u) as ->.
  { destruct (rl_uid r); [rewrite Z.eqb_eq|]; naive_solver. }
  assert (match rl_argv_exact r with None => true
    | Some want => bool_decide (rq_argv q = Some want) end = true ↔
    ∀ want, rl_argv_exact r = Some want → rq_argv q = Some want) as ->.
  { destruct (rl_argv_exact r); [rewrite bool_decide_eq_true|]; naive_solver. }
  assert (match rl_argv_basename r with None => true | Some want =>
    match rq_argv q with Some (a0 :: _) => str_selector_match want (basename a0)
    | _ => false end end = true ↔
    ∀ want, rl_argv_basename r = Some want →
      ∃ a0 rest, rq_argv q = Some (a0 :: rest) ∧ selector_accepts (Some want) (basename a0)) as ->.
  { destruct (rl_argv_basename r) as [w|]; [|naive_solver].
    destruct (rq_argv q) as [[|a0 rest]|]; [naive_solver| |naive_solver].
    rewrite str_selector_spec. naive_solver. }
  assert (match rl_argv_prefix r with None => true | Some want =>
    match rq_argv q with
    | Some argv => (length want <=? length argv) && bool_decide (take (length want) argv = want)
    | None => false end end = true ↔
    ∀ want, rl_argv_prefix r = Some want → ∃ rest, rq_argv q = Some (want ++ rest)) as ->.
  { destruct (rl_argv_prefix r) as [w|]; [|naive_solver].
    destruct (rq_argv q) as [argv|]; [|naive_solver].
    rewrite andb_true_iff, Nat.leb_le, bool_decide_eq_true. split.
    - intros [_ Ht] w' [= <-]. exists (drop (length w) argv). by rewrite <- Ht at 1; rewrite take_drop.
    - intros H. destruct (H w eq_refl) as (rest & [= ->]).
      rewrite length_app, take_app_length. split; [lia|done]. }
  tauto.
Qed.

(** ** Selectors and absent attributes *)

Definition is_star (c : ascii) : bool := bool_decide (c = "*"%char).

Lemma class_of_not_star s : class_of s ≠ Star.
Proof. unfold class_of. repeat case_match; done. Qed.

Lemma read_tokens_stars fuel p :
  String.length p ≤ fuel → Forall (eq Star) (read_tokens fuel p) ↔ forall_char is_star p = true.
Proof.
  revert p. induction fuel as [|fuel IH]; intros [|c p]; simpl; intros Hf; [naive_solver|lia|naive_solver|].
  unfold is_star at 1. rewrite andb_true_iff, bool_decide_eq_true.
  case_bool_decide as Hc.
  - rewrite Forall_cons, IH by lia. naive_solver.
  - split; [|naive_solver]. repeat case_match; intros Hfa; apply Forall_cons in Hfa as [He _];
      try done. by destruct (class_of_not_star _ (eq_sym He)).
Qed.

Lemma forall_char_has_char c p :
  forall_char (λ a, bool_decide (a = c)) p = true → p ≠ "" → has_char c p = true.
Proof. destruct p; [done|]. simpl. case_bool_decide; [done|]. done. Qed.

Lemma selector_empty p : str_selector_match p "" = forall_char is_star p.
Proof.
  unfold str_selector_match. destruct (has_char "*"%char p) eqn:Hs.
  - unfold fnmatchcase. apply eq_true_iff_eq.
    rewrite tok_match_empty. by apply read_tokens_stars.
  - destruct (forall_char is_star p) eqn:Hf.
    + destruct (decide (p = "")) as [->|Hne]; [done|].
      apply forall_char_has_char in Hf; [congruence|done].
    + case_bool_decide; [by subst|done].
Qed.

(** No tier bleed. A rule that names a sandbox engine, app id or mime type with
    anything but stars (an exact value, or a glob with some other character) does not
    match a request whose attribute is empty, whatever else the rule says; a selector
    of stars only, the empty one included, does accept the empty attribute. *)
Theorem selector_presence (r : Rule) (q : request) (p : string) :
  (rl_sandbox_engine r = Some p ∧ rq_sandbox_engine q = "" ∨
   rl_app_id r = Some p ∧ rq_app_id q = "" ∨
   rl_mime_type r = Some p ∧ rq_mime_type q = "") →
  (forall_char is_star p = false → matches r q = false) ∧
  str_selector_match p "" = forall_char is_star p.
Proof.
  intros Hp. split; [|apply selector_empty]. intros Hs. rewrite <- selector_empty in Hs.
  unfold matches.
  destruct Hp as [[-> ->]|[[-> ->]|[-> ->]]]; simpl; rewrite Hs;
    by rewrite ?andb_false_r, ?andb_false_l.
Qed.

(** ** Properties of loading *)

(** What the loader guarantees of a rule *)
Definition rule_wf (r : Rule) : Prop :=
  rl_decision r ∈ VALID_DECISIONS ∧
  (∀ s, rl_scope r = Some s → s ∈ VALID_SCOPES) ∧
  (∀ b, rl_argv_basename r = Some b → has_char "/"%char b = false) ∧
  rl_argv_exact r ≠ Some [] ∧ rl_argv_prefix r ≠ Some [] ∧
  count_some (bool_decide (is_Some (rl_argv_exact r)))
    (bool_decide (is_Some (rl_argv_basename r)))
    (bool_decide (is_Some (rl_argv_prefix r))) ≤ 1.

Lemma get_argv_nonempty d key o : get_argv d key = Ok o → o ≠ Some [].
Proof. unfold get_argv. intros H. repeat case_match; by simplify_eq. Qed.

Lemma rule_from_dict_wf entry path r :
  rule_from_dict entry path = Ok r → rule_wf r ∧ rl_source_path r = path.
Proof.
  unfold rule_from_dict. destruct entry as [| | | | | |entry]; try done.
  intros (dec & Hdec & (u0 & Hok & H)%result_bind_ok)%result_bind_ok.
  destruct (get_or entry "match" (PDict [])) as [| | | | | |mtch]; try done.
  repeat match type of H with
  | result_bind _ _ = Ok _ =>
      let x := fresh "x" in let E := fresh "E" in
      apply result_bind_ok in H as (x & E & H)
  end.
  injection H as <-. apply guard_else_ok in Hok as [-> _].
  repeat match goal with
  | E : guard_else _ _ _ = Ok _ |- _ => apply guard_else_ok in E as [E _]
  end.
  split; [|done]. unfold rule_wf. simpl.
  assert (∀ v s, str_member v s = Ok true → ∃ x, as_str v = Some x ∧ x ∈ s) as Hmem.
  { intros v s Hv. unfold str_member in Hv. destruct v; simpl in Hv; simplify_eq; bool_hyps; eauto. }
  split; [apply Hmem in Hdec as (x' & -> & Hx'); done|].
  split.
  { intros s Hs. destruct (dict_get entry "scope"); simpl in *; try done. simplify_eq.
    match goal with
    | Em : str_member (PStr _) _ = Ok true |- _ =>
        apply Hmem in Em as (? & [= <-] & ?); done
    end. }
  split.
  { intros b ->. by apply negb_true_iff. }
  repeat split; [by eapply get_argv_nonempty..|]. by apply Nat.leb_le.
Qed.

Lemma load_entries_wf path i data rules errors :
  Forall rule_wf rules → Forall rule_wf (load_entries path i data rules errors).1.1.
Proof.
  revert i rules errors. induction data as [|e data IH]; intros i rules errors Hr; simpl; [done|].
  destruct (rule_from_dict e path) as [r|[er|]] eqn:E; [|by apply IH|done].
  apply IH. apply Forall_app. split; [done|]. constructor; [|constructor].
  by eapply rule_from_dict_wf.
Qed.

Lemma load_files_wf dir names files total rules errors :
  Forall rule_wf rules →
  Forall rule_wf (load_files dir names files total rules errors).1.1.
Proof.
  revert total rules errors. induction names as [|n names IH]; intros total rules errors Hr;
    cbn [load_files]; [done|].
  pose proof (load_entries_wf (path_join dir n) 0) as Hle.
  repeat case_match; simplify_eq; try done; try (by apply IH);
    match goal with
    | He : load_entries _ _ ?l _ _ = _ |- _ =>
        specialize (Hle l rules errors Hr); rewrite He in Hle; first [done | by apply IH]
    end.
Qed.

(** Whatever the rules directory holds, every rule the engine serves after a reload
    is well formed: its decision is allow or deny, its scope is in the vocabulary, at
    most one argv selector is set, argv lists are non-empty and a basename has no
    slash; and an engine without YAML or without a directory serves no rule. *)
Theorem reload_wf (e : RulesEngine) (has_yaml : bool)
    (listing : option (gmap string rules_file)) :
  Forall rule_wf (eng_rules (reload e has_yaml listing).1) ∧
  (has_yaml = false ∨ listing = None → eng_rules (reload e has_yaml listing).1 = []).
Proof.
  unfold reload. destruct has_yaml; [|split; [constructor|done]].
  destruct listing as [files|]; [|split; [constructor|done]]. simpl.
  pose proof (load_files_wf (eng_dir e) (py_sorted (elements (dom files))) files 0 [] []
    (Forall_nil_2 _)) as Hwf.
  destruct (load_files _ _ _ _ _ _) as [[rules errors] exn]. simpl in *.
  split; [done|]. by intros [?|?].
Qed.

(** A reload is not entry-by-entry fault tolerant: when the first entry of the first
    rule file gives [decision] a list or a mapping, [TypeError] escapes and the engine is
    left with no rule at all, the valid entries after it and the deny rules of the other
    files included, and with no load error recorded. *)
Theorem reload_unhashable_escapes (e : RulesEngine) (files : gmap string rules_file)
    (name : string) (names : list string) (size : Z) (entry : list (pyval * pyval))
    (more : list pyval) :
  py_sorted (elements (dom files)) = name :: names →
  ends_with ".yaml" name = true →
  files !! name = Some {| rf_size := Some size; rf_data := Some (PList (PDict entry :: more)) |} →
  (0 ≤ size ≤ MAX_FILE_BYTES)%Z →
  hashable (dict_get entry "decision") = false →
  reload e true (Some files) =
    ({| eng_dir := eng_dir e; eng_rules := []; eng_errors := [] |}, Some TypeError).
Proof.
  intros Hs Hn Hf Hsz Hh. unfold reload. cbn [negb]. rewrite Hs. cbn [load_files].
  rewrite Hn, Hf. cbn [orb negb mbind option_bind rf_size rf_data].
  assert ((MAX_FILE_BYTES <? size)%Z = false) as -> by lia.
  assert ((MAX_TOTAL_BYTES <? 0 + size)%Z = false) as ->
    by (unfold MAX_TOTAL_BYTES, MAX_FILE_BYTES in *; lia).
  cbn [load_entries rule_from_dict]. unfold str_member. by rewrite Hh.
Qed.

(** ** Concrete instances *)

Definition empty_rule : Rule :=
  {| rl_name := PStr "tier2"; rl_decision := "allow"; rl_source_path := "/r/a.yaml";
     rl_uid := None; rl_action := None; rl_exe := None; rl_app_id := None;
     rl_sandbox_engine := Some "qdistro.*"; rl_mime_type := None; rl_argv_exact := None;
     rl_argv_basename := None; rl_argv_prefix := None; rl_scope := None;
     rl_rationale := PStr "" |}.
Definition host_request : request :=
  {| rq_uid := 1000; rq_action := "qdistro.test"; rq_exe := "/usr/bin/x"; rq_app_id := "";
     rq_sandbox_engine := ""; rq_mime_type := ""; rq_argv := None |}.

Lemma selector_presence_witness :
  rl_sandbox_engine empty_rule = Some "qdistro.*" ∧ rq_sandbox_engine host_request = "" ∧
  matches empty_rule host_request = false.
Proof.
  split; [reflexivity|]. split; [reflexivity|].
  destruct (selector_presence empty_rule host_request "qdistro.*"
              (or_introl (conj eq_refl eq_refl))) as [H _].
  apply H. reflexivity.
Defined.

Definition bad_entry : list (pyval * pyval) := [(PStr "decision", PList [PStr "allow"])].
Definition deny_entry : list (pyval * pyval) := [(PStr "decision", PStr "deny")].
Definition bad_listing : gmap string rules_file :=
  {["10-bad.yaml" := {| rf_size := Some 40%Z; rf_data := Some (PList [PDict bad_entry]) |};
    "20-deny.yaml" := {| rf_size := Some 40%Z; rf_data := Some (PList [PDict deny_entry]) |}]}.
Definition sample_engine : RulesEngine :=
  {| eng_dir := "/etc/qdistro/rules.d"; eng_rules := []; eng_errors := [] |}.

Lemma reload_unhashable_escapes_witness :
  py_sorted (elements (dom bad_listing)) = ["10-bad.yaml"; "20-deny.yaml"] ∧
  reload sample_engine true (Some bad_listing) = (sample_engine, Some TypeError).
Proof.
  assert (py_sorted (elements (dom bad_listing)) = ["10-bad.yaml"; "20-deny.yaml"]) as Hs
    by (vm_compute; reflexivity).
  split; [exact Hs|].
  apply (reload_unhashable_escapes sample_engine bad_listing "10-bad.yaml" ["20-deny.yaml"]
           40 bad_entry []); [exact Hs|reflexivity..|unfold MAX_FILE_BYTES; lia|reflexivity].
Defined.

(** Without the first file the deny rule is served. *)
Example deny_alone_is_served :
  option_map rl_decision
    (match_ (reload sample_engine true (Some (delete "10-bad.yaml" bad_listing))).1
       host_request None) = Some "deny".
Proof. vm_compute. reflexivity. Qed.

End AdminRules.
