(* ===== verification/RateLimit.v ===== *)
(** * Per-(uid, action) sliding-window rate limiter

    [src/broker/qdistro_admin_ratelimit.py]. The clock reading of a call is an argument
    and times are integers; a bucket is the list of its timestamps, oldest first. *)

From S2P Require Import Prelude.

Module RateLimit.

Definition DEFAULT_LIMIT : Z := 50.
Definition DEFAULT_MAX_KEYS : Z := 10000.

Abbreviation rl_key := (Z * string)%type.

Record RateLimiter := {
  limit : nat;
  window_s : Z;
  max_keys : nat;
  buckets : list (rl_key * list Z);
}.

Inductive rl_error := RE_limit | RE_window | RE_max_keys.

(** [RateLimiter(limit=..., window_s=..., max_keys=...)] *)
Definition new_limiter (lim w maxk : Z) : result rl_error RateLimiter :=
  let* _ := guard_else (1 <=? lim)%Z RE_limit (Ok tt) in
  let* _ := guard_else (0 <? w)%Z RE_window (Ok tt) in
  let* _ := guard_else (1 <=? maxk)%Z RE_max_keys (Ok tt) in
  Ok {| limit := Z.to_nat lim; window_s := w; max_keys := Z.to_nat maxk; buckets := [] |}.

(** [_last_seen]: the newest timestamp, -1 for an empty bucket *)
Definition last_seen (item : rl_key * list Z) : Z := default (-1)%Z (last item.2).

(** Delete the bucket that has been quiet longest. *)
Definition evict (bs : list (rl_key * list Z)) : list (rl_key * list Z) :=
  match bs with
  | [] => []
  | b :: bs' => od_del bs (min_by last_seen b bs').1
  end.

(** [while bucket and bucket[0] < cutoff: bucket.popleft()] *)
Fixpoint trim (cutoff : Z) (bucket : list Z) : list Z :=
  match bucket with
  | [] => []
  | t :: bucket' => if (t <? cutoff)%Z then trim cutoff bucket' else bucket
  end.

(** [RateLimiter.check] at clock reading [now] *)
Definition check (s : RateLimiter) (now : Z) (uid : Z) (action : string) : RateLimiter * bool :=
  let key := (uid, action) in
  let cutoff := (now - window_s s)%Z in
  let existing := bool_decide (key ∈ keys (buckets s)) in
  let bs := if negb existing && (max_keys s <=? length (buckets s))
            then evict (buckets s) else buckets s in
  let bucket := trim cutoff (default [] (od_get bs key)) in
  let with_bucket b := {| limit := limit s; window_s := window_s s; max_keys := max_keys s;
                          buckets := od_set bs key b |} in
  if limit s <=? length bucket then (with_bucket bucket, false)
  else (with_bucket (bucket ++ [now]), true).

(** ** Memory bound *)

Definition bounded (s : RateLimiter) : Prop :=
  1 ≤ max_keys s ∧ NoDup (keys (buckets s)) ∧ length (buckets s) ≤ max_keys s ∧
  ∀ k b, od_get (buckets s) k = Some b → length b ≤ limit s.

Lemma trim_length c b : length (trim c b) ≤ length b.
Proof. induction b as [|t b IH]; simpl; [done|]. case_match; simpl; lia. Qed.

Lemma evict_spec bs :
  NoDup (keys bs) →
  NoDup (keys (evict bs)) ∧ length (evict bs) ≤ length bs - 1 ∧
  ∀ k b, od_get (evict bs) k = Some b → od_get bs k = Some b.
Proof.
  intros Hnd. destruct bs as [|x bs]; [done|]. unfold evict.
  set (v := min_by last_seen x bs).
  assert (v.1 ∈ keys (x :: bs)) as Hv.
  { unfold keys. apply list_elem_of_fmap_2, min_lt_elem. }
  split; [by apply od_del_NoDup|]. split.
  - apply od_del_length_lt in Hv. lia.
  - intros k b. destruct (decide (v.1 = k)) as [<-|Hne]; [by rewrite od_get_del_eq|].
    by rewrite od_get_del_ne.
Qed.

Lemma check_bounded s now uid action : bounded s → bounded (check s now uid action).1.
Proof.
  intros (Hmax & Hnd & Hlen & Hb). unfold check.
  set (key := (uid, action)). set (ex := bool_decide (key ∈ keys (buckets s))).
  set (bs := if negb ex && (max_keys s <=? length (buckets s)) then evict (buckets s)
             else buckets s).
  assert (NoDup (keys bs) ∧ (key ∉ keys bs → length bs ≤ max_keys s - 1) ∧
          length bs ≤ max_keys s ∧
          ∀ k b, od_get bs k = Some b → length b ≤ limit s) as (Hnd' & Hroom & Hlen' & Hb').
  { destruct (evict_spec _ Hnd) as (He1 & He2 & He3). unfold bs.
    destruct ex eqn:Hex; simpl.
    - apply bool_decide_eq_true in Hex. naive_solver.
    - destruct (Nat.leb_spec (max_keys s) (length (buckets s))).
      + split; [done|]. split; [lia|]. split; [lia|]. eauto.
      + split; [done|]. split; [lia|]. done. }
  set (b := trim (now - window_s s) (default [] (od_get bs key))).
  assert (length b ≤ limit s) as Hbl.
  { unfold b. pose proof (trim_length (now - window_s s) (default [] (od_get bs key))).
    destruct (od_get bs key) as [b'|] eqn:E; simpl in *; [|lia].
    apply Hb' in E. lia. }
  assert (∀ b', length b' ≤ limit s →
    bounded {| limit := limit s; window_s := window_s s; max_keys := max_keys s;
               buckets := od_set bs key b' |}) as Hgen.
  { intros b' Hb''. split; [done|]. split; [by apply od_set_NoDup|]. split; simpl.
    - rewrite od_set_length. case_bool_decide as Hin; [done|]. specialize (Hroom Hin). lia.
    - intros k b0. destruct (decide (key = k)) as [<-|Hne].
      + rewrite od_get_set_eq. by intros [= <-].
      + rewrite od_get_set_ne by done. apply Hb'. }
  destruct (Nat.leb_spec (limit s) (length b)); simpl; apply Hgen; [done|].
  rewrite length_app. simpl. lia.
Qed.

(** ** Call sequences *)

Record call := { c_now : Z; c_uid : Z; c_action : string }.
Definition call_key (c : call) : rl_key := (c_uid c, c_action c).

Fixpoint run (s : RateLimiter) (cs : list call) : RateLimiter * list bool :=
  match cs with
  | [] => (s, [])
  | c :: cs' =>
      let '(s1, r) := check s (c_now c) (c_uid c) (c_action c) in
      let '(s2, rs) := run s1 cs' in (s2, r :: rs)
  end.

(** The promised behaviour: a log of the accepted calls, and a call is accepted when
    fewer than [limit] accepted calls of its key lie within the window ending now. *)
Definition in_window (log : list (Z * rl_key)) (key : rl_key) (cutoff : Z) : nat :=
  length (filter (λ e, e.2 = key ∧ (cutoff ≤ e.1)%Z) log).

Fixpoint spec_run (lim : nat) (w : Z) (log : list (Z * rl_key)) (cs : list call) : list bool :=
  match cs with
  | [] => []
  | c :: cs' =>
      let r := in_window log (call_key c) (c_now c - w) <? lim in
      r :: spec_run lim w (if r then log ++ [(c_now c, call_key c)] else log) cs'
  end.

(** The clock does not run backwards. *)
Fixpoint monotone (from : Z) (cs : list call) : Prop :=
  match cs with
  | [] => True
  | c :: cs' => (from ≤ c_now c)%Z ∧ monotone (c_now c) cs'
  end.

(** Times of the accepted calls of a key *)
Definition times (log : list (Z * rl_key)) (key : rl_key) : list Z :=
  (filter (λ e, e.2 = key) log).*1.

Definition le_all (l : list Z) (t : Z) : Prop := Forall (λ x, (x ≤ t)%Z) l.

Lemma trim_split c b : ∃ pre, b = pre ++ trim c b ∧ Forall (λ t, (t < c)%Z) pre.
Proof.
  induction b as [|t b IH]; simpl; [by exists []|].
  destruct (Z.ltb_spec t c); [|by exists []].
  destruct IH as (pre & Hb & Hp). exists (t :: pre).
  split; [by rewrite <- app_comm_cons, <- Hb|by constructor].
Qed.

Lemma sorted_ge (c t : Z) l : Sorted Z.le (t :: l) → (c ≤ t)%Z → Forall (λ x, (c ≤ x)%Z) (t :: l).
Proof.
  intros Hs Hc. apply Sorted_StronglySorted in Hs; [|intros x y z; lia].
  apply StronglySorted_inv in Hs as [_ Hall]. constructor; [done|].
  eapply Forall_impl; [exact Hall|]. simpl. lia.
Qed.

Lemma trim_ge c b : Sorted Z.le b → Forall (λ t, (c ≤ t)%Z) (trim c b).
Proof.
  induction b as [|t b IH]; intros Hs; simpl; [constructor|].
  destruct (Z.ltb_spec t c); [|by apply sorted_ge].
  apply IH. by apply Sorted_inv in Hs as [? _].
Qed.

Lemma sorted_suffix (pre b : list Z) : Sorted Z.le (pre ++ b) → Sorted Z.le b.
Proof. induction pre as [|t pre IH]; simpl; [done|]. intros [? _]%Sorted_inv. auto. Qed.

Lemma sorted_snoc (b : list Z) t : Sorted Z.le b → le_all b t → Sorted Z.le (b ++ [t]).
Proof.
  induction b as [|x b IH]; intros Hs Hle; simpl; [by repeat constructor|].
  apply Sorted_inv in Hs as [Hs Hh]. apply Forall_cons in Hle as [Hx Hle].
  constructor; [by apply IH|]. destruct b; simpl; [by constructor|].
  inversion Hh; by constructor.
Qed.

Lemma in_window_times log key c :
  in_window log key c = length (filter (λ t, (c ≤ t)%Z) (times log key)).
Proof.
  unfold in_window, times. induction log as [|[t k] log IH]; [done|].
  rewrite !filter_cons. simpl. destruct (decide (k = key)) as [->|Hk].
  - rewrite fmap_cons, filter_cons. simpl. repeat case_decide; simpl; naive_solver.
  - rewrite decide_False by naive_solver. done.
Qed.

Lemma times_snoc log t k key :
  times (log ++ [(t, k)]) key = times log key ++ (if bool_decide (k = key) then [t] else []).
Proof.
  unfold times. rewrite filter_app, fmap_app. f_equal. rewrite filter_cons. simpl.
  case_decide; [by rewrite bool_decide_true|by rewrite bool_decide_false].
Qed.

Lemma filter_all_lt c l : Forall (λ t, (t < c)%Z) l → filter (λ t, (c ≤ t)%Z) l = [].
Proof.
  induction 1 as [|t l Ht Hl IH]; [done|]. rewrite filter_cons, decide_False by lia. done.
Qed.

Lemma filter_all_ge c l : Forall (λ t, (c ≤ t)%Z) l → filter (λ t, (c ≤ t)%Z) l = l.
Proof.
  induction 1 as [|t l Ht Hl IH]; [done|]. by rewrite filter_cons, decide_True, IH.
Qed.

(** What the simulation says of one key. *)
Definition sim_key (w : Z) (log : list (Z * rl_key)) (now : Z) (key : rl_key)
    (bucket : list Z) : Prop :=
  ∃ old, times log key = old ++ bucket ∧ Forall (λ t, (t < now - w)%Z) old ∧
    Sorted Z.le bucket ∧ le_all bucket now.

Lemma sim_key_trim w log now now' key b :
  (now ≤ now')%Z → sim_key w log now key b → sim_key w log now' key (trim (now' - w) b).
Proof.
  intros Hn (old & Ht & Hold & Hs & Hle).
  destruct (trim_split (now' - w) b) as (pre & Hb & Hpre).
  exists (old ++ pre). split; [by rewrite <- app_assoc, <- Hb|]. split.
  - apply Forall_app. split; [|done]. eapply Forall_impl; [exact Hold|]. simpl. lia.
  - split; [apply (sorted_suffix pre); by rewrite <- Hb|].
    unfold le_all in *. rewrite Hb in Hle. apply Forall_app in Hle as [_ Hle].
    eapply Forall_impl; [exact Hle|]. simpl. lia.
Qed.

Lemma sim_key_later w log now now' key b :
  (now ≤ now')%Z → sim_key w log now key b → sim_key w log now' key b.
Proof.
  intros Hn (old & Ht & Hold & Hs & Hle). exists old. split; [done|].
  split; [eapply Forall_impl; [exact Hold|]; simpl; lia|]. split; [done|].
  eapply Forall_impl; [exact Hle|]. simpl. lia.
Qed.

(** A trimmed bucket is exactly the accepted calls inside the window. *)
Lemma sim_key_count w log now key b :
  sim_key w log now key b → Forall (λ t, (now - w ≤ t)%Z) b →
  length b = in_window log key (now - w).
Proof.
  intros (old & Ht & Hold & _) Hge.
  rewrite in_window_times, Ht, filter_app, (filter_all_lt _ old), filter_all_ge by done. done.
Qed.

Lemma sim_key_accept w log now key b :
  sim_key w log now key b → sim_key w (log ++ [(now, key)]) now key (b ++ [now]).
Proof.
  intros (old & Ht & Hold & Hs & Hle). exists old. rewrite times_snoc, bool_decide_true by done.
  split; [by rewrite Ht, app_assoc|]. split; [done|]. split; [by apply sorted_snoc|].
  apply Forall_app. split; [done|]. repeat constructor. lia.
Qed.

Lemma sim_key_other w log now key key' b t :
  key' ≠ key → sim_key w log now key b → sim_key w (log ++ [(t, key')]) now key b.
Proof.
  intros Hne (old & Ht & Hrest). exists old.
  by rewrite times_snoc, bool_decide_false, app_nil_r by done.
Qed.

(** The simulation: a bucket holds the newest accepted times of its key, in order; what
    it no longer holds is older than the window of the latest reading. [K] are the keys
    in use, for which there is room. *)
Definition sim (K : gset rl_key) (s : RateLimiter) (log : list (Z * rl_key)) (now : Z) : Prop :=
  NoDup (keys (buckets s)) ∧ (list_to_set (keys (buckets s)) : gset rl_key) ⊆ K ∧
  size K ≤ max_keys s ∧
  ∀ key, sim_key (window_s s) log now key (default [] (od_get (buckets s) key)).

Lemma sim_no_evict K s log now key :
  sim K s log now → key ∈ K →
  negb (bool_decide (key ∈ keys (buckets s))) && (max_keys s <=? length (buckets s)) = false.
Proof.
  intros (Hnd & Hsub & Hsz & _) HK. case_bool_decide as Hk; [done|]. simpl.
  apply Nat.leb_gt. assert (size (list_to_set (key :: keys (buckets s)) : gset rl_key) ≤ size K) as Hle.
  { apply subseteq_size. set_solver. }
  rewrite size_list_to_set in Hle by (by constructor). simpl in Hle.
  unfold keys in Hle. rewrite length_fmap in Hle. lia.
Qed.

Lemma sim_set K s log log' now key b :
  sim K s log now → key ∈ K → sim_key (window_s s) log' now key b →
  (∀ k, k ≠ key → sim_key (window_s s) log' now k (default [] (od_get (buckets s) k))) →
  sim K {| limit := limit s; window_s := window_s s; max_keys := max_keys s;
           buckets := od_set (buckets s) key b |} log' now.
Proof.
  intros (Hnd & Hsub & Hsz & _) HK Hb Ho. split; [by apply od_set_NoDup|]. split; [|split; [done|]]; simpl.
  - rewrite od_keys_set. case_bool_decide; [done|]. set_solver.
  - intros k. destruct (decide (key = k)) as [<-|Hne]; [by rewrite od_get_set_eq|].
    rewrite od_get_set_ne by done. by apply Ho.
Qed.

Lemma sim_later K s log now now' : (now ≤ now')%Z → sim K s log now → sim K s log now'.
Proof.
  intros Hn (? & ? & ? & Hk). repeat split; [done..|]. intros key. by eapply sim_key_later.
Qed.

Lemma check_sim K s log now c :
  let r := in_window log (call_key c) (c_now c - window_s s) <? limit s in
  sim K s log now → (now ≤ c_now c)%Z → call_key c ∈ K →
  (check s (c_now c) (c_uid c) (c_action c)).2 = r ∧
  sim K (check s (c_now c) (c_uid c) (c_action c)).1
      (if r then log ++ [(c_now c, call_key c)] else log) (c_now c).
Proof.
  intros r Hsim Hn HK. pose proof (sim_later _ _ _ _ _ Hn Hsim) as Hsim'.
  unfold check. fold (call_key c). rewrite (sim_no_evict K s log now) by done.
  set (b := trim _ _).
  assert (sim_key (window_s s) log (c_now c) (call_key c) b) as Hb.
  { apply (sim_key_trim _ _ now); [done|]. apply Hsim. }
  assert (length b = in_window log (call_key c) (c_now c - window_s s)) as Hlen.
  { apply (sim_key_count _ _ _ _ _ Hb), trim_ge.
    destruct Hsim as (_ & _ & _ & Hk). by destruct (Hk (call_key c)) as (? & _ & _ & ? & _). }
  unfold r. rewrite <- Hlen. destruct (Nat.leb_spec (limit s) (length b)) as [Hl|Hl]; simpl.
  - rewrite (proj2 (Nat.ltb_ge _ _)) by lia. split; [done|].
    apply (sim_set K s log); [done..|]. intros k _. apply Hsim'.
  - rewrite (proj2 (Nat.ltb_lt _ _)) by lia. split; [done|].
    apply (sim_set K s log); [done|done|by apply sim_key_accept|].
    intros k Hk. apply sim_key_other; [done|]. apply Hsim'.
Qed.

Lemma check_params s now uid action :
  limit (check s now uid action).1 = limit s ∧ window_s (check s now uid action).1 = window_s s.
Proof. unfold check. by case_match. Qed.

Lemma run_sim K s log now cs :
  sim K s log now → monotone now cs → (list_to_set (call_key <$> cs) : gset rl_key) ⊆ K →
  (run s cs).2 = spec_run (limit s) (window_s s) log cs.
Proof.
  revert s log now. induction cs as [|c cs IH]; intros s log now Hsim Hm HK; [done|]. simpl in *.
  destruct Hm as [Hn Hm].
  destruct (check_sim K s log now c Hsim Hn) as [Hr Hs]; [set_solver|].
  destruct (check_params s (c_now c) (c_uid c) (c_action c)) as [Hl Hw].
  destruct (check s _ _ _) as [s1 r] eqn:Hc. simpl in *. subst r.
  specialize (IH s1 _ _ Hs Hm ltac:(set_solver)). rewrite Hl, Hw in IH.
  destruct (run s1 cs) as [s2 rs]. simpl in *. by rewrite IH.
Qed.

(** C27: the limiter is a sliding window. While the calls use no more keys than the limiter
    tracks and the clock does not run backwards, a fresh limiter accepts a call exactly
    when fewer than [limit] accepted calls of the same (uid, action) lie in the window
    that ends with it; rejected calls do not count. *)
Theorem ratelimit_sliding_window lim w maxk s from cs :
  new_limiter lim w maxk = Ok s →
  monotone from cs →
  (size (list_to_set (call_key <$> cs) : gset rl_key) ≤ Z.to_nat maxk) →
  (run s cs).2 = spec_run (Z.to_nat lim) w [] cs.
Proof.
  unfold new_limiter. intros Hs Hm HK. inv_ok.
  rewrite (run_sim (list_to_set (call_key <$> cs)) _ [] from); [done| |done|done].
  split; [constructor|]. split; [set_solver|]. split; [done|]. intros key. exists []. by repeat constructor.
Qed.

Lemma run_bounded s cs : bounded s → bounded (run s cs).1.
Proof.
  revert s. induction cs as [|c cs IH]; intros s Hs; [done|]. simpl.
  pose proof (check_bounded s (c_now c) (c_uid c) (c_action c) Hs) as Hb.
  destruct (check s _ _ _) as [s1 r]. specialize (IH s1 Hb). by destruct (run s1 cs).
Qed.

Lemma run_params s cs : limit (run s cs).1 = limit s ∧ max_keys (run s cs).1 = max_keys s.
Proof.
  revert s. induction cs as [|c cs IH]; intros s; [done|]. simpl.
  assert (limit (check s (c_now c) (c_uid c) (c_action c)).1 = limit s ∧
          max_keys (check s (c_now c) (c_uid c) (c_action c)).1 = max_keys s) as [<- <-].
  { unfold check. by case_match. }
  destruct (check s _ _ _) as [s1 r]. specialize (IH s1). by destruct (run s1 cs).
Qed.

(** Memory stays bounded whatever the callers do. After any calls at any clock readings
    a limiter tracks at most [max_keys] keys, each at most once, and at most [limit]
    timestamps for each. *)
Theorem ratelimit_memory_bound lim w maxk s cs :
  new_limiter lim w maxk = Ok s →
  (Z.of_nat (length (buckets (run s cs).1)) ≤ maxk)%Z ∧
  NoDup (keys (buckets (run s cs).1)) ∧
  ∀ k b, od_get (buckets (run s cs).1) k = Some b → (Z.of_nat (length b) ≤ lim)%Z.
Proof.
  unfold new_limiter. intros Hs. inv_ok.
  match goal with |- context [run ?x cs] => set (s0 := x) end.
  destruct (run_params s0 cs) as [Hl Hk].
  assert (bounded (run s0 cs).1) as (_ & Hnd & Hlen & Hb).
  { apply run_bounded. repeat split; simpl; [lia|constructor|lia|done]. }
  rewrite Hk in Hlen. simpl in Hlen. split; [lia|]. split; [done|].
  intros k b Hget%Hb. rewrite Hl in Hget. simpl in Hget. lia.
Qed.

(** ** Concrete runs *)

Definition sample_calls : list call :=
  [ {| c_now := 0; c_uid := 1; c_action := "a" |}; {| c_now := 1; c_uid := 1; c_action := "a" |};
    {| c_now := 2; c_uid := 1; c_action := "a" |}; {| c_now := 2; c_uid := 1; c_action := "b" |};
    {| c_now := 11; c_uid := 1; c_action := "a" |} ].

Definition sample_limiter : RateLimiter :=
  {| limit := 2; window_s := 10; max_keys := 2; buckets := [] |}.

Lemma ratelimit_sliding_window_witness :
  (run sample_limiter sample_calls).2 = spec_run 2 10 [] sample_calls ∧
  (run sample_limiter sample_calls).2 = [true; true; false; true; true].
Proof.
  split; [|reflexivity].
  apply (ratelimit_sliding_window 2 10 2 sample_limiter 0 sample_calls); [reflexivity| |].
  - simpl. lia.
  - apply Nat.leb_le. vm_compute. reflexivity.
Defined.

Lemma ratelimit_memory_bound_witness :
  (Z.of_nat (length (buckets (run sample_limiter sample_calls).1)) ≤ 2)%Z.
Proof.
  apply (ratelimit_memory_bound 2 10 2 sample_limiter sample_calls). reflexivity.
Defined.

End RateLimit.
