(* ===== verification/Json.v ===== *)
(** * JSON text

    The part of Python's [json] module the broker uses: [dumps] with its separators,
    [sort_keys] and [ensure_ascii], and [loads] with the two hooks
    [transfer_protocol.load_object] installs. A float is its text; an object is the list
    of its entries in order. Strings hold the code points below 256, so a text with a
    [\u] escape above [\u00ff] is answered with [JE_wide]: what the decoder makes of it
    lies outside the model. *)

From S2P Require Import Prelude.

Module Json.

Inductive json : Type :=
| JNull
| JBool (b : bool)
| JInt (z : Z)
| JFloat (lexeme : string)
| JStr (s : string)
| JArr (l : list json)
| JObj (d : list (string * json)).

(** Induction through the nested lists. *)
Section json_rect.
Context (P : json → Prop).
Hypothesis Hnull : P JNull.
Hypothesis Hbool : ∀ b, P (JBool b).
Hypothesis Hint : ∀ z, P (JInt z).
Hypothesis Hfloat : ∀ x, P (JFloat x).
Hypothesis Hstr : ∀ s, P (JStr s).
Hypothesis Harr : ∀ l, Forall P l → P (JArr l).
Hypothesis Hobj : ∀ d, Forall (λ p, P p.2) d → P (JObj d).

Fixpoint json_ind' (v : json) : P v :=
  match v with
  | JNull => Hnull
  | JBool b => Hbool b
  | JInt z => Hint z
  | JFloat x => Hfloat x
  | JStr s => Hstr s
  | JArr l => Harr l ((fix go l := match l return Forall P l with
      | [] => Forall_nil_2 _ | v :: l' => Forall_cons_2 _ _ _ (json_ind' v) (go l') end) l)
  | JObj d => Hobj d ((fix go d := match d return Forall (λ p, P p.2) d with
      | [] => Forall_nil_2 _ | p :: d' => Forall_cons_2 _ _ _ (json_ind' p.2) (go d') end) d)
  end.
End json_rect.

(** ** Writing *)

Definition quote : ascii := ascii_of_N 34.
Definition backslash : ascii := "\".

Definition hex_digit (n : N) : ascii :=
  if (n <? 10)%N then ascii_of_N (48 + n) else ascii_of_N (87 + n).

(** [ESCAPE_ASCII]: the quote, the backslash and whatever is not a printable ASCII
    character. *)
Definition esc_char (c : ascii) : string :=
  let n := ord c in
  if bool_decide (c = quote) then String backslash (String quote "")
  else if bool_decide (c = backslash) then String backslash (String backslash "")
  else if (n =? 10)%N then String backslash "n"
  else if (n =? 13)%N then String backslash "r"
  else if (n =? 9)%N then String backslash "t"
  else if (n =? 12)%N then String backslash "f"
  else if (n =? 8)%N then String backslash "b"
  else if ((32 <=? n) && (n <=? 126))%N then String c ""
  else String backslash ("u00" +:+ String (hex_digit (n / 16)) (String (hex_digit (n mod 16)) "")).

Fixpoint esc (s : string) : string :=
  match s with "" => "" | String c s' => esc_char c +:+ esc s' end.

Definition dump_str (s : string) : string := String quote (esc s +:+ String quote "").

(** [int.__repr__] *)
Definition dump_int (z : Z) : string := pretty z.

(** Separators and key order of a [dumps] call. *)
Record style := { item_sep : string; key_sep : string; sort_keys : bool }.
Definition compact : style := {| item_sep := ","; key_sep := ":"; sort_keys := true |}.
Definition spaced (sorted : bool) : style :=
  {| item_sep := ", "; key_sep := ": "; sort_keys := sorted |}.

Definition key_le (a b : string * json) : Prop := String.le a.1 b.1.
#[export] Instance key_le_dec a b : Decision (key_le a b).
Proof. unfold key_le. apply _. Defined.

Definition sort_entries (d : list (string * json)) : list (string * json) :=
  merge_sort key_le d.

Fixpoint join (sep : string) (l : list string) : string :=
  match l with
  | [] => ""
  | [x] => x
  | x :: l' => x +:+ sep +:+ join sep l'
  end.

Fixpoint norm (v : json) : json :=
  match v with
  | JArr l => JArr (norm <$> l)
  | JObj d => JObj (sort_entries ((λ '(k, x), (k, norm x)) <$> d))
  | _ => v
  end.

(** [dumps] of a value whose objects are already in output order. *)
Fixpoint write (st : style) (v : json) : string :=
  match v with
  | JNull => "null"
  | JBool true => "true"
  | JBool false => "false"
  | JInt z => dump_int z
  | JFloat x => x
  | JStr s => dump_str s
  | JArr l => "[" +:+ join (item_sep st) (write st <$> l) +:+ "]"
  | JObj d => "{" +:+ join (item_sep st)
                ((λ '(k, x), dump_str k +:+ key_sep st +:+ write st x) <$> d) +:+ "}"
  end.

(** [json.dumps(v, ...)] *)
Definition dumps (st : style) (v : json) : string :=
  write st (if sort_keys st then norm v else v).

(** ** Reading *)

Inductive json_error := JE_decode | JE_wide | JE_fuel.

Abbreviation parsed A := (result json_error (A * string)).

(** The text after the prefix [p], when [s] starts with it *)
Fixpoint strip (p s : string) : option string :=
  match p, s with
  | "", _ => Some s
  | String a p', String b s' => if bool_decide (a = b) then strip p' s' else None
  | String _ _, "" => None
  end.

Definition is_ws (c : ascii) : bool :=
  bool_decide (ord c = 32%N ∨ ord c = 9%N ∨ ord c = 10%N ∨ ord c = 13%N).

Fixpoint skip_ws (s : string) : string :=
  match s with
  | String c s' => if is_ws c then skip_ws s' else s
  | "" => ""
  end.

Definition hex_val (c : ascii) : option N :=
  let n := ord c in
  if ((48 <=? n) && (n <=? 57))%N then Some (n - 48)%N
  else if ((97 <=? n) && (n <=? 102))%N then Some (n - 87)%N
  else if ((65 <=? n) && (n <=? 70))%N then Some (n - 55)%N
  else None.

(** [BACKSLASH]: the escapes of one character *)
Definition simple_escape (c : ascii) : option ascii :=
  if bool_decide (c = quote ∨ c = backslash ∨ c = "/"%char) then Some c
  else if bool_decide (c = "b"%char) then Some (ascii_of_N 8)
  else if bool_decide (c = "f"%char) then Some (ascii_of_N 12)
  else if bool_decide (c = "n"%char) then Some (ascii_of_N 10)
  else if bool_decide (c = "r"%char) then Some (ascii_of_N 13)
  else if bool_decide (c = "t"%char) then Some (ascii_of_N 9)
  else None.

Definition cons_char (c : ascii) (r : parsed string) : parsed string :=
  match r with Ok (s, rest) => Ok (String c s, rest) | Err e => Err e end.

(** [scanstring] after the opening quote; control characters are refused. *)
Fixpoint parse_chars (s : string) : parsed string :=
  match s with
  | "" => Err JE_decode
  | String c s' =>
      if bool_decide (c = quote) then Ok ("", s')
      else if bool_decide (c = backslash) then
        match s' with
        | "" => Err JE_decode
        | String e s'' =>
            if bool_decide (e = "u"%char) then
              match s'' with
              | String h1 (String h2 (String h3 (String h4 s3))) =>
                  match hex_val h1, hex_val h2, hex_val h3, hex_val h4 with
                  | Some a, Some b, Some x, Some y =>
                      if ((a =? 0) && (b =? 0))%N
                      then cons_char (ascii_of_N (16 * x + y)) (parse_chars s3)
                      else Err JE_wide
                  | _, _, _, _ => Err JE_decode
                  end
              | _ => Err JE_decode
              end
            else match simple_escape e with
                 | Some c' => cons_char c' (parse_chars s'')
                 | None => Err JE_decode
                 end
        end
      else if (ord c <? 32)%N then Err JE_decode
      else cons_char c (parse_chars s')
  end.

Definition is_digit (c : ascii) : bool := ((48 <=? ord c) && (ord c <=? 57))%N.

(** A maximal run of digits *)
Fixpoint span_digits (s : string) : string * string :=
  match s with
  | String c s' => if is_digit c then let '(d, r) := span_digits s' in (String c d, r)
                   else ("", s)
  | "" => ("", "")
  end.

Fixpoint digits_val (acc : N) (s : string) : N :=
  match s with "" => acc | String c s' => digits_val (10 * acc + (ord c - 48)) s' end.

(** [int()] refuses more than this many digits. *)
Definition MAX_INT_DIGITS : nat := 4300.

(** [(\.[0-9]+)?] *)
Definition parse_frac (s : string) : string * string :=
  match strip "." s with
  | Some s' => let '(d, r) := span_digits s' in
               if truthy d then (String "." d, r) else ("", s)
  | None => ("", s)
  end.

(** [([eE][-+]?[0-9]+)?] *)
Definition parse_exp (s : string) : string * string :=
  match s with
  | String e s' =>
      if bool_decide (e = "e"%char ∨ e = "E"%char) then
        let '(sg, s2) := match s' with
                         | String c s2 => if bool_decide (c = "+"%char ∨ c = "-"%char)
                                          then (String c "", s2) else ("", s')
                         | "" => ("", s')
                         end in
        let '(d, r) := span_digits s2 in
        if truthy d then (String e (sg +:+ d), r) else ("", s)
      else ("", s)
  | "" => ("", s)
  end.

(** The integer part [0|[1-9][0-9]*]: what is left after a leading zero is not part
    of the number. *)
Definition int_part (s : string) : string * string :=
  match strip "0" s with
  | Some s' => ("0", s')
  | None => span_digits s
  end.

(** [match_number], with [neg] for a minus sign already read *)
Definition parse_number (neg : bool) (s : string) : parsed json :=
  let '(i, r1) := int_part s in
  if negb (truthy i) then Err JE_decode else
  let '(f, r2) := parse_frac r1 in
  let '(e, r3) := parse_exp r2 in
  if truthy f || truthy e
  then Ok (JFloat ((if neg then "-" else "") +:+ i +:+ f +:+ e), r3)
  else if MAX_INT_DIGITS <? String.length i then Err JE_decode
  else let n := Z.of_N (digits_val 0 i) in Ok (JInt (if neg then - n else n)%Z, r1).

(** [object_pairs_hook=unique_pairs] and [parse_constant=invalid_constant] *)
Record hooks := { unique_keys : bool; no_constants : bool }.
Definition plain_hooks : hooks := {| unique_keys := false; no_constants := false |}.

(** The dictionary of the parsed pairs: a repeated key keeps its place and its last
    value, or is refused under [unique_keys]. *)
Fixpoint build_obj (h : hooks) (acc : list (string * json)) (d : list (string * json)) :
    result json_error json :=
  match d with
  | [] => Ok (JObj acc)
  | (k, v) :: d' =>
      if unique_keys h && bool_decide (k ∈ keys acc) then Err JE_decode
      else build_obj h (od_set acc k v) d'
  end.

Definition constant (h : hooks) (x rest : string) : parsed json :=
  if no_constants h then Err JE_decode else Ok (JFloat x, rest).

(** The scalars other than strings, in the scanner's order *)
Definition parse_scalar (h : hooks) (s : string) : parsed json :=
  match strip "null" s, strip "true" s, strip "false" s with
  | Some r, _, _ => Ok (JNull, r)
  | _, Some r, _ => Ok (JBool true, r)
  | _, _, Some r => Ok (JBool false, r)
  | None, None, None =>
      match strip "NaN" s, strip "Infinity" s, strip "-Infinity" s with
      | Some r, _, _ => constant h "NaN" r
      | _, Some r, _ => constant h "Infinity" r
      | _, _, Some r => constant h "-Infinity" r
      | None, None, None =>
          match strip "-" s with
          | Some s' => parse_number true s'
          | None => parse_number false s
          end
      end
  end.

Fixpoint parse_value (h : hooks) (n : nat) (s : string) : parsed json :=
  match n with
  | O => Err JE_fuel
  | S n' =>
      match s with
      | String c s' =>
          if bool_decide (c = quote) then
            match parse_chars s' with Ok (x, r) => Ok (JStr x, r) | Err e => Err e end
          else if bool_decide (c = "["%char) then
            match strip "]" (skip_ws s') with
            | Some r => Ok (JArr [], r)
            | None => match parse_items h n' (skip_ws s') with
                      | Ok (l, r) => Ok (JArr l, r) | Err e => Err e end
            end
          else if bool_decide (c = "{"%char) then
            match strip "}" (skip_ws s') with
            | Some r => Ok (JObj [], r)
            | None => match parse_members h n' (skip_ws s') with
                      | Ok (d, r) => let* o := build_obj h [] d in Ok (o, r)
                      | Err e => Err e end
            end
          else parse_scalar h s
      | "" => Err JE_decode
      end
  end
(** [JSONArray] after the bracket: a value, then a comma or the end *)
with parse_items (h : hooks) (n : nat) (s : string) : parsed (list json) :=
  match n with
  | O => Err JE_fuel
  | S n' =>
      match parse_value h n' s with
      | Err e => Err e
      | Ok (v, r) =>
          match strip "]" (skip_ws r), strip "," (skip_ws r) with
          | Some r', _ => Ok ([v], r')
          | None, Some r' =>
              match parse_items h n' (skip_ws r') with
              | Ok (l, r'') => Ok (v :: l, r'') | Err e => Err e end
          | None, None => Err JE_decode
          end
      end
  end
(** [JSONObject] after the brace: a key, a colon, a value, then a comma or the end *)
with parse_members (h : hooks) (n : nat) (s : string) : parsed (list (string * json)) :=
  match n with
  | O => Err JE_fuel
  | S n' =>
      match strip (String quote "") s with
      | Some s' =>
          match parse_chars s' with
          | Err e => Err e
          | Ok (k, r) =>
              match strip ":" (skip_ws r) with
              | Some r1 =>
                  match parse_value h n' (skip_ws r1) with
                  | Err e => Err e
                  | Ok (v, r2) =>
                      match strip "}" (skip_ws r2), strip "," (skip_ws r2) with
                      | Some r', _ => Ok ([(k, v)], r')
                      | None, Some r' =>
                          match parse_members h n' (skip_ws r') with
                          | Ok (d, r'') => Ok ((k, v) :: d, r'') | Err e => Err e end
                      | None, None => Err JE_decode
                      end
                  end
              | None => Err JE_decode
              end
          end
      | None => Err JE_decode
      end
  end.

(** [json.loads(text)]. Two levels of fuel per character are enough ([loads_total]): the
    model reads a text of any depth, where the interpreter raises [RecursionError] on one
    nested about a thousand levels deep. A round trip of a document the programs write
    is about documents below that depth. *)
Definition loads_with (h : hooks) (s : string) : result json_error json :=
  match parse_value h (2 * String.length s + 2) (skip_ws s) with
  | Err e => Err e
  | Ok (v, r) => match skip_ws r with "" => Ok v | _ => Err JE_decode end
  end.
Definition loads : string → result json_error json := loads_with plain_hooks.

(** ** The fuel suffices *)

Lemma skip_ws_length s : String.length (skip_ws s) ≤ String.length s.
Proof. induction s as [|c s IH]; simpl; [done|]. case_match; simpl; lia. Qed.

Lemma cons_char_inv c r x rest :
  cons_char c r = Ok (x, rest) → ∃ y, r = Ok (y, rest).
Proof. destruct r as [[y r']|]; simpl; [intros [= <- <-]; eauto|done]. Qed.

Lemma cons_char_fuel c r : cons_char c r = Err JE_fuel → r = Err JE_fuel.
Proof. destruct r as [[y r']|]; simpl; [done|congruence]. Qed.

Lemma parse_chars_spec s :
  parse_chars s ≠ Err JE_fuel ∧
  ∀ x r, parse_chars s = Ok (x, r) → String.length r < String.length s.
Proof.
  remember (String.length s) as n eqn:Hn. revert s Hn.
  induction (lt_wf n) as [n _ IH]. intros s ->.
  assert (∀ c t, String.length t < String.length s →
    cons_char c (parse_chars t) ≠ Err JE_fuel ∧
    ∀ x r, cons_char c (parse_chars t) = Ok (x, r) → String.length r < String.length s) as Hc.
  { intros c t Ht. destruct (IH _ Ht t eq_refl) as [H1 H2].
    split; [by intros ?%cons_char_fuel|]. intros x r (y & Hy)%cons_char_inv.
    specialize (H2 _ _ Hy). lia. }
  destruct s as [|c s']; simpl; [done|].
  repeat case_match; subst; simpl in *;
    first [done | by (split; [done|intros ?? [=]; subst; lia]) | apply Hc; simpl; lia].
Qed.

Lemma span_digits_length s d r :
  span_digits s = (d, r) → String.length s = String.length d + String.length r.
Proof.
  revert d r. induction s as [|c s IH]; intros d r; simpl; [by intros [= <- <-]|].
  destruct (is_digit c); [|by intros [= <- <-]].
  destruct (span_digits s) as [d' r'] eqn:E. intros [= <- <-]. simpl. by rewrite (IH d' r').
Qed.

Lemma strip_length p s r : strip p s = Some r → String.length s = String.length p + String.length r.
Proof.
  revert s. induction p as [|a p IH]; intros [|b s]; simpl; [by intros [= <-]..|done|].
  case_bool_decide; [|done]. intros Hs%IH. lia.
Qed.

Lemma parse_frac_length s f r : parse_frac s = (f, r) → String.length r ≤ String.length s.
Proof.
  unfold parse_frac. destruct (strip "." s) as [s'|] eqn:Es; [|by intros [= <- <-]].
  apply strip_length in Es. simpl in Es.
  destruct (span_digits s') as [d r'] eqn:E. apply span_digits_length in E.
  destruct (truthy d); intros [= <- <-]; lia.
Qed.

Lemma parse_exp_length s f r : parse_exp s = (f, r) → String.length r ≤ String.length s.
Proof.
  unfold parse_exp. destruct s as [|e s]; [by intros [= <- <-]|].
  destruct (bool_decide _); [|by intros [= <- <-]].
  destruct (match s with "" => _ | String _ _ => _ end) as [sg s2] eqn:Hs2.
  assert (String.length s2 ≤ String.length s) as Hle.
  { destruct s as [|c s']; [by simplify_eq|]. case_bool_decide; simplify_eq; simpl; lia. }
  destruct (span_digits s2) as [d r'] eqn:E. apply span_digits_length in E.
  destruct (truthy d); intros [= <- <-]; simpl; lia.
Qed.

Lemma int_part_length s i r :
  int_part s = (i, r) → String.length s = String.length i + String.length r.
Proof.
  unfold int_part. destruct (strip "0" s) eqn:Es; [|apply span_digits_length].
  apply strip_length in Es. by intros [= <- <-].
Qed.

Lemma parse_number_spec neg s :
  parse_number neg s ≠ Err JE_fuel ∧
  ∀ v r, parse_number neg s = Ok (v, r) → String.length r < String.length s.
Proof.
  unfold parse_number. destruct (int_part s) as [i r1] eqn:E1.
  apply int_part_length in E1. destruct i as [|c i]; [done|]. simpl in E1. cbn [truthy negb].
  destruct (parse_frac r1) as [f r2] eqn:E2. apply parse_frac_length in E2.
  destruct (parse_exp r2) as [e r3] eqn:E3. apply parse_exp_length in E3.
  repeat case_match; split; try done; intros ?? [= <- <-]; lia.
Qed.

Lemma parse_scalar_spec h s :
  parse_scalar h s ≠ Err JE_fuel ∧
  ∀ v r, parse_scalar h s = Ok (v, r) → String.length r < String.length s.
Proof.
  unfold parse_scalar.
  assert (∀ x p r, strip p s = Some r → p ≠ "" →
    constant h x r ≠ Err JE_fuel ∧
    ∀ v r', constant h x r = Ok (v, r') → String.length r' < String.length s) as Hk.
  { intros x p r Hp%strip_length Hne. unfold constant. destruct (no_constants h); [done|].
    split; [done|]. intros ?? [= <- <-]. destruct p; [done|]. simpl in Hp. lia. }
  destruct (strip "null" s) eqn:E1.
  { apply strip_length in E1. simpl in E1. split; [done|]. intros ?? [= <- <-]. lia. }
  destruct (strip "true" s) eqn:E2.
  { apply strip_length in E2. simpl in E2. split; [done|]. intros ?? [= <- <-]. lia. }
  destruct (strip "false" s) eqn:E3.
  { apply strip_length in E3. simpl in E3. split; [done|]. intros ?? [= <- <-]. lia. }
  destruct (strip "NaN" s) eqn:E4; [by eapply Hk|].
  destruct (strip "Infinity" s) eqn:E5; [by eapply Hk|].
  destruct (strip "-Infinity" s) eqn:E6; [by eapply Hk|].
  destruct (strip "-" s) as [s0|] eqn:E7; [|apply parse_number_spec].
  destruct (parse_number_spec true s0) as [H1 H2]. split; [done|].
  apply strip_length in E7. simpl in E7. intros v r Hv%H2. lia.
Qed.

Lemma build_obj_fuel h acc d : build_obj h acc d ≠ Err JE_fuel.
Proof.
  revert acc. induction d as [|[k v] d IH]; intros acc; simpl; [done|]. by case_match.
Qed.

(** A stage that never asks for more fuel and leaves less than it was given. *)
Definition consumes {A} (s : string) (p : parsed A) : Prop :=
  p ≠ Err JE_fuel ∧ ∀ v r, p = Ok (v, r) → String.length r < String.length s.

Lemma consumes_ok {A} s (v : A) r : String.length r < String.length s → consumes s (Ok (v, r)).
Proof. intros Hr. split; [done|]. by intros ?? [= <- <-]. Qed.

Lemma consumes_err {A} s e : e ≠ JE_fuel → consumes (A:=A) s (Err e).
Proof. intros He. split; [congruence|done]. Qed.

Lemma consumes_map {A B} s t (p : parsed A) (f : A → string → parsed B) :
  consumes t p → String.length t ≤ String.length s →
  (∀ v r, String.length r < String.length t → consumes s (f v r)) →
  consumes s (match p with Ok (v, r) => f v r | Err e => Err e end).
Proof.
  intros [Hp1 Hp2] Ht Hf. destruct p as [[v r]|e]; [by apply Hf, (Hp2 v)|].
  apply consumes_err. congruence.
Qed.

Lemma strip_skip_length c s r :
  strip (String c "") (skip_ws s) = Some r → String.length r < String.length s.
Proof. intros Hs%strip_length. pose proof (skip_ws_length s). simpl in Hs. lia. Qed.

Lemma parse_total h n :
  (∀ s, 2 * String.length s + 1 ≤ n → consumes s (parse_value h n s)) ∧
  (∀ s, 2 * String.length s + 2 ≤ n → consumes s (parse_items h n s)) ∧
  (∀ s, 2 * String.length s + 2 ≤ n → consumes s (parse_members h n s)).
Proof.
  induction n as [|n (IHv & IHi & IHm)].
  { split; [|split]; intros s Hs; lia. }
  split; [|split]; intros s Hs.
  - destruct s as [|c s]; [by apply consumes_err|]. cbn [String.length] in Hs.
    pose proof (skip_ws_length s) as Hws. cbn [parse_value].
    case_bool_decide.
    { apply (consumes_map _ s); [apply parse_chars_spec|simpl; lia|].
      intros v r Hr. apply consumes_ok. simpl. lia. }
    case_bool_decide.
    { destruct (strip "]" (skip_ws s)) eqn:E.
      - apply strip_skip_length in E. apply consumes_ok. simpl. lia.
      - apply (consumes_map _ (skip_ws s)); [apply IHi; lia|simpl; lia|].
        intros v r Hr. apply consumes_ok. simpl. lia. }
    case_bool_decide.
    { destruct (strip "}" (skip_ws s)) eqn:E.
      - apply strip_skip_length in E. apply consumes_ok. simpl. lia.
      - apply (consumes_map _ (skip_ws s)); [apply IHm; lia|simpl; lia|].
        intros v r Hr. pose proof (build_obj_fuel h [] v) as Hb.
        destruct (build_obj h [] v); [|apply consumes_err; congruence].
        apply consumes_ok. simpl. lia. }
    apply parse_scalar_spec.
  - cbn [parse_items]. apply (consumes_map _ s); [apply IHv; lia|lia|]. intros v r Hr.
    destruct (strip "]" (skip_ws r)) as [r'|] eqn:E1.
    { apply strip_skip_length in E1. apply consumes_ok. lia. }
    destruct (strip "," (skip_ws r)) as [r'|] eqn:E2; [|by apply consumes_err].
    apply strip_skip_length in E2. pose proof (skip_ws_length r').
    apply (consumes_map _ (skip_ws r')); [apply IHi; lia|lia|].
    intros l r2 Hr2. apply consumes_ok. lia.
  - cbn [parse_members].
    destruct (strip (String quote "") s) as [s'|] eqn:E0; [|by apply consumes_err].
    apply strip_length in E0. simpl in E0.
    apply (consumes_map _ s'); [apply parse_chars_spec|lia|]. intros k r Hr.
    destruct (strip ":" (skip_ws r)) as [r1|] eqn:E1; [|by apply consumes_err].
    apply strip_skip_length in E1. pose proof (skip_ws_length r1).
    apply (consumes_map _ (skip_ws r1)); [apply IHv; lia|lia|]. intros v r2 Hr2.
    destruct (strip "}" (skip_ws r2)) as [r'|] eqn:E3.
    { apply strip_skip_length in E3. apply consumes_ok. lia. }
    destruct (strip "," (skip_ws r2)) as [r'|] eqn:E4; [|by apply consumes_err].
    apply strip_skip_length in E4. pose proof (skip_ws_length r').
    apply (consumes_map _ (skip_ws r')); [apply IHm; lia|lia|].
    intros l r3 Hr3. apply consumes_ok. lia.
Qed.

Lemma loads_total h s : loads_with h s ≠ Err JE_fuel.
Proof.
  unfold loads_with. destruct (parse_total h (2 * String.length s + 2)) as [Hv _].
  destruct (Hv (skip_ws s)) as [H1 _].
  { pose proof (skip_ws_length s). lia. }
  destruct (parse_value _ _ _) as [[v r]|e]; [|congruence]. by destruct (skip_ws r).
Qed.

(** ** Round trip *)

Lemma parse_chars_esc_char c t :
  parse_chars (esc_char c +:+ t) = cons_char c (parse_chars t).
Proof. destruct c as [[] [] [] [] [] [] [] []]; reflexivity. Qed.

Lemma parse_chars_esc s rest :
  parse_chars (esc s +:+ String quote rest) = Ok (s, rest).
Proof.
  induction s as [|c s IH]; [reflexivity|]. cbn [esc].
  by rewrite str_app_assoc, parse_chars_esc_char, IH.
Qed.

(** What may follow a number *)
Definition stops (s : string) : Prop :=
  match s with
  | "" => True
  | String c _ => is_digit c = false ∧ c ≠ "."%char ∧ c ≠ "e"%char ∧ c ≠ "E"%char
  end.

Lemma pretty_N_char_digit x :
  (x < 10)%N → is_digit (pretty_N_char x) = true ∧ (ord (pretty_N_char x) - 48 = x)%N.
Proof.
  intros Hx. assert (x ∈ [0;1;2;3;4;5;6;7;8;9]%N) as Hin by (repeat (rewrite elem_of_cons); lia).
  repeat (apply elem_of_cons in Hin as [->|Hin]; [done|]). by apply not_elem_of_nil in Hin.
Qed.

Lemma pretty_N_char_zero x : (x < 10)%N → pretty_N_char x = "0"%char → x = 0%N.
Proof. intros Hx Hc. by apply (pretty_N_char_inj x 0). Qed.

(** The written digits of [x], read back with the digits [s] after them *)
Lemma pretty_N_go_val x s : digits_val 0 (pretty_N_go x s) = digits_val x s.
Proof.
  revert s. induction (N.lt_wf_0 x) as [x _ IH]; intros s.
  destruct (decide (x = 0)%N) as [->|Hx]; [by rewrite pretty_N_go_0|].
  rewrite pretty_N_go_step by lia. rewrite IH by (apply N.div_lt; lia). simpl.
  destruct (pretty_N_char_digit (x mod 10)) as [_ Hd]; [by apply N.mod_lt|]. rewrite Hd.
  by rewrite <- (N.div_mod' x 10).
Qed.

Lemma pretty_N_go_digits x s :
  forall_char is_digit s = true → forall_char is_digit (pretty_N_go x s) = true.
Proof.
  revert s. induction (N.lt_wf_0 x) as [x _ IH]; intros s Hs.
  destruct (decide (x = 0)%N) as [->|Hx]; [by rewrite pretty_N_go_0|].
  rewrite pretty_N_go_step by lia. apply IH; [apply N.div_lt; lia|]. simpl.
  destruct (pretty_N_char_digit (x mod 10)) as [-> _]; [by apply N.mod_lt|]. done.
Qed.

(** No leading zero *)
Lemma pretty_N_go_head x s : (0 < x)%N →
  ∃ c t, pretty_N_go x s = String c t ∧ c ≠ "0"%char.
Proof.
  revert s. induction (N.lt_wf_0 x) as [x _ IH]; intros s Hx.
  rewrite pretty_N_go_step by lia. destruct (decide (x / 10 = 0)%N) as [Hz|Hz].
  - rewrite Hz, pretty_N_go_0. eexists _, _. split; [done|].
    intros Hc%pretty_N_char_zero; [|by apply N.mod_lt].
    apply N.div_small_iff in Hz; [|done]. rewrite N.mod_small in Hc by done. lia.
  - apply IH; [apply N.div_lt; lia|apply N.neq_0_lt_0; exact Hz].
Qed.

Lemma span_digits_app d rest :
  forall_char is_digit d = true → stops rest → span_digits (d +:+ rest) = (d, rest).
Proof.
  induction d as [|c d IH]; cbn [forall_char]; intros Hd Hr.
  - rewrite str_app_nil_l. destruct rest as [|c r]; [done|]. destruct Hr as [Hr _].
    simpl. by rewrite Hr.
  - apply andb_true_iff in Hd as [Hc Hd]. rewrite str_app_cons. cbn [span_digits].
    by rewrite Hc, IH.
Qed.

Lemma pretty_N_facts (n : N) :
  forall_char is_digit (pretty n) = true ∧ digits_val 0 (pretty n) = n ∧ truthy (pretty n) = true ∧
  ∀ rest, stops rest → int_part (pretty n +:+ rest) = (pretty n, rest).
Proof.
  unfold pretty, pretty_N. case_decide as Hn; [subst; done|].
  assert (0 < n)%N as Hpos by lia. destruct (pretty_N_go_head n "" Hpos) as (c & t & Hct & Hc).
  pose proof (pretty_N_go_digits n "" eq_refl) as Hd. rewrite pretty_N_go_val.
  split; [done|]. split; [done|]. split; [by rewrite Hct|]. intros rest Hr.
  unfold int_part. rewrite Hct at 1. rewrite str_app_cons. cbn [strip].
  rewrite bool_decide_false by congruence. by apply span_digits_app.
Qed.

Lemma stops_no_frac rest : stops rest → parse_frac rest = ("", rest) ∧ parse_exp rest = ("", rest).
Proof.
  destruct rest as [|c r]; [done|]. intros (_ & Hd & He & HE). unfold parse_frac, parse_exp. simpl.
  rewrite !bool_decide_false; [done|naive_solver|congruence].
Qed.

Lemma parse_number_pretty neg (n : N) rest :
  stops rest → String.length (pretty n) ≤ MAX_INT_DIGITS →
  parse_number neg (pretty n +:+ rest) =
    Ok (JInt (if neg then - Z.of_N n else Z.of_N n)%Z, rest).
Proof.
  intros Hr Hlen. destruct (pretty_N_facts n) as (_ & Hv & Ht & Hi).
  destruct (stops_no_frac rest Hr) as [Hf He]. unfold parse_number.
  rewrite (Hi rest Hr), Ht, Hf, He, Hv. cbn [truthy orb negb].
  by rewrite (proj2 (Nat.ltb_ge _ _)) by done.
Qed.

Lemma pretty_N_first (n : N) : ∃ c t, pretty n = String c t ∧ is_digit c = true.
Proof.
  destruct (pretty_N_facts n) as (Hd & _ & Ht & _).
  destruct (pretty n) as [|c t]; [done|]. exists c, t. split; [done|].
  cbn in Hd. by apply andb_true_iff in Hd as [? _].
Qed.

Lemma is_digit_ne c d : is_digit c = true → is_digit d = false → d ≠ c.
Proof. congruence. Qed.

Lemma parse_scalar_digit h c t :
  is_digit c = true → parse_scalar h (String c t) = parse_number false (String c t).
Proof.
  intros Hc. unfold parse_scalar. cbn [strip].
  by rewrite !bool_decide_false by (apply is_digit_ne with (1 := Hc); reflexivity).
Qed.

Lemma parse_scalar_minus h c t :
  is_digit c = true → parse_scalar h (String "-" (String c t)) = parse_number true (String c t).
Proof.
  intros Hc. unfold parse_scalar. cbn [strip]. rewrite !(bool_decide_false (_ = "-"%char)) by done.
  rewrite (bool_decide_true ("-"%char = "-"%char)) by done.
  by rewrite (bool_decide_false ("I"%char = c)) by (apply is_digit_ne with (1 := Hc); reflexivity).
Qed.

Definition int_ok (z : Z) : Prop := String.length (pretty (Z.abs_N z)) ≤ MAX_INT_DIGITS.

Lemma dump_int_eq z :
  dump_int z = (if (z <? 0)%Z then String "-" (pretty (Z.abs_N z)) else pretty (Z.abs_N z)).
Proof. unfold dump_int. by destruct z. Qed.

Lemma parse_scalar_int h z rest :
  stops rest → int_ok z → parse_scalar h (dump_int z +:+ rest) = Ok (JInt z, rest).
Proof.
  intros Hr Hz. rewrite dump_int_eq. destruct (pretty_N_first (Z.abs_N z)) as (c & t & Hct & Hc).
  destruct (Z.ltb_spec z 0).
  - rewrite Hct, !str_app_cons, parse_scalar_minus, <- str_app_cons, <- Hct by done.
    rewrite parse_number_pretty by done. do 3 f_equal. lia.
  - rewrite Hct, str_app_cons, parse_scalar_digit, <- str_app_cons, <- Hct by done.
    rewrite parse_number_pretty by done. do 3 f_equal. lia.
Qed.

(** The values [dumps] writes unambiguously: no floats, integers the decoder accepts,
    distinct keys. *)
Fixpoint jwf (v : json) : Prop :=
  match v with
  | JNull | JBool _ | JStr _ => True
  | JInt z => int_ok z
  | JFloat _ => False
  | JArr l => (fix go l := match l with [] => True | x :: l' => jwf x ∧ go l' end) l
  | JObj d => NoDup (keys d) ∧
      (fix go d := match d with [] => True | (_, x) :: d' => jwf x ∧ go d' end) d
  end.

Lemma jwf_arr l : jwf (JArr l) ↔ Forall jwf l.
Proof. induction l as [|x l IH]; [done|]. rewrite Forall_cons, <- IH. done. Qed.

Lemma jwf_obj d : jwf (JObj d) ↔ NoDup (keys d) ∧ Forall (λ p, jwf p.2) d.
Proof.
  cbn [jwf]. apply and_iff_compat_l. induction d as [|[k x] d IH]; [done|].
  rewrite Forall_cons, <- IH. done.
Qed.

Definition style_ok (st : style) : Prop :=
  item_sep st ∈ [","; ", "] ∧ key_sep st ∈ [":"; ": "].

(** Text that starts with something a value can start with *)
Definition starts_value (s : string) : Prop :=
  ∃ c t, s = String c t ∧ is_ws c = false ∧ c ≠ "]"%char ∧ c ≠ "}"%char.

Lemma starts_value_digit c t : is_digit c = true → starts_value (String c t).
Proof.
  intros Hc. exists c, t. split; [done|].
  destruct c as [[] [] [] [] [] [] [] []]; try discriminate Hc; done.
Qed.

Lemma write_starts st v : jwf v → starts_value (write st v).
Proof.
  destruct v as [|[]|z|x|s|l|d]; intros Hv;
    try first [done | by (eexists _, _; split; [reflexivity|])].
  cbn [write]. rewrite dump_int_eq. destruct (pretty_N_first (Z.abs_N z)) as (c & t & Hct & Hc).
  destruct (z <? 0)%Z; [by eexists _, _|]. rewrite Hct. by apply starts_value_digit.
Qed.

Lemma starts_value_app s t : starts_value s → starts_value (s +:+ t).
Proof. intros (c & u & -> & H). exists c, (u +:+ t). by rewrite str_app_cons. Qed.

Lemma skip_ws_starts s : starts_value s → skip_ws s = s.
Proof. intros (c & t & -> & Hc & _). simpl. by rewrite Hc. Qed.

Lemma strip_starts s :
  starts_value s → strip "]" s = None ∧ strip "}" s = None.
Proof.
  intros (c & t & -> & _ & H1 & H2). simpl. by rewrite !bool_decide_false.
Qed.

Lemma skip_sep st : style_ok st →
  (∃ w, item_sep st = String "," w ∧ ∀ s, starts_value s → skip_ws (w +:+ s) = s) ∧
  (∃ w, key_sep st = String ":" w ∧ ∀ s, starts_value s → skip_ws (w +:+ s) = s).
Proof.
  intros [Hi Hk]. split; [clear Hk; rename Hi into H|clear Hi; rename Hk into H];
    apply elem_of_cons in H as [->|[->|[]%not_elem_of_nil]%elem_of_cons];
    eexists; (split; [reflexivity|]); intros s Hs; rewrite ?str_app_cons, str_app_nil_l;
    simpl; by apply skip_ws_starts.
Qed.

Lemma build_obj_distinct h acc d :
  NoDup (keys (acc ++ d)) → build_obj h acc d = Ok (JObj (acc ++ d)).
Proof.
  revert acc. induction d as [|[k v] d IH]; intros acc Hnd; simpl; [by rewrite app_nil_r|].
  assert (k ∉ keys acc) as Hk.
  { unfold keys in Hnd. rewrite fmap_app in Hnd. apply NoDup_app in Hnd as (_ & Hd & _).
    intros Hin. apply (Hd k Hin). simpl. constructor. }
  rewrite bool_decide_false, andb_false_r by done.
  assert (od_set acc k v = acc ++ [(k, v)]) as ->.
  { clear -Hk. induction acc as [|[k' v'] acc IH]; [done|]. simpl.
    apply not_elem_of_cons in Hk as [Hne Hk]. rewrite bool_decide_false by done. by rewrite IH. }
  rewrite IH; rewrite <- app_assoc; done.
Qed.

(** Fuel the parser uses on a written value *)
Fixpoint jfuel (v : json) : nat :=
  match v with
  | JArr l => S (list_sum ((λ x, S (jfuel x)) <$> l))
  | JObj d => S (list_sum ((λ '(_, x), S (jfuel x)) <$> d))
  | _ => 1
  end.

Section roundtrip.
Context (h : hooks) (st : style) (Hst : style_ok st).

Definition reads (v : json) : Prop :=
  ∀ n rest, jfuel v ≤ n → stops rest →
    parse_value h n (write st v +:+ rest) = Ok (v, rest).

Definition entry (p : string * json) : string :=
  let '(k, x) := p in dump_str k +:+ key_sep st +:+ write st x.

Lemma stops_sep : stops (item_sep st).
Proof. destruct Hst as [Hi _]. by apply elem_of_cons in Hi as [->|[->|[]%not_elem_of_nil]%elem_of_cons]. Qed.

Lemma stops_app s t : s ≠ "" → stops s → stops (s +:+ t).
Proof. by destruct s. Qed.

Lemma sep_nonempty : item_sep st ≠ "".
Proof. destruct Hst as [Hi _]. by apply elem_of_cons in Hi as [->|[->|[]%not_elem_of_nil]%elem_of_cons]. Qed.

Lemma parse_items_write v l n rest :
  Forall jwf (v :: l) → Forall reads (v :: l) →
  list_sum ((λ x, S (jfuel x)) <$> v :: l) ≤ n →
  parse_items h n (join (item_sep st) (write st <$> v :: l) +:+ "]" +:+ rest) = Ok (v :: l, rest).
Proof.
  revert v n. induction l as [|v' l IH]; intros v n Hwf Hr Hn;
    apply Forall_cons in Hwf as [Hv Hwf]; apply Forall_cons in Hr as [Rv Rl];
    destruct n as [|n]; simpl in Hn; try lia; cbn [parse_items].
  - cbn [fmap list_fmap join]. rewrite Rv; [done|lia|done].
  - change (join (item_sep st) (write st <$> v :: v' :: l)) with
      (write st v +:+ item_sep st +:+ join (item_sep st) (write st <$> v' :: l)).
    rewrite !str_app_assoc, Rv; [|lia|apply stops_app; [apply sep_nonempty|apply stops_sep]].
    remember (join (item_sep st) (write st <$> v' :: l) +:+ "]" +:+ rest) as tl eqn:Htl.
    destruct (skip_sep st Hst) as [(w & Hw & Hskip) _]. rewrite Hw, str_app_cons.
    change (skip_ws (String "," ?x)) with (String "," x). cbn [strip].
    rewrite bool_decide_false, bool_decide_true by done.
    rewrite Hskip.
    + subst tl. rewrite IH; [done|done|done|simpl in *; lia].
    + subst tl. apply Forall_cons in Hwf as [Hv' _]. destruct l; cbn [fmap list_fmap join];
        rewrite ?str_app_assoc; apply starts_value_app; by apply write_starts.
Qed.

Lemma entry_starts p t : starts_value (entry p +:+ t).
Proof. destruct p as [k x]. unfold entry, dump_str. eexists _, _. by split; [rewrite !str_app_cons|]. Qed.

Lemma parse_entry k x n rest :
  jwf x → reads x → jfuel x ≤ n → stops rest →
  ∃ r1, strip (String quote "") (entry (k, x) +:+ rest) = Some r1 ∧
    ∃ r2, parse_chars r1 = Ok (k, r2) ∧ ∃ r3, strip ":" (skip_ws r2) = Some r3 ∧
    parse_value h n (skip_ws r3) = Ok (x, rest).
Proof.
  intros Hx Rx Hn Hs. unfold entry, dump_str. rewrite !str_app_assoc, str_app_cons.
  eexists. split; [reflexivity|]. rewrite !str_app_assoc.
  rewrite str_app_cons, str_app_nil_l. rewrite parse_chars_esc.
  eexists. split; [reflexivity|].
  destruct (skip_sep st Hst) as [_ (w & Hw & Hskip)]. rewrite Hw, str_app_cons.
  eexists. split; [reflexivity|]. rewrite Hskip by (by apply starts_value_app, write_starts).
  by apply Rx.
Qed.

Lemma parse_members_write p d n rest :
  Forall (λ p, jwf p.2) (p :: d) → Forall (λ p, reads p.2) (p :: d) →
  list_sum ((λ '(_, x), S (jfuel x)) <$> p :: d) ≤ n →
  parse_members h n (join (item_sep st) (entry <$> p :: d) +:+ "}" +:+ rest) = Ok (p :: d, rest).
Proof.
  revert p n. induction d as [|p' d IH]; intros [k x] n Hwf Hr Hn;
    apply Forall_cons in Hwf as [Hv Hwf]; apply Forall_cons in Hr as [Rv Rl];
    destruct n as [|n]; simpl in Hn; try lia; cbn [parse_members].
  - cbn [fmap list_fmap join].
    destruct (parse_entry k x n ("}" +:+ rest) Hv Rv) as (r1 & -> & r2 & -> & r3 & -> & ->);
      [lia|done|]. done.
  - change (join (item_sep st) (entry <$> (k, x) :: p' :: d)) with
      (entry (k, x) +:+ item_sep st +:+ join (item_sep st) (entry <$> p' :: d)).
    rewrite !str_app_assoc.
    match goal with |- context [entry (k, x) +:+ ?t] =>
      destruct (parse_entry k x n t Hv Rv) as (r1 & -> & r2 & -> & r3 & -> & ->) end;
      [lia|apply stops_app; [apply sep_nonempty|apply stops_sep]|].
    remember (join (item_sep st) (entry <$> p' :: d) +:+ "}" +:+ rest) as tl eqn:Htl.
    destruct (skip_sep st Hst) as [(w & Hw & Hskip) _]. rewrite Hw, str_app_cons.
    change (skip_ws (String "," ?x)) with (String "," x). cbn [strip].
    rewrite bool_decide_false, bool_decide_true by done.
    rewrite Hskip.
    + subst tl. rewrite IH; [done|done|done|simpl in *; lia].
    + subst tl. destruct d; cbn [fmap list_fmap join]; rewrite ?str_app_assoc; apply entry_starts.
Qed.

Lemma write_reads v : jwf v → reads v.
Proof.
  induction v as [| [] |z|x|s|l IH|d IH] using json_ind'; intros Hv n rest Hn Hs;
    (destruct n as [|n]; [simpl in Hn; lia|]); try reflexivity.
  - destruct (write_starts st (JInt z) Hv) as (c & t & Hct & _).
    pose proof (parse_scalar_int h z rest Hs Hv) as Hp. cbn [write] in *.
    rewrite dump_int_eq in *. destruct (pretty_N_first (Z.abs_N z)) as (c' & t' & Hct' & Hc').
    destruct (z <? 0)%Z.
    + rewrite Hct', !str_app_cons in *. exact Hp.
    + rewrite Hct', !str_app_cons in *. cbn [parse_value].
      by rewrite !bool_decide_false by (apply not_eq_sym, is_digit_ne with (1 := Hc'); reflexivity).
  - done.
  - cbn [write]. unfold dump_str. rewrite str_app_cons, str_app_assoc. cbn [parse_value].
    rewrite bool_decide_true by done. by rewrite str_app_cons, str_app_nil_l, parse_chars_esc.
  - apply jwf_arr in Hv. cbn [write]. rewrite !str_app_assoc, str_app_cons, str_app_nil_l.
    destruct l as [|v l]; [reflexivity|]. cbn [parse_value].
    rewrite (bool_decide_false ("["%char = quote)), (bool_decide_true ("["%char = "["%char)) by done.
    assert (starts_value (join (item_sep st) (write st <$> v :: l) +:+ "]" +:+ rest)) as Hst'.
    { apply Forall_cons in Hv as [Hv _]. destruct l; cbn [fmap list_fmap join];
        rewrite ?str_app_assoc; apply starts_value_app; by apply write_starts. }
    rewrite skip_ws_starts by done. destruct (strip_starts _ Hst') as [-> _].
    rewrite parse_items_write; [done|done| |simpl in *; lia].
    apply Forall_forall. intros y Hy. rewrite Forall_forall in IH, Hv. auto.
  - apply jwf_obj in Hv as [Hnd Hv]. cbn [write]. fold entry.
    rewrite !str_app_assoc, str_app_cons, str_app_nil_l.
    destruct d as [|p d]; [reflexivity|]. cbn [parse_value].
    rewrite (bool_decide_false ("{"%char = quote)), (bool_decide_false ("{"%char = "["%char)),
      (bool_decide_true ("{"%char = "{"%char)) by done.
    change ((λ '(k, x), dump_str k +:+ key_sep st +:+ write st x) <$> p :: d) with (entry <$> p :: d).
    assert (starts_value (join (item_sep st) (entry <$> p :: d) +:+ "}" +:+ rest)) as Hst'.
    { destruct d; cbn [fmap list_fmap join]; rewrite ?str_app_assoc; apply entry_starts. }
    rewrite skip_ws_starts by done. destruct (strip_starts _ Hst') as [_ ->].
    rewrite parse_members_write; [|done| |simpl in *; lia].
    + by rewrite (build_obj_distinct h []).
    + apply Forall_forall. intros y Hy. rewrite Forall_forall in IH, Hv. auto.
Qed.
End roundtrip.

(** ** The whole text *)

Lemma join_length sep l : list_sum (String.length <$> l) ≤ String.length (join sep l).
Proof.
  induction l as [|x [|y l] IH]; [done|simpl; lia|].
  change (join sep (x :: y :: l)) with (x +:+ sep +:+ join sep (y :: l)).
  rewrite !str_app_length. simpl in *. lia.
Qed.

Lemma join_length_sep sep l :
  sep ≠ "" → list_sum (S ∘ String.length <$> l) ≤ S (String.length (join sep l)).
Proof.
  intros Hs. induction l as [|x [|y l] IH]; [simpl; lia|simpl; lia|].
  change (join sep (x :: y :: l)) with (x +:+ sep +:+ join sep (y :: l)).
  rewrite !str_app_length. destruct sep; [done|]. simpl in *. lia.
Qed.

Lemma list_sum_bound {A} (f g : A → nat) l :
  Forall (λ x, f x ≤ g x) l → list_sum (f <$> l) ≤ list_sum (g <$> l).
Proof. induction 1 as [|x l Hx Hl IH]; [done|]. rewrite !fmap_cons. simpl. lia. Qed.

Lemma list_sum_double {A} (g : A → nat) l : list_sum ((λ x, 2 * g x) <$> l) = 2 * list_sum (g <$> l).
Proof. induction l as [|x l IH]; [done|]. rewrite !fmap_cons. simpl in *. lia. Qed.

Lemma jfuel_bound st v : style_ok st → jwf v → jfuel v ≤ 2 * String.length (write st v).
Proof.
  intros Hst. pose proof (sep_nonempty st Hst) as Hsep.
  assert (∀ A (f : A → nat) (g : A → string) l, Forall (λ x, f x ≤ 2 * String.length (g x)) l →
    list_sum ((λ x, S (f x)) <$> l) ≤ 2 * S (String.length (join (item_sep st) (g <$> l)))) as Hl.
  { intros A f g l Hf. transitivity (list_sum ((λ x, 2 * S (String.length (g x))) <$> l)).
    - apply list_sum_bound. eapply Forall_impl; [exact Hf|]. simpl. lia.
    - rewrite list_sum_double. apply Nat.mul_le_mono_l.
      rewrite <- (join_length_sep (item_sep st) (g <$> l) Hsep), <- list_fmap_compose. done. }
  induction v as [| [] |z|x|s|l IH|d IH] using json_ind'; intros Hv; try (simpl; lia).
  - destruct (write_starts st (JInt z) Hv) as (c & t & -> & _). simpl. lia.
  - done.
  - apply jwf_arr in Hv. cbn [write jfuel]. rewrite !str_app_length. simpl.
    assert (Forall (λ x, jfuel x ≤ 2 * String.length (write st x)) l) as Hall.
    { rewrite Forall_forall in *. auto. }
    specialize (Hl _ jfuel (write st) l Hall). lia.
  - apply jwf_obj in Hv as [_ Hv]. cbn [write jfuel]. rewrite !str_app_length. simpl.
    assert (Forall (λ p, jfuel p.2 ≤ 2 * String.length (entry st p)) d) as Hall.
    { rewrite Forall_forall in *. intros [k x] Hin. unfold entry. rewrite !str_app_length.
      specialize (IH _ Hin (Hv _ Hin)). simpl in *. lia. }
    specialize (Hl _ (λ p, jfuel p.2) (entry st) d Hall).
    rewrite (list_fmap_ext _ (λ p, S (jfuel p.2))) by (by intros ? [k x] _).
    unfold entry in Hl. lia.
Qed.

Lemma loads_write h st v : style_ok st → jwf v → loads_with h (write st v) = Ok v.
Proof.
  intros Hst Hv. unfold loads_with.
  rewrite skip_ws_starts by (by apply write_starts).
  pose proof (write_reads h st Hst v Hv (2 * String.length (write st v) + 2) "") as Hr.
  rewrite str_app_nil_r in Hr. rewrite Hr; [done| |done].
  pose proof (jfuel_bound st v Hst Hv). lia.
Qed.

Lemma sort_entries_perm d : sort_entries d ≡ₚ d.
Proof. apply merge_sort_Permutation. Qed.

Lemma norm_wf v : jwf v → jwf (norm v).
Proof.
  induction v as [| |z|x|s|l IH|d IH] using json_ind'; intros Hv; try done.
  - apply jwf_arr in Hv. cbn [norm]. apply jwf_arr, Forall_fmap. rewrite Forall_forall in *.
    intros y Hy. simpl. auto.
  - apply jwf_obj in Hv as [Hnd Hv]. cbn [norm]. apply jwf_obj. split.
    + unfold keys. rewrite sort_entries_perm, <- list_fmap_compose.
      rewrite (list_fmap_ext _ fst); [done|]. by intros ? [k x] _.
    + rewrite sort_entries_perm. apply Forall_fmap. rewrite Forall_forall in *.
      intros [k x] Hin. simpl. apply (IH _ Hin), (Hv _ Hin).
Qed.

(** What the decoder returns of what [dumps] wrote. *)
Lemma loads_dumps h st v :
  style_ok st → jwf v → loads_with h (dumps st v) = Ok (if sort_keys st then norm v else v).
Proof.
  intros Hst Hv. unfold dumps. destruct (sort_keys st); apply loads_write; try done.
  by apply norm_wf.
Qed.

Lemma dumps_inj st v1 v2 :
  style_ok st → jwf v1 → jwf v2 → sort_keys st = true →
  dumps st v1 = dumps st v2 → norm v1 = norm v2.
Proof.
  intros Hst H1 H2 Hs Heq. pose proof (loads_dumps plain_hooks st v1 Hst H1) as L1.
  rewrite Heq, (loads_dumps plain_hooks st v2 Hst H2), Hs in L1. by injection L1.
Qed.

Lemma compact_ok : style_ok compact.
Proof. split; set_solver. Qed.
Lemma spaced_ok b : style_ok (spaced b).
Proof. split; set_solver. Qed.

(** ** Written text is printable ASCII *)

Definition printable (c : ascii) : bool := ((32 <=? ord c) && (ord c <=? 126))%N.

Lemma forall_char_app f s t : forall_char f (s +:+ t) = forall_char f s && forall_char f t.
Proof.
  induction s as [|c s IH]; [done|]. rewrite str_app_cons. cbn [forall_char].
  by rewrite IH, andb_assoc.
Qed.

Lemma esc_printable s : forall_char printable (esc s) = true.
Proof.
  induction s as [|c s IH]; [done|]. cbn [esc]. rewrite forall_char_app, IH, andb_true_r.
  by destruct c as [[] [] [] [] [] [] [] []].
Qed.

Lemma digits_printable s : forall_char is_digit s = true → forall_char printable s = true.
Proof.
  induction s as [|c s IH]; [done|]. cbn [forall_char]. intros [Hc Hs]%andb_true_iff.
  rewrite IH, andb_true_r by done. unfold is_digit in Hc. unfold printable.
  apply andb_true_iff in Hc as [H1%N.leb_le H2%N.leb_le].
  apply andb_true_iff. split; apply N.leb_le; lia.
Qed.

Lemma join_printable sep l :
  forall_char printable sep = true → Forall (λ s, forall_char printable s = true) l →
  forall_char printable (join sep l) = true.
Proof.
  intros Hsep. induction 1 as [|x l Hx Hl IH]; [done|]. destruct l as [|y l]; [done|].
  change (join sep (x :: y :: l)) with (x +:+ sep +:+ join sep (y :: l)).
  by rewrite !forall_char_app, Hx, Hsep, IH.
Qed.

Lemma write_printable st v : style_ok st → jwf v → forall_char printable (write st v) = true.
Proof.
  intros Hst. assert (forall_char printable (item_sep st) = true ∧
    forall_char printable (key_sep st) = true) as [Hi Hk].
  { destruct Hst as [Hi Hk]. split.
    - by apply elem_of_cons in Hi as [->|[->|[]%not_elem_of_nil]%elem_of_cons].
    - by apply elem_of_cons in Hk as [->|[->|[]%not_elem_of_nil]%elem_of_cons]. }
  assert (∀ s, forall_char printable (dump_str s) = true) as Hs.
  { intros s. unfold dump_str. cbn [forall_char]. by rewrite forall_char_app, esc_printable. }
  induction v as [| [] |z|x|s|l IH|d IH] using json_ind'; intros Hv; try done.
  - cbn [write]. rewrite dump_int_eq.
    destruct (pretty_N_facts (Z.abs_N z)) as [Hd%digits_printable _].
    by destruct (z <? 0)%Z; cbn [forall_char]; rewrite Hd.
  - apply Hs.
  - apply jwf_arr in Hv. cbn [write]. rewrite !forall_char_app, join_printable; [done|done|].
    apply Forall_fmap. rewrite Forall_forall in *. simpl. auto.
  - apply jwf_obj in Hv as [_ Hv]. cbn [write]. rewrite !forall_char_app, join_printable; [done|done|].
    apply Forall_fmap. rewrite Forall_forall in *. intros [k x] Hin. unfold compose.
    rewrite !forall_char_app, Hs, Hk. apply (IH _ Hin), (Hv _ Hin).
Qed.

Lemma dumps_printable st v : style_ok st → jwf v → forall_char printable (dumps st v) = true.
Proof.
  intros Hst Hv. unfold dumps. destruct (sort_keys st); apply write_printable; auto using norm_wf.
Qed.

Example loads_ex : loads (dumps (spaced true)
   (JObj [("b", JArr [JInt (-12); JStr (String quote "x"); JFloat "1.5e3"]); ("a", JNull)])) =
   Ok (JObj [("a", JNull); ("b", JArr [JInt (-12); JStr (String quote "x"); JFloat "1.5e3"])]).
Proof. vm_compute. reflexivity. Qed.

End Json.
