(* ===== verification/Cache.v ===== *)
(** * The persistent approval cache

    [src/broker/qdistro_admin_cache.py]. The database is the list of its rows in rowid
    order together with what the migration looks at: the columns present and the
    migrations applied. The clock reading of a call is an argument. An absent and an empty
    argv are one value here, as every use of it in the code treats them alike. *)

From S2P Require Import Prelude Json.
Import Json.

Module ApprovalCache.

Record row := {
  r_id : Z;
  caller_uid : Z;
  action : string;
  match_kind : string;
  match_value : string;
  r_argv : string;
  decision : bool;
  expires_at : option Z;
  created_at : Z;
  approver_uid : Z;
  r_scope : option string;
}.

Record db := {
  rows : list row;
  has_scope : bool;
  has_argv : bool;
  approval_migrations : gset string;
}.

Definition with_rows (d : db) (rs : list row) : db :=
  {| rows := rs; has_scope := has_scope d; has_argv := has_argv d;
     approval_migrations := approval_migrations d |}.

(** ** Opening: schema and migration *)

Definition fresh_db : db :=
  {| rows := []; has_scope := true; has_argv := true; approval_migrations := ∅ |}.

Definition set_scope (s : option string) (r : row) : row :=
  {| r_id := r_id r; caller_uid := caller_uid r; action := action r;
     match_kind := match_kind r; match_value := match_value r; r_argv := r_argv r;
     decision := decision r; expires_at := expires_at r; created_at := created_at r;
     approver_uid := approver_uid r; r_scope := s |}.

Definition set_kind_argv (k a : string) (r : row) : row :=
  {| r_id := r_id r; caller_uid := caller_uid r; action := action r;
     match_kind := k; match_value := match_value r; r_argv := a;
     decision := decision r; expires_at := expires_at r; created_at := created_at r;
     approver_uid := approver_uid r; r_scope := r_scope r |}.

Definition ambiguous (r : row) : Prop := approver_uid r = 0%Z ∧ decision r = true.
#[export] Instance ambiguous_dec r : Decision (ambiguous r).
Proof. unfold ambiguous. apply _. Defined.

(** [_migrate]: drop the rule-or-root grants once, add the missing columns, rename the
    legacy kind when the argv column is new. *)
Definition migrate (d : db) : db :=
  let d1 :=
    if bool_decide ("remove_ambiguous_rule_grants" ∈ approval_migrations d) then d
    else {| rows := filter (λ r, ¬ ambiguous r) (rows d);
            has_scope := has_scope d; has_argv := has_argv d;
            approval_migrations :=
              {["remove_ambiguous_rule_grants"]} ∪ approval_migrations d |} in
  let d2 := if has_scope d then d1 else
    {| rows := set_scope None <$> rows d1; has_scope := true; has_argv := has_argv d1;
       approval_migrations := approval_migrations d1 |} in
  if has_argv d then d2 else
    {| rows := (λ r, set_kind_argv
                 (if bool_decide (match_kind r = "argv_exact") then "exe_only"
                  else match_kind r) "" r) <$> rows d2;
       has_scope := has_scope d2; has_argv := true;
       approval_migrations := approval_migrations d2 |}.

(** ** Scopes and match kinds *)

(** [_SCOPE_MAP], [scope_to_row] *)
Definition scope_to_row (scope : string) : option (string * option Z) :=
  if bool_decide (scope = "1h") then Some ("argv_exact", Some 3600%Z)
  else if bool_decide (scope = "24h") then Some ("argv_exact", Some 86400%Z)
  else if bool_decide (scope = "forever") then Some ("always", None)
  else if bool_decide (scope = "forever_exe") then Some ("exe_only", None)
  else if bool_decide (scope = "forever_argv") then Some ("argv_exact", None)
  else if bool_decide (scope = "forever_basename") then Some ("basename", None)
  else if bool_decide (scope = "forever_prefix") then Some ("prefix", None)
  else None.

(** [_PRIORITY.get(kind, len(_PRIORITY))] *)
Definition priority (kind : string) : Z :=
  if bool_decide (kind = "argv_exact") then 0
  else if bool_decide (kind = "prefix") then 1
  else if bool_decide (kind = "basename") then 2
  else if bool_decide (kind = "exe_only") then 3
  else if bool_decide (kind = "always") then 4
  else 5.

(** [_ARGV_BLIND_KINDS] *)
Definition ARGV_BLIND_KINDS : list string := ["exe_only"; "always"].

(** [_argv_basename] *)
Definition argv_basename (argv : list string) : string :=
  match argv with [] => "" | head :: _ => basename head end.

(** [_decode_pattern]. A text with characters outside the model's strings decodes to a
    list no request's argv equals, so it is read as the empty one, which matches nothing. *)
Definition decode_pattern (text : string) : list json :=
  if negb (truthy text) then []
  else match loads text with Ok (JArr l) => l | _ => [] end.

Definition is_argv_kind (kind : string) : bool :=
  bool_decide (kind ∈ ["argv_exact"; "basename"; "prefix"]).

#[export] Instance json_eq_dec : EqDecision json.
Proof.
  refine (fix go (x y : json) : {x = y} + {x ≠ y} :=
    match x, y with
    | JNull, JNull => left eq_refl
    | JBool a, JBool b => cast_if (decide (a = b))
    | JInt a, JInt b => cast_if (decide (a = b))
    | JFloat a, JFloat b => cast_if (decide (a = b))
    | JStr a, JStr b => cast_if (decide (a = b))
    | JArr a, JArr b => cast_if (@list_eq_dec _ go a b)
    | JObj a, JObj b =>
        cast_if (@list_eq_dec _ (λ p q : string * json, @prod_eq_dec string _ json go p q) a b)
    | _, _ => right _
    end); abstract congruence.
Defined.

(** [_match_row_argv] *)
Definition match_row_argv (kind value text exe : string) (argv : list string) : bool :=
  if bool_decide (kind = "always") then true
  else if bool_decide (kind = "exe_only") then bool_decide (value = exe)
  else if is_argv_kind kind && bool_decide (argv = []) then false
  else if bool_decide (kind = "argv_exact") then
    if negb (bool_decide (value = exe)) then false
    else bool_decide (JStr <$> argv = decode_pattern text)
  else if bool_decide (kind = "basename") then bool_decide (text = argv_basename argv)
  else if bool_decide (kind = "prefix") then
    let prefix := decode_pattern text in
    if bool_decide (prefix = []) then false
    else bool_decide (take (length prefix) (JStr <$> argv) = prefix)
  else false.

(** ** Lookup *)

Record query := {
  q_uid : Z; q_action : string; q_exe : string; q_argv : list string;
  q_delegated : bool; q_sandboxed : bool;
}.

(** The SQL condition *)
Definition selected (now : Z) (q : query) (r : row) : bool :=
  bool_decide (caller_uid r = q_uid q) && bool_decide (action r = q_action q) &&
  match expires_at r with None => true | Some e => (now <? e)%Z end.

(** The checks of the loop *)
Definition row_hits (q : query) (r : row) : bool :=
  negb ((q_delegated q || q_sandboxed q) && bool_decide (match_kind r ∈ ARGV_BLIND_KINDS)) &&
  match_row_argv (match_kind r) (match_value r) (r_argv r) (q_exe q) (q_argv q).

(** One round: [best] with [best_priority] *)
Definition consider (q : query) (acc : option row * Z) (r : row) : option row * Z :=
  let '(best, best_priority) := acc in
  if negb (row_hits q r) then acc else
  let p := priority (match_kind r) in
  if (p <? best_priority)%Z ||
     ((p =? best_priority)%Z && match best with None => true | Some b => (r_id b <? r_id r)%Z end)
  then (Some r, p) else acc.

(** [lookup_detail], over the rows in the order the query yields them *)
Definition lookup_rows (now : Z) (q : query) (rs : list row) : option row :=
  (fold_left (consider q) (filter (λ r, selected now q r = true) rs) (None, 6%Z)).1.
Definition lookup_detail (d : db) (now : Z) (q : query) : option row :=
  lookup_rows now q (rows d).

(** [lookup] *)
Definition lookup (d : db) (now : Z) (q : query) : option bool :=
  decision <$> lookup_detail d now q.

(** ** Writers *)

(** The rowid sqlite gives the next row *)
Definition next_id (rs : list row) : Z := (1 + foldr Z.max 0 (r_id <$> rs))%Z.

Record grant := {
  g_uid : Z; g_action : string; g_exe : string; g_scope : string;
  g_decision : bool; g_approver : Z; g_argv : list string;
}.

(** [json.dumps(argv_list)] *)
Definition argv_text (l : list string) : string :=
  dumps (spaced false) (JArr (JStr <$> l)).

(** The kind, value, argv text and ttl [store] settles on; [None]: nothing is written. *)
Definition plan_row (g : grant) : option (string * string * string * option Z) :=
  match scope_to_row (g_scope g) with
  | None => None
  | Some (kind, ttl) =>
      let empty := bool_decide (g_argv g = []) in
      let kind' :=
        if is_argv_kind kind && empty then
          if bool_decide (g_scope g ∈ ["1h"; "24h"]) then Some "exe_only" else None
        else Some kind in
      match kind' with
      | None => None
      | Some k =>
          let text := argv_text (g_argv g) in
          if bool_decide (k = "argv_exact") then Some (k, g_exe g, text, ttl)
          else if bool_decide (k = "basename") then Some (k, "", argv_basename (g_argv g), ttl)
          else if bool_decide (k = "prefix") then Some (k, "", text, ttl)
          else if bool_decide (k = "exe_only") then Some (k, g_exe g, "", ttl)
          else Some (k, "", "", ttl)
      end
  end.

(** The inserted row *)
Definition make_row (id now : Z) (g : grant) (p : string * string * string * option Z) : row :=
  let '(k, v, t, ttl) := p in
  {| r_id := id; caller_uid := g_uid g; action := g_action g; match_kind := k;
     match_value := v; r_argv := t; decision := g_decision g;
     expires_at := (λ s, now + s)%Z <$> ttl; created_at := now;
     approver_uid := g_approver g; r_scope := Some (g_scope g) |}.

(** [store] *)
Definition store (d : db) (now : Z) (g : grant) : db * bool :=
  match plan_row g with
  | None => (d, false)
  | Some p => (with_rows d (rows d ++ [make_row (next_id (rows d)) now g p]), true)
  end.

(** [list_all]: [ORDER BY id DESC] *)
Definition id_ge (a b : row) : Prop := (r_id b ≤ r_id a)%Z.
#[export] Instance id_ge_dec a b : Decision (id_ge a b).
Proof. unfold id_ge. apply _. Defined.
Definition list_all (d : db) : list row := merge_sort id_ge (rows d).

(** [delete_by_id] *)
Definition delete_by_id (d : db) (id : Z) : db * option row :=
  match filter (λ r, r_id r = id) (rows d) with
  | [] => (d, None)
  | r :: _ => (with_rows d (filter (λ r, r_id r ≠ id) (rows d)), Some r)
  end.

(** [delete_by_uid] *)
Definition delete_by_uid (d : db) (uid : Z) : db * list row :=
  let rs := filter (λ r, caller_uid r = uid) (rows d) in
  match rs with
  | [] => (d, [])
  | _ => (with_rows d (filter (λ r, caller_uid r ≠ uid) (rows d)), rs)
  end.

Definition expired_at (now : Z) (r : row) : Prop :=
  match expires_at r with None => False | Some e => (e ≤ now)%Z end.
#[export] Instance expired_at_dec now r : Decision (expired_at now r).
Proof. unfold expired_at. destruct (expires_at r); apply _. Defined.

(** [gc] *)
Definition gc (d : db) (now : Z) : db * nat :=
  (with_rows d (filter (λ r, ¬ expired_at now r) (rows d)),
   length (filter (expired_at now) (rows d))).

(** ** What a lookup answers *)

(** The rows that decide a query *)
Definition eligible (now : Z) (q : query) (r : row) : Prop :=
  selected now q r = true ∧ row_hits q r = true.

(** More specific kind first, then the newer row *)
Definition beats (b r : row) : Prop :=
  (priority (match_kind b) < priority (match_kind r))%Z ∨
  (priority (match_kind b) = priority (match_kind r) ∧ (r_id r ≤ r_id b)%Z).

Lemma priority_le k : (0 ≤ priority k ≤ 5)%Z.
Proof. unfold priority. repeat case_bool_decide; lia. Qed.

Lemma beats_trans a b c : beats a b → beats b c → beats a c.
Proof. unfold beats. lia. Qed.

(** The state of the loop after the rows [seen] *)
Definition loop_inv (q : query) (seen : list row) (acc : option row * Z) : Prop :=
  match acc.1 with
  | None => acc.2 = 6%Z ∧ ∀ r, r ∈ seen → row_hits q r = false
  | Some b => acc.2 = priority (match_kind b) ∧ b ∈ seen ∧ row_hits q b = true ∧
      ∀ r, r ∈ seen → row_hits q r = true → beats b r
  end.

Lemma consider_inv q seen acc r :
  loop_inv q seen acc → loop_inv q (seen ++ [r]) (consider q acc r).
Proof.
  destruct acc as [best bp]. unfold consider, loop_inv. simpl. intros Hinv.
  pose proof (priority_le (match_kind r)) as Hp.
  destruct (row_hits q r) eqn:Hr; simpl.
  - destruct best as [b|]; simpl in *.
    + destruct Hinv as (-> & Hb & Hh & Hbest).
      destruct ((_ <? _)%Z || _) eqn:Hcmp; simpl.
      * split; [done|]. split; [set_solver|]. split; [done|].
        assert (beats r b) as Hrb.
        { unfold beats. apply orb_true_iff in Hcmp as [?%Z.ltb_lt|[?%Z.eqb_eq ?%Z.ltb_lt]%andb_true_iff]; lia. }
        intros x [Hx| ->%list_elem_of_singleton]%elem_of_app Hhx; [|right; lia].
        eapply beats_trans; [exact Hrb|auto].
      * apply orb_false_iff in Hcmp as [H1%Z.ltb_ge H2].
        split; [done|]. split; [set_solver|]. split; [done|].
        intros x [Hx| ->%list_elem_of_singleton]%elem_of_app Hhx; [auto|]. unfold beats.
        apply andb_false_iff in H2 as [?%Z.eqb_neq|?%Z.ltb_ge]; lia.
    + destruct Hinv as [-> Hnone].
      rewrite (proj2 (Z.ltb_lt _ _)) by lia. simpl. split; [done|]. split; [set_solver|].
      split; [done|]. intros x [Hx| ->%list_elem_of_singleton]%elem_of_app Hhx; [|right; lia].
      apply Hnone in Hx. congruence.
  - destruct best as [b|]; simpl in *.
    + destruct Hinv as (-> & Hb & Hh & Hbest). repeat split; [set_solver|done|].
      intros x [Hx| ->%list_elem_of_singleton]%elem_of_app Hhx; [auto|congruence].
    + destruct Hinv as [-> Hnone]. split; [done|].
      intros x [Hx| ->%list_elem_of_singleton]%elem_of_app; auto.
Qed.

Lemma fold_inv q seen acc l :
  loop_inv q seen acc → loop_inv q (seen ++ l) (fold_left (consider q) l acc).
Proof.
  revert seen acc. induction l as [|r l IH]; intros seen acc Hinv; simpl; [by rewrite app_nil_r|].
  change (r :: l) with ([r] ++ l). rewrite app_assoc. by apply IH, consider_inv.
Qed.

Lemma lookup_rows_spec now q rs :
  match lookup_rows now q rs with
  | Some b => b ∈ rs ∧ eligible now q b ∧ ∀ r, r ∈ rs → eligible now q r → beats b r
  | None => ∀ r, r ∈ rs → ¬ eligible now q r
  end.
Proof.
  unfold lookup_rows. set (l := filter _ rs).
  assert (loop_inv q l (fold_left (consider q) l (None, 6%Z))) as Hinv.
  { apply (fold_inv q []). split; [done|]. intros r []%not_elem_of_nil. }
  unfold loop_inv in Hinv. destruct (fold_left _ _ _) as [[b|] bp]; simpl in *.
  - destruct Hinv as (_ & Hb & Hh & Hbest).
    apply list_elem_of_filter in Hb as [Hsel Hb]. split; [done|]. split; [done|].
    intros r Hr [Hs Hrh]. apply Hbest; [|done]. by apply list_elem_of_filter.
  - destruct Hinv as [_ Hnone]. intros r Hr [Hs Hrh].
    rewrite Hnone in Hrh; [done|]. by apply list_elem_of_filter.
Qed.

Definition ids_ok (rs : list row) : Prop := NoDup (r_id <$> rs).

Lemma ids_ok_eq rs a b : ids_ok rs → a ∈ rs → b ∈ rs → r_id a = r_id b → a = b.
Proof.
  intros Hnd (i & Hi)%list_elem_of_lookup_1 (j & Hj)%list_elem_of_lookup_1 Heq.
  assert (i = j) as ->; [|congruence].
  apply (NoDup_lookup (r_id <$> rs) i j (r_id a)); [done| |].
  - by rewrite list_lookup_fmap, Hi.
  - by rewrite list_lookup_fmap, Hj, Heq.
Qed.

Lemma lookup_rows_iff now q rs b :
  ids_ok rs →
  lookup_rows now q rs = Some b ↔
    b ∈ rs ∧ eligible now q b ∧ ∀ r, r ∈ rs → eligible now q r → beats b r.
Proof.
  intros Hids. pose proof (lookup_rows_spec now q rs) as Hspec. split.
  - intros Hl. by rewrite Hl in Hspec.
  - intros (Hb & He & Hbest). destruct (lookup_rows now q rs) as [b'|].
    + destruct Hspec as (Hb' & He' & Hbest'). f_equal. apply (ids_ok_eq rs); [done..|].
      specialize (Hbest _ Hb' He'). specialize (Hbest' _ Hb He). unfold beats in *. lia.
    + exfalso. by apply (Hspec b).
Qed.

(** The most specific approval decides. A lookup answers a row exactly when the row is
    for the caller and action, unexpired and matches the executable and argv (argv-blind
    rows only for callers that are neither delegated nor sandboxed), and every other such
    row is less specific, or as specific and older; with no such row it answers nothing.
    The order in which the database yields the rows does not matter. *)
Theorem lookup_most_specific d now q rs' :
  ids_ok (rows d) → rs' ≡ₚ rows d →
  (∀ b, lookup_detail d now q = Some b ↔
     b ∈ rows d ∧ eligible now q b ∧ ∀ r, r ∈ rows d → eligible now q r → beats b r) ∧
  (lookup_detail d now q = None ↔ ∀ r, r ∈ rows d → ¬ eligible now q r) ∧
  lookup_rows now q rs' = lookup_detail d now q.
Proof.
  intros Hids Hperm. unfold lookup_detail. split; [intros b; by apply lookup_rows_iff|].
  assert (ids_ok rs') as Hids' by (unfold ids_ok; by rewrite Hperm).
  pose proof (lookup_rows_spec now q (rows d)) as H1.
  pose proof (lookup_rows_spec now q rs') as H2. split.
  - split; [intros Hn; by rewrite Hn in H1|]. intros Hn.
    destruct (lookup_rows now q (rows d)) as [b|]; [|done].
    destruct H1 as (Hb & He & _). by apply Hn in Hb.
  - destruct (lookup_rows now q (rows d)) as [b|] eqn:E.
    + apply lookup_rows_iff; [done|]. destruct H1 as (Hb & He & Hbest). split; [by rewrite Hperm|].
      split; [done|]. intros r Hr. rewrite Hperm in Hr. auto.
    + destruct (lookup_rows now q rs') as [b|] eqn:E'; [|done].
      destruct H2 as (Hb & He & _). rewrite Hperm in Hb. by apply H1 in Hb.
Qed.

(** ** What a grant covers *)

Inductive covers (g : grant) (exe : string) (argv : list string) : Prop :=
| cov_forever : g_scope g = "forever" → covers g exe argv
| cov_exe : g_scope g = "forever_exe" → g_exe g = exe → covers g exe argv
| cov_timed_exe : g_scope g ∈ ["1h"; "24h"] → g_argv g = [] → g_exe g = exe → covers g exe argv
| cov_argv : g_scope g ∈ ["1h"; "24h"; "forever_argv"] → g_argv g ≠ [] →
    g_exe g = exe → g_argv g = argv → covers g exe argv
| cov_basename : g_scope g = "forever_basename" → g_argv g ≠ [] → argv ≠ [] →
    argv_basename (g_argv g) = argv_basename argv → covers g exe argv
| cov_prefix : g_scope g = "forever_prefix" → g_argv g ≠ [] → g_argv g `prefix_of` argv →
    covers g exe argv.

(** A grant tied to an argv *)
Definition pinned (g : grant) : Prop :=
  g_argv g ≠ [] ∧
  g_scope g ∈ ["1h"; "24h"; "forever_argv"; "forever_basename"; "forever_prefix"].

(** How long a grant of a scope lives *)
Definition live_at (t : Z) (g : grant) (now : Z) : Prop :=
  (g_scope g = "1h" → now < t + 3600)%Z ∧ (g_scope g = "24h" → now < t + 86400)%Z.

Lemma decode_dumps (l : list string) :
  decode_pattern (argv_text l) = JStr <$> l.
Proof.
  unfold decode_pattern, argv_text, loads.
  rewrite (proj2 (truthy_true _)) by (unfold dumps; cbn [sort_keys spaced write]; by rewrite str_app_cons).
  cbn [negb]. rewrite loads_dumps; [done|apply spaced_ok|].
  apply jwf_arr, Forall_fmap, Forall_forall. by intros.
Qed.

#[export] Instance JStr_inj : Inj (=) (=) JStr.
Proof. by intros ?? [= ->]. Qed.

Lemma take_prefix (l k : list string) :
  take (length (JStr <$> l)) (JStr <$> k) = JStr <$> l ↔ l `prefix_of` k.
Proof.
  rewrite length_fmap, <- fmap_take. split.
  - intros Heq%(inj (fmap JStr)). exists (drop (length l) k). by rewrite <- Heq at 1; rewrite take_drop.
  - intros [k' ->]. by rewrite take_app_length.
Qed.

(** The scopes that are persisted, with the plan each leads to *)
Lemma plan_row_cases g p :
  plan_row g = Some p →
  (g_argv g ≠ [] ∧ ((g_scope g = "1h" ∧ p = ("argv_exact", g_exe g, argv_text (g_argv g), Some 3600%Z)) ∨
     (g_scope g = "24h" ∧ p = ("argv_exact", g_exe g, argv_text (g_argv g), Some 86400%Z)) ∨
     (g_scope g = "forever_argv" ∧ p = ("argv_exact", g_exe g, argv_text (g_argv g), None)) ∨
     (g_scope g = "forever_basename" ∧ p = ("basename", "", argv_basename (g_argv g), None)) ∨
     (g_scope g = "forever_prefix" ∧ p = ("prefix", "", argv_text (g_argv g), None)))) ∨
  (g_argv g = [] ∧ ((g_scope g = "1h" ∧ p = ("exe_only", g_exe g, "", Some 3600%Z)) ∨
     (g_scope g = "24h" ∧ p = ("exe_only", g_exe g, "", Some 86400%Z)))) ∨
  (g_scope g = "forever" ∧ p = ("always", "", "", None)) ∨
  (g_scope g = "forever_exe" ∧ p = ("exe_only", g_exe g, "", None)).
Proof.
  unfold plan_row. intros Hp.
  generalize dependent (argv_text (g_argv g)). generalize dependent (argv_basename (g_argv g)).
  destruct (decide (g_argv g = [])) as [Ha|Ha];
    [rewrite (bool_decide_true (g_argv g = [])) by done
    |rewrite (bool_decide_false (g_argv g = [])) by done]; intros B T;
    unfold scope_to_row;
    repeat match goal with
    | |- context [if bool_decide (g_scope g = ?x) then _ else _] =>
        destruct (decide (g_scope g = x)) as [Hs|?];
        [rewrite !Hs; vm_compute; intros [= <-]; tauto
        |rewrite (bool_decide_false (g_scope g = x)) by done]
    end; done.
Qed.

Lemma match_exact v l exe argv : l ≠ [] →
  match_row_argv "argv_exact" v (argv_text l) exe argv = true ↔ v = exe ∧ l = argv.
Proof.
  intros Hl. change (match_row_argv "argv_exact" v (argv_text l) exe argv) with
    (if bool_decide (argv = []) then false else
     if negb (bool_decide (v = exe)) then false
     else bool_decide (JStr <$> argv = decode_pattern (argv_text l))).
  rewrite decode_dumps. case_bool_decide as Ha; [naive_solver|].
  case_bool_decide as Hv; simpl; [|naive_solver]. rewrite bool_decide_eq_true.
  split; [by intros ->%(inj (fmap JStr))|by intros [_ ->]].
Qed.

Lemma match_basename v t exe argv :
  match_row_argv "basename" v t exe argv = true ↔ argv ≠ [] ∧ t = argv_basename argv.
Proof.
  change (match_row_argv "basename" v t exe argv) with
    (if bool_decide (argv = []) then false else bool_decide (t = argv_basename argv)).
  case_bool_decide as Ha; [naive_solver|]. rewrite bool_decide_eq_true. naive_solver.
Qed.

Lemma match_prefix v l exe argv : l ≠ [] →
  match_row_argv "prefix" v (argv_text l) exe argv = true ↔ l `prefix_of` argv.
Proof.
  intros Hl. change (match_row_argv "prefix" v (argv_text l) exe argv) with
    (if bool_decide (argv = []) then false else
     if bool_decide (decode_pattern (argv_text l) = []) then false
     else bool_decide (take (length (decode_pattern (argv_text l))) (JStr <$> argv)
                       = decode_pattern (argv_text l))).
  rewrite decode_dumps, (bool_decide_false (JStr <$> l = [])) by (by destruct l).
  case_bool_decide as Ha.
  - subst. split; [done|]. intros ?%prefix_nil_inv. congruence.
  - rewrite bool_decide_eq_true. apply take_prefix.
Qed.

Lemma match_exe_only v t exe argv :
  match_row_argv "exe_only" v t exe argv = bool_decide (v = exe).
Proof. reflexivity. Qed.

(** Refute a membership of a constant in a list of constants. *)
Ltac not_in :=
  match goal with
  | H : _ ∈ _ |- _ => exfalso; repeat (apply elem_of_cons in H as [H|H]; [discriminate H|]);
      by apply not_elem_of_nil in H
  end.
(** Prove one. *)
Ltac is_in := repeat first [apply list_elem_of_here|apply list_elem_of_further].

Lemma match_covers g k v t ttl exe argv :
  plan_row g = Some (k, v, t, ttl) → match_row_argv k v t exe argv = true ↔ covers g exe argv.
Proof.
  intros Hp%plan_row_cases. destruct g as [u a e sc dec ap av]; simpl in *.
  destruct Hp as [(Ha & [[-> [= -> -> -> _]]|[[-> [= -> -> -> _]]|[[-> [= -> -> -> _]]|
      [[-> [= -> -> -> _]]|[-> [= -> -> -> _]]]]]])|
     [(Ha & [[-> [= -> -> -> _]]|[-> [= -> -> -> _]]])|[[-> [= -> -> -> _]]|[-> [= -> -> -> _]]]]].
  1-3: rewrite match_exact by done; split;
    [intros [-> ->]; apply cov_argv; simpl; [is_in|done..]
    |intros []; simpl in *; first [done|not_in|congruence]].
  1: rewrite match_basename; split;
    [intros [? ?]; by apply cov_basename|intros []; simpl in *; first [done|not_in]].
  1: rewrite match_prefix by done; split;
    [intros ?; by apply cov_prefix|intros []; simpl in *; first [done|not_in]].
  1-2: rewrite match_exe_only, bool_decide_eq_true; split;
    [intros ->; apply cov_timed_exe; simpl; [is_in|done..]
    |intros []; simpl in *; first [done|not_in]].
  - split; [by intros; apply cov_forever|done].
  - rewrite match_exe_only, bool_decide_eq_true. split; [by intros ->; apply cov_exe|].
    intros []; simpl in *; first [done|not_in].
Qed.

Lemma blind_pinned g k v t ttl :
  plan_row g = Some (k, v, t, ttl) → bool_decide (k ∈ ARGV_BLIND_KINDS) = false ↔ pinned g.
Proof.
  intros Hp%plan_row_cases. destruct g as [u a e sc dec ap av]; unfold pinned; simpl in *.
  destruct Hp as [(Ha & [[-> [= -> _ _ _]]|[[-> [= -> _ _ _]]|[[-> [= -> _ _ _]]|
      [[-> [= -> _ _ _]]|[-> [= -> _ _ _]]]]]])|
     [(Ha & [[-> [= -> _ _ _]]|[-> [= -> _ _ _]]])|[[-> [= -> _ _ _]]|[-> [= -> _ _ _]]]]].
  1-5: split; [intros _; split; [done|is_in]|intros _; reflexivity].
  1-2: by split; [intros H; vm_compute in H|intros []].
  all: split; [intros H; vm_compute in H; done|intros [_ ?]; not_in].
Qed.

(** Matching a stored row is what its grant promised. *)
Lemma row_hits_make id t g p q :
  plan_row g = Some p →
  row_hits q (make_row id t g p) = true ↔
    covers g (q_exe q) (q_argv q) ∧ (q_delegated q || q_sandboxed q = true → pinned g).
Proof.
  destruct p as [[[k v] tx] ttl]. intros Hp. unfold row_hits.
  cbn [make_row match_kind match_value r_argv].
  rewrite andb_true_iff, negb_true_iff, andb_false_iff, (match_covers _ _ _ _ _ _ _ Hp),
    (blind_pinned _ _ _ _ _ Hp).
  destruct (q_delegated q || q_sandboxed q); naive_solver.
Qed.

Lemma selected_make id t g p q now :
  plan_row g = Some p →
  selected now q (make_row id t g p) = true ↔
    g_uid g = q_uid q ∧ g_action g = q_action q ∧ live_at t g now.
Proof.
  intros Hp. unfold selected. rewrite !andb_true_iff, !bool_decide_eq_true.
  assert (match expires_at (make_row id t g p) with None => true | Some e => (now <? e)%Z end = true
          ↔ live_at t g now) as ->; [|destruct p as [[[??]?]?]; simpl; tauto].
  destruct p as [[[k v] tx] ttl]. apply plan_row_cases in Hp.
  destruct g as [u a e sc dec ap av]; unfold live_at; simpl in *.
  destruct Hp as [(Ha & [[-> [= _ _ _ ->]]|[[-> [= _ _ _ ->]]|[[-> [= _ _ _ ->]]|
      [[-> [= _ _ _ ->]]|[-> [= _ _ _ ->]]]]]])|
     [(Ha & [[-> [= _ _ _ ->]]|[-> [= _ _ _ ->]]])|[[-> [= _ _ _ ->]]|[-> [= _ _ _ ->]]]]];
    simpl; rewrite ?Z.ltb_lt; naive_solver.
Qed.

(** ** Sequences of operations *)

Inductive op :=
| OpStore (now : Z) (g : grant)
| OpDeleteId (id : Z)
| OpDeleteUid (uid : Z)
| OpGc (now : Z)
| OpReopen.

(** The database after an operation, and the grants it was asked to store so far *)
Definition apply_op (s : db * list (Z * grant)) (o : op) : db * list (Z * grant) :=
  let '(d, log) := s in
  match o with
  | OpStore now g => ((store d now g).1, log ++ [(now, g)])
  | OpDeleteId id => ((delete_by_id d id).1, log)
  | OpDeleteUid uid => ((delete_by_uid d uid).1, log)
  | OpGc now => ((gc d now).1, log)
  | OpReopen => (migrate d, log)
  end.
Definition run (ops : list op) : db * list (Z * grant) :=
  fold_left apply_op ops (migrate fresh_db, []).

Lemma next_id_gt rs r : r ∈ rs → (r_id r < next_id rs)%Z.
Proof.
  unfold next_id. induction rs as [|x rs IH]; [by intros []%not_elem_of_nil|].
  rewrite fmap_cons. cbn [foldr]. intros [->|Hr]%elem_of_cons; [lia|]. specialize (IH Hr). lia.
Qed.

Lemma ids_ok_snoc rs t g p : ids_ok rs → ids_ok (rs ++ [make_row (next_id rs) t g p]).
Proof.
  intros Hids. unfold ids_ok. rewrite fmap_app. apply NoDup_app. split; [done|].
  split; [|apply NoDup_singleton]. intros id (r & -> & Hr)%list_elem_of_fmap.
  intros Hin%list_elem_of_singleton. apply next_id_gt in Hr.
  destruct p as [[[??]?]?]. simpl in Hin. lia.
Qed.

(** Migrated, ids distinct, and every row written by a recorded grant *)
Definition from_log (log : list (Z * grant)) (r : row) : Prop :=
  ∃ t g p, (t, g) ∈ log ∧ plan_row g = Some p ∧ r = make_row (r_id r) t g p.
Definition db_inv (d : db) (log : list (Z * grant)) : Prop :=
  ids_ok (rows d) ∧ Forall (from_log log) (rows d) ∧ migrate d = d.

Lemma migrated_rows d rs : migrate d = d → migrate (with_rows d rs) = with_rows d rs.
Proof.
  intros Hm.
  assert (has_scope d = true ∧ has_argv d = true ∧
    "remove_ambiguous_rule_grants" ∈ approval_migrations d) as (Hs & Ha & Hin).
  { rewrite <- Hm. unfold migrate. destruct (has_scope d) eqn:?, (has_argv d) eqn:?;
      case_bool_decide; simpl; repeat split; first [done|set_solver]. }
  unfold migrate. simpl. rewrite Hs, Ha, bool_decide_true by done. done.
Qed.

Lemma migrate_idemp d : migrate (migrate d) = migrate d.
Proof.
  unfold migrate. generalize "remove_ambiguous_rule_grants". intros nm.
  assert (nm ∈ {[nm]} ∪ approval_migrations d) as Hnm by set_solver.
  destruct (has_scope d) eqn:Hs, (has_argv d) eqn:Ha; case_bool_decide; simpl; rewrite ?Hs, ?Ha;
    rewrite bool_decide_true by done; reflexivity.
Qed.

Lemma with_rows_id d : with_rows d (rows d) = d.
Proof. by destruct d. Qed.

Lemma db_inv_filter (P : row → Prop) `{∀ r, Decision (P r)} d log :
  db_inv d log → db_inv (with_rows d (filter P (rows d))) log.
Proof.
  intros (Hids & Hlog & Hm). split; [by apply NoDup_fmap_filter|].
  split; [by apply Forall_filter|by apply migrated_rows].
Qed.

Lemma apply_op_inv s o : db_inv s.1 s.2 → db_inv (apply_op s o).1 (apply_op s o).2.
Proof.
  destruct s as [d log]. simpl. intros Hinv. destruct o as [t g|id|uid|t|]; simpl.
  - assert (∀ r, from_log log r → from_log (log ++ [(t, g)]) r) as Hmono.
    { intros r (t' & g' & p & Hin & Hr). exists t', g', p. set_solver. }
    destruct Hinv as (Hids & Hlog & Hm). unfold store.
    destruct (plan_row g) as [p|] eqn:Hp; simpl.
    + split; [by apply ids_ok_snoc|]. split; [|by apply migrated_rows]. simpl.
      apply Forall_app. split; [by eapply Forall_impl|]. constructor; [|done].
      exists t, g, p. split; [set_solver|]. split; [done|]. by destruct p as [[[??]?]?].
    + split; [done|]. split; [by eapply Forall_impl|done].
  - unfold delete_by_id. destruct (filter _ _); [done|]. by apply db_inv_filter.
  - unfold delete_by_uid. destruct (filter _ _); [done|]. by apply db_inv_filter.
  - by apply db_inv_filter.
  - destruct Hinv as (? & ? & Hm). by rewrite Hm.
Qed.

Lemma run_inv ops : db_inv (run ops).1 (run ops).2.
Proof.
  unfold run. assert (db_inv (migrate fresh_db) []) as H0.
  { split; [constructor|]. split; [constructor|]. apply migrate_idemp. }
  revert H0. generalize (migrate fresh_db) ([] : list (Z * grant)).
  induction ops as [|o ops IH]; intros d log H0; [done|]. cbn [fold_left].
  pose proof (apply_op_inv (d, log) o H0) as H1. destruct (apply_op (d, log) o). by apply IH.
Qed.

(** C28: no cached decision without a grant. Whatever was stored, revoked, collected and
    reopened, a lookup that answers repeats the decision of a grant stored earlier for the
    same caller and action that covers the executable and argv and has not expired; a
    delegated or sandboxed caller is only answered from a grant tied to an argv. *)
Theorem cache_hit_justified ops now q dec :
  lookup (run ops).1 now q = Some dec →
  ∃ t g, (t, g) ∈ (run ops).2 ∧ g_uid g = q_uid q ∧ g_action g = q_action q ∧
    g_decision g = dec ∧ covers g (q_exe q) (q_argv q) ∧ live_at t g now ∧
    (q_delegated q || q_sandboxed q = true → pinned g).
Proof.
  destruct (run_inv ops) as (Hids & Hlog & _). unfold lookup, lookup_detail.
  intros (b & Hb & ->)%fmap_Some. pose proof (lookup_rows_spec now q (rows (run ops).1)) as Hs.
  rewrite Hb in Hs. destruct Hs as (Hin & [Hsel Hhit] & _).
  rewrite Forall_forall in Hlog. destruct (Hlog _ Hin) as (t & g & p & Htg & Hp & Heq).
  rewrite Heq in Hsel, Hhit. apply (selected_make _ _ _ _ _ _ Hp) in Hsel as (Hu & Ha & Hl).
  apply (row_hits_make _ _ _ _ _ Hp) in Hhit as [Hc Hpin].
  exists t, g. do 3 (split; [done|]). split; [|done]. rewrite Heq. by destruct p as [[[??]?]?].
Qed.

Lemma lookup_snoc now q rs r :
  ids_ok (rs ++ [r]) → (∀ x, x ∈ rs → (r_id x < r_id r)%Z) →
  eligible now q r →
  lookup_rows now q (rs ++ [r]) =
    match lookup_rows now q rs with
    | Some b => if (priority (match_kind b) <? priority (match_kind r))%Z then Some b else Some r
    | None => Some r
    end.
Proof.
  intros Hids Hlt He. pose proof (lookup_rows_spec now q rs) as Hs.
  destruct (lookup_rows now q rs) as [b|].
  - destruct Hs as (Hb & Heb & Hbest). specialize (Hlt b Hb).
    destruct (Z.ltb_spec (priority (match_kind b)) (priority (match_kind r)));
      apply lookup_rows_iff; try done.
    + split; [set_solver|]. split; [done|].
      intros x [Hx| ->%list_elem_of_singleton]%elem_of_app Hex; [auto|by left].
    + split; [set_solver|]. split; [done|].
      intros x [Hx| ->%list_elem_of_singleton]%elem_of_app Hex; [|right; lia].
      specialize (Hbest _ Hx Hex). unfold beats in *. lia.
  - apply lookup_rows_iff; [done|]. split; [set_solver|]. split; [done|].
    intros x [Hx| ->%list_elem_of_singleton]%elem_of_app Hex; [|right; lia].
    by apply Hs in Hx.
Qed.

(** A stored decision answers. After a grant is stored, a lookup it covers, before the
    grant expires, is answered with its decision, unless a row of a more specific kind
    answered the lookup already, which then still answers it; and a lookup of another
    caller or action is answered as before. *)
Theorem store_then_lookup d t g p now q :
  ids_ok (rows d) → plan_row g = Some p →
  (store d t g).2 = true ∧
  (g_uid g = q_uid q → g_action g = q_action q → live_at t g now →
   covers g (q_exe q) (q_argv q) → (q_delegated q || q_sandboxed q = true → pinned g) →
   lookup (store d t g).1 now q = Some (g_decision g) ∨
   ∃ b, lookup_detail d now q = Some b ∧
     (priority (match_kind b) < priority p.1.1.1)%Z ∧
     lookup_detail (store d t g).1 now q = Some b) ∧
  (g_uid g ≠ q_uid q ∨ g_action g ≠ q_action q →
   lookup_detail (store d t g).1 now q = lookup_detail d now q).
Proof.
  intros Hids Hp. unfold store. rewrite Hp. simpl. split; [done|].
  set (r := make_row _ _ _ _). unfold lookup, lookup_detail. simpl. split.
  - intros Hu Ha Hl Hc Hpin. rewrite lookup_snoc; [|by apply ids_ok_snoc| |].
    + assert (decision r = g_decision g ∧ match_kind r = p.1.1.1) as [Hd Hk]
        by (unfold r; by destruct p as [[[??]?]?]).
      destruct (lookup_rows now q (rows d)) as [b|]; simpl; [|left; by rewrite Hd].
      destruct (Z.ltb_spec (priority (match_kind b)) (priority (match_kind r))); simpl.
      * right. exists b. by rewrite <- Hk.
      * left. by rewrite Hd.
    + intros x Hx%next_id_gt. unfold r. by destruct p as [[[??]?]?].
    + split; [by apply selected_make|by apply row_hits_make].
  - intros Hne. unfold lookup_rows. rewrite filter_app, filter_cons, decide_False, app_nil_r; [done|].
    intros Hsel. apply (selected_make _ _ _ _ _ _ Hp) in Hsel. naive_solver.
Qed.

(** Expired rows and revoked callers. Collecting expired rows changes no later lookup
    and reports how many rows went; revoking a caller returns and removes exactly its
    rows, so nothing answers it any more, and every other caller is answered as before. *)
Theorem gc_and_revocation d t now q uid :
  (t ≤ now)%Z →
  lookup_detail (gc d t).1 now q = lookup_detail d now q ∧
  length (rows (gc d t).1) + (gc d t).2 = length (rows d) ∧
  (delete_by_uid d uid).2 = filter (λ r, caller_uid r = uid) (rows d) ∧
  (q_uid q = uid → lookup_detail (delete_by_uid d uid).1 now q = None) ∧
  (q_uid q ≠ uid → lookup_detail (delete_by_uid d uid).1 now q = lookup_detail d now q).
Proof.
  intros Ht. split.
  { unfold lookup_detail, lookup_rows, gc. simpl. do 2 f_equal.
    rewrite list_filter_filter. apply list_filter_iff. intros r. split; [tauto|].
    intros Hs. split; [done|]. unfold selected in Hs. unfold expired_at. bool_hyps.
    destruct (expires_at r) as [e|]; [|tauto]. apply Z.ltb_lt in H0. lia. }
  split.
  { unfold gc. simpl. induction (rows d) as [|r rs IH]; [done|].
    rewrite !filter_cons. repeat case_decide; simpl; try tauto; lia. }
  assert (rows (delete_by_uid d uid).1 = filter (λ r, caller_uid r ≠ uid) (rows d) ∧
          (delete_by_uid d uid).2 = filter (λ r, caller_uid r = uid) (rows d)) as [Hr ->].
  { unfold delete_by_uid. destruct (filter (λ r, caller_uid r = uid) (rows d)) as [|x l] eqn:E; [|done].
    simpl. split; [|done]. symmetry. apply list_filter_all. intros r Hr Hu.
    by apply (filter_nil_not_elem_of _ _ r E Hu). }
  unfold lookup_detail, lookup_rows. rewrite Hr, list_filter_filter. split; [done|].
  split; intros Hq.
  - rewrite list_filter_none; [done|]. intros r _ [Hs Hne]. unfold selected in Hs. bool_hyps. congruence.
  - do 2 f_equal. apply list_filter_iff. intros r. split; [tauto|]. intros Hs. split; [done|].
    unfold selected in Hs. bool_hyps. congruence.
Qed.

(** Opening a database. The migration runs once: after it no allow row approved by uid 0
    is left from before, every other row is kept with its decision, a database from before
    the argv column holds no row that claims an exact argv match, and migrating again
    changes nothing, so that later grants of uid 0 stay. *)
Theorem migrate_spec d :
  migrate (migrate d) = migrate d ∧
  ("remove_ambiguous_rule_grants" ∉ approval_migrations d →
   Forall (λ r, ¬ ambiguous r) (rows (migrate d)) ∧
   (λ r, (r_id r, decision r, approver_uid r)) <$> rows (migrate d) =
   (λ r, (r_id r, decision r, approver_uid r)) <$> filter (λ r, ¬ ambiguous r) (rows d)) ∧
  (has_argv d = false → Forall (λ r, match_kind r ≠ "argv_exact") (rows (migrate d))).
Proof.
  split; [apply migrate_idemp|]. unfold migrate. split.
  - intros Hm. rewrite bool_decide_false by done.
    assert (Forall (λ r, ¬ ambiguous r) (filter (λ r, ¬ ambiguous r) (rows d))) as Hf.
    { apply Forall_forall. by intros r [? _]%list_elem_of_filter. }
    destruct (has_scope d), (has_argv d); simpl; rewrite ?Forall_fmap; (split; [exact Hf|]);
      rewrite <- ?list_fmap_compose; done.
  - intros ->. simpl. apply Forall_fmap, Forall_forall. intros r _. simpl. by case_bool_decide.
Qed.

(** ** Concrete runs *)

Definition sample_grant (scope : string) (argv : list string) : grant :=
  {| g_uid := 1000; g_action := "qsu.exec"; g_exe := "/usr/bin/apt"; g_scope := scope;
     g_decision := true; g_approver := 1000; g_argv := argv |}.
Definition sample_query (argv : list string) (sandboxed : bool) : query :=
  {| q_uid := 1000; q_action := "qsu.exec"; q_exe := "/usr/bin/apt"; q_argv := argv;
     q_delegated := false; q_sandboxed := sandboxed |}.
Definition sample_ops : list op :=
  [OpStore 10 (sample_grant "forever_exe" []);
   OpStore 20 (sample_grant "1h" ["apt"; "update"]); OpGc 30].

Example sample_lookups :
  lookup (run sample_ops).1 40 (sample_query ["apt"; "install"] false) = Some true ∧
  lookup (run sample_ops).1 40 (sample_query ["apt"; "install"] true) = None ∧
  lookup (run sample_ops).1 40 (sample_query ["apt"; "update"] true) = Some true ∧
  lookup (run sample_ops).1 4000 (sample_query ["apt"; "update"] true) = None.
Proof. by vm_compute. Qed.

Lemma lookup_most_specific_witness :
  ∃ b, lookup_detail (run sample_ops).1 40 (sample_query ["apt"; "update"] false) = Some b ∧
    match_kind b = "argv_exact" ∧
    lookup_rows 40 (sample_query ["apt"; "update"] false) (reverse (rows (run sample_ops).1)) = Some b.
Proof.
  destruct (lookup_most_specific (run sample_ops).1 40 (sample_query ["apt"; "update"] false)
    (reverse (rows (run sample_ops).1))) as (_ & _ & Heq).
  - exact (proj1 (run_inv sample_ops)).
  - apply reverse_Permutation.
  - rewrite Heq. eexists. split; [vm_compute; reflexivity|]. split; reflexivity.
Defined.

Lemma cache_hit_justified_witness :
  ∃ t g, (t, g) ∈ (run sample_ops).2 ∧ g_decision g = true ∧ pinned g.
Proof.
  destruct (cache_hit_justified sample_ops 40 (sample_query ["apt"; "update"] true) true)
    as (t & g & Hin & _ & _ & Hd & _ & _ & Hpin); [vm_compute; reflexivity|].
  exists t, g. split; [exact Hin|]. split; [exact Hd|]. apply Hpin. reflexivity.
Defined.

Lemma store_then_lookup_witness :
  (store fresh_db 5 (sample_grant "forever_prefix" ["apt"])).2 = true ∧
  lookup (store fresh_db 5 (sample_grant "forever_prefix" ["apt"])).1 9
    (sample_query ["apt"; "install"] true) = Some true.
Proof.
  destruct (store_then_lookup fresh_db 5 (sample_grant "forever_prefix" ["apt"])
    ("prefix", "", argv_text ["apt"], None) 9 (sample_query ["apt"; "install"] true))
    as (Hs & Hl & _); [constructor|reflexivity|].
  split; [exact Hs|].
  destruct Hl as [Hl|(b & Hb & _)]; [reflexivity|reflexivity|split; discriminate| | |exact Hl|].
  - apply cov_prefix; [reflexivity|discriminate|]. exists ["install"]. reflexivity.
  - intros _. split; [discriminate|]. is_in.
  - discriminate Hb.
Defined.

Lemma gc_and_revocation_witness :
  lookup_detail (gc (run sample_ops).1 5000).1 5000 (sample_query ["apt"; "update"] true) = None ∧
  (gc (run sample_ops).1 5000).2 = 1.
Proof.
  destruct (gc_and_revocation (run sample_ops).1 5000 5000 (sample_query ["apt"; "update"] true) 0)
    as (Hl & _); [lia|]. rewrite Hl. split; reflexivity.
Defined.

End ApprovalCache.
