(* ===== verification/LineageStore.v ===== *)
(** * The lineage store

    [src/broker/qdistro_lineage_store.py]: the nine sealed tables, the hash-chained
    ledger, the writers, retention and the queries. A table is the list of its rows in
    rowid order. The digest [hashlib.sha256(...).hexdigest()] is the argument [H]; the clock
    readings of a call are arguments. [LineageChain.v] proves what the ledger promises. *)

From S2P Require Import Prelude Json.
From stdpp Require Import gmultiset list.
Import Json.

Module Lineage.

(** ** Vocabularies *)

Definition EDGE_PREDICATES : list string :=
  ["used"; "wasGeneratedBy"; "wasDerivedFrom"; "wasAttributedTo"; "wasAssociatedWith";
   "actedOnBehalfOf"].
Definition ENTITY_KINDS : list string :=
  ["resource"; "file"; "payload"; "token"; "export"; "commit"; "archive"; "recall-result";
   "artifact"].
Definition ACTIVITY_KINDS : list string :=
  ["workflow-run"; "workflow-step"; "paste"; "clipboard"; "import"; "export"; "upload";
   "download"; "extract"; "archive-create"; "commit"; "sanitize"; "declassify";
   "reclassify"; "recall-query"; "recall-export"; "credential-use"].
Definition AGENT_KINDS : list string :=
  ["silo"; "app"; "agent"; "broker"; "workflow"; "credential-authority"; "admin"].
Definition HOST_CLASSES : list string :=
  ["local"; "local-vm"; "local-container"; "remote-service"; "unknown"].
Definition MAPPING_CONFIDENCE : list string :=
  ["broker-derived"; "trusted-tool"; "app-reported"; "inferred"].
Definition TRUSTED_MAPPING_CONFIDENCE : list string := ["broker-derived"; "trusted-tool"].
Definition RECEIPT_KINDS : list string :=
  ["sidecar"; "xattr"; "git-trailer"; "export-manifest"; "upload-receipt"; "attestation"].
Definition ASSERTION_AUTHORITY : list string := ["broker-derived"; "app-reported"].

Definition isin (x : string) (l : list string) : bool := bool_decide (x ∈ l).

(** ** Set columns *)

(** [_jset]: the sorted, de-duplicated JSON list *)
Definition jset (values : gset string) : string :=
  if bool_decide (values = ∅) then "[]"
  else dumps (spaced false) (JArr (JStr <$> sorted_set values)).

Definition json_str (v : json) : option string :=
  match v with JStr s => Some s | _ => None end.

(** [_jload], with [None] and a text that does not decode read as the empty set *)
Definition jload (text : option string) : gset string :=
  match text with
  | None => ∅
  | Some t =>
      if negb (truthy t) then ∅
      else match loads t with Ok (JArr l) => list_to_set (omap json_str l) | _ => ∅ end
  end.

(** ** Value types *)

Record Entity := {
  eid : string;
  e_kind : string;
  e_digest : option string;
  e_locator : option string;
  e_guards : gset string;
  e_compartments : gset string;
  e_conflict_classes : gset string;
  e_integrity : option string;
  e_status : string;
  e_facets : json;
  e_created_at : Z;
}.

Record Activity := {
  aid : string;
  a_kind : string;
  a_chokepoint : option string;
  a_action_version : option string;
  a_host_class : string;
  a_network_egress : option string;
  a_verdict : option string;
  a_started_at : Z;
  a_ended_at : option Z;
}.

Record Agent := { gid : string; g_kind : string; g_name : option string; g_created_at : Z }.

Inductive LineageStoreError :=
| SE_entity_kind (k : string) | SE_integrity (i : option string) | SE_activity_kind (k : string)
| SE_host_class (h : string) | SE_agent_kind (k : string) | SE_predicate (p : string)
| SE_authority (a : string) | SE_receipt_kind (k : string) | SE_confidence (c : string)
| SE_older_than.

(** ** Tables

    Each row carries its rowid, its sealed columns and its seal. The sealed columns of a
    table know their canonical payload: the keys of [_SEALED_COLUMNS]. *)

Class Sealed (A : Type) := sealed_payload : A → json.

Record row (A : Type) := { rowid : Z; cols : A; seal : string }.
Arguments rowid {A} r.
Arguments cols {A} r.
Arguments seal {A} r.

Definition jopt (o : option string) : json :=
  match o with Some s => JStr s | None => JNull end.

Record entity_cols := {
  ec_eid : string; ec_kind : string; ec_digest : option string; ec_locator : option string;
  ec_guards : string; ec_compartments : string; ec_conflict_classes : string;
  ec_integrity : option string; ec_status : string; ec_facets : option string;
  ec_created_at : Z;
}.
#[export] Instance entity_sealed : Sealed entity_cols := λ r,
  JObj [("eid", JStr (ec_eid r)); ("kind", JStr (ec_kind r)); ("digest", jopt (ec_digest r));
        ("locator", jopt (ec_locator r)); ("guards", JStr (ec_guards r));
        ("compartments", JStr (ec_compartments r));
        ("conflict_classes", JStr (ec_conflict_classes r));
        ("integrity", jopt (ec_integrity r)); ("status", JStr (ec_status r));
        ("facets", jopt (ec_facets r)); ("created_at", JInt (ec_created_at r))].

(** [verdict] and [ended_at] are stored beside the sealed columns. *)
Record activity_cols := {
  ac_aid : string; ac_kind : string; ac_chokepoint : option string;
  ac_action_version : option string; ac_host_class : string;
  ac_network_egress : option string; ac_started_at : Z;
  ac_verdict : option string; ac_ended_at : option Z;
}.
#[export] Instance activity_sealed : Sealed activity_cols := λ r,
  JObj [("aid", JStr (ac_aid r)); ("kind", JStr (ac_kind r));
        ("chokepoint", jopt (ac_chokepoint r)); ("action_version", jopt (ac_action_version r));
        ("host_class", JStr (ac_host_class r)); ("network_egress", jopt (ac_network_egress r));
        ("started_at", JInt (ac_started_at r))].

Record agent_cols := {
  gc_gid : string; gc_kind : string; gc_name : option string; gc_created_at : Z }.
#[export] Instance agent_sealed : Sealed agent_cols := λ r,
  JObj [("gid", JStr (gc_gid r)); ("kind", JStr (gc_kind r)); ("name", jopt (gc_name r));
        ("created_at", JInt (gc_created_at r))].

Record edge_cols := {
  dc_predicate : string; dc_subject : string; dc_object : string;
  dc_activity : option string; dc_created_at : Z;
}.
#[export] Instance edge_sealed : Sealed edge_cols := λ r,
  JObj [("predicate", JStr (dc_predicate r)); ("subject", JStr (dc_subject r));
        ("object", JStr (dc_object r)); ("activity", jopt (dc_activity r));
        ("created_at", JInt (dc_created_at r))].

Record assertion_cols := {
  sc_subject : string; sc_fact : string; sc_value : option string;
  sc_asserted_by : string; sc_authority : string; sc_created_at : Z;
}.
#[export] Instance assertion_sealed : Sealed assertion_cols := λ r,
  JObj [("subject", JStr (sc_subject r)); ("fact", JStr (sc_fact r));
        ("value", jopt (sc_value r)); ("asserted_by", JStr (sc_asserted_by r));
        ("authority", JStr (sc_authority r)); ("created_at", JInt (sc_created_at r))].

Record receipt_cols := {
  rc_entity : string; rc_kind : string; rc_locator : option string;
  rc_digest : option string; rc_payload : option string; rc_created_at : Z;
}.
#[export] Instance receipt_sealed : Sealed receipt_cols := λ r,
  JObj [("entity", JStr (rc_entity r)); ("kind", JStr (rc_kind r));
        ("locator", jopt (rc_locator r)); ("digest", jopt (rc_digest r));
        ("payload", jopt (rc_payload r)); ("created_at", JInt (rc_created_at r))].

Record mapping_cols := {
  mc_map_id : string; mc_activity : string; mc_mapping_kind : string;
  mc_handler_version : option string; mc_confidence : string; mc_created_at : Z;
}.
#[export] Instance mapping_sealed : Sealed mapping_cols := λ r,
  JObj [("map_id", JStr (mc_map_id r)); ("activity", JStr (mc_activity r));
        ("mapping_kind", JStr (mc_mapping_kind r));
        ("handler_version", jopt (mc_handler_version r));
        ("confidence", JStr (mc_confidence r)); ("created_at", JInt (mc_created_at r))].

(** [mapping_input] and [mapping_output] have the same columns. *)
Record endpoint_cols := {
  pc_map_id : string; pc_entity : string; pc_selector : option string; pc_created_at : Z }.
#[export] Instance endpoint_sealed : Sealed endpoint_cols := λ r,
  JObj [("map_id", JStr (pc_map_id r)); ("entity", JStr (pc_entity r));
        ("selector", jopt (pc_selector r)); ("created_at", JInt (pc_created_at r))].

(** [json.dumps(payload, sort_keys=True, separators=(",", ":"))] *)
Definition body_of {A} `{Sealed A} (c : A) : string := dumps compact (sealed_payload c).

Record chain_row := { seq : Z; c_tbl : string; c_body : string; c_seal : string }.

Record LineageStore := MkStore {
  entities : list (row entity_cols);
  activities : list (row activity_cols);
  agents : list (row agent_cols);
  edges : list (row edge_cols);
  assertions : list (row assertion_cols);
  receipts : list (row receipt_cols);
  mapping_activity : list (row mapping_cols);
  mapping_input : list (row endpoint_cols);
  mapping_output : list (row endpoint_cols);
  lineage_chain : list chain_row;
}.

Definition empty_store : LineageStore := MkStore [] [] [] [] [] [] [] [] [] [].

Definition with_entities (s : LineageStore) l := MkStore l (activities s) (agents s) (edges s)
  (assertions s) (receipts s) (mapping_activity s) (mapping_input s) (mapping_output s)
  (lineage_chain s).
Definition with_activities (s : LineageStore) l := MkStore (entities s) l (agents s) (edges s)
  (assertions s) (receipts s) (mapping_activity s) (mapping_input s) (mapping_output s)
  (lineage_chain s).
Definition with_agents (s : LineageStore) l := MkStore (entities s) (activities s) l (edges s)
  (assertions s) (receipts s) (mapping_activity s) (mapping_input s) (mapping_output s)
  (lineage_chain s).
Definition with_edges (s : LineageStore) l := MkStore (entities s) (activities s) (agents s) l
  (assertions s) (receipts s) (mapping_activity s) (mapping_input s) (mapping_output s)
  (lineage_chain s).
Definition with_assertions (s : LineageStore) l := MkStore (entities s) (activities s)
  (agents s) (edges s) l (receipts s) (mapping_activity s) (mapping_input s)
  (mapping_output s) (lineage_chain s).
Definition with_receipts (s : LineageStore) l := MkStore (entities s) (activities s)
  (agents s) (edges s) (assertions s) l (mapping_activity s) (mapping_input s)
  (mapping_output s) (lineage_chain s).
Definition with_mapping_activity (s : LineageStore) l := MkStore (entities s) (activities s)
  (agents s) (edges s) (assertions s) (receipts s) l (mapping_input s) (mapping_output s)
  (lineage_chain s).
Definition with_mapping_input (s : LineageStore) l := MkStore (entities s) (activities s)
  (agents s) (edges s) (assertions s) (receipts s) (mapping_activity s) l
  (mapping_output s) (lineage_chain s).
Definition with_mapping_output (s : LineageStore) l := MkStore (entities s) (activities s)
  (agents s) (edges s) (assertions s) (receipts s) (mapping_activity s) (mapping_input s) l
  (lineage_chain s).
Definition with_chain (s : LineageStore) l := MkStore (entities s) (activities s) (agents s)
  (edges s) (assertions s) (receipts s) (mapping_activity s) (mapping_input s)
  (mapping_output s) l.

(** The key sqlite gives the next row of an [INTEGER PRIMARY KEY] table *)
Definition next_key (keys : list Z) : Z := (1 + foldr Z.max 0 keys)%Z.

(** [INSERT] of a row with its columns and seal *)
Definition insert_row {A} (t : list (row A)) (c : A) (sl : string) : list (row A) :=
  t ++ [{| rowid := next_key (rowid <$> t); cols := c; seal := sl |}].

Definition last_rowid {A} (t : list (row A)) : Z :=
  match last t with Some r => rowid r | None => 0%Z end.

(** ** The ledger *)

Definition US : string := String (ascii_of_N 31) "".
Definition GENESIS : string := "qdistro-lineage-genesis".
Definition TOMBSTONE : string := "__tombstone__".

Section store.
Context (H : string → string).

(** [chain_head] *)
Definition chain_head (s : LineageStore) : string :=
  match last (lineage_chain s) with Some r => c_seal r | None => GENESIS end.

(** [_seal_value] *)
Definition seal_value (prev tbl body : string) : string :=
  H (prev +:+ US +:+ tbl +:+ US +:+ body).

(** [INSERT INTO lineage_chain] at the current head *)
Definition append_chain (s : LineageStore) (tbl body : string) : LineageStore :=
  with_chain s (lineage_chain s ++
    [{| seq := next_key (seq <$> lineage_chain s); c_tbl := tbl; c_body := body;
        c_seal := seal_value (chain_head s) tbl body |}]).

(** [_seal]: the ledger afterwards and the seal *)
Definition seal_row {A} `{Sealed A} (s : LineageStore) (tbl : string) (c : A)
    : LineageStore * string :=
  (append_chain s tbl (body_of c), seal_value (chain_head s) tbl (body_of c)).

(** [_tombstone] *)
Definition tombstone (s : LineageStore) (target_seq : Z) (tbl body : string) : LineageStore :=
  append_chain s TOMBSTONE (dump_int target_seq +:+ US +:+ tbl +:+ US +:+ body).

(** ** Writers

    A writer validates before it writes, and its ledger and table inserts are one
    transaction: it either raises and leaves the store as it was, or does all of them. *)

Abbreviation written := (result LineageStoreError (LineageStore * Z)).

(** [v or fallback] on an integer *)
Definition or_z (v fallback : Z) : Z := if (v =? 0)%Z then fallback else v.

(** [bool(v)] of a decoded value; a float is false when its text denotes zero. *)
Definition json_truthy (v : json) : bool :=
  match v with
  | JNull => false
  | JBool b => b
  | JInt z => negb (z =? 0)%Z
  | JFloat x => negb (float_zero x)
  | JStr s => truthy s
  | JArr l => match l with [] => false | _ => true end
  | JObj d => match d with [] => false | _ => true end
  end.

(** [json.dumps(v, sort_keys=True) if v else None] *)
Definition dumps_or_none (v : json) : option string :=
  if json_truthy v then Some (dumps (spaced true) v) else None.

(** The columns [record_entity] seals *)
Definition entity_columns (now : Z) (ent : Entity) : entity_cols :=
  {| ec_eid := eid ent; ec_kind := e_kind ent; ec_digest := e_digest ent;
     ec_locator := e_locator ent; ec_guards := jset (e_guards ent);
     ec_compartments := jset (e_compartments ent);
     ec_conflict_classes := jset (e_conflict_classes ent);
     ec_integrity := e_integrity ent; ec_status := e_status ent;
     ec_facets := dumps_or_none (e_facets ent);
     ec_created_at := or_z (e_created_at ent) now |}.

(** [record_entity] *)
Definition record_entity (s : LineageStore) (now : Z) (ent : Entity) : written :=
  let* _ := guard_else (isin (e_kind ent) ENTITY_KINDS) (SE_entity_kind (e_kind ent)) (Ok tt) in
  let* _ := guard_else (bool_decide (e_integrity ent = None ∨ e_integrity ent = Some "mixed"))
              (SE_integrity (e_integrity ent)) (Ok tt) in
  let c := entity_columns now ent in
  let '(s1, sl) := seal_row s "entities" c in
  let t := insert_row (entities s1) c sl in
  Ok (with_entities s1 t, last_rowid t).

(** [record_assertion] *)
Definition record_assertion (s : LineageStore) (now : Z) (subject fact : string) (value : json)
    (asserted_by authority : string) : written :=
  let* _ := guard_else (isin authority ASSERTION_AUTHORITY) (SE_authority authority) (Ok tt) in
  let c := {| sc_subject := subject; sc_fact := fact;
              sc_value := Some (dumps (spaced true) value); sc_asserted_by := asserted_by;
              sc_authority := authority; sc_created_at := now |} in
  let '(s1, sl) := seal_row s "assertions" c in
  let t := insert_row (assertions s1) c sl in
  Ok (with_assertions s1 t, last_rowid t).

(** [record_activity]; [now2] is the reading the nested verdict assertion takes. *)
Definition record_activity (s : LineageStore) (now now2 : Z) (act : Activity) : written :=
  let* _ := guard_else (isin (a_kind act) ACTIVITY_KINDS) (SE_activity_kind (a_kind act)) (Ok tt) in
  let* _ := guard_else (isin (a_host_class act) HOST_CLASSES) (SE_host_class (a_host_class act)) (Ok tt) in
  let c := {| ac_aid := aid act; ac_kind := a_kind act; ac_chokepoint := a_chokepoint act;
              ac_action_version := a_action_version act; ac_host_class := a_host_class act;
              ac_network_egress := a_network_egress act;
              ac_started_at := or_z (a_started_at act) now;
              ac_verdict := a_verdict act; ac_ended_at := a_ended_at act |} in
  let '(s1, sl) := seal_row s "activities" c in
  let t := insert_row (activities s1) c sl in
  let s2 := with_activities s1 t in
  match a_verdict act with
  | None => Ok (s2, last_rowid t)
  | Some v =>
      let* r := record_assertion s2 now2 (aid act) "activity.verdict" (JStr v)
                  "broker" "broker-derived" in
      Ok (r.1, last_rowid t)
  end.

Definition stamp (aid' : string) (ended : Z) (verdict : option string) (r : row activity_cols)
    : row activity_cols :=
  if bool_decide (ac_aid (cols r) = aid') then
    {| rowid := rowid r; seal := seal r;
       cols := {| ac_aid := ac_aid (cols r); ac_kind := ac_kind (cols r);
                  ac_chokepoint := ac_chokepoint (cols r);
                  ac_action_version := ac_action_version (cols r);
                  ac_host_class := ac_host_class (cols r);
                  ac_network_egress := ac_network_egress (cols r);
                  ac_started_at := ac_started_at (cols r);
                  ac_verdict := match verdict with Some v => Some v | None => ac_verdict (cols r) end;
                  ac_ended_at := Some ended |} |}
  else r.

(** [end_activity] *)
Definition end_activity (s : LineageStore) (now now2 : Z) (aid' : string)
    (verdict : option string) (ended_at : option Z) : result LineageStoreError LineageStore :=
  let s1 := with_activities s (stamp aid' (default now ended_at) verdict <$> activities s) in
  match verdict with
  | None => Ok s1
  | Some v =>
      let* r := record_assertion s1 now2 aid' "activity.verdict" (JStr v)
                  "broker" "broker-derived" in Ok r.1
  end.

(** [record_agent] *)
Definition record_agent (s : LineageStore) (now : Z) (ag : Agent) : written :=
  let* _ := guard_else (isin (g_kind ag) AGENT_KINDS) (SE_agent_kind (g_kind ag)) (Ok tt) in
  let c := {| gc_gid := gid ag; gc_kind := g_kind ag; gc_name := g_name ag;
              gc_created_at := or_z (g_created_at ag) now |} in
  let '(s1, sl) := seal_row s "agents" c in
  let t := insert_row (agents s1) c sl in
  Ok (with_agents s1 t, last_rowid t).

(** [record_edge] *)
Definition record_edge (s : LineageStore) (now : Z) (predicate subject obj : string)
    (activity : option string) : written :=
  let* _ := guard_else (isin predicate EDGE_PREDICATES) (SE_predicate predicate) (Ok tt) in
  let c := {| dc_predicate := predicate; dc_subject := subject; dc_object := obj;
              dc_activity := activity; dc_created_at := now |} in
  let '(s1, sl) := seal_row s "edges" c in
  let t := insert_row (edges s1) c sl in
  Ok (with_edges s1 t, last_rowid t).

(** [record_receipt] *)
Definition record_receipt (s : LineageStore) (now : Z) (entity kind : string)
    (locator digest : option string) (payload : json) : written :=
  let* _ := guard_else (isin kind RECEIPT_KINDS) (SE_receipt_kind kind) (Ok tt) in
  let c := {| rc_entity := entity; rc_kind := kind; rc_locator := locator; rc_digest := digest;
              rc_payload := dumps_or_none payload; rc_created_at := now |} in
  let '(s1, sl) := seal_row s "receipts" c in
  let t := insert_row (receipts s1) c sl in
  Ok (with_receipts s1 t, last_rowid t).

(** The loops of [record_mapping] *)
Definition add_input (map_id : string) (ts : Z) (s : LineageStore) (p : string * option string)
    : LineageStore :=
  let c := {| pc_map_id := map_id; pc_entity := p.1; pc_selector := p.2; pc_created_at := ts |} in
  let '(s1, sl) := seal_row s "mapping_input" c in
  with_mapping_input s1 (insert_row (mapping_input s1) c sl).
Definition add_output (map_id : string) (ts : Z) (s : LineageStore) (p : string * option string)
    : LineageStore :=
  let c := {| pc_map_id := map_id; pc_entity := p.1; pc_selector := p.2; pc_created_at := ts |} in
  let '(s1, sl) := seal_row s "mapping_output" c in
  with_mapping_output s1 (insert_row (mapping_output s1) c sl).

(** [record_mapping] *)
Definition record_mapping (s : LineageStore) (now : Z)
    (map_id activity mapping_kind confidence : string)
    (inputs outputs : list (string * option string)) (handler_version : option string)
    : result LineageStoreError LineageStore :=
  let* _ := guard_else (isin confidence MAPPING_CONFIDENCE) (SE_confidence confidence) (Ok tt) in
  let c := {| mc_map_id := map_id; mc_activity := activity; mc_mapping_kind := mapping_kind;
              mc_handler_version := handler_version; mc_confidence := confidence;
              mc_created_at := now |} in
  let '(s1, sl) := seal_row s "mapping_activity" c in
  let s2 := with_mapping_activity s1 (insert_row (mapping_activity s1) c sl) in
  let s3 := fold_left (add_input map_id now) inputs s2 in
  Ok (fold_left (add_output map_id now) outputs s3).

(** [mapping_narrows_guards] *)
Definition mapping_narrows_guards (confidence : string) : bool :=
  isin confidence TRUSTED_MAPPING_CONFIDENCE.

(** ** Retention *)

Definition doomed (kind : string) (cutoff : Z) (r : row entity_cols) : Prop :=
  ec_kind (cols r) = kind ∧ (ec_created_at (cols r) < cutoff)%Z.
#[export] Instance doomed_dec kind cutoff r : Decision (doomed kind cutoff r).
Proof. unfold doomed. apply _. Defined.

(** [SELECT seq FROM lineage_chain WHERE tbl='entities' AND body=? ORDER BY seq] *)
Definition seqs_of (s : LineageStore) (body : string) : list Z :=
  seq <$> filter (λ r, c_tbl r = "entities" ∧ c_body r = body) (lineage_chain s).

(** One doomed row: tombstone the first of its ledger entries not yet consumed. *)
Definition gc_row (acc : LineageStore * gset Z) (r : row entity_cols) : LineageStore * gset Z :=
  let '(s, consumed) := acc in
  match filter (λ q, q ∉ consumed) (seqs_of s (body_of (cols r))) with
  | [] => acc
  | q :: _ => (tombstone s q "entities" (body_of (cols r)), {[q]} ∪ consumed)
  end.

(** [gc]: the store and the number of rows deleted *)
Definition gc (s : LineageStore) (now : Z) (kind : string) (older_than_seconds : Z)
    : result LineageStoreError (LineageStore * nat) :=
  let* _ := guard_else (isin kind ENTITY_KINDS) (SE_entity_kind kind) (Ok tt) in
  let* _ := guard_else (0 <=? older_than_seconds)%Z SE_older_than (Ok tt) in
  let cutoff := (now - older_than_seconds)%Z in
  let dead := filter (doomed kind cutoff) (entities s) in
  let s1 := (fold_left gc_row dead (s, ∅)).1 in
  Ok (with_entities s1 (filter (λ r, ¬ doomed kind cutoff r) (entities s1)), length dead).

(** ** Verification of the ledger *)

(** [s.split(US, 1)] when it splits *)
Fixpoint split1 (s : string) : option (string * string) :=
  match s with
  | "" => None
  | String c s' =>
      if bool_decide (c = ascii_of_N 31) then Some ("", s')
      else match split1 s' with Some (a, b) => Some (String c a, b) | None => None end
  end.

(** [int(text)]: surrounding white space, a sign, and digits with single underscores
    between them *)
Definition py_space (c : ascii) : bool :=
  bool_decide (ord c ∈ [9; 10; 11; 12; 13; 28; 29; 30; 31; 32; 133; 160]%N).
Fixpoint lstrip (s : string) : string :=
  match s with String c s' => if py_space c then lstrip s' else s | "" => "" end.
(** [s.rstrip()] *)
Fixpoint rstrip (s : string) : string :=
  match s with
  | "" => ""
  | String c s' => match rstrip s' with
                   | "" => if py_space c then "" else String c ""
                   | t => String c t
                   end
  end.
(** The digits of the text; [after] says whether a digit was just read. *)
Fixpoint int_digits (after : bool) (acc : N) (count : nat) (s : string) : option (N * nat) :=
  match s with
  | "" => if after then Some (acc, count) else None
  | String c s' =>
      if is_digit c then int_digits true (10 * acc + (ord c - 48)) (S count) s'
      else if bool_decide (c = "_"%char) && after then int_digits false acc count s'
      else None
  end.
Definition py_int (s : string) : option Z :=
  let t := rstrip (lstrip s) in
  let '(neg, u) := match t with
                   | String c u => if bool_decide (c = "-"%char) then (true, u)
                                   else if bool_decide (c = "+"%char) then (false, u) else (false, t)
                   | "" => (false, t)
                   end in
  match int_digits false 0 0 u with
  | Some (n, count) => if MAX_INT_DIGITS <? count then None
                       else Some (if neg : bool then - Z.of_N n else Z.of_N n)%Z
  | None => None
  end.

(** [_parse_tombstone] *)
Definition parse_tombstone (body : string) : option (Z * string * string) :=
  match split1 body with
  | None => None
  | Some (p0, rest) =>
      match split1 rest with
      | None => None
      | Some (p1, p2) => n ← py_int p0; Some (n, p1, p2)
      end
  end.

(** The loop state of [verify_chain]: [expected] counts the bodies that should be live in
    each table. *)
Record vstate := {
  retired : gset Z;
  seq_body : list (Z * (string * string));
  expected : gmap string (gmultiset string);
  prev : string;
}.
Definition vstate0 : vstate := {| retired := ∅; seq_body := []; expected := ∅; prev := GENESIS |}.

Definition expected_of (v : vstate) (tbl : string) : gmultiset string :=
  default ∅ (expected v !! tbl).

(** One ledger row; [None] is [return False]. *)
Definition vstep (v : vstate) (r : chain_row) : option vstate :=
  if negb (bool_decide (seal_value (prev v) (c_tbl r) (c_body r) = c_seal r)) then None
  else
    let next ret ex := Some {| retired := ret;
        seq_body := od_set (seq_body v) (seq r) (c_tbl r, c_body r);
        expected := ex; prev := c_seal r |} in
    if bool_decide (c_tbl r = TOMBSTONE) then
      match parse_tombstone (c_body r) with
      | None => None
      | Some (t_seq, t_tbl, t_body) =>
          if negb (bool_decide (od_get (seq_body v) t_seq = Some (t_tbl, t_body))) then None
          else if bool_decide (t_seq ∈ retired v) then None
          else if negb (bool_decide (t_body ∈ expected_of v t_tbl)) then None
          else next ({[t_seq]} ∪ retired v)
                    (<[t_tbl := expected_of v t_tbl ∖ {[+ t_body +]}]> (expected v))
      end
    else next (retired v) (<[c_tbl r := {[+ c_body r +]} ⊎ expected_of v (c_tbl r)]> (expected v)).

Fixpoint vloop (v : vstate) (rs : list chain_row) : option vstate :=
  match rs with [] => Some v | r :: rs' => v' ← vstep v r; vloop v' rs' end.

(** [_live_bodies], on the rows of one table *)
Definition bodies {A} `{Sealed A} (t : list (row A)) : gmultiset string :=
  list_to_set_disj ((λ r, body_of (cols r)) <$> t).

(** The tables of [_SEALED_COLUMNS] with their live bodies *)
Definition live_bodies (s : LineageStore) : list (string * gmultiset string) :=
  [("entities", bodies (entities s)); ("activities", bodies (activities s));
   ("agents", bodies (agents s)); ("edges", bodies (edges s));
   ("assertions", bodies (assertions s)); ("receipts", bodies (receipts s));
   ("mapping_activity", bodies (mapping_activity s));
   ("mapping_input", bodies (mapping_input s)); ("mapping_output", bodies (mapping_output s))].

(** [verify_chain] *)
Definition verify_chain (s : LineageStore) (expected_head : option string) : bool :=
  match vloop vstate0 (lineage_chain s) with
  | None => false
  | Some v =>
      match expected_head with
      | Some h => bool_decide (prev v = h)
      | None => true
      end &&
      forallb (λ '(tbl, have), bool_decide (expected_of v tbl = have)) (live_bodies s)
  end.

End store.

(** ** Queries *)

(** The entity a row reads back as; facets that do not decode are empty. *)
Definition entity_of (c : entity_cols) : Entity :=
  {| eid := ec_eid c; e_kind := ec_kind c; e_digest := ec_digest c; e_locator := ec_locator c;
     e_guards := jload (Some (ec_guards c)); e_compartments := jload (Some (ec_compartments c));
     e_conflict_classes := jload (Some (ec_conflict_classes c));
     e_integrity := ec_integrity c; e_status := ec_status c;
     e_facets := match ec_facets c with
                 | None => JObj []
                 | Some t =>
                     if negb (truthy t) then JObj []
                     else match loads t with
                          | Ok v => if json_truthy v then v else JObj []
                          | Err _ => JObj []
                          end
                 end;
     e_created_at := ec_created_at c |}.

(** [get_entity]: the row of the highest id *)
Definition get_entity (s : LineageStore) (id : string) : option Entity :=
  (λ r, entity_of (cols r)) <$> last (filter (λ r, ec_eid (cols r) = id) (entities s)).

(** [SELECT take FROM edges WHERE predicate = 'wasDerivedFrom' AND match IN (frontier)] *)
Definition walk_step (s : LineageStore) (forward : bool) (frontier : gset string) : gset string :=
  list_to_set (omap (λ r : row edge_cols,
    let '(m, t) := if forward then (dc_object (cols r), dc_subject (cols r))
                   else (dc_subject (cols r), dc_object (cols r)) in
    if bool_decide (dc_predicate (cols r) = "wasDerivedFrom") && bool_decide (m ∈ frontier)
    then Some t else None) (edges s)).

(** The loop of [_walk], [n] rounds left *)
Fixpoint walk_loop (s : LineageStore) (forward : bool) (start : string) (n : nat)
    (seen frontier : gset string) : gset string :=
  match n with
  | O => seen
  | S n' =>
      if bool_decide (frontier = ∅) then seen else
      let nxt := walk_step s forward frontier ∖ seen ∖ {[start]} in
      walk_loop s forward start n' (seen ∪ nxt) nxt
  end.

(** [_walk], [downstream], [upstream] *)
Definition walk (s : LineageStore) (start : string) (forward : bool) (max_depth : nat)
    : gset string := walk_loop s forward start max_depth ∅ {[start]}.
Definition downstream (s : LineageStore) (id : string) (max_depth : nat) : gset string :=
  walk s id true max_depth.
Definition upstream (s : LineageStore) (id : string) (max_depth : nat) : gset string :=
  walk s id false max_depth.

(** [guarded_descendants] *)
Definition guarded_descendants (s : LineageStore) (id : string) (max_depth : nat)
    : gmap string (gset string) :=
  list_to_map (omap (λ d, (λ e, (d, e_guards e)) <$> get_entity s d)
                 (elements (downstream s id max_depth))).

(** A JSON column read back; [bad] is what a text that does not decode gives. *)
Definition load_column (t : option string) (bad : string → json) : json :=
  match t with
  | None => JNull
  | Some t => match loads t with Ok v => v | Err _ => bad t end
  end.

(** [receipts_for] *)
Definition receipts_for (s : LineageStore) (id : string)
    : list (string * option string * option string * json * Z) :=
  (λ r, (rc_kind (cols r), rc_locator (cols r), rc_digest (cols r),
         load_column (match rc_payload (cols r) with Some "" => None | p => p end) (λ _, JNull),
         rc_created_at (cols r)))
  <$> filter (λ r, rc_entity (cols r) = id) (receipts s).

(** The optional filter on the authority tier *)
Definition authority_ok (authority : option string) (a : string) : bool :=
  match authority with Some b => bool_decide (a = b) | None => true end.

(** [assertions_for] *)
Definition assertions_for (s : LineageStore) (id : string) (authority : option string)
    : list (string * json * string * string * Z) :=
  (λ r, (sc_fact (cols r), load_column (sc_value (cols r)) JStr, sc_asserted_by (cols r),
         sc_authority (cols r), sc_created_at (cols r)))
  <$> filter (λ r, sc_subject (cols r) = id ∧ authority_ok authority (sc_authority (cols r)) = true)
        (assertions s).

(** ** Set columns and facets read back *)

Lemma omap_json_str (l : list string) : omap json_str (JStr <$> l) = l.
Proof. induction l as [|x l IH]; [done|]. cbn. by f_equal. Qed.

Lemma jload_jset g : jload (Some (jset g)) = g.
Proof.
  unfold jset, jload. case_bool_decide as Hg; [by subst; vm_compute|].
  set (v := JArr _). assert (jwf v) as Hv.
  { apply jwf_arr, Forall_fmap, Forall_forall. by intros. }
  destruct (write_starts (spaced false) v Hv) as (c & t & Ht & _).
  unfold loads. rewrite loads_dumps by (done || apply spaced_ok). unfold dumps.
  cbn [sort_keys spaced] in *. rewrite Ht. cbn [truthy negb]. unfold v.
  by rewrite omap_json_str, sorted_set_to_set.
Qed.

Lemma json_truthy_norm v : json_truthy (norm v) = json_truthy v.
Proof.
  destruct v as [|b|z|x|s|l|d]; try done; cbn [norm].
  - by destruct l.
  - destruct d as [|p d]; [done|]. cbn [json_truthy].
    destruct (sort_entries _) eqn:E; [|done]. exfalso.
    pose proof (sort_entries_perm ((λ '(k, x), (k, norm x)) <$> p :: d)) as Hp.
    rewrite E in Hp. apply Permutation_nil in Hp. by destruct p.
Qed.

(** What [record_entity] stores of an entity, as [get_entity] answers it *)
Definition stored_entity (now : Z) (e : Entity) : Entity :=
  {| eid := eid e; e_kind := e_kind e; e_digest := e_digest e; e_locator := e_locator e;
     e_guards := e_guards e; e_compartments := e_compartments e;
     e_conflict_classes := e_conflict_classes e; e_integrity := e_integrity e;
     e_status := e_status e;
     e_facets := if json_truthy (e_facets e) then norm (e_facets e) else JObj [];
     e_created_at := or_z (e_created_at e) now |}.

Lemma entity_of_columns now e :
  jwf (e_facets e) → entity_of (entity_columns now e) = stored_entity now e.
Proof.
  intros Hf. unfold entity_of, stored_entity, entity_columns, dumps_or_none.
  cbn [ec_eid ec_kind ec_digest ec_locator ec_guards ec_compartments ec_conflict_classes
       ec_integrity ec_status ec_facets ec_created_at].
  rewrite !jload_jset. f_equal. destruct (json_truthy (e_facets e)) eqn:Ht; [|done].
  destruct (write_starts (spaced true) (norm (e_facets e)) (norm_wf _ Hf)) as (c & t & Hw & _).
  unfold loads. rewrite loads_dumps by (done || apply spaced_ok). unfold dumps.
  cbn [sort_keys spaced] in *. rewrite Hw. cbn [truthy negb]. by rewrite json_truthy_norm, Ht.
Qed.

Lemma get_entity_append s1 s c sl id :
  entities s1 = insert_row (entities s) c sl →
  get_entity s1 id = if bool_decide (ec_eid c = id) then Some (entity_of c) else get_entity s id.
Proof.
  intros He. unfold get_entity. rewrite He. unfold insert_row.
  rewrite filter_app. case_bool_decide as Hid.
  - rewrite (filter_singleton_True _ _ []) by exact Hid. by rewrite last_snoc.
  - rewrite (filter_singleton_False _ _ []) by exact Hid. by rewrite app_nil_r.
Qed.

(** A JSON column reads back as the canonical form of what was written. *)
Lemma load_column_dumps v bad : jwf v → load_column (Some (dumps (spaced true) v)) bad = norm v.
Proof.
  intros Hv. unfold load_column, loads. rewrite loads_dumps by (done || apply spaced_ok). done.
Qed.

(** A recorded assertion is read back by, and only by, the queries of its subject
    and authority tier. *)
Lemma record_assertion_for H s now subj fact v by_ au s' n id auth :
  record_assertion H s now subj fact v by_ au = Ok (s', n) → jwf v →
  assertions_for s' id auth = assertions_for s id auth ++
    if bool_decide (subj = id) && authority_ok auth au then [(fact, norm v, by_, au, now)] else [].
Proof.
  unfold record_assertion, seal_row. intros Hr Hv. inv_ok. unfold assertions_for.
  cbn [assertions with_assertions append_chain with_chain]. unfold insert_row.
  rewrite filter_app, fmap_app. f_equal.
  destruct (bool_decide (subj = id)) eqn:Hs; [destruct (authority_ok auth au) eqn:Ha|]; cbn [andb].
  - apply bool_decide_eq_true in Hs. rewrite (filter_singleton_True _ _ []) by done.
    cbn [fmap list_fmap cols sc_fact sc_value sc_asserted_by sc_authority sc_created_at].
    by rewrite load_column_dumps.
  - rewrite (filter_singleton_False _ _ []); [done|]. cbn. intros [_ ?]. congruence.
  - apply bool_decide_eq_false in Hs. rewrite (filter_singleton_False _ _ []); [done|].
    cbn. intros [? _]. done.
Qed.

Lemma walk_edges s s' start forward n :
  edges s' = edges s → walk s' start forward n = walk s start forward n.
Proof.
  intros He. unfold walk. generalize (∅ : gset string) ({[start]} : gset string).
  induction n as [|n IH]; intros seen F; simpl; [done|].
  assert (walk_step s' forward F = walk_step s forward F) as -> by (unfold walk_step; by rewrite He).
  by rewrite IH.
Qed.

(** A recorded entity reads back. After record_entity succeeds, get_entity of its id
    answers the entity with its guard sets unchanged, its facets with sorted keys and its
    creation time filled in, and every other id reads as before. Only the ledger and the
    entities table change. *)
Theorem record_entity_roundtrip H s now e s' id :
  record_entity H s now e = Ok (s', id) → jwf (e_facets e) →
  get_entity s' (eid e) = Some (stored_entity now e) ∧
  (∀ other, other ≠ eid e → get_entity s' other = get_entity s other) ∧
  (∀ other depth, downstream s' other depth = downstream s other depth).
Proof.
  unfold record_entity, seal_row. intros Hr Hf. inv_ok.
  set (s' := with_entities _ _).
  pose proof (get_entity_append s' s (entity_columns now e)
    (seal_value H (chain_head s) "entities" (body_of (entity_columns now e)))) as Hg.
  split; [|split].
  - rewrite Hg by reflexivity. rewrite bool_decide_true by done. by rewrite entity_of_columns.
  - intros other Hne. rewrite Hg by reflexivity. rewrite bool_decide_false; [done|]. exact (not_eq_sym Hne).
  - intros other depth. by apply walk_edges.
Qed.

(** ** Impact and root-cause queries *)

(** [y] is recorded as derived from [x]. *)
Definition feeds (s : LineageStore) (x y : string) : Prop :=
  ∃ r, r ∈ edges s ∧ dc_predicate (cols r) = "wasDerivedFrom" ∧
    dc_object (cols r) = x ∧ dc_subject (cols r) = y.

Definition walk_rel (s : LineageStore) (forward : bool) : relation string :=
  if forward then feeds s else flip (feeds s).

Lemma walk_step_spec s forward F y :
  y ∈ walk_step s forward F ↔ ∃ x, x ∈ F ∧ walk_rel s forward x y.
Proof.
  unfold walk_step, walk_rel, feeds, flip. rewrite elem_of_list_to_set, list_elem_of_omap.
  split.
  - intros (r & Hr & Hm). destruct forward; simpl in Hm;
      destruct (bool_decide _ && bool_decide _) eqn:E in Hm; simplify_eq; bool_hyps; eauto 10.
  - intros (x & Hx & Hrel). destruct forward; destruct Hrel as (r & Hr & Hp & Ho & Hs);
      exists r; (split; [done|]); subst; simpl;
      by rewrite Hp, bool_decide_true, bool_decide_true by done.
Qed.

Section walk.
Context (s : LineageStore) (forward : bool) (start : string).
Let R := walk_rel s forward.

(** Everything found outside the frontier has been expanded. *)
Definition expanded (seen F : gset string) : Prop :=
  F ⊆ seen ∪ {[start]} ∧
  ∀ x y, x ∈ seen ∪ {[start]} → x ∉ F → R x y → y ∈ seen ∪ {[start]}.

Lemma expanded_next seen F :
  expanded seen F →
  let nxt := walk_step s forward F ∖ seen ∖ {[start]} in expanded (seen ∪ nxt) nxt.
Proof.
  intros [HF Hc] nxt. split; [set_solver|]. intros x y Hx Hnx HR.
  destruct (decide (x ∈ F)) as [HxF|HxF].
  - assert (y ∈ walk_step s forward F) by (apply walk_step_spec; eauto).
    destruct (decide (y ∈ seen ∪ {[start]})); set_solver.
  - assert (y ∈ seen ∪ {[start]}); [|set_solver]. apply (Hc x); [set_solver|done|done].
Qed.

Lemma expanded_reach seen F n y z :
  expanded seen F → y ∈ seen ∪ {[start]} → bsteps R n y z →
  z ∈ seen ∪ {[start]} ∨ ∃ y', y' ∈ F ∧ bsteps R n y' z.
Proof.
  intros [HF Hc] Hy Hb. induction Hb as [n y|n y y1 z HR Hb IH]; [by left|].
  destruct (decide (y ∈ F)) as [HyF|HyF].
  - right. exists y. split; [done|]. by econstructor.
  - destruct IH as [?|(y' & ? & ?)]; [by apply (Hc y)|by left|].
    right. exists y'. split; [done|]. by apply bsteps_S.
Qed.

Lemma walk_loop_spec n seen F z :
  expanded seen F →
  start ∉ seen →
  z ∈ walk_loop s forward start n seen F ↔
    z ∈ seen ∨ (z ≠ start ∧ ∃ y, y ∈ F ∧ bsteps R n y z).
Proof.
  revert seen F. induction n as [|n IH]; intros seen F Hex Hst; simpl.
  { split; [by left|]. intros [?|(Hne & y & Hy & Hb)]; [done|].
    inversion Hb; subst. destruct Hex as [HF _]. set_solver. }
  case_bool_decide as HF0.
  { split; [by left|]. intros [?|(_ & y & Hy & _)]; [done|set_solver]. }
  pose proof (expanded_next _ _ Hex) as Hex'. set (nxt := walk_step s forward F ∖ seen ∖ {[start]}) in *.
  rewrite IH by (done || set_solver). split.
  - intros [[Hz|Hz]%elem_of_union|(Hne & y & Hy & Hb)]; [by left| |].
    + right. split; [set_solver|]. assert (z ∈ walk_step s forward F) as (x & Hx & HR)%walk_step_spec by set_solver.
      exists x. split; [done|]. econstructor; [done|constructor].
    + right. split; [done|]. assert (y ∈ walk_step s forward F) as (x & Hx & HR)%walk_step_spec by set_solver.
      exists x. split; [done|]. by econstructor.
  - intros [Hz|(Hne & y & Hy & Hb)]; [set_solver|]. inversion Hb as [|? ? y1 ? HR Hb']; subst.
    { left. destruct Hex as [HF _]. set_solver. }
    assert (y1 ∈ (seen ∪ nxt) ∪ {[start]}) as Hy1.
    { assert (y1 ∈ walk_step s forward F) by (apply walk_step_spec; eauto).
      destruct (decide (y1 ∈ seen ∪ {[start]})); set_solver. }
    destruct (expanded_reach _ _ _ _ _ Hex' Hy1 Hb') as [Hz|(y' & Hy' & Hb'')]; [set_solver|].
    right. split; [done|]. by exists y'.
Qed.

Lemma walk_spec n z :
  z ∈ walk s start forward n ↔ z ≠ start ∧ bsteps R n start z.
Proof.
  unfold walk. rewrite walk_loop_spec; [|split; set_solver|set_solver]. set_solver.
Qed.
End walk.

Lemma bsteps_flip {A} (R : relation A) n x y : bsteps (flip R) n x y → bsteps R n y x.
Proof.
  induction 1 as [n x|n x x1 y HR Hb IH]; [constructor|].
  eapply bsteps_r; [exact IH|exact HR].
Qed.

(** C31: the lineage queries are exact. downstream answers the entities derived from the
    given one through at most [max_depth] wasDerivedFrom edges, itself excluded, upstream
    the entities it is derived from in that way, whatever cycles the edges form; so one
    entity is downstream of another exactly when the other is upstream of it. *)
Theorem walk_exact s x y depth :
  (y ∈ downstream s x depth ↔ y ≠ x ∧ bsteps (feeds s) depth x y) ∧
  (x ∈ upstream s y depth ↔ x ≠ y ∧ bsteps (feeds s) depth x y) ∧
  (y ∈ downstream s x depth ↔ x ∈ upstream s y depth).
Proof.
  assert (y ∈ downstream s x depth ↔ y ≠ x ∧ bsteps (feeds s) depth x y) as Hd by apply walk_spec.
  assert (x ∈ upstream s y depth ↔ x ≠ y ∧ bsteps (feeds s) depth x y) as Hu.
  { unfold upstream. rewrite walk_spec. unfold walk_rel. apply and_iff_compat_l.
    split; [apply bsteps_flip|]. intros Hb. by apply (bsteps_flip (flip (feeds s))). }
  split; [done|]. split; [done|]. rewrite Hd, Hu. naive_solver.
Qed.

(** ** A concrete entity *)

(** A stand-in digest: 64 characters whatever the text *)
Definition zeros : string :=
  "0000000000000000000000000000000000000000000000000000000000000000".
Definition toy_digest (x : string) : string := zeros.

Definition sample_entity : Entity :=
  {| eid := "file:/tmp/a"; e_kind := "payload"; e_digest := Some "sha256:ab"; e_locator := None;
     e_guards := {["local-only"]}; e_compartments := ∅; e_conflict_classes := ∅;
     e_integrity := None; e_status := "active";
     e_facets := JObj [("title", JStr "notes")]; e_created_at := 100 |}.

Lemma sample_facets_wf : jwf (e_facets sample_entity).
Proof. apply jwf_obj. split; [apply NoDup_singleton|]. constructor; [exact I|constructor]. Qed.

Lemma record_entity_roundtrip_witness :
  ∃ s' id, record_entity toy_digest empty_store 7 sample_entity = Ok (s', id) ∧
    get_entity s' "file:/tmp/a" = Some (stored_entity 7 sample_entity).
Proof.
  eexists _, _. split; [reflexivity|].
  apply (record_entity_roundtrip toy_digest empty_store 7 sample_entity _ 1%Z); [reflexivity|].
  exact sample_facets_wf.
Defined.

End Lineage.
