(* ===== verification/LineageChain.v ===== *)
(** * What the lineage ledger promises

    Proofs about [verify_chain] of [LineageStore.v]: every store the writers and retention
    produce verifies, a store that verifies against a head kept elsewhere has the ledger
    and the live rows of the store that head came from, and the two cases the code does not
    cover. *)

From S2P Require Import Prelude Json LineageStore.
From stdpp Require Import gmultiset list.
Import Json Lineage.

Module Chain.

(** ** The loop *)

Section loop.
Context (H : string → string).

Lemma vloop_app v rs1 rs2 : vloop H v (rs1 ++ rs2) = v' ← vloop H v rs1; vloop H v' rs2.
Proof.
  revert v. induction rs1 as [|r rs1 IH]; intros v; [done|]. simpl.
  destruct (vstep H v r); simpl; [apply IH|done].
Qed.

Lemma vloop_snoc v rs r : vloop H v (rs ++ [r]) = v' ← vloop H v rs; vstep H v' r.
Proof.
  rewrite vloop_app. destruct (vloop H v rs); [|done]. simpl. by destruct (vstep H v0 r).
Qed.

(** The ledger rows of a body not yet retired *)
Definition open_rows (v : vstate) (rs : list chain_row) (tbl body : string) : list chain_row :=
  filter (λ r, c_tbl r = tbl ∧ c_body r = body ∧ seq r ∉ retired v) rs.

(** What the loop knows after the rows [rs] *)
Record vinv (rs : list chain_row) (v : vstate) : Prop := {
  vi_keys : keys (seq_body v) = seq <$> rs;
  vi_body : ∀ r, r ∈ rs → od_get (seq_body v) (seq r) = Some (c_tbl r, c_body r);
  vi_retired : ∀ q, q ∈ retired v → ∃ r t b, r ∈ rs ∧ c_tbl r = TOMBSTONE ∧
    parse_tombstone (c_body r) = Some (q, t, b) ∧ od_get (seq_body v) q = Some (t, b);
  vi_count : ∀ tbl body, tbl ≠ TOMBSTONE →
    multiplicity body (expected_of v tbl) = length (open_rows v rs tbl body);
  vi_tombstone : expected_of v TOMBSTONE = ∅;
  vi_prev : prev v = match last rs with Some r => c_seal r | None => GENESIS end;
}.

Lemma expected_of_insert v t m ret sb p tbl :
  expected_of {| retired := ret; seq_body := sb; expected := <[t := m]> (expected v); prev := p |} tbl
  = if bool_decide (t = tbl) then m else expected_of v tbl.
Proof.
  unfold expected_of. simpl. case_bool_decide as Ht.
  - subst. by rewrite lookup_insert_eq.
  - by rewrite lookup_insert_ne.
Qed.

(** The three ways a step can succeed *)
Lemma vstep_some v r v' :
  vstep H v r = Some v' →
  seal_value H (prev v) (c_tbl r) (c_body r) = c_seal r ∧ prev v' = c_seal r ∧
  seq_body v' = od_set (seq_body v) (seq r) (c_tbl r, c_body r) ∧
  ((c_tbl r ≠ TOMBSTONE ∧ retired v' = retired v ∧
    expected v' = <[c_tbl r := {[+ c_body r +]} ⊎ expected_of v (c_tbl r)]> (expected v)) ∨
   (c_tbl r = TOMBSTONE ∧ ∃ q t b, parse_tombstone (c_body r) = Some (q, t, b) ∧
    od_get (seq_body v) q = Some (t, b) ∧ q ∉ retired v ∧ b ∈ expected_of v t ∧
    retired v' = {[q]} ∪ retired v ∧
    expected v' = <[t := expected_of v t ∖ {[+ b +]}]> (expected v))).
Proof.
  unfold vstep. case_bool_decide as Hs; [|done]. cbn [negb].
  case_bool_decide as Ht; [|intros [= <-]; repeat split; auto].
  destruct (parse_tombstone (c_body r)) as [[[q t] b]|] eqn:Hp; [|done].
  case_bool_decide as Hg; [|done]. cbn [negb].
  case_bool_decide as Hr; [done|]. case_bool_decide as Hb; [|done]. cbn [negb].
  intros [= <-]. repeat split; auto. right. split; [done|]. exists q, t, b. done.
Qed.

Lemma vinv_init : vinv [] vstate0.
Proof.
  split; try done.
  - intros r []%not_elem_of_nil.
Qed.

Lemma open_rows_length_retire v v' rs q r :
  NoDup (seq <$> rs) → r ∈ rs → seq r = q → q ∉ retired v → retired v' = {[q]} ∪ retired v →
  ∀ tbl body, length (open_rows v' rs tbl body) =
    length (open_rows v rs tbl body) -
    (if bool_decide (c_tbl r = tbl ∧ c_body r = body) then 1 else 0).
Proof.
  intros Hnd Hr Hq Hnr Hret tbl body. unfold open_rows. rewrite Hret.
  induction rs as [|x rs IH]; [by apply not_elem_of_nil in Hr|].
  rewrite fmap_cons in Hnd. apply NoDup_cons in Hnd as [Hx Hnd]. rewrite !filter_cons.
  apply elem_of_cons in Hr as [<-|Hr].
  - assert (filter (λ y, c_tbl y = tbl ∧ c_body y = body ∧ seq y ∉ {[q]} ∪ retired v) rs =
            filter (λ y, c_tbl y = tbl ∧ c_body y = body ∧ seq y ∉ retired v) rs) as ->.
    { apply list_filter_ext_in. intros y Hy. rewrite not_elem_of_union, not_elem_of_singleton.
      assert (seq y ≠ q); [|tauto]. intros Heq. apply Hx. rewrite Hq, <- Heq. by apply list_elem_of_fmap_2. }
    rewrite (decide_False (P := _ ∧ _ ∧ seq r ∉ {[q]} ∪ _)).
    2: { intros (_ & _ & Hn). apply Hn, elem_of_union_l. by apply elem_of_singleton. }
    rewrite Hq. case_bool_decide as Hm.
    + rewrite decide_True by naive_solver. simpl. lia.
    + rewrite decide_False by naive_solver. lia.
  - assert (seq x ≠ q) as Hne.
    { intros Heq. apply Hx. rewrite Heq, <- Hq. by apply list_elem_of_fmap_2. }
    specialize (IH Hnd Hr).
    assert (seq x ∉ {[q]} ∪ retired v ↔ seq x ∉ retired v) as Hiff.
    { rewrite not_elem_of_union, not_elem_of_singleton. tauto. }
    assert (bool_decide (c_tbl r = tbl ∧ c_body r = body) = true →
      0 < length (filter (λ y, c_tbl y = tbl ∧ c_body y = body ∧ seq y ∉ retired v) rs)) as Hpos.
    { intros [Ht Hb]%bool_decide_eq_true. apply Nat.neq_0_lt_0. intros E%nil_length_inv.
      apply (filter_nil_not_elem_of _ _ r E); [|done]. by rewrite Hq. }
    assert (length (filter (λ y, c_tbl y = tbl ∧ c_body y = body ∧ seq y ∉ {[q]} ∪ retired v) rs) =
      length (filter (λ y, c_tbl y = tbl ∧ c_body y = body ∧ seq y ∉ retired v) rs) -
      (if bool_decide (c_tbl r = tbl ∧ c_body r = body) then 1 else 0)) as IH' by (by apply IH).
    destruct (decide (c_tbl x = tbl ∧ c_body x = body ∧ seq x ∉ retired v)) as [Hp|Hp].
    + rewrite (decide_True (P := _ ∧ _ ∧ seq x ∉ {[q]} ∪ _)) by tauto. cbn [length]. rewrite IH'.
      destruct (bool_decide _); [specialize (Hpos eq_refl)|]; lia.
    + rewrite (decide_False (P := _ ∧ _ ∧ seq x ∉ {[q]} ∪ _)) by tauto. exact IH'.
Qed.

Lemma vinv_lookup rs v q tb :
  NoDup (seq <$> rs) → vinv rs v → od_get (seq_body v) q = Some tb →
  ∃ r, r ∈ rs ∧ seq r = q ∧ tb = (c_tbl r, c_body r).
Proof.
  intros Hnd Hv Hg. assert (q ∈ keys (seq_body v)) as Hq by (apply od_get_is_Some; eauto).
  rewrite (vi_keys _ _ Hv) in Hq. apply list_elem_of_fmap in Hq as (r & -> & Hr).
  exists r. rewrite (vi_body _ _ Hv r Hr) in Hg. by injection Hg.
Qed.

Lemma open_rows_snoc v v' rs r tbl body :
  retired v' = retired v →
  open_rows v' (rs ++ [r]) tbl body =
    open_rows v rs tbl body ++ open_rows v [r] tbl body.
Proof. intros Hr. unfold open_rows. by rewrite Hr, filter_app. Qed.

Lemma open_rows_skip v rs r tbl body :
  c_tbl r ≠ tbl → open_rows v (rs ++ [r]) tbl body = open_rows v rs tbl body.
Proof.
  intros Hne. unfold open_rows. rewrite filter_app, (list_filter_none _ [r]), app_nil_r; [done|].
  intros x ->%list_elem_of_singleton. tauto.
Qed.

Lemma vinv_step rs v r v' :
  NoDup (seq <$> rs ++ [r]) → vinv rs v → vstep H v r = Some v' → vinv (rs ++ [r]) v'.
Proof.
  intros Hnd Hv Hstep. pose proof Hnd as Hnd'.
  rewrite fmap_app in Hnd. apply NoDup_app in Hnd as (Hnd & Hfresh & _).
  assert (seq r ∉ seq <$> rs) as Hr.
  { intros Hin. apply (Hfresh _ Hin). constructor. }
  apply vstep_some in Hstep as (_ & Hprev & Hsb & Hcase).
  assert (seq_body v' = seq_body v ++ [(seq r, (c_tbl r, c_body r))]) as Hsb'.
  { rewrite Hsb. apply od_set_fresh. by rewrite (vi_keys _ _ Hv). }
  assert (∀ q tb, od_get (seq_body v) q = Some tb → od_get (seq_body v') q = Some tb) as Hmono.
  { intros q tb Hq. rewrite Hsb, od_get_set_ne; [done|]. intros <-. apply Hr.
    rewrite <- (vi_keys _ _ Hv). apply od_get_is_Some. eauto. }
  assert (∀ tbl, expected_of v' tbl = default ∅ (expected v' !! tbl)) as Hexp by done.
  split.
  - rewrite Hsb'. unfold keys. rewrite !fmap_app. f_equal. apply (vi_keys _ _ Hv).
  - intros x [Hx| ->%list_elem_of_singleton]%elem_of_app; [apply Hmono, (vi_body _ _ Hv), Hx|].
    rewrite Hsb. apply od_get_set_eq.
  - intros q Hq. destruct Hcase as [(_ & Hret & _)|(Ht & q' & t & b & Hp & Hg & _ & _ & Hret & _)];
      rewrite Hret in Hq.
    + destruct (vi_retired _ _ Hv q Hq) as (x & t & b & Hx & ? & ? & ?).
      exists x, t, b. split; [apply elem_of_app; by left|]. auto.
    + apply elem_of_union in Hq as [->%elem_of_singleton|Hq].
      * exists r, t, b. split; [apply elem_of_app; right; constructor|]. auto.
      * destruct (vi_retired _ _ Hv q Hq) as (x & t' & b' & Hx & ? & ? & ?).
        exists x, t', b'. split; [apply elem_of_app; by left|]. auto.
  - intros tbl body Htbl. rewrite Hexp.
    destruct Hcase as [(Ht & Hret & ->)|(Ht & q & t & b & Hp & Hg & Hnr & Hb & Hret & ->)].
    + rewrite (open_rows_snoc v v') by done. rewrite length_app, <- (vi_count _ _ Hv) by done.
      assert (seq r ∉ retired v) as Hnr.
      { intros (_ & t & b & _ & _ & _ & Hg)%(vi_retired _ _ Hv). apply Hr.
        rewrite <- (vi_keys _ _ Hv). apply od_get_is_Some. eauto. }
      destruct (decide (c_tbl r = tbl)) as [<-|Hne].
      * rewrite lookup_insert_eq. cbn [from_option id].
        rewrite multiplicity_disj_union, multiplicity_singleton.
        unfold open_rows. destruct (decide (c_body r = body)) as [<-|Hnb].
        -- rewrite decide_True by done. rewrite list_filter_all; [apply Nat.add_comm|].
           by intros x ->%list_elem_of_singleton.
        -- rewrite decide_False by naive_solver. rewrite list_filter_none; [apply Nat.add_comm|].
           intros x ->%list_elem_of_singleton. tauto.
      * rewrite lookup_insert_ne by done. unfold open_rows.
        rewrite list_filter_none; [rewrite Nat.add_0_r; reflexivity|].
        intros x ->%list_elem_of_singleton. tauto.
    + rewrite open_rows_skip by congruence.
      destruct (vinv_lookup _ _ _ _ Hnd Hv Hg) as (x & Hx & Hq & [= -> ->]).
      rewrite (open_rows_length_retire v v' rs q x), <- (vi_count _ _ Hv) by done.
      destruct (decide (c_tbl x = tbl)) as [<-|Hne].
      * rewrite lookup_insert_eq. cbn [from_option id].
        rewrite multiplicity_difference, multiplicity_singleton.
        destruct (decide (c_body x = body)) as [<-|Hnb].
        -- by rewrite decide_True, bool_decide_true.
        -- by rewrite decide_False, bool_decide_false by naive_solver.
      * rewrite lookup_insert_ne, bool_decide_false by naive_solver.
        rewrite Nat.sub_0_r. reflexivity.
  - rewrite Hexp. pose proof (vi_tombstone _ _ Hv) as Hts.
    destruct Hcase as [(Ht & _ & ->)|(Ht & q & t & b & _ & _ & _ & Hb & _ & ->)].
    + by rewrite lookup_insert_ne.
    + destruct (decide (t = TOMBSTONE)) as [->|Hne]; [|by rewrite lookup_insert_ne].
      rewrite Hts in Hb. exfalso. multiset_solver.
  - by rewrite last_snoc.
Qed.

Lemma vloop_vinv rs v : NoDup (seq <$> rs) → vloop H vstate0 rs = Some v → vinv rs v.
Proof.
  revert v. induction rs as [|r rs IH] using rev_ind; intros v Hnd; [intros [= <-]; apply vinv_init|].
  rewrite vloop_snoc. destruct (vloop H vstate0 rs) as [v0|] eqn:E; [|done]. simpl. intros Hs.
  apply (vinv_step rs v0); [done| |done]. apply IH; [|done].
  rewrite fmap_app in Hnd. by apply NoDup_app in Hnd as (? & _).
Qed.

(** ** Stores the code produces *)

(** The ledger replays and every table holds the bodies it expects. *)
Definition good (s : LineageStore) (v : vstate) : Prop :=
  vloop H vstate0 (lineage_chain s) = Some v ∧
  Forall (λ '(t, have), expected_of v t = have) (live_bodies s).

(** No table name in the ledger holds the separator. *)
Definition us_free (s : string) : Prop := has_char (ascii_of_N 31) s = false.
Definition clean (s : LineageStore) : Prop := Forall (λ r, us_free (c_tbl r)) (lineage_chain s).

Definition sound (s : LineageStore) : Prop :=
  NoDup (seq <$> lineage_chain s) ∧ clean s ∧ ∃ v, good s v.

Lemma good_head s v : NoDup (seq <$> lineage_chain s) → good s v → prev v = chain_head s.
Proof. intros Hnd [Hl _]. apply (vi_prev _ _ (vloop_vinv _ _ Hnd Hl)). Qed.

Lemma good_verify s v h :
  good s v → verify_chain H s h = match h with Some h => bool_decide (prev v = h) | None => true end.
Proof.
  intros [Hl Hf]. unfold verify_chain. rewrite Hl.
  assert (forallb (λ '(tbl, have), bool_decide (expected_of v tbl = have)) (live_bodies s) = true) as ->.
  { apply forallb_forall. intros [t m] Hin%list_elem_of_In. rewrite Forall_forall in Hf.
    apply bool_decide_eq_true. by apply (Hf _ Hin). }
  by rewrite andb_true_r.
Qed.

Lemma verify_good s h :
  verify_chain H s h = true →
  ∃ v, good s v ∧ match h with Some h => prev v = h | None => True end.
Proof.
  unfold verify_chain. destruct (vloop H vstate0 (lineage_chain s)) as [v|] eqn:Hl; [|done].
  intros [Hh Hf]%andb_true_iff. exists v. split; [split; [done|]|].
  - apply Forall_forall. intros [t m] Hin%list_elem_of_In.
    rewrite forallb_forall in Hf. by apply Hf, bool_decide_eq_true in Hin.
  - destruct h; [by apply bool_decide_eq_true in Hh|done].
Qed.

Lemma sound_verify s :
  sound s → verify_chain H s None = true ∧ verify_chain H s (Some (chain_head s)) = true.
Proof.
  intros (Hnd & _ & v & Hg). split; rewrite (good_verify _ _ _ Hg); [done|].
  by apply bool_decide_eq_true, good_head.
Qed.

Lemma next_key_fresh l : next_key l ∉ l.
Proof.
  assert (∀ x, x ∈ l → (x < next_key l)%Z) as Hlt; [|intros Hin%Hlt; lia].
  unfold next_key. induction l as [|y l IH]; [by intros x []%not_elem_of_nil|].
  simpl. intros x [->|Hx]%elem_of_cons; [lia|]. specialize (IH x Hx). lia.
Qed.

Lemma append_nodup s tbl body :
  NoDup (seq <$> lineage_chain s) →
  NoDup (seq <$> lineage_chain (append_chain H s tbl body)).
Proof.
  intros Hnd. simpl. rewrite fmap_app. apply NoDup_app. split; [done|].
  split; [|apply NoDup_singleton]. intros x Hx Hin%list_elem_of_singleton. subst.
  by apply (next_key_fresh (seq <$> lineage_chain s)).
Qed.

Lemma clean_append s tbl body : clean s → us_free tbl → clean (append_chain H s tbl body).
Proof. intros Hc Ht. apply Forall_app. split; [done|]. by constructor. Qed.

Lemma vstep_ordinary v q tbl body :
  tbl ≠ TOMBSTONE →
  vstep H v {| seq := q; c_tbl := tbl; c_body := body; c_seal := seal_value H (prev v) tbl body |} =
  Some {| retired := retired v; seq_body := od_set (seq_body v) q (tbl, body);
          expected := <[tbl := {[+ body +]} ⊎ expected_of v tbl]> (expected v);
          prev := seal_value H (prev v) tbl body |}.
Proof.
  intros Ht. unfold vstep. cbn [c_tbl c_body c_seal seq]. rewrite bool_decide_true by done.
  by rewrite (bool_decide_false (tbl = TOMBSTONE)) by done.
Qed.

Definition add_body (tbl body : string) (p : string * gmultiset string) : string * gmultiset string :=
  (p.1, if bool_decide (p.1 = tbl) then {[+ body +]} ⊎ p.2 else p.2).

Lemma sound_append s s1 tbl body :
  sound s → tbl ≠ TOMBSTONE ∧ us_free tbl →
  lineage_chain s1 = lineage_chain (append_chain H s tbl body) →
  live_bodies s1 = add_body tbl body <$> live_bodies s → sound s1.
Proof.
  intros (Hnd & Hcl & v & Hg) [Ht Hus] Hc Hl. split; [rewrite Hc; by apply append_nodup|].
  split; [unfold clean; rewrite Hc; by apply clean_append|].
  pose proof (good_head _ _ Hnd Hg) as Hh. destruct Hg as [Hv Hf].
  eexists. split.
  - rewrite Hc. cbn [append_chain with_chain lineage_chain]. rewrite vloop_snoc, Hv. simpl.
    rewrite <- Hh. by apply vstep_ordinary.
  - rewrite Hl. apply Forall_fmap. eapply Forall_impl; [exact Hf|]. intros [t m] Hm.
    unfold compose, add_body. cbn [fst snd].
    rewrite (expected_of_insert v), (bool_decide_ext (tbl = t) (t = tbl)) by naive_solver.
    case_bool_decide as Htt; [by subst|done].
Qed.

Lemma bodies_insert {A} `{Sealed A} (t : list (row A)) c sl :
  bodies (insert_row t c sl) = {[+ body_of c +]} ⊎ bodies t.
Proof.
  unfold bodies, insert_row. rewrite fmap_app, list_to_set_disj_app. simpl. multiset_solver.
Qed.

(** A table name is not the tombstone tag, and an insert adds its body to its table. *)
Ltac sound_write :=
  match goal with
  | |- sound (_ _ (insert_row _ ?c _)) =>
      eapply (sound_append _ _ _ (body_of c)); [eassumption| |reflexivity|];
      [|unfold live_bodies; cbn -[insert_row bodies body_of]; rewrite bodies_insert; reflexivity]; by split
  end.

Lemma record_entity_sound s now e s' n :
  sound s → record_entity H s now e = Ok (s', n) → sound s'.
Proof. unfold record_entity, seal_row. intros Hs Hr. inv_ok. sound_write. Qed.

Lemma record_assertion_sound s now a b c d e s' n :
  sound s → record_assertion H s now a b c d e = Ok (s', n) → sound s'.
Proof. unfold record_assertion, seal_row. intros Hs Hr. inv_ok. sound_write. Qed.

Lemma record_agent_sound s now a s' n :
  sound s → record_agent H s now a = Ok (s', n) → sound s'.
Proof. unfold record_agent, seal_row. intros Hs Hr. inv_ok. sound_write. Qed.

Lemma record_edge_sound s now a b c d s' n :
  sound s → record_edge H s now a b c d = Ok (s', n) → sound s'.
Proof. unfold record_edge, seal_row. intros Hs Hr. inv_ok. sound_write. Qed.

Lemma record_receipt_sound s now a b c d e s' n :
  sound s → record_receipt H s now a b c d e = Ok (s', n) → sound s'.
Proof. unfold record_receipt, seal_row. intros Hs Hr. inv_ok. sound_write. Qed.

Lemma record_activity_sound s now now2 a s' n :
  sound s → record_activity H s now now2 a = Ok (s', n) → sound s'.
Proof.
  unfold record_activity, seal_row. intros Hs Hr. inv_ok; [|by sound_write].
  match goal with Hw : record_assertion H ?s1 _ _ _ _ _ _ = Ok ?r |- _ =>
    assert (sound s1) as Hs1 by sound_write;
    destruct r as [s' n']; exact (record_assertion_sound _ _ _ _ _ _ _ _ _ Hs1 Hw) end.
Qed.

Lemma stamp_bodies aid' ended v t : bodies (stamp aid' ended v <$> t) = bodies t.
Proof.
  unfold bodies. f_equal. rewrite <- list_fmap_compose. apply list_fmap_ext.
  intros _ r _. unfold compose, stamp. by case_bool_decide.
Qed.

Lemma end_activity_sound s now now2 a v e s' :
  sound s → end_activity H s now now2 a v e = Ok s' → sound s'.
Proof.
  unfold end_activity. intros Hs Hr.
  assert (sound (with_activities s (stamp a (default now e) v <$> activities s))) as Hs1.
  { destruct Hs as (Hnd & Hc & vs & Hl & Hf). split; [done|]. split; [done|]. exists vs. split; [done|].
    unfold live_bodies in *. cbn -[bodies] in *. by rewrite stamp_bodies. }
  inv_ok; [|done]. match goal with Hw : record_assertion H _ _ _ _ _ _ _ = Ok ?r |- _ =>
    destruct r as [s' n']; exact (record_assertion_sound _ _ _ _ _ _ _ _ _ Hs1 Hw) end.
Qed.

Lemma fold_sound {B} (f : LineageStore → B → LineageStore) l s :
  (∀ s b, sound s → sound (f s b)) → sound s → sound (fold_left f l s).
Proof. intros Hf. revert s. induction l; simpl; auto. Qed.

Lemma record_mapping_sound s now a b c d i o h s' :
  sound s → record_mapping H s now a b c d i o h = Ok s' → sound s'.
Proof.
  unfold record_mapping, seal_row. intros Hs Hr. inv_ok. apply fold_sound; [|apply fold_sound].
  - clear. intros s p Hs. unfold add_output, seal_row. sound_write.
  - clear. intros s p Hs. unfold add_input, seal_row. sound_write.
  - sound_write.
Qed.

(** ** Tombstones *)

Lemma split1_us a b : us_free a → split1 (a +:+ US +:+ b) = Some (a, b).
Proof.
  unfold us_free. induction a as [|c a IH]; [done|]. rewrite str_app_cons.
  cbn [has_char split1]. intros [Hc Ha]%orb_false_iff. by rewrite Hc, IH.
Qed.

Lemma lstrip_digits s : forall_char is_digit s = true → lstrip s = s.
Proof.
  destruct s as [|c s]; [done|]. simpl. intros [Hc _]%andb_true_iff.
  destruct c as [[] [] [] [] [] [] [] []]; by try discriminate Hc.
Qed.

Lemma rstrip_plain s : forall_char (λ c, negb (py_space c)) s = true → rstrip s = s.
Proof.
  induction s as [|c s IH]; [done|]. simpl. intros [Hc Hs]%andb_true_iff. rewrite IH by done.
  apply negb_true_iff in Hc. by destruct s; [rewrite Hc|].
Qed.

Lemma forall_char_impl (f g : ascii → bool) s :
  (∀ c, f c = true → g c = true) → forall_char f s = true → forall_char g s = true.
Proof.
  intros Hfg. induction s as [|c s IH]; [done|]. simpl.
  intros [Hc Hs]%andb_true_iff. by rewrite (Hfg c), IH.
Qed.

Lemma digit_not_space c : is_digit c = true → negb (py_space c) = true.
Proof. by destruct c as [[] [] [] [] [] [] [] []]. Qed.

Lemma digit_not_us c : is_digit c = true → bool_decide (c = ascii_of_N 31) = false.
Proof. by destruct c as [[] [] [] [] [] [] [] []]. Qed.

Lemma digits_us_free s : forall_char is_digit s = true → us_free s.
Proof.
  unfold us_free. induction s as [|c s IH]; [done|]. cbn [has_char forall_char].
  intros [Hc Hs]%andb_true_iff. by rewrite digit_not_us, IH.
Qed.

Lemma int_digits_run acc n s after :
  forall_char is_digit s = true → (s = "" → after = true) →
  int_digits after acc n s = Some (digits_val acc s, n + String.length s).
Proof.
  revert acc n after. induction s as [|c s IH]; intros acc n after Hd Ha; simpl.
  - rewrite Ha by done. do 2 f_equal. lia.
  - simpl in Hd. apply andb_true_iff in Hd as [-> Hd]. rewrite IH by done. do 2 f_equal. lia.
Qed.

Lemma py_int_pretty (n : N) :
  String.length (pretty n) ≤ MAX_INT_DIGITS → py_int (pretty n) = Some (Z.of_N n).
Proof.
  intros Hlen. destruct (pretty_N_facts n) as (Hd & Hv & Ht & _).
  unfold py_int. rewrite lstrip_digits, rstrip_plain;
    [|by apply (forall_char_impl is_digit), Hd; apply digit_not_space|done].
  assert ((match pretty n with
           | String c u => if bool_decide (c = "-"%char) then (true, u)
                           else if bool_decide (c = "+"%char) then (false, u) else (false, pretty n)
           | "" => (false, pretty n) end) = (false, pretty n)) as ->.
  { destruct (pretty n) as [|c t]; [done|]. simpl in Hd. apply andb_true_iff in Hd as [Hc _].
    by destruct c as [[] [] [] [] [] [] [] []]. }
  rewrite int_digits_run; [|done|by destruct (pretty n)].
  by rewrite Hv, (proj2 (Nat.ltb_ge _ _)) by done.
Qed.

Lemma parse_tombstone_made q tbl body :
  (0 ≤ q)%Z → int_ok q → us_free tbl →
  parse_tombstone (dump_int q +:+ US +:+ tbl +:+ US +:+ body) = Some (q, tbl, body).
Proof.
  intros Hq Hok Ht. rewrite dump_int_eq. rewrite (proj2 (Z.ltb_ge _ _)) by done.
  unfold parse_tombstone. destruct (pretty_N_facts (Z.abs_N q)) as (Hd & _).
  rewrite split1_us by (by apply digits_us_free). rewrite split1_us by done.
  rewrite py_int_pretty by done. simpl. do 3 f_equal. lia.
Qed.

(** ** Retention keeps the ledger verifiable *)

Lemma vstep_tombstone v q0 q t b :
  parse_tombstone (dump_int q +:+ US +:+ t +:+ US +:+ b) = Some (q, t, b) →
  od_get (seq_body v) q = Some (t, b) → q ∉ retired v → b ∈ expected_of v t →
  ∃ v', vstep H v {| seq := q0; c_tbl := TOMBSTONE;
      c_body := dump_int q +:+ US +:+ t +:+ US +:+ b;
      c_seal := seal_value H (prev v) TOMBSTONE (dump_int q +:+ US +:+ t +:+ US +:+ b) |} = Some v' ∧
    retired v' = {[q]} ∪ retired v ∧
    expected v' = <[t := expected_of v t ∖ {[+ b +]}]> (expected v).
Proof.
  intros Hp Hg Hr Hb. unfold vstep. cbn [c_tbl c_body c_seal seq].
  rewrite bool_decide_true by done. cbn [negb]. rewrite bool_decide_true by done.
  rewrite Hp, bool_decide_true by done. cbn [negb]. rewrite bool_decide_false by done.
  rewrite bool_decide_true by done. cbn [negb]. eexists. done.
Qed.

(** The state of the retention loop: [l] are the doomed rows still to do and [K] the
    bodies of the rows that stay. *)
Record gc_inv (E : string → gmultiset string) (K : gmultiset string)
    (s : LineageStore) (consumed : gset Z) (l : list (row entity_cols)) (v : vstate) : Prop := {
  gi_nodup : NoDup (seq <$> lineage_chain s);
  gi_clean : clean s;
  gi_int : ∀ r, r ∈ lineage_chain s → c_tbl r = "entities" → (0 ≤ seq r)%Z ∧ int_ok (seq r);
  gi_loop : vloop H vstate0 (lineage_chain s) = Some v;
  gi_consumed : consumed ⊆ retired v;
  gi_fresh : ∀ r x, r ∈ lineage_chain s → c_tbl r = "entities" → x ∈ l →
    c_body r = body_of (cols x) → seq r ∈ retired v → seq r ∈ consumed;
  gi_entities : expected_of v "entities" = bodies l ⊎ K;
  gi_others : ∀ t, t ≠ "entities" → expected_of v t = E t;
}.

Lemma gc_row_inv E K s consumed x l v :
  gc_inv E K s consumed (x :: l) v →
  let s1 := gc_row H (s, consumed) x in
  ∃ v', gc_inv E K s1.1 s1.2 l v' ∧ s1.1 = with_chain s (lineage_chain s1.1).
Proof.
  intros Hi s1. set (b := body_of (cols x)).
  pose proof (vloop_vinv _ _ (gi_nodup _ _ _ _ _ _ Hi) (gi_loop _ _ _ _ _ _ Hi)) as Hv.
  assert (bodies (x :: l) = {[+ b +]} ⊎ bodies l) as Hbx by done.
  assert (b ∈ expected_of v "entities") as Hb.
  { rewrite (gi_entities _ _ _ _ _ _ Hi), Hbx. multiset_solver. }
  assert (∃ y, y ∈ lineage_chain s ∧ c_tbl y = "entities" ∧ c_body y = b ∧ seq y ∉ retired v)
    as (y & Hy & Hyt & Hyb & Hyr).
  { rewrite elem_of_multiplicity, (vi_count _ _ Hv) in Hb by done.
    unfold open_rows in Hb. destruct (filter _ _) as [|y ys] eqn:Ef; [simpl in Hb; lia|].
    exists y. assert (y ∈ y :: ys) as Hin by constructor. rewrite <- Ef in Hin.
    apply list_elem_of_filter in Hin. naive_solver. }
  unfold s1, gc_row. fold b.
  destruct (filter (λ q, q ∉ consumed) (seqs_of s b)) as [|q qs] eqn:Ef.
  { exfalso. apply (filter_nil_not_elem_of _ _ (seq y) Ef).
    - intros Hc. by apply Hyr, (gi_consumed _ _ _ _ _ _ Hi).
    - unfold seqs_of. apply list_elem_of_fmap_2, list_elem_of_filter. done. }
  assert (q ∈ q :: qs) as Hq by constructor. rewrite <- Ef in Hq.
  apply list_elem_of_filter in Hq as [Hqc Hq]. unfold seqs_of in Hq.
  apply list_elem_of_fmap in Hq as (z & -> & Hz).
  apply list_elem_of_filter in Hz as [[Hzt Hzb] Hz].
  assert (seq z ∉ retired v) as Hzr.
  { intros Hr. apply Hqc. apply (gi_fresh _ _ _ _ _ _ Hi z x); try done. constructor. }
  destruct (gi_int _ _ _ _ _ _ Hi z Hz Hzt) as [Hpos Hok].
  destruct (vstep_tombstone v (next_key (seq <$> lineage_chain s)) (seq z) "entities" b)
    as (v' & Hstep & Hret & Hexp); [by apply parse_tombstone_made| |done|done|].
  { rewrite (vi_body _ _ Hv z Hz). by rewrite Hzt, Hzb. }
  exists v'. cbn [fst snd]. split; [|done]. unfold tombstone. split.
  - apply append_nodup, Hi.
  - apply clean_append; [apply Hi|done].
  - intros r. cbn [append_chain with_chain lineage_chain].
    intros [Hr| ->%list_elem_of_singleton]%elem_of_app Ht; [by apply Hi|]. discriminate Ht.
  - cbn [append_chain with_chain lineage_chain]. rewrite vloop_snoc, (gi_loop _ _ _ _ _ _ Hi).
    simpl. rewrite <- Hstep. do 2 f_equal. unfold chain_head. rewrite (vi_prev _ _ Hv). done.
  - rewrite Hret. pose proof (gi_consumed _ _ _ _ _ _ Hi). set_solver.
  - intros r x'. cbn [append_chain with_chain lineage_chain].
    intros [Hr| ->%list_elem_of_singleton]%elem_of_app Ht Hx' Hbr Hrr; [|discriminate Ht].
    rewrite Hret in Hrr. apply elem_of_union in Hrr as [Hrr|Hrr]; apply elem_of_union; [by left|].
    right. apply (gi_fresh _ _ _ _ _ _ Hi r x'); try done. by constructor.
  - unfold expected_of. rewrite Hexp, lookup_insert_eq. cbn [from_option id].
    rewrite (gi_entities _ _ _ _ _ _ Hi), Hbx. multiset_solver.
  - intros t Ht. unfold expected_of. rewrite Hexp, lookup_insert_ne by done.
    by apply (gi_others _ _ _ _ _ _ Hi).
Qed.

Lemma gc_fold_inv E K l s consumed v :
  gc_inv E K s consumed l v →
  let s1 := fold_left (gc_row H) l (s, consumed) in
  ∃ v', gc_inv E K s1.1 s1.2 [] v' ∧ s1.1 = with_chain s (lineage_chain s1.1).
Proof.
  revert s consumed v. induction l as [|x l IH]; intros s consumed v Hi; cbn [fold_left].
  { exists v. split; [done|]. by destruct s. }
  destruct (gc_row_inv _ _ _ _ _ _ _ Hi) as (v1 & Hi1 & Hs1).
  destruct (gc_row H (s, consumed) x) as [s1 c1]. cbn [fst snd] in *.
  destruct (IH _ _ _ Hi1) as (v2 & Hi2 & Hs2). exists v2. split; [done|].
  rewrite Hs2, Hs1. done.
Qed.

(** No ledger entry retires the body of a doomed row yet. *)
Definition gc_fresh (s : LineageStore) (kind : string) (cutoff : Z) : Prop :=
  ∀ x r q t, x ∈ entities s → doomed kind cutoff x → r ∈ lineage_chain s → c_tbl r = TOMBSTONE →
    parse_tombstone (c_body r) ≠ Some (q, t, body_of (cols x)).

(** The keys sqlite can give *)
Definition seqs_fit (s : LineageStore) : Prop :=
  ∀ r, r ∈ lineage_chain s → (0 ≤ seq r < 2 ^ 63)%Z.

Lemma pretty_go_length (k : nat) (n : N) x :
  (n < 10 ^ N.of_nat k)%N → String.length (pretty_N_go n x) ≤ k + String.length x.
Proof.
  revert n x. induction k as [|k IH]; intros n x Hn.
  - change (10 ^ N.of_nat 0)%N with 1%N in Hn. assert (n = 0)%N as -> by lia. rewrite pretty_N_go_0. lia.
  - destruct (decide (n = 0)%N) as [->|Hz]; [rewrite pretty_N_go_0; lia|].
    rewrite pretty_N_go_step by lia. rewrite Nat2N.inj_succ, N.pow_succ_r' in Hn.
    specialize (IH (n / 10)%N (String (pretty_N_char (n mod 10)) x)). simpl in IH.
    assert (n / 10 < 10 ^ N.of_nat k)%N; [|lia]. apply N.div_lt_upper_bound; lia.
Qed.

Lemma int_ok_64 z : (0 ≤ z < 2 ^ 63)%Z → int_ok z.
Proof.
  intros Hz. unfold int_ok, MAX_INT_DIGITS. transitivity 20; [|apply Nat.leb_le; reflexivity].
  unfold pretty, pretty_N. case_decide; [apply Nat.leb_le; reflexivity|].
  rewrite (pretty_go_length 19); [simpl; lia|].
  change (10 ^ N.of_nat 19)%N with 10000000000000000000%N. lia.
Qed.

Lemma bodies_perm {A} `{Sealed A} (t t' : list (row A)) : t ≡ₚ t' → bodies t = bodies t'.
Proof. intros Hp. unfold bodies. by rewrite Hp. Qed.

Lemma bodies_app {A} `{Sealed A} (t t' : list (row A)) : bodies (t ++ t') = bodies t ⊎ bodies t'.
Proof. unfold bodies. by rewrite fmap_app, list_to_set_disj_app. Qed.

Lemma gc_sound s now kind older s' n :
  sound s → seqs_fit s → gc_fresh s kind (now - older) →
  gc H s now kind older = Ok (s', n) → sound s'.
Proof.
  intros (Hnd & Hcl & v & Hl & Hf) Hfit Hfresh. unfold gc. intros Hgc. inv_ok.
  set (dead := filter (doomed kind (now - older)) (entities s)) in *.
  set (kept := filter (λ r, ¬ doomed kind (now - older) r) (entities s)).
  pose proof (vloop_vinv _ _ Hnd Hl) as Hv.
  rewrite Forall_forall in Hf.
  assert (bodies (entities s) = bodies dead ⊎ bodies kept) as Hsplit.
  { rewrite <- bodies_app. apply bodies_perm. symmetry. apply filter_app_complement. }
  assert (gc_inv (expected_of v) (bodies kept) s ∅ dead v) as Hi.
  { split; [done|done| |done|set_solver| | |done].
    - intros r Hr _. specialize (Hfit r Hr). split; [lia|by apply int_ok_64].
    - intros r x Hr Ht Hx Hb Hret. exfalso.
      destruct (vi_retired _ _ Hv _ Hret) as (y & t & b & Hy & Hyt & Hp & Hg).
      rewrite (vi_body _ _ Hv r Hr) in Hg. injection Hg as <- <-.
      apply list_elem_of_filter in Hx as [Hd Hx].
      apply (Hfresh x y (seq r) (c_tbl r) Hx Hd Hy Hyt). by rewrite <- Hb.
    - rewrite <- Hsplit. apply (Hf ("entities", _)). constructor. }
  destruct (gc_fold_inv _ _ _ _ _ _ Hi) as (v' & Hi' & Hs').
  set (s1 := (fold_left (gc_row H) dead (s, ∅)).1) in *.
  split; [apply Hi'|]. split; [apply Hi'|]. exists v'. split; [apply Hi'|].
  apply Forall_forall. intros [t m] Hin. rewrite Hs' in Hin. unfold live_bodies in Hin.
  cbn [with_entities with_chain entities activities agents edges assertions receipts
       mapping_activity mapping_input mapping_output] in Hin.
  apply elem_of_cons in Hin as [[= -> ->]|Hin].
  - rewrite (gi_entities _ _ _ _ _ _ Hi'). fold kept. unfold bodies at 1. simpl. multiset_solver.
  - rewrite (gi_others _ _ _ _ _ _ Hi').
    + apply (Hf (t, m)). by apply list_elem_of_further.
    + intros ->. repeat (apply elem_of_cons in Hin as [Hin|Hin]; [discriminate Hin|]).
      by apply not_elem_of_nil in Hin.
Qed.

(** ** Reachable stores *)

(** A call of a writer that returned, or a retention pass over rows whose bodies no
    earlier pass retired *)
Inductive step : LineageStore → LineageStore → Prop :=
| st_entity s s' now e n : record_entity H s now e = Ok (s', n) → step s s'
| st_activity s s' now now2 a n : record_activity H s now now2 a = Ok (s', n) → step s s'
| st_end s s' now now2 a v e : end_activity H s now now2 a v e = Ok s' → step s s'
| st_agent s s' now a n : record_agent H s now a = Ok (s', n) → step s s'
| st_edge s s' now p a b act n : record_edge H s now p a b act = Ok (s', n) → step s s'
| st_assertion s s' now a f v b au n :
    record_assertion H s now a f v b au = Ok (s', n) → step s s'
| st_receipt s s' now e k l d p n : record_receipt H s now e k l d p = Ok (s', n) → step s s'
| st_mapping s s' now m a k c i o h : record_mapping H s now m a k c i o h = Ok s' → step s s'
| st_gc s s' now kind older n : seqs_fit s → gc_fresh s kind (now - older) →
    gc H s now kind older = Ok (s', n) → step s s'.

Lemma step_sound s s' : step s s' → sound s → sound s'.
Proof.
  destruct 1; intros Hs; [eapply record_entity_sound|eapply record_activity_sound|
    eapply end_activity_sound|eapply record_agent_sound|eapply record_edge_sound|
    eapply record_assertion_sound|eapply record_receipt_sound|eapply record_mapping_sound|
    eapply gc_sound]; eassumption.
Qed.

Lemma empty_sound : sound empty_store.
Proof.
  split; [constructor|]. split; [constructor|]. exists vstate0. split; [done|].
  by repeat constructor.
Qed.

Lemma reachable_sound s : rtc step empty_store s → sound s.
Proof. intros Hr. eapply rtc_invariant; [exact Hr|apply empty_sound|apply step_sound]. Qed.

(** C29: the ledger does not accuse the code, short of repeated retention. Every store reached
    from an empty one by the writers and by retention passes verifies, on its own and against
    its own chain head, whatever the digest function is, where each pass meets two
    conditions: the ledger's sequence numbers are integers JSON text carries exactly
    ([seqs_fit]), and no row it removes has a body an earlier pass retired ([gc_fresh]).
    The second is needed: [repeated_retention_breaks] gives a run of the code that violates
    it and ends in a store no verification accepts. *)
Theorem reachable_verifies s :
  rtc step empty_store s →
  verify_chain H s None = true ∧ verify_chain H s (Some (chain_head s)) = true.
Proof. intros Hr. by apply sound_verify, reachable_sound. Qed.

(** ** Tamper evidence *)

(** The text whose digest seals a row *)
Definition seal_input (prev : string) (r : chain_row) : string :=
  prev +:+ US +:+ c_tbl r +:+ US +:+ c_body r.
Fixpoint seal_inputs (prev : string) (rs : list chain_row) : list string :=
  match rs with [] => [] | r :: rs' => seal_input prev r :: seal_inputs (c_seal r) rs' end.

Definition head_of (prev : string) (rs : list chain_row) : string :=
  match last rs with Some r => c_seal r | None => prev end.

Lemma head_of_snoc g rs r : head_of g (rs ++ [r]) = c_seal r.
Proof. unfold head_of. by rewrite last_snoc. Qed.

Lemma head_of_cons g r rs : head_of g (r :: rs) = head_of (c_seal r) rs.
Proof.
  destruct rs as [|x rs _] using rev_ind; [done|]. by rewrite app_comm_cons, !head_of_snoc.
Qed.

(** Every row carries the digest of its input. *)
Fixpoint links (prev : string) (rs : list chain_row) : Prop :=
  match rs with
  | [] => True
  | r :: rs' => H (seal_input prev r) = c_seal r ∧ links (c_seal r) rs'
  end.

Lemma vloop_links v rs v' : vloop H v rs = Some v' → links (prev v) rs ∧ prev v' = head_of (prev v) rs.
Proof.
  revert v. induction rs as [|r rs IH]; intros v; simpl; [by intros [= <-]|].
  destruct (vstep H v r) as [v1|] eqn:Hs; [|done]. simpl. intros Hl.
  apply vstep_some in Hs as (Hseal & Hprev & _). destruct (IH v1 Hl) as [Hk Hh].
  rewrite Hprev in Hk, Hh. split; [done|]. by rewrite Hh, head_of_cons.
Qed.

Lemma links_snoc g rs r :
  links g (rs ++ [r]) ↔ links g rs ∧ H (seal_input (head_of g rs) r) = c_seal r.
Proof.
  revert g. induction rs as [|x rs IH]; intros g; simpl; [tauto|]. rewrite IH.
  rewrite head_of_cons. tauto.
Qed.

Lemma inputs_snoc g rs r :
  seal_inputs g (rs ++ [r]) = seal_inputs g rs ++ [seal_input (head_of g rs) r].
Proof.
  revert g. induction rs as [|x rs IH]; intros g; simpl; [done|]. rewrite IH.
  by rewrite head_of_cons.
Qed.

(** What [hashlib.sha256(...).hexdigest()] returns: 64 characters, none the separator *)
Definition digest_ok : Prop := ∀ x, String.length (H x) = 64 ∧ us_free (H x).

Lemma head_us_free g rs : digest_ok → us_free g → links g rs → us_free (head_of g rs).
Proof.
  intros Hd. revert g. induction rs as [|r rs IH] using rev_ind; intros g Hg; [done|].
  rewrite links_snoc, head_of_snoc. intros [_ <-]. apply Hd.
Qed.

Lemma us_split_inj a b a' b' :
  us_free a → us_free a' → a +:+ US +:+ b = a' +:+ US +:+ b' → a = a' ∧ b = b'.
Proof.
  intros Ha Ha' Heq. pose proof (split1_us a b Ha) as H1. rewrite Heq, split1_us in H1 by done.
  by injection H1.
Qed.

(** A ledger row without its key *)
Definition entry (r : chain_row) : string * string * string := (c_tbl r, c_body r, c_seal r).

Lemma links_inj rs rs' :
  digest_ok → links GENESIS rs → links GENESIS rs' →
  Forall (λ r, us_free (c_tbl r)) rs → Forall (λ r, us_free (c_tbl r)) rs' →
  head_of GENESIS rs = head_of GENESIS rs' →
  (∀ x y, x ∈ seal_inputs GENESIS rs → y ∈ seal_inputs GENESIS rs' → H x = H y → x = y) →
  entry <$> rs = entry <$> rs'.
Proof.
  intros Hd. assert (∀ x, H x ≠ GENESIS) as Hgen.
  { intros x Hx. destruct (Hd x) as [Hlen _]. rewrite Hx in Hlen. discriminate Hlen. }
  revert rs'. induction rs as [|r rs IH] using rev_ind; intros rs' Hl Hl' Hc Hc' Hh Hcol.
  - destruct rs' as [|r' rs' _] using rev_ind; [done|]. exfalso.
    rewrite head_of_snoc in Hh. apply links_snoc in Hl' as [_ Hs].
    apply (Hgen _ (eq_trans Hs (eq_sym Hh))).
  - rewrite head_of_snoc in Hh. apply links_snoc in Hl as [Hl Hs].
    destruct rs' as [|r' rs' _] using rev_ind; [exfalso; exact (Hgen _ (eq_trans Hs Hh))|].
    rewrite head_of_snoc in Hh. apply links_snoc in Hl' as [Hl' Hs'].
    apply Forall_app in Hc as [Hc [Hcr _]%Forall_cons]. apply Forall_app in Hc' as [Hc' [Hcr' _]%Forall_cons].
    rewrite !inputs_snoc in Hcol.
    assert (seal_input (head_of GENESIS rs) r = seal_input (head_of GENESIS rs') r') as Heq.
    { apply Hcol; [apply elem_of_app; right; constructor..|]. congruence. }
    unfold seal_input in Heq.
    apply us_split_inj in Heq as [Hhh Heq]; [|by apply head_us_free..].
    apply us_split_inj in Heq as [Ht Hb]; [|exact Hcr|exact Hcr'].
    rewrite !fmap_app, (IH rs'); try done.
    + unfold entry. simpl. by rewrite Ht, Hb, Hh.
    + intros x y Hx Hy. apply Hcol; apply elem_of_app; by left.
Qed.

Lemma vloop_expected rs rs' v v' w w' :
  vloop H v rs = Some w → vloop H v' rs' = Some w' → entry <$> rs = entry <$> rs' →
  expected v = expected v' → expected w = expected w'.
Proof.
  revert rs' v v'. induction rs as [|r rs IH]; intros [|r' rs'] v v'; simpl; try done.
  { by intros [= <-] [= <-]. }
  destruct (vstep H v r) as [v1|] eqn:E; [|done]. destruct (vstep H v' r') as [v1'|] eqn:E'; [|done].
  simpl. intros Hl Hl' Hent He. injection Hent as Ht Hb Hs Hrest.
  apply (IH rs' v1 v1'); try done.
  apply vstep_some in E as (_ & _ & _ & E). apply vstep_some in E' as (_ & _ & _ & E').
  rewrite <- Ht, <- Hb in E'. unfold expected_of in *. rewrite <- He in E'.
  destruct E as [(? & _ & ->)|(? & q & t & b & Hp & _ & _ & _ & _ & ->)],
    E' as [(? & _ & ->)|(? & q' & t' & b' & Hp' & _ & _ & _ & _ & ->)]; try done.
  rewrite Hp in Hp'. injection Hp' as <- <- <-. done.
Qed.

(** C30: a head kept elsewhere pins the store. Let a store verify against the chain head of a
    store the code reached, both ledgers' table names free of the separator, and let the
    digest have no collision between the inputs sealed in the two. Then the ledgers hold
    the same entries in the same order and every sealed table holds the same rows. *)
Theorem tamper_evident s0 s :
  digest_ok → rtc step empty_store s0 → clean s →
  verify_chain H s (Some (chain_head s0)) = true →
  (∀ x y, x ∈ seal_inputs GENESIS (lineage_chain s) →
     y ∈ seal_inputs GENESIS (lineage_chain s0) → H x = H y → x = y) →
  entry <$> lineage_chain s = entry <$> lineage_chain s0 ∧ live_bodies s = live_bodies s0.
Proof.
  intros Hd (Hnd0 & Hc0 & v0 & Hg0)%reachable_sound Hc (v & Hg & Hh)%verify_good Hcol.
  pose proof (good_head _ _ Hnd0 Hg0) as Hh0.
  destruct Hg as [Hl Hf], Hg0 as [Hl0 Hf0].
  destruct (vloop_links _ _ _ Hl) as [Hk Hp], (vloop_links _ _ _ Hl0) as [Hk0 Hp0].
  assert (entry <$> lineage_chain s = entry <$> lineage_chain s0) as Hent.
  { apply links_inj; try done. change (head_of (prev vstate0) (lineage_chain s) =
      head_of (prev vstate0) (lineage_chain s0)). congruence. }
  split; [done|].
  pose proof (vloop_expected _ _ _ _ _ _ Hl Hl0 Hent eq_refl) as He.
  assert (∀ t m m0, (t, m) ∈ live_bodies s → (t, m0) ∈ live_bodies s0 → m = m0) as Hm.
  { rewrite Forall_forall in Hf, Hf0. intros t m m0 H1%Hf H2%Hf0. simpl in *.
    rewrite <- H1, <- H2. unfold expected_of. by rewrite He. }
  unfold live_bodies in *.
  repeat match goal with |- ?x :: _ = ?y :: _ => f_equal; [f_equal; eapply (Hm x.1);
    repeat first [apply list_elem_of_here|apply list_elem_of_further]|] end.
  do 2 f_equal. eapply (Hm "mapping_output");
    repeat first [apply list_elem_of_here|apply list_elem_of_further].
Qed.
End loop.

(** ** Two gaps *)

Section gaps.
Context (H : string → string) (c : entity_cols) (sl : string).
Let b := body_of c.
Let r1 := {| seq := 1; c_tbl := "entities"; c_body := b; c_seal := seal_value H GENESIS "entities" b |}.
Let t_body := dump_int 1 +:+ US +:+ "entities" +:+ US +:+ b.

(** One pass of the retention loop over a row whose body the entry 1 sealed first *)
Lemma gc_row_first s x :
  cols x = c → (∃ rest, lineage_chain s = r1 :: rest) →
  gc_row H (s, ∅) x = (tombstone H s 1 "entities" b, {[1%Z]}).
Proof.
  intros Hx [rest Hc]. unfold gc_row. rewrite Hx. fold b.
  assert (∃ qs, seqs_of s b = 1%Z :: qs) as [qs Hq].
  { unfold seqs_of. rewrite Hc, filter_cons, decide_True by done. by eexists. }
  rewrite Hq, filter_cons, decide_True by (apply not_elem_of_empty).
  by rewrite union_empty_r_L.
Qed.

Lemma gc_first s x now :
  cols x = c → entities s = [x] → (∃ rest, lineage_chain s = r1 :: rest) →
  isin (ec_kind c) ENTITY_KINDS = true → (ec_created_at c < now)%Z →
  gc H s now (ec_kind c) 0 =
    Ok (with_entities (tombstone H s 1 "entities" b) [], 1).
Proof.
  intros Hx He Hc Hk Ht. unfold gc. rewrite Hk. cbn [guard_else result_bind].
  assert (doomed (ec_kind c) (now - 0) x) as Hd by (unfold doomed; rewrite Hx; split; [done|lia]).
  rewrite He, list_filter_all by (by intros y ->%list_elem_of_singleton). cbn [fold_left].
  rewrite gc_row_first by done. cbn [fst]. unfold tombstone, append_chain at 2.
  cbn [with_chain entities]. rewrite He, list_filter_none; [done|].
  intros y ->%list_elem_of_singleton. tauto.
Qed.
End gaps.

Lemma record_entity_ok H s now e :
  isin (e_kind e) ENTITY_KINDS = true → (e_integrity e = None ∨ e_integrity e = Some "mixed") →
  record_entity H s now e =
    let c := entity_columns now e in
    let s1 := append_chain H s "entities" (body_of c) in
    let t := insert_row (entities s) c (seal_value H (chain_head s) "entities" (body_of c)) in
    Ok (with_entities s1 t, last_rowid t).
Proof.
  intros Hk Hi. unfold record_entity. rewrite Hk, bool_decide_true by done. done.
Qed.

Lemma seal_resplit H prev q t b :
  seal_value H prev TOMBSTONE (q +:+ US +:+ t +:+ US +:+ b) =
  seal_value H prev (TOMBSTONE +:+ US +:+ q) (t +:+ US +:+ b).
Proof. reflexivity. Qed.

(** a retired row can be brought back under a trusted head. After an entity is recorded
    and retention removes it, moving the separator inside the tombstone entry, from the
    body into the table name, keeps its seal, turns it into an entry for no sealed table,
    and lets the deleted row be put back: the store verifies against the chain head taken
    before the edit, for every digest function. *)
Theorem retired_row_resurrected H e now s1 n1 s2 n2 :
  record_entity H empty_store now e = Ok (s1, n1) → jwf (e_facets e) →
  gc H s1 (or_z (e_created_at e) now + 1) (e_kind e) 0 = Ok (s2, n2) →
  ∃ s3, verify_chain H s3 (Some (chain_head s2)) = true ∧ lineage_chain s3 ≠ lineage_chain s2 ∧
    get_entity s2 (eid e) = None ∧ get_entity s3 (eid e) = Some (stored_entity now e).
Proof.
  intros Hrec Hf Hgc. pose proof (record_entity_roundtrip _ _ _ _ _ _ Hrec Hf) as (Hget & _).
  assert (isin (e_kind e) ENTITY_KINDS = true ∧ (e_integrity e = None ∨ e_integrity e = Some "mixed"))
    as [Hk Hi].
  { unfold record_entity in Hrec. inv_ok. split; [done|]. by eapply bool_decide_eq_true. }
  rewrite record_entity_ok in Hrec by done. injection Hrec as Hs1 _.
  set (c := entity_columns now e) in *. set (b := body_of c) in *.
  destruct (entities s1) as [|x [|]] eqn:He; try by rewrite <- Hs1 in He.
  assert (cols x = c) as Hx by (rewrite <- Hs1 in He; by injection He as <-).
  set (r1 := {| seq := 1; c_tbl := "entities"; c_body := b; c_seal := seal_value H GENESIS "entities" b |}).
  assert (lineage_chain s1 = [r1]) as Hc by (by rewrite <- Hs1).
  change (e_kind e) with (ec_kind c) in Hgc, Hk.
  rewrite (gc_first H c s1 x) in Hgc; [|done|done|by eexists|done|simpl; lia]. injection Hgc as <- <-.
  fold b. set (seal2 := seal_value H (c_seal r1) TOMBSTONE (dump_int 1 +:+ US +:+ "entities" +:+ US +:+ b)).
  assert (∀ q, chain_head (with_entities (tombstone H s1 q "entities" b) []) =
    seal_value H (c_seal r1) TOMBSTONE (dump_int q +:+ US +:+ "entities" +:+ US +:+ b)) as Hhead.
  { intros q. unfold chain_head. cbn [tombstone append_chain with_entities with_chain lineage_chain].
    rewrite last_snoc. cbn [c_seal]. unfold chain_head. by rewrite Hc. }
  exists (with_chain s1 [r1; {| seq := 2; c_tbl := TOMBSTONE +:+ US +:+ dump_int 1;
                                c_body := "entities" +:+ US +:+ b; c_seal := seal2 |}]).
  split; [|split; [|split; [done|]]].
  - rewrite Hhead. set (head := seal_value H _ TOMBSTONE _).
    set (v1 := {| retired := ∅; seq_body := [(1%Z, ("entities", b))];
                  expected := <["entities" := {[+ b +]} ⊎ expected_of vstate0 "entities"]> ∅;
                  prev := c_seal r1 |}).
    assert (vstep H vstate0 r1 = Some v1) as Hstep1 by (by apply vstep_ordinary).
    set (tb2 := TOMBSTONE +:+ US +:+ dump_int 1). set (bd2 := "entities" +:+ US +:+ b).
    set (v2 := {| retired := ∅; seq_body := od_set (seq_body v1) 2%Z (tb2, bd2);
                  expected := <[tb2 := {[+ bd2 +]} ⊎ expected_of v1 tb2]> (expected v1);
                  prev := seal2 |}).
    assert (vstep H v1 {| seq := 2; c_tbl := tb2; c_body := bd2; c_seal := seal2 |} = Some v2)
      as Hstep2 by (by apply (vstep_ordinary H v1)).
    rewrite (good_verify _ _ v2); [by apply bool_decide_eq_true|split].
    + cbn [with_chain lineage_chain vloop]. rewrite Hstep1. cbn [mbind option_bind].
      cbn [vloop]. by rewrite Hstep2.
    + assert (∀ t, t ≠ "entities" → t ≠ tb2 → expected_of v2 t = ∅) as Hother.
      { intros t H1 H2. unfold expected_of. cbn [expected v2 v1].
        by rewrite !lookup_insert_ne by done. }
      unfold live_bodies. rewrite <- Hs1. cbn -[bodies insert_row].
      repeat constructor; try (apply Hother; done).
  - cbn [with_chain with_entities tombstone append_chain lineage_chain]. rewrite Hc.
    intros Heq. discriminate Heq.
  - rewrite <- Hget. done.
Qed.

(** A recorded entity in a store without entities *)
Lemma record_entity_shape H s now e s' n :
  entities s = [] → record_entity H s now e = Ok (s', n) →
  isin (ec_kind (entity_columns now e)) ENTITY_KINDS = true ∧
  lineage_chain s' = lineage_chain (append_chain H s "entities" (body_of (entity_columns now e))) ∧
  ∃ x, entities s' = [x] ∧ cols x = entity_columns now e.
Proof.
  intros He Hrec.
  assert (isin (e_kind e) ENTITY_KINDS = true ∧ (e_integrity e = None ∨ e_integrity e = Some "mixed"))
    as [Hk Hi].
  { unfold record_entity in Hrec. inv_ok. split; [done|]. by eapply bool_decide_eq_true. }
  rewrite record_entity_ok in Hrec by done. injection Hrec as <- _.
  split; [done|]. split; [done|]. cbn [with_entities entities]. rewrite He. by eexists.
Qed.

Lemma tombstone_step H v r v' q t b :
  c_tbl r = TOMBSTONE → c_body r = dump_int q +:+ US +:+ t +:+ US +:+ b →
  (0 ≤ q)%Z → int_ok q → us_free t → vstep H v r = Some v' →
  q ∉ retired v ∧ q ∈ retired v'.
Proof.
  intros Ht Hb Hq Hok Hus Hs. apply vstep_some in Hs as (_ & _ & _ & Hcase).
  destruct Hcase as [[? _]|(_ & q' & t' & b' & Hp & _ & Hnr & _ & Hret & _)]; [done|].
  rewrite Hb, parse_tombstone_made in Hp by done. injection Hp as <- <- <-.
  split; [done|]. rewrite Hret. set_solver.
Qed.

(** Retention can break the ledger. Record an entity with a creation time of its own, let
    retention remove it, record the same entity again and let retention remove it again:
    the second pass retires the ledger entry the first one retired already, and from then
    on no verification succeeds, for every digest function; before that pass it does. *)
Theorem repeated_retention_breaks H e now s1 n1 s2 n2 s3 n3 s4 n4 :
  e_created_at e ≠ 0%Z →
  record_entity H empty_store now e = Ok (s1, n1) →
  gc H s1 (e_created_at e + 1) (e_kind e) 0 = Ok (s2, n2) →
  record_entity H s2 now e = Ok (s3, n3) →
  gc H s3 (e_created_at e + 1) (e_kind e) 0 = Ok (s4, n4) →
  verify_chain H s3 (Some (chain_head s3)) = true ∧ ∀ h, verify_chain H s4 h = false.
Proof.
  intros Hne Hr1 Hg2 Hr3 Hg4. set (c := entity_columns now e) in *.
  assert (ec_created_at c = e_created_at e) as Hca.
  { unfold c. cbn [ec_created_at entity_columns]. unfold or_z. by rewrite (proj2 (Z.eqb_neq _ _)). }
  destruct (record_entity_shape H empty_store now e s1 n1 eq_refl Hr1) as (Hk & Hc1 & x1 & He1 & Hx1). fold c in Hk, Hc1, Hx1.
  pose proof Hg2 as Hg2'. change (e_kind e) with (ec_kind c) in Hg2, Hg4.
  rewrite (gc_first H c s1 x1) in Hg2; [|done|done|rewrite Hc1; by eexists|done|lia].
  injection Hg2 as Hs2 _.
  destruct (record_entity_shape H s2 now e s3 n3) as (_ & Hc3 & x3 & He3 & Hx3); [by rewrite <- Hs2|done|].
  fold c in Hc3, Hx3. rewrite <- Hs2 in Hc3. cbn [tombstone append_chain with_entities with_chain lineage_chain] in Hc3.
  rewrite Hc1 in Hc3. cbn [append_chain with_chain lineage_chain empty_store app] in Hc3.
  rewrite (gc_first H c s3 x3) in Hg4; [|done|done|rewrite Hc3; by eexists|done|lia].
  injection Hg4 as Hs4 _. split.
  - apply (reachable_verifies H). eapply rtc_l; [by eapply st_entity|]. eapply rtc_l.
    { eapply st_gc; [| |exact Hg2'].
      - intros r. rewrite Hc1. intros ->%list_elem_of_singleton. change (0 ≤ 1 < 2 ^ 63)%Z. lia.
      - intros y r q t _ _ Hr Ht. rewrite Hc1 in Hr. apply list_elem_of_singleton in Hr as ->. done. }
    eapply rtc_l; [by eapply st_entity|constructor].
  - intros h. unfold verify_chain. destruct (vloop H vstate0 (lineage_chain s4)) as [v|] eqn:Hv; [|done].
    exfalso. rewrite <- Hs4 in Hv. cbn [tombstone append_chain with_entities with_chain lineage_chain] in Hv.
    rewrite vloop_snoc in Hv. rewrite Hc3 in Hv. cbn [vloop] in Hv.
    destruct (vstep H vstate0 _) as [v1|] in Hv; [|done]. cbn [mbind option_bind vloop] in Hv.
    destruct (vstep H v1 _) as [v2|] eqn:E2 in Hv; [|done]. cbn [mbind option_bind vloop] in Hv.
    destruct (vstep H v2 _) as [v3|] eqn:E3 in Hv; [|done]. cbn [mbind option_bind vloop] in Hv.
    eapply (tombstone_step _ _ _ _ 1) in E2 as [_ H1]; [|reflexivity|reflexivity|lia|apply int_ok_64; lia|reflexivity].
    eapply (tombstone_step _ _ _ _ 1) in Hv as [H2 _]; [|reflexivity|reflexivity|lia|apply int_ok_64; lia|reflexivity].
    apply vstep_some in E3 as (_ & _ & _ & [(_ & Hret & _)|[? _]]); [|done].
    apply H2. by rewrite Hret.
Qed.

(** ** Concrete stores *)

(** The store after one recorded entity *)
Definition sample_row : row entity_cols :=
  {| rowid := 1; cols := entity_columns 7 sample_entity;
     seal := seal_value toy_digest GENESIS "entities" (body_of (entity_columns 7 sample_entity)) |}.
Definition sample_chain_row (q : Z) : chain_row :=
  {| seq := q; c_tbl := "entities"; c_body := body_of (entity_columns 7 sample_entity);
     c_seal := zeros |}.
Definition sample_store : LineageStore :=
  with_chain (with_entities empty_store [sample_row]) [sample_chain_row 1].

Lemma sample_recorded :
  record_entity toy_digest empty_store 7 sample_entity = Ok (sample_store, 1%Z).
Proof. reflexivity. Qed.

Lemma sample_reachable : rtc (step toy_digest) empty_store sample_store.
Proof. eapply rtc_l; [eapply st_entity, sample_recorded|constructor]. Qed.

Lemma reachable_verifies_witness : verify_chain toy_digest sample_store None = true.
Proof. apply (reachable_verifies toy_digest sample_store sample_reachable). Defined.

(** The same ledger under another key *)
Definition renumbered : LineageStore := with_chain sample_store [sample_chain_row 5].

Lemma renumbered_verifies :
  verify_chain toy_digest renumbered (Some (chain_head sample_store)) = true.
Proof. vm_compute. reflexivity. Qed.

Lemma tamper_evident_witness :
  lineage_chain renumbered ≠ lineage_chain sample_store ∧
  live_bodies renumbered = live_bodies sample_store.
Proof.
  split; [discriminate|].
  refine (proj2 (tamper_evident toy_digest sample_store renumbered _ sample_reachable _
    renumbered_verifies _)).
  - intros x. split; reflexivity.
  - constructor; [reflexivity|constructor].
  - intros x y Hx%list_elem_of_singleton Hy%list_elem_of_singleton _. rewrite Hx, Hy. reflexivity.
Defined.

Lemma retired_row_resurrected_witness :
  ∃ s2 s3, verify_chain toy_digest s3 (Some (chain_head s2)) = true ∧
    get_entity s2 "file:/tmp/a" = None ∧
    get_entity s3 "file:/tmp/a" = Some (stored_entity 7 sample_entity).
Proof.
  destruct (gc toy_digest sample_store 101 "payload" 0) as [[s2 n2]|] eqn:Hgc; [|discriminate Hgc].
  destruct (retired_row_resurrected toy_digest sample_entity 7 sample_store 1 s2 n2
    sample_recorded sample_facets_wf Hgc) as (s3 & Hv & _ & Hn & Hs).
  exists s2, s3. split; [exact Hv|]. split; [exact Hn|exact Hs].
Defined.

Lemma repeated_retention_breaks_witness :
  ∃ s4, verify_chain toy_digest s4 None = false.
Proof.
  destruct (gc toy_digest sample_store 101 "payload" 0) as [[s2 n2]|] eqn:Hg2; [|discriminate Hg2].
  destruct (record_entity toy_digest s2 7 sample_entity) as [[s3 n3]|] eqn:Hr3; [|discriminate Hr3].
  destruct (gc toy_digest s3 101 "payload" 0) as [[s4 n4]|] eqn:Hg4; [|discriminate Hg4].
  exists s4. refine (proj2 (repeated_retention_breaks toy_digest sample_entity 7 sample_store 1
    s2 n2 s3 n3 s4 n4 _ sample_recorded Hg2 Hr3 Hg4) None). discriminate.
Defined.
End Chain.
