(* ===== verification/Chokepoint.v ===== *)
(** * Chokepoints and declassification

    [src/broker/qdistro_lineage.py]: a brokered flow is evaluated by the guard registry and
    recorded in the lineage store, and a declassification mints a narrowed derivative. The
    identifiers [_gen_id] draws are arguments; [clk i] is the clock reading the [i]-th
    write of a call takes. Each call is one transaction: an error leaves the store as it
    was. *)

From S2P Require Import Prelude Json Guards LineageStore.
Import Json Lineage.

Module Chokepoints.
Module G := GuardRegistry.

(** [CHOKEPOINT_ACTIVITY_KIND] *)
Definition CHOKEPOINT_ACTIVITY_KIND : list (string * string) :=
  [("clipboard", "clipboard"); ("commit-create", "commit"); ("browser-upload", "upload");
   ("browser-download", "download"); ("archive-extract", "extract");
   ("archive-create", "archive-create"); ("import", "import"); ("export", "export");
   ("recall-query", "recall-query"); ("recall-export", "recall-export");
   ("workflow-step", "workflow-step")].
Definition DERIVING_CHOKEPOINTS : list string :=
  ["clipboard"; "commit-create"; "archive-extract"; "archive-create"; "import"; "export";
   "recall-query"; "recall-export"].

Record ChokepointInput := { in_eid : string; endpoint : G.FlowEndpoint }.

(** [trusted_mapping]: its confidence and, when present, its output guards *)
Record mapping := { confidence : string; output_guards : option (gset string) }.

Record ChokepointResult := {
  cr_verdict : G.GuardVerdict;
  cr_allowed : bool;
  cr_reasons : list G.GuardReason;
  cr_guards : gset string;
  cr_compartments : gset string;
  cr_conflict_classes : gset string;
  cr_integrity : option string;
  cr_aid : string;
  cr_output : option string;
}.
(** [ChokepointResult.denied] *)
Definition denied (r : ChokepointResult) : bool := negb (cr_allowed r).

Inductive chokepoint_error :=
| CE_no_inputs (chokepoint : string)
| CE_no_authority
| CE_unknown_source (eid : string)
| CE_store (e : LineageStoreError).

(** A writer's answer inside a composite call *)
Definition lift {A} (r : result LineageStoreError A) : result chokepoint_error A :=
  match r with Ok a => Ok a | Err e => Err (CE_store e) end.

(** The keyword arguments of [record_chokepoint] after [store] *)
Record chokepoint_args := {
  ca_chokepoint : string;
  ca_inputs : list ChokepointInput;
  ca_destination : option G.FlowEndpoint;
  ca_processing : option G.ProcessingDescriptor;
  ca_output_eid : option string;
  ca_output_kind : string;
  ca_output_digest : option string;
  ca_output_locator : option string;
  ca_agent_gid : option string;
  ca_action_version : option string;
  ca_mapping : option mapping;
}.

(** The flow of one input *)
Definition input_flow (a : chokepoint_args) (i : ChokepointInput) : G.FlowContext :=
  {| G.source := endpoint i; G.chokepoint := ca_chokepoint a;
     G.destination := default G.empty_endpoint (ca_destination a);
     G.processing := default G.default_processing (ca_processing a) |}.

(** The loop over the inputs: worst verdict, reasons, propagated guards *)
Definition evaluate_input (a : chokepoint_args)
    (acc : G.GuardVerdict * list G.GuardReason * gset string) (i : ChokepointInput) :=
  let '(worst, reasons, prop) := acc in
  let v := G.evaluate_flow (input_flow a i) in
  (G.verdict_max worst (G.fv_verdict v), reasons ++ G.fv_reasons v, prop ∪ G.fv_propagate v).
Definition evaluate_inputs (a : chokepoint_args) : G.GuardVerdict * list G.GuardReason * gset string :=
  foldl (evaluate_input a) (G.ALLOW, [], ∅) (ca_inputs a).

(** The narrowing a trusted mapping may do *)
Definition narrow_guards (m : option mapping) (union : gset string) : gset string :=
  match m with
  | Some m =>
      if mapping_narrows_guards (confidence m) then
        match output_guards m with Some narrowed => union ∩ narrowed | None => union end
      else union
  | None => union
  end.

(** The output snapshot: guards, compartments, conflict classes and integrity *)
Definition output_snapshot (a : chokepoint_args) (prop : gset string)
    : gset string * gset string * gset string * option string :=
  let ins := ca_inputs a in
  let guards := G.propagate_guards ((λ i, G.guards (endpoint i)) <$> ins) ∪ prop in
  let comps := ⋃ ((λ i, G.compartments (endpoint i)) <$> ins) in
  let confs := ⋃ ((λ i, G.conflict_classes (endpoint i)) <$> ins) in
  (narrow_guards (ca_mapping a) guards, comps, confs,
   if (1 <? size comps) && negb (bool_decide (confs = ∅)) then Some "mixed" else None).

Section chokepoint.
Context (H : string → string) (clk : nat → Z).

Definition edge (s : LineageStore) (i : nat) (predicate subject obj aid : string)
    : result chokepoint_error LineageStore :=
  let* r := lift (record_edge H s (clk i) predicate subject obj (Some aid)) in Ok r.1.

(** [for inp in inputs: store.record_edge(...)] *)
Fixpoint input_edges (s : LineageStore) (i : nat) (predicate subject aid : string)
    (ins : list ChokepointInput) : result chokepoint_error LineageStore :=
  match ins with
  | [] => Ok s
  | inp :: ins' =>
      let* s1 := edge s i predicate subject (in_eid inp) aid in
      input_edges s1 (S i) predicate subject aid ins'
  end.

(** An edge to an optional agent *)
Definition agent_edge (s : LineageStore) (i : nat) (predicate subject aid : string)
    (agent : option string) : result chokepoint_error LineageStore :=
  match agent with Some g => edge s i predicate subject g aid | None => Ok s end.

(** The activity, its agent and its [used] edges *)
Definition record_use (s : LineageStore) (ts : Z) (new_aid : string) (worst : G.GuardVerdict)
    (a : chokepoint_args) : result chokepoint_error LineageStore :=
  let proc := default G.default_processing (ca_processing a) in
  let* r1 := lift (record_activity H s (clk 0) (clk 1)
      {| aid := new_aid;
         a_kind := default "workflow-step" (od_get CHOKEPOINT_ACTIVITY_KIND (ca_chokepoint a));
         a_chokepoint := Some (ca_chokepoint a); a_action_version := ca_action_version a;
         a_host_class := G.host_class proc; a_network_egress := Some (G.network_egress proc);
         a_verdict := Some (G.name_lower worst); a_started_at := ts; a_ended_at := Some ts |}) in
  let* s2 := agent_edge r1.1 2 "wasAssociatedWith" new_aid new_aid (ca_agent_gid a) in
  input_edges s2 3 "used" new_aid new_aid (ca_inputs a).

(** [output_eid or _gen_id("entity")] *)
Definition output_id (given : option string) (new_eid : string) : string :=
  match given with Some e => if truthy e then e else new_eid | None => new_eid end.

(** The output entity of an allowed deriving chokepoint and its edges *)
Definition record_output (s : LineageStore) (ts : Z) (new_aid out : string)
    (snapshot : gset string * gset string * gset string * option string) (a : chokepoint_args)
    : result chokepoint_error LineageStore :=
  let '(guards, comps, confs, integrity) := snapshot in
  let n := length (ca_inputs a) in
  let* r4 := lift (record_entity H s (clk (3 + n))
      {| eid := out; e_kind := ca_output_kind a; e_digest := ca_output_digest a;
         e_locator := ca_output_locator a; e_guards := guards; e_compartments := comps;
         e_conflict_classes := confs; e_integrity := integrity; e_status := "active";
         e_facets := JObj []; e_created_at := ts |}) in
  let* s5 := edge r4.1 (4 + n) "wasGeneratedBy" out new_aid new_aid in
  let* s6 := input_edges s5 (5 + n) "wasDerivedFrom" out new_aid (ca_inputs a) in
  agent_edge s6 (5 + n + n) "wasAttributedTo" out new_aid (ca_agent_gid a).

(** [record_chokepoint] at time [ts], with the identifiers it would draw *)
Definition record_chokepoint (s : LineageStore) (ts : Z) (new_aid new_eid : string)
    (a : chokepoint_args) : result chokepoint_error (LineageStore * ChokepointResult) :=
  let deriving := isin (ca_chokepoint a) DERIVING_CHOKEPOINTS in
  let* _ := guard_else (negb (bool_decide (ca_inputs a = []) && deriving))
              (CE_no_inputs (ca_chokepoint a)) (Ok tt) in
  let '(worst, reasons, prop) := evaluate_inputs a in
  let allowed := G.verdict_allowed worst in
  let '(guards, comps, confs, integrity) := output_snapshot a prop in
  let answer out := {| cr_verdict := worst; cr_allowed := allowed; cr_reasons := reasons;
      cr_guards := guards; cr_compartments := comps; cr_conflict_classes := confs;
      cr_integrity := integrity; cr_aid := new_aid; cr_output := out |} in
  let* s3 := record_use s ts new_aid worst a in
  if allowed && deriving then
    let out := output_id (ca_output_eid a) new_eid in
    let* s7 := record_output s3 ts new_aid out (guards, comps, confs, integrity) a in
    Ok (s7, answer (Some out))
  else Ok (s3, answer None).

(** The keyword arguments of [declassify] after [store] *)
Record declassify_args := {
  da_source : string;
  da_output_eid : option string;
  da_output_kind : string;
  da_output_digest : option string;
  da_guards : gset string;
  da_compartments : gset string;
  da_conflict_classes : gset string;
  da_authority : string;
  da_transform : option string;
  da_agent : option string;
}.

(** [declassify]: the store and the new entity's id *)
Definition declassify (s : LineageStore) (ts : Z) (new_aid new_eid : string)
    (a : declassify_args) : result chokepoint_error (LineageStore * string) :=
  let* _ := guard_else (truthy (da_authority a)) CE_no_authority (Ok tt) in
  let* _ := guard_else (bool_decide (is_Some (get_entity s (da_source a))))
              (CE_unknown_source (da_source a)) (Ok tt) in
  let out := output_id (da_output_eid a) new_eid in
  let* r1 := lift (record_activity H s (clk 0) (clk 1)
      {| aid := new_aid; a_kind := "declassify"; a_chokepoint := Some "declassify";
         a_action_version := None; a_host_class := "local"; a_network_egress := Some "none";
         a_verdict := Some "declassify"; a_started_at := ts; a_ended_at := Some ts |}) in
  let* s2 := edge r1.1 2 "used" new_aid (da_source a) new_aid in
  let* s3 := edge s2 3 "wasAssociatedWith" new_aid (da_authority a) new_aid in
  let* s4 := match da_agent a with
             | Some g => edge s3 4 "actedOnBehalfOf" g (da_authority a) new_aid
             | None => Ok s3 end in
  let* r5 := lift (record_entity H s4 (clk 5)
      {| eid := out; e_kind := da_output_kind a; e_digest := da_output_digest a;
         e_locator := None; e_guards := da_guards a; e_compartments := da_compartments a;
         e_conflict_classes := da_conflict_classes a; e_integrity := None;
         e_status := "active"; e_facets := JObj []; e_created_at := ts |}) in
  let* s6 := edge r5.1 6 "wasGeneratedBy" out new_aid new_aid in
  let* s7 := edge s6 7 "wasDerivedFrom" out (da_source a) new_aid in
  let* s8 := edge s7 8 "wasAttributedTo" out (da_authority a) new_aid in
  let* r9 := lift (record_assertion H s8 (clk 9) out "declassification"
      (JObj [("source", JStr (da_source a)); ("transform", jopt (da_transform a));
             ("authority", JStr (da_authority a));
             ("residual_guards", JArr (JStr <$> sorted_set (da_guards a)))])
      (da_authority a) "broker-derived") in
  Ok (r9.1, out).
End chokepoint.

(** [report_processing_host] *)
Definition report_processing_host (host_class network_egress : string)
    (payload_submitted telemetry_submitted : bool) : G.ProcessingDescriptor :=
  {| G.host_class := if isin host_class HOST_CLASSES then host_class else "unknown";
     G.network_egress := network_egress; G.payload_submitted := payload_submitted;
     G.telemetry_submitted := telemetry_submitted |}.

(** ** What the writers leave of the entities and the edges *)

Abbreviation triple := (string * string * string)%type.
Definition edge_triple (r : row edge_cols) : triple :=
  (dc_predicate (cols r), dc_subject (cols r), dc_object (cols r)).
Definition edge_set (s : LineageStore) : gset triple := list_to_set (edge_triple <$> edges s).

Lemma feeds_edge_set s x y : feeds s x y ↔ ("wasDerivedFrom", y, x) ∈ edge_set s.
Proof.
  unfold feeds, edge_set, edge_triple. rewrite elem_of_list_to_set, list_elem_of_fmap.
  split.
  - intros (r & Hr & Hp & <- & <-). exists r. by rewrite Hp.
  - intros (r & [= Hp -> ->] & Hr). by exists r.
Qed.

Lemma last_cols {A} (t : list (row A)) c sl : cols <$> insert_row t c sl = (cols <$> t) ++ [c].
Proof. unfold insert_row. by rewrite fmap_app. Qed.

Section frames.
Context (H : string → string) (clk : nat → Z).

Lemma record_assertion_frame s now a f v b au s' n :
  record_assertion H s now a f v b au = Ok (s', n) → entities s' = entities s ∧ edges s' = edges s.
Proof. unfold record_assertion, seal_row. intros Hr. by inv_ok. Qed.

Lemma record_activity_frame s n1 n2 a s' n :
  record_activity H s n1 n2 a = Ok (s', n) → entities s' = entities s ∧ edges s' = edges s.
Proof.
  unfold record_activity, seal_row. intros Hr. inv_ok; [|done].
  match goal with Hw : record_assertion H _ _ _ _ _ _ _ = Ok ?r |- _ =>
    destruct r as [s' n']; apply record_assertion_frame in Hw; exact Hw end.
Qed.

Lemma lift_ok {A} (r : result LineageStoreError A) a : lift r = Ok a → r = Ok a.
Proof. destruct r; simpl; congruence. Qed.

Lemma edge_frame s i p a b aid s' :
  edge H clk s i p a b aid = Ok s' →
  entities s' = entities s ∧ edge_set s' = edge_set s ∪ {[(p, a, b)]}.
Proof.
  unfold edge, record_edge, seal_row. intros Hr. inv_ok.
  match goal with Hl : lift _ = Ok _ |- _ => apply lift_ok in Hl; inv_ok end.
  split; [done|]. unfold edge_set. cbn [fst with_edges edges append_chain with_chain].
  unfold insert_row. rewrite fmap_app, list_to_set_app_L. cbn. set_solver.
Qed.

Lemma agent_edge_frame s i p a aid g s' :
  agent_edge H clk s i p a aid g = Ok s' →
  entities s' = entities s ∧
  edge_set s' = edge_set s ∪ match g with Some g => {[(p, a, g)]} | None => ∅ end.
Proof.
  unfold agent_edge. destruct g; [apply edge_frame|]. intros [= ->]. split; [done|]. set_solver.
Qed.

(** The edges to all the inputs *)
Definition input_triples (p a : string) (ins : list ChokepointInput) : gset triple :=
  list_to_set ((λ inp, (p, a, in_eid inp)) <$> ins).

Lemma input_edges_frame s i p a aid ins s' :
  input_edges H clk s i p a aid ins = Ok s' →
  entities s' = entities s ∧ edge_set s' = edge_set s ∪ input_triples p a ins.
Proof.
  revert s i. induction ins as [|inp ins IH]; intros s i; cbn [input_edges].
  { intros [= ->]. unfold input_triples. split; [done|]. set_solver. }
  intros (s1 & He & Hr)%result_bind_ok. apply edge_frame in He as [He1 He2].
  apply IH in Hr as [Hr1 Hr2]. split; [congruence|]. rewrite Hr2, He2.
  unfold input_triples. cbn. set_solver.
Qed.

Lemma record_entity_frame s now e s' n :
  record_entity H s now e = Ok (s', n) → jwf (e_facets e) →
  edge_set s' = edge_set s ∧ get_entity s' (eid e) = Some (stored_entity now e) ∧
  ∀ x, x ≠ eid e → get_entity s' x = get_entity s x.
Proof.
  unfold record_entity, seal_row. intros Hr Hf. inv_ok. split; [done|].
  match goal with |- context [with_entities ?a (insert_row ?t ?c ?l)] =>
    pose proof (get_entity_append (with_entities a (insert_row t c l)) s c l) as Hg end.
  split.
  - rewrite Hg by reflexivity. rewrite bool_decide_true by done. by rewrite entity_of_columns.
  - intros x Hx. rewrite Hg by reflexivity. rewrite bool_decide_false; [done|]. exact (not_eq_sym Hx).
Qed.

Lemma get_entity_frame s s' x : entities s' = entities s → get_entity s' x = get_entity s x.
Proof. unfold get_entity. by intros ->. Qed.
End frames.

(** ** Evaluation over several inputs *)

Lemma evaluate_inputs_fold a l acc :
  let r := foldl (evaluate_input a) acc l in
  G.verdict_allowed r.1.1 =
    G.verdict_allowed acc.1.1 && forallb (λ i, G.fv_allowed (G.evaluate_flow (input_flow a i))) l ∧
  r.2 = acc.2 ∪ ⋃ ((λ i, G.guards (endpoint i)) <$> l).
Proof.
  revert acc. induction l as [|i l IH]; intros [[w rs] prop]; cbn [foldl forallb fmap list_fmap].
  { split; [by rewrite andb_true_r|]. cbn. set_solver. }
  destruct (IH (evaluate_input a (w, rs, prop) i)) as [IH1 IH2]. cbn zeta in *. rewrite IH1, IH2.
  cbn [evaluate_input fst snd]. rewrite G.verdict_allowed_max, G.flow_propagate.
  split; [by rewrite andb_assoc|]. cbn. set_solver.
Qed.

Lemma evaluate_inputs_spec a :
  (G.verdict_allowed (evaluate_inputs a).1.1 = true ↔
     ∀ i, i ∈ ca_inputs a → G.fv_allowed (G.evaluate_flow (input_flow a i)) = true) ∧
  (evaluate_inputs a).2 = ⋃ ((λ i, G.guards (endpoint i)) <$> ca_inputs a).
Proof.
  destruct (evaluate_inputs_fold a (ca_inputs a) (G.ALLOW, [], ∅)) as [Ha Hp].
  unfold evaluate_inputs. rewrite Ha, Hp. split; [|set_solver].
  cbn [fst G.verdict_allowed]. rewrite andb_true_l, forallb_forall.
  setoid_rewrite <- list_elem_of_In. done.
Qed.

Lemma jwf_empty : jwf (JObj []).
Proof. apply jwf_obj. split; [apply NoDup_nil_2|constructor]. Qed.

(** The provenance edges a chokepoint leaves, whatever its verdict *)
Definition use_edges (a : chokepoint_args) (aid : string) : gset triple :=
  match ca_agent_gid a with Some g => {[("wasAssociatedWith", aid, g)]} | None => ∅ end
  ∪ input_triples "used" aid (ca_inputs a).
(** and those of the output *)
Definition output_edges (a : chokepoint_args) (aid out : string) : gset triple :=
  {[("wasGeneratedBy", out, aid)]} ∪ input_triples "wasDerivedFrom" out (ca_inputs a)
  ∪ match ca_agent_gid a with Some g => {[("wasAttributedTo", out, g)]} | None => ∅ end.

Lemma input_triples_in p x ins i : i ∈ ins → (p, x, in_eid i) ∈ input_triples p x ins.
Proof.
  intros Hi. unfold input_triples. rewrite elem_of_list_to_set, list_elem_of_fmap. by exists i.
Qed.

(** The source of a fresh fact: the entity readers see [e] under [out], and
    everything else as before. *)
Definition mints (s s' : LineageStore) (out : string) (g c k : gset string) (i : option string) : Prop :=
  (∃ e, get_entity s' out = Some e ∧ e_guards e = g ∧ e_compartments e = c ∧
     e_conflict_classes e = k ∧ e_integrity e = i ∧ e_status e = "active" ∧
     e_facets e = JObj []) ∧
  ∀ x, x ≠ out → get_entity s' x = get_entity s x.

Section effects.
Context (H : string → string) (clk : nat → Z).

Lemma edge_set_frame s s' : edges s' = edges s → edge_set s' = edge_set s.
Proof. unfold edge_set. by intros ->. Qed.

Lemma record_use_frame s ts aid w a s' :
  record_use H clk s ts aid w a = Ok s' →
  entities s' = entities s ∧ edge_set s' = edge_set s ∪ use_edges a aid.
Proof.
  unfold record_use. intros ([s1 n1] & [Ha1 Ha2]%lift_ok%record_activity_frame & Hr)%result_bind_ok.
  apply result_bind_ok in Hr as (s2 & [Hg1 Hg2]%agent_edge_frame & [Hi1 Hi2]%input_edges_frame).
  cbn [fst] in *. split; [congruence|].
  rewrite Hi2, Hg2, (edge_set_frame s s1) by done. unfold use_edges. by rewrite (assoc_L (∪)).
Qed.

Lemma record_output_spec s ts aid out g c k i a s' :
  record_output H clk s ts aid out (g, c, k, i) a = Ok s' →
  mints s s' out g c k i ∧ edge_set s' = edge_set s ∪ output_edges a aid out.
Proof.
  unfold record_output. intros ([s1 n1] & Hent & Hr)%result_bind_ok.
  apply lift_ok, record_entity_frame in Hent as (He1 & He2 & He3); [|exact jwf_empty].
  apply result_bind_ok in Hr as (s2 & [Hg1 Hg2]%edge_frame & Hr).
  apply result_bind_ok in Hr as (s3 & [Hi1 Hi2]%input_edges_frame & [Ha1 Ha2]%agent_edge_frame).
  cbn [fst eid] in *.
  assert (Hfr : ∀ x, get_entity s' x = get_entity s1 x)
    by (intros x; apply get_entity_frame; congruence).
  split.
  - split; [|intros x Hx; by rewrite Hfr, He3].
    rewrite Hfr, He2. eexists. split; [reflexivity|done].
  - rewrite Ha2, Hi2, Hg2, He1. unfold output_edges. by rewrite !(assoc_L (∪)).
Qed.
End effects.

(** The guards an output keeps, in terms of the mapping alone *)
Lemma narrow_guards_spec m union :
  (∀ m' kept, m = Some m' → confidence m' = "broker-derived" ∨ confidence m' = "trusted-tool" →
     output_guards m' = Some kept → narrow_guards m union = union ∩ kept) ∧
  ((∀ m', m = Some m' → output_guards m' = None ∨ confidence m' ≠ "broker-derived" ∧ confidence m' ≠ "trusted-tool") →
     narrow_guards m union = union).
Proof.
  unfold narrow_guards, mapping_narrows_guards, isin. split.
  - intros m' kept -> Hc Hk. rewrite bool_decide_true, Hk; [done|]. destruct Hc as [-> | ->]; unfold TRUSTED_MAPPING_CONFIDENCE; set_solver.
  - intros Hm. destruct m as [m'|]; [|done]. case_bool_decide as Hc; [|done].
    destruct (Hm m' eq_refl) as [->|[H1 H2]]; [done|]. exfalso. unfold TRUSTED_MAPPING_CONFIDENCE in Hc. set_solver.
Qed.

(** C32: a chokepoint that answers is allowed exactly when the flow of every input
    is; its output snapshot is the union of the inputs' guards, compartments and
    conflict classes, except that a mapping of confidence "broker-derived" or "trusted-tool" that
    names output guards keeps only those of the union: without a mapping, with one that
    names none and with one of any other confidence no guard is dropped; a denied or non-deriving
    flow changes no entity and records exactly its activity's edges; an allowed
    deriving flow records the output with that snapshot, leaves every other entity
    alone, has at least one input, and links the output to each input. *)
Theorem record_chokepoint_contamination H clk s ts new_aid new_eid a s' r :
  record_chokepoint H clk s ts new_aid new_eid a = Ok (s', r) →
  let flows_ok := ∀ i, i ∈ ca_inputs a → G.fv_allowed (G.evaluate_flow (input_flow a i)) = true in
  (cr_allowed r = true ↔ flows_ok) ∧
  (let union := ⋃ ((λ i, G.guards (endpoint i)) <$> ca_inputs a) in
   (∀ m kept, ca_mapping a = Some m → confidence m = "broker-derived" ∨ confidence m = "trusted-tool" →
      output_guards m = Some kept → cr_guards r = union ∩ kept) ∧
   ((∀ m, ca_mapping a = Some m →
      output_guards m = None ∨ confidence m ≠ "broker-derived" ∧ confidence m ≠ "trusted-tool") →
      cr_guards r = union)) ∧
  cr_compartments r = ⋃ ((λ i, G.compartments (endpoint i)) <$> ca_inputs a) ∧
  cr_conflict_classes r = ⋃ ((λ i, G.conflict_classes (endpoint i)) <$> ca_inputs a) ∧
  (is_Some (cr_output r) ↔ flows_ok ∧ ca_chokepoint a ∈ DERIVING_CHOKEPOINTS) ∧
  match cr_output r with
  | None => (∀ x, get_entity s' x = get_entity s x) ∧
      edge_set s' = edge_set s ∪ use_edges a new_aid
  | Some out => ca_inputs a ≠ [] ∧
      mints s s' out (cr_guards r) (cr_compartments r) (cr_conflict_classes r) (cr_integrity r) ∧
      edge_set s' = edge_set s ∪ use_edges a new_aid ∪ output_edges a new_aid out ∧
      ∀ i, i ∈ ca_inputs a → feeds s' (in_eid i) out
  end.
Proof.
  destruct (evaluate_inputs_spec a) as [Hall Hprop]. unfold record_chokepoint.
  intros (u & Hg & Hr)%result_bind_ok. apply guard_else_ok in Hg as [Hg _].
  destruct (evaluate_inputs a) as [[worst reasons] prop]. cbn [fst snd] in Hall, Hprop.
  unfold output_snapshot, G.propagate_guards in Hr.
  rewrite Hprop, (union_idemp_L (⋃ _)) in Hr. clear Hprop.
  apply result_bind_ok in Hr as (s3 & [Hent Hedge]%record_use_frame & Hr).
  destruct (G.verdict_allowed worst) eqn:Hw; cbn [andb] in Hr;
    [destruct (isin (ca_chokepoint a) DERIVING_CHOKEPOINTS) eqn:HD|].
  1: apply result_bind_ok in Hr as (s7 & [Hm Hes]%record_output_spec & Hr).
  all: injection Hr as <- <-;
    cbn [cr_allowed cr_guards cr_compartments cr_conflict_classes cr_output cr_integrity].
  all: assert (Hng := narrow_guards_spec (ca_mapping a) (⋃ ((λ i, G.guards (endpoint i)) <$> ca_inputs a))).
  - apply bool_decide_eq_true in HD. rewrite Hedge in Hes. split_and!; try done; try exact (proj1 Hng); try exact (proj2 Hng).
    + split; [intros _; split; [by apply Hall|done]|by eexists].
    + intros Hnil. rewrite Hnil in Hg. discriminate Hg.
    + destruct Hm as [Hm1 Hm2]. split; [done|]. intros x Hx. rewrite Hm2 by done.
      by apply get_entity_frame.
    + intros i Hi. apply feeds_edge_set. rewrite Hes. unfold output_edges.
      apply elem_of_union_r, elem_of_union_l, elem_of_union_r. by apply input_triples_in.
  - apply bool_decide_eq_false in HD. split_and!; try done; try exact (proj1 Hng); try exact (proj2 Hng).
    + split; [by intros [? [=]]|]. by intros [_ ?].
    + intros x. by apply get_entity_frame.
  - split_and!; try done; try exact (proj1 Hng); try exact (proj2 Hng).
    + split; [by intros [? [=]]|]. intros [Hf%Hall _]. discriminate Hf.
    + intros x. by apply get_entity_frame.
Qed.

(** ** Declassification *)

Lemma record_entity_assertions H s now e s' n :
  record_entity H s now e = Ok (s', n) → assertions s' = assertions s.
Proof. unfold record_entity, seal_row. intros Hr. by inv_ok. Qed.

Lemma assertions_for_frame s s' id auth :
  assertions s' = assertions s → assertions_for s' id auth = assertions_for s id auth.
Proof. unfold assertions_for. by intros ->. Qed.

(** The verdict assertion of an activity is about the activity. *)
Lemma record_activity_assertions H s n1 n2 a s' n id auth :
  record_activity H s n1 n2 a = Ok (s', n) → aid a ≠ id →
  assertions_for s' id auth = assertions_for s id auth.
Proof.
  unfold record_activity, seal_row. intros Hr Hne. inv_ok; [|done].
  match goal with Hw : record_assertion H _ _ _ _ _ _ _ = Ok ?r |- _ =>
    destruct r as [s' n']; eapply record_assertion_for with (id := id) (auth := auth) in Hw; [|done];
    cbn [fst]; rewrite Hw, (bool_decide_false _ Hne); cbn [andb]; rewrite app_nil_r end.
  by apply assertions_for_frame.
Qed.

Section totality.
Context (H : string → string) (clk : nat → Z).

(** An edge with a known predicate is always recorded. *)
Lemma edge_total s i p a b aid :
  isin p EDGE_PREDICATES = true →
  ∃ s', edge H clk s i p a b aid = Ok s' ∧ assertions s' = assertions s ∧
    entities s' = entities s ∧ edge_set s' = edge_set s ∪ {[(p, a, b)]}.
Proof.
  intros Hp. destruct (edge H clk s i p a b aid) as [s'|e] eqn:He.
  - exists s'. split; [done|]. destruct (edge_frame _ _ _ _ _ _ _ _ _ He) as [H1 H2].
    split; [|done]. unfold edge, record_edge, seal_row in He. rewrite Hp in He.
    cbn [guard_else result_bind lift] in He. by injection He as <-.
  - unfold edge, record_edge, seal_row in He. rewrite Hp in He. discriminate He.
Qed.

Lemma record_entity_total s now e :
  isin (e_kind e) ENTITY_KINDS = true → e_integrity e = None ∨ e_integrity e = Some "mixed" →
  ∃ s' n, record_entity H s now e = Ok (s', n).
Proof.
  intros Hk Hi. unfold record_entity, seal_row. rewrite Hk, (bool_decide_true _ Hi). by eexists _, _.
Qed.

Lemma record_activity_total s n1 n2 a :
  isin (a_kind a) ACTIVITY_KINDS = true → isin (a_host_class a) HOST_CLASSES = true →
  ∃ s' n, record_activity H s n1 n2 a = Ok (s', n).
Proof.
  intros Hk Hc. unfold record_activity, seal_row. rewrite Hk, Hc. cbn [guard_else result_bind].
  destruct (a_verdict a); [|by eexists _, _]. unfold record_assertion, seal_row.
  replace (isin "broker-derived" ASSERTION_AUTHORITY) with true by (vm_compute; reflexivity).
  cbn [guard_else result_bind]. by eexists _, _.
Qed.
End totality.

(** The provenance edges of a declassification *)
Definition declassify_edges (a : declassify_args) (new_aid out : string) : gset triple :=
  {[("used", new_aid, da_source a)]} ∪ {[("wasAssociatedWith", new_aid, da_authority a)]}
  ∪ match da_agent a with Some g => {[("actedOnBehalfOf", g, da_authority a)]} | None => ∅ end
  ∪ {[("wasGeneratedBy", out, new_aid)]} ∪ {[("wasDerivedFrom", out, da_source a)]}
  ∪ {[("wasAttributedTo", out, da_authority a)]}.

(** The evidence recorded with the output *)
Definition declassify_evidence (a : declassify_args) : json :=
  JObj [("source", JStr (da_source a)); ("transform", jopt (da_transform a));
        ("authority", JStr (da_authority a));
        ("residual_guards", JArr (JStr <$> sorted_set (da_guards a)))].

Lemma declassify_evidence_wf a : jwf (declassify_evidence a).
Proof.
  apply jwf_obj. split; [cbn; by apply (bool_decide_unpack _)|].
  repeat constructor; cbn [snd]; [by destruct (da_transform a)|].
  apply jwf_arr, Forall_fmap, Forall_true. done.
Qed.

(** What a declassification that went through has done *)
Definition declassified (clk : nat → Z) (s s' : LineageStore) (new_aid out : string) (a : declassify_args) : Prop :=
  mints s s' out (da_guards a) (da_compartments a) (da_conflict_classes a) None ∧
  edge_set s' = edge_set s ∪ declassify_edges a new_aid out ∧
  feeds s' (da_source a) out ∧
  ∀ id auth, id ≠ new_aid →
    assertions_for s' id auth = assertions_for s id auth ++
      if bool_decide (out = id) && authority_ok auth "broker-derived"
      then [("declassification", norm (declassify_evidence a), da_authority a, "broker-derived",
             clk 9)] else [].

Section declassify_steps.
Context (H : string → string) (clk : nat → Z).

(** The activity and the edges before the output *)
Lemma declassify_start s ts new_aid a k :
  ∃ r1 s2 s3 s4,
    lift (record_activity H s (clk 0) (clk 1)
      {| aid := new_aid; a_kind := "declassify"; a_chokepoint := Some "declassify";
         a_action_version := None; a_host_class := "local"; a_network_egress := Some "none";
         a_verdict := Some "declassify"; a_started_at := ts; a_ended_at := Some ts |}) = Ok r1 ∧
    edge H clk r1.1 2 "used" new_aid (da_source a) new_aid = Ok s2 ∧
    edge H clk s2 3 "wasAssociatedWith" new_aid (da_authority a) new_aid = Ok s3 ∧
    match da_agent a with
    | Some g => edge H clk s3 4 "actedOnBehalfOf" g (da_authority a) new_aid
    | None => Ok s3 end = Ok s4 ∧
    entities s4 = entities s ∧
    edge_set s4 ∪ k = edge_set s ∪ ({[("used", new_aid, da_source a)]}
      ∪ {[("wasAssociatedWith", new_aid, da_authority a)]}
      ∪ match da_agent a with Some g => {[("actedOnBehalfOf", g, da_authority a)]} | None => ∅ end ∪ k) ∧
    ∀ id auth, id ≠ new_aid → assertions_for s4 id auth = assertions_for s id auth.
Proof.
  destruct (record_activity_total H s (clk 0) (clk 1)
    {| aid := new_aid; a_kind := "declassify"; a_chokepoint := Some "declassify";
       a_action_version := None; a_host_class := "local"; a_network_egress := Some "none";
       a_verdict := Some "declassify"; a_started_at := ts; a_ended_at := Some ts |})
    as (s1 & n1 & H1); [by vm_compute..|].
  destruct (record_activity_frame _ _ _ _ _ _ _ H1) as [E1 D1].
  destruct (edge_total H clk s1 2 "used" new_aid (da_source a) new_aid)
    as (s2 & H2 & A2 & E2 & D2); [by vm_compute|].
  destruct (edge_total H clk s2 3 "wasAssociatedWith" new_aid (da_authority a) new_aid)
    as (s3 & H3 & A3 & E3 & D3); [by vm_compute|].
  assert (∃ s4, match da_agent a with
    | Some g => edge H clk s3 4 "actedOnBehalfOf" g (da_authority a) new_aid
    | None => Ok s3 end = Ok s4 ∧ assertions s4 = assertions s3 ∧ entities s4 = entities s3 ∧
      edge_set s4 = edge_set s3 ∪ match da_agent a with
        | Some g => {[("actedOnBehalfOf", g, da_authority a)]} | None => ∅ end)
    as (s4 & H4 & A4 & E4 & D4).
  { destruct (da_agent a); [apply edge_total; by vm_compute|]. exists s3. by rewrite union_empty_r_L. }
  exists (s1, n1), s2, s3, s4. cbn [fst]. rewrite H1. cbn [lift]. split_and!; try done; [congruence| |].
  - rewrite D4, D3, D2, (edge_set_frame _ _ D1). by rewrite !(assoc_L (∪)).
  - intros id auth Hid. rewrite (assertions_for_frame s1) by congruence.
    eapply record_activity_assertions; [exact H1|]. cbn [aid]. congruence.
Qed.

(** The output's edges and its evidence *)
Lemma declassify_finish s5 new_aid out a :
  ∃ s6 s7 s8 r9,
    edge H clk s5 6 "wasGeneratedBy" out new_aid new_aid = Ok s6 ∧
    edge H clk s6 7 "wasDerivedFrom" out (da_source a) new_aid = Ok s7 ∧
    edge H clk s7 8 "wasAttributedTo" out (da_authority a) new_aid = Ok s8 ∧
    lift (record_assertion H s8 (clk 9) out "declassification" (declassify_evidence a)
            (da_authority a) "broker-derived") = Ok r9 ∧
    entities r9.1 = entities s5 ∧
    edge_set r9.1 = edge_set s5 ∪ {[("wasGeneratedBy", out, new_aid)]}
      ∪ {[("wasDerivedFrom", out, da_source a)]} ∪ {[("wasAttributedTo", out, da_authority a)]} ∧
    ∀ id auth, assertions_for r9.1 id auth = assertions_for s5 id auth ++
      if bool_decide (out = id) && authority_ok auth "broker-derived"
      then [("declassification", norm (declassify_evidence a), da_authority a, "broker-derived",
             clk 9)] else [].
Proof.
  destruct (edge_total H clk s5 6 "wasGeneratedBy" out new_aid new_aid)
    as (s6 & H6 & A6 & E6 & D6); [by vm_compute|].
  destruct (edge_total H clk s6 7 "wasDerivedFrom" out (da_source a) new_aid)
    as (s7 & H7 & A7 & E7 & D7); [by vm_compute|].
  destruct (edge_total H clk s7 8 "wasAttributedTo" out (da_authority a) new_aid)
    as (s8 & H8 & A8 & E8 & D8); [by vm_compute|].
  destruct (record_assertion H s8 (clk 9) out "declassification" (declassify_evidence a)
    (da_authority a) "broker-derived") as [[s9 n9]|e9] eqn:H9.
  2:{ exfalso. unfold record_assertion in H9.
      replace (isin "broker-derived" ASSERTION_AUTHORITY) with true in H9 by (vm_compute; reflexivity).
      discriminate H9. }
  destruct (record_assertion_frame _ _ _ _ _ _ _ _ _ _ H9) as [E9 D9].
  exists s6, s7, s8, (s9, n9). cbn [fst lift]. rewrite H9. split_and!; try done; [congruence| |].
  - by rewrite (edge_set_frame _ _ D9), D8, D7, D6.
  - intros id auth. eapply record_assertion_for with (id := id) (auth := auth) in H9;
      [|apply declassify_evidence_wf].
    rewrite H9. f_equal. apply assertions_for_frame. congruence.
Qed.
End declassify_steps.

Lemma declassify_cases H clk s ts new_aid new_eid a :
  match declassify H clk s ts new_aid new_eid a with
  | Ok (s', out) =>
      da_authority a ≠ "" ∧ is_Some (get_entity s (da_source a)) ∧
      da_output_kind a ∈ ENTITY_KINDS ∧ out = output_id (da_output_eid a) new_eid ∧
      declassified clk s s' new_aid out a
  | Err e =>
      da_authority a = "" ∧ e = CE_no_authority ∨
      da_authority a ≠ "" ∧ get_entity s (da_source a) = None ∧ e = CE_unknown_source (da_source a) ∨
      da_authority a ≠ "" ∧ is_Some (get_entity s (da_source a)) ∧
        da_output_kind a ∉ ENTITY_KINDS ∧ e = CE_store (SE_entity_kind (da_output_kind a))
  end.
Proof.
  unfold declassify. destruct (truthy (da_authority a)) eqn:Hau; cbn [guard_else result_bind];
    [apply truthy_true in Hau|apply truthy_false in Hau; by left].
  case_bool_decide as Hsrc; cbn [guard_else result_bind];
    [|right; left; by rewrite eq_None_not_Some].
  set (out := output_id _ _).
  destruct (declassify_start H clk s ts new_aid a
    ({[("wasGeneratedBy", out, new_aid)]} ∪ {[("wasDerivedFrom", out, da_source a)]}
     ∪ {[("wasAttributedTo", out, da_authority a)]}))
    as (r1 & s2 & s3 & s4 & H1 & H2 & H3 & H4 & E4 & D4 & A4).
  rewrite H1; cbn [result_bind]. rewrite H2; cbn [result_bind]. rewrite H3; cbn [result_bind].
  rewrite H4; cbn [result_bind]. clear H1 H2 H3 H4.
  match goal with |- context [record_entity H s4 (clk 5) ?e] => set (ent := e) end.
  destruct (record_entity H s4 (clk 5) ent) as [[s5 n5]|e5] eqn:H5; cbn [lift result_bind fst].
  2:{ right. right. unfold record_entity in H5. cbn [e_kind ent] in H5.
      destruct (isin (da_output_kind a) ENTITY_KINDS) eqn:Hk; cbn [guard_else result_bind] in H5.
      - rewrite bool_decide_true in H5 by (by left). discriminate H5.
      - injection H5 as <-. apply bool_decide_eq_false in Hk. done. }
  assert (Hkind : da_output_kind a ∈ ENTITY_KINDS).
  { unfold record_entity in H5. cbn [e_kind ent] in H5.
    destruct (isin (da_output_kind a) ENTITY_KINDS) eqn:Hk; [by apply bool_decide_eq_true in Hk|].
    discriminate H5. }
  apply record_entity_assertions in H5 as A5.
  apply record_entity_frame in H5 as (D5 & G5 & F5); [|exact jwf_empty]. cbn [eid ent] in G5, F5.
  destruct (declassify_finish H clk s5 new_aid out a)
    as (s6 & s7 & s8 & r9 & H6 & H7 & H8 & H9 & E9 & D9 & A9).
  rewrite H6; cbn [result_bind]. rewrite H7; cbn [result_bind]. rewrite H8; cbn [result_bind].
  fold (declassify_evidence a). rewrite H9; cbn [result_bind].
  assert (Hes : edge_set r9.1 = edge_set s ∪ declassify_edges a new_aid out).
  { rewrite D9, D5. rewrite !(assoc_L (∪)) in D4. unfold declassify_edges. by rewrite !(assoc_L (∪)). }
  split_and!; try done. unfold declassified. split_and!; [|done| |].
  - split; [rewrite (get_entity_frame s5) by done; rewrite G5; eexists; by split|]. intros x Hx.
    rewrite (get_entity_frame s5), F5 by done. by apply get_entity_frame.
  - apply feeds_edge_set. rewrite Hes. unfold declassify_edges.
    apply elem_of_union_r, elem_of_union_l, elem_of_union_r, elem_of_singleton. done.
  - intros id auth Hid. by rewrite A9, (assertions_for_frame s4), A4.
Qed.

Lemma declassify_ok H clk s ts new_aid new_eid a s' out :
  declassify H clk s ts new_aid new_eid a = Ok (s', out) →
  out = output_id (da_output_eid a) new_eid ∧
  mints s s' out (da_guards a) (da_compartments a) (da_conflict_classes a) None ∧
  edge_set s' = edge_set s ∪ declassify_edges a new_aid out ∧ feeds s' (da_source a) out.
Proof.
  intros Hd. pose proof (declassify_cases H clk s ts new_aid new_eid a) as Hc. rewrite Hd in Hc.
  destruct Hc as (_ & _ & _ & Ho & Hm & He & Hf & _). auto.
Qed.

(** Declassify refuses an empty authority, an unknown source and an unknown
    output kind, each with its own error, and otherwise always goes through: the
    output then carries exactly the residual guards, compartments and conflict
    classes it was given and is recorded as derived from the source; every entity
    but the output, the source included, reads as before; and exactly one
    broker-derived declassification assertion naming the authority is added to the
    output. *)
Theorem declassify_spec H clk s ts new_aid new_eid a :
  match declassify H clk s ts new_aid new_eid a with
  | Ok (s', out) =>
      da_authority a ≠ "" ∧ is_Some (get_entity s (da_source a)) ∧
      da_output_kind a ∈ ENTITY_KINDS ∧ out = output_id (da_output_eid a) new_eid ∧
      declassified clk s s' new_aid out a
  | Err e =>
      da_authority a = "" ∧ e = CE_no_authority ∨
      da_authority a ≠ "" ∧ get_entity s (da_source a) = None ∧ e = CE_unknown_source (da_source a) ∨
      da_authority a ≠ "" ∧ is_Some (get_entity s (da_source a)) ∧
        da_output_kind a ∉ ENTITY_KINDS ∧ e = CE_store (SE_entity_kind (da_output_kind a))
  end.
Proof. apply declassify_cases. Qed.

(** ** Witness: a guarded and an unguarded file exported together *)

Definition sample_input (id : string) (g : gset string) : ChokepointInput :=
  {| in_eid := id;
     endpoint := {| G.guards := g; G.compartments := {["client-" +:+ id]};
                    G.conflict_classes := {["engagement"]} |} |}.
Definition sample_chokepoint : chokepoint_args :=
  {| ca_chokepoint := "archive-create"; ca_inputs := [sample_input "a" {["local-only"]}; sample_input "b" ∅];
     ca_destination := None;
     ca_processing := Some {| G.host_class := "local"; G.network_egress := "none";
                              G.payload_submitted := false; G.telemetry_submitted := false |};
     ca_output_eid := None; ca_output_kind := "archive"; ca_output_digest := None;
     ca_output_locator := None; ca_agent_gid := Some "user:1000"; ca_action_version := None;
     ca_mapping := None |}.

Lemma record_chokepoint_contamination_witness :
  ∃ s' r, record_chokepoint toy_digest (λ _, 9%Z) empty_store 9 "activity-1" "entity-1"
            sample_chokepoint = Ok (s', r) ∧
    (cr_allowed r = true ↔ ∀ i, i ∈ ca_inputs sample_chokepoint →
       G.fv_allowed (G.evaluate_flow (input_flow sample_chokepoint i)) = true).
Proof.
  destruct (record_chokepoint toy_digest (λ _, 9%Z) empty_store 9 "activity-1" "entity-1"
              sample_chokepoint) as [[s' r]|e] eqn:E.
  - exists s', r. split; [reflexivity|].
    exact (proj1 (record_chokepoint_contamination _ _ _ _ _ _ _ _ _ E)).
  - exfalso. assert (is_ok (record_chokepoint toy_digest (λ _, 9%Z) empty_store 9 "activity-1"
      "entity-1" sample_chokepoint) = true) as Hok by (vm_compute; reflexivity).
    rewrite E in Hok. discriminate Hok.
Defined.

End Chokepoints.
