(* ===== verification/Grants.v ===== *)
(** * Delegation of security-field authority

    [src/broker/qdistro_security_grants.py]: who may mutate which security field. Grants
    and revocations are broker-derived assertions in the lineage store; the scopes a
    principal holds are replayed from them. A [SecurityGrantStore] is a lineage store and
    the admin principal; the clock reading of a write is the argument [now]. *)

From S2P Require Import Prelude Json LineageStore.
Import Json Lineage.

Module Grants.

(** ** Vocabulary *)

Definition ADMIN_APP_PRINCIPAL : string := "agent:admin".
Definition SECURITY_FIELDS : list string :=
  ["security.guards"; "security.compartments"; "security.conflict_classes";
   "security.sensitivity"; "security.declassification"].
Definition WILDCARD_SECURITY : string := "security.*".
Definition WILDCARD_ALL : string := "*".
Definition WILDCARDS : list string := [WILDCARD_SECURITY; WILDCARD_ALL].
Definition GRANTABLE_SCOPES : list string := SECURITY_FIELDS ++ WILDCARDS.
Definition GRANT_FACT : string := "security.delegation.grant".
Definition REVOKE_FACT : string := "security.delegation.revoke".
Definition GRANT_SUBJECT_PREFIX : string := "security-grant:".

(** The answers of a check, with the values their texts carry *)
Inductive bad_request :=
| BR_empty_principal
| BR_empty_field
| BR_empty_scope
| BR_unknown_field (field : string).

Inductive check_reason :=
| CR_no_principal
| CR_no_granter
| CR_admin (principal : string)
| CR_admin_delegates (granter : string)
| CR_bad_field (e : bad_request)
| CR_bad_scope (e : bad_request)
| CR_no_grant (principal field : string)
| CR_exact (principal field : string)
| CR_wildcard (principal scope : string)
| CR_delegates (granter scope : string)
| CR_none_permits (principal : string) (held : list string) (field : string)
| CR_wildcard_not_held (granter scope : string).

(** What the store's calls raise: [GrantError], a writer's error, and what a grant-log
    value of another shape makes the replay raise. *)
Inductive grant_error :=
| GE_bad (e : bad_request)
| GE_may_not_delegate (granter scope : string) (why : check_reason)
| GE_may_not_revoke (granter scope : string) (why : check_reason)
| GE_AttributeError
| GE_TypeError
| GE_store (e : LineageStoreError).

Abbreviation answer A := (result grant_error A).

(** [grant_subject] *)
Definition grant_subject (principal : string) : result bad_request string :=
  if truthy principal then Ok (GRANT_SUBJECT_PREFIX +:+ principal) else Err BR_empty_principal.

(** ** The matcher *)

(** [normalize_field] *)
Definition normalize_field (field : string) : result bad_request string :=
  if negb (truthy field) then Err BR_empty_field
  else
    let qualified := if starts_with "security." field then field else "security." +:+ field in
    if isin qualified SECURITY_FIELDS then Ok qualified else Err (BR_unknown_field field).

(** [scope_matches_field] *)
Definition scope_matches_field (scope qualified_field : string) : bool :=
  if negb (isin qualified_field SECURITY_FIELDS) then false
  else if bool_decide (scope = WILDCARD_ALL) || bool_decide (scope = WILDCARD_SECURITY) then true
  else bool_decide (scope = qualified_field).

(** [grants_permit_field] *)
Definition grants_permit_field (scopes : gset string) (qualified_field : string) : bool :=
  existsb (λ s, scope_matches_field s qualified_field) (elements scopes).

Record GrantCheck := { allowed : bool; reason : check_reason; via : option string }.

(** ** The replay *)

(** [(v or {}).get(key)] *)
Definition event_scope (v : json) : answer json :=
  match v with
  | JObj d => Ok (default JNull (od_get d "scope"))
  | _ => if json_truthy v then Err GE_AttributeError else Ok JNull
  end.

(** One event of the log *)
Definition replay_event (held : answer (gset string))
    (ev : string * json * string * string * Z) : answer (gset string) :=
  let '(fact, value, _, _, _) := ev in
  let* held := held in
  let* scope := event_scope value in
  match scope with
  | JArr _ | JObj _ => Err GE_TypeError
  | JStr scope =>
      if negb (isin scope GRANTABLE_SCOPES) then Ok held
      else if bool_decide (fact = GRANT_FACT) then Ok (held ∪ {[scope]})
      else if bool_decide (fact = REVOKE_FACT) then Ok (held ∖ {[scope]})
      else Ok held
  | _ => Ok held
  end.

Definition lift_bad {A} (r : result bad_request A) : answer A :=
  match r with Ok a => Ok a | Err e => Err (GE_bad e) end.

(** [effective_scopes] *)
Definition effective_scopes (s : LineageStore) (principal : string) : answer (gset string) :=
  let* subject := lift_bad (grant_subject principal) in
  foldl replay_event (Ok ∅) (assertions_for s subject (Some "broker-derived")).

Section store.
Context (admin : string).

Definition granted (why : check_reason) (v : string) : answer GrantCheck :=
  Ok {| allowed := true; reason := why; via := Some v |}.
Definition refused (why : check_reason) : answer GrantCheck :=
  Ok {| allowed := false; reason := why; via := None |}.

(** [check] *)
Definition check (s : LineageStore) (principal field : string) : answer GrantCheck :=
  if negb (truthy principal) then refused CR_no_principal
  else if bool_decide (principal = admin) then granted (CR_admin principal) "admin-app-default"
  else match normalize_field field with
  | Err e => refused (CR_bad_field e)
  | Ok qualified =>
      let* scopes := effective_scopes s principal in
      if bool_decide (scopes = ∅) then refused (CR_no_grant principal qualified)
      else if bool_decide (qualified ∈ scopes) then granted (CR_exact principal qualified) qualified
      else if bool_decide (WILDCARD_SECURITY ∈ scopes)
           then granted (CR_wildcard principal WILDCARD_SECURITY) WILDCARD_SECURITY
      else if bool_decide (WILDCARD_ALL ∈ scopes)
           then granted (CR_wildcard principal WILDCARD_ALL) WILDCARD_ALL
      else refused (CR_none_permits principal (sorted_set scopes) qualified)
  end.

(** [can_delegate] *)
Definition can_delegate (s : LineageStore) (granter scope : string) : answer GrantCheck :=
  if negb (truthy granter) then refused CR_no_granter
  else if bool_decide (granter = admin) then granted (CR_admin_delegates granter) "admin-app-default"
  else if isin scope WILDCARDS then
    let* held := effective_scopes s granter in
    if bool_decide (WILDCARD_ALL ∈ held) then granted (CR_delegates granter WILDCARD_ALL) WILDCARD_ALL
    else if bool_decide (scope = WILDCARD_SECURITY) && bool_decide (WILDCARD_SECURITY ∈ held)
         then granted (CR_delegates granter WILDCARD_SECURITY) WILDCARD_SECURITY
    else refused (CR_wildcard_not_held granter scope)
  else match normalize_field scope with
  | Err e => refused (CR_bad_scope e)
  | Ok qualified => check s granter qualified
  end.

(** [_canonical_scope] *)
Definition canonical_scope (scope : string) : result bad_request string :=
  if negb (truthy scope) then Err BR_empty_scope
  else if isin scope WILDCARDS then Ok scope
  else normalize_field scope.

(** The value of a grant-log event *)
Definition event_value (principal scope granter why : string) (at_ : Z) : json :=
  JObj [("principal", JStr principal); ("scope", JStr scope); ("granter", JStr granter);
        ("reason", JStr why); ("at", JInt at_)].

Section ops.
Context (H : string → string).

(** [_append] *)
Definition append (s : LineageStore) (now : Z) (fact principal scope granter why : string)
    : answer (LineageStore * Z) :=
  let* subject := lift_bad (grant_subject principal) in
  match record_assertion H s now subject fact (event_value principal scope granter why now)
          granter "broker-derived" with
  | Ok r => Ok r
  | Err e => Err (GE_store e)
  end.

(** [grant] *)
Definition grant (s : LineageStore) (now : Z) (principal scope granter why : string)
    : answer (LineageStore * Z) :=
  if negb (truthy principal) then Err (GE_bad BR_empty_principal)
  else
    let* canonical := lift_bad (canonical_scope scope) in
    let* chk := can_delegate s granter canonical in
    if negb (allowed chk) then Err (GE_may_not_delegate granter canonical (reason chk))
    else append s now GRANT_FACT principal canonical granter why.

(** [revoke] *)
Definition revoke (s : LineageStore) (now : Z) (principal scope granter why : string)
    : answer (LineageStore * Z) :=
  if negb (truthy principal) then Err (GE_bad BR_empty_principal)
  else
    let* canonical := lift_bad (canonical_scope scope) in
    let* chk := can_delegate s granter canonical in
    if negb (allowed chk) then Err (GE_may_not_revoke granter canonical (reason chk))
    else append s now REVOKE_FACT principal canonical granter why.
End ops.
End store.

(** ** The matcher *)

Lemma isin_spec x l : isin x l = true ↔ x ∈ l.
Proof. apply bool_decide_eq_true. Qed.

Lemma security_field_normal q : q ∈ SECURITY_FIELDS → normalize_field q = Ok q ∧ isin q WILDCARDS = false.
Proof.
  unfold SECURITY_FIELDS. rewrite !elem_of_cons, elem_of_nil.
  intros [->|[->|[->|[->|[->|[]]]]]]; by vm_compute.
Qed.

Lemma normalize_field_ok f q : normalize_field f = Ok q → q ∈ SECURITY_FIELDS.
Proof.
  unfold normalize_field. destruct (truthy f); cbn [negb]; [|done].
  intros Hr. inv_ok; by apply isin_spec.
Qed.

Lemma canonical_scope_grantable sc c : canonical_scope sc = Ok c → c ∈ GRANTABLE_SCOPES.
Proof.
  unfold canonical_scope. destruct (truthy sc); cbn [negb]; [|done].
  destruct (isin sc WILDCARDS) eqn:Hw.
  - intros [= <-]. apply elem_of_app. right. by apply isin_spec.
  - intros Hn. apply elem_of_app. left. by eapply normalize_field_ok.
Qed.

Lemma scope_matches_spec sc q :
  scope_matches_field sc q = true ↔ q ∈ SECURITY_FIELDS ∧ (sc ∈ WILDCARDS ∨ sc = q).
Proof.
  unfold scope_matches_field, WILDCARDS. rewrite <- (isin_spec q).
  destruct (isin q SECURITY_FIELDS); cbn [negb]; [|split; [done|by intros [? _]]].
  repeat case_bool_decide; cbn [orb]; set_solver.
Qed.

Lemma grants_permit_spec scopes q :
  grants_permit_field scopes q = true ↔ ∃ sc, sc ∈ scopes ∧ scope_matches_field sc q = true.
Proof.
  unfold grants_permit_field. rewrite existsb_exists. setoid_rewrite <- list_elem_of_In.
  by setoid_rewrite elem_of_elements.
Qed.

(** ** Answers of the check *)

(** What authorises a principal for a field, and under which scope *)
Definition authorised (admin : string) (s : LineageStore) (p field w : string) : Prop :=
  p ≠ "" ∧ (p = admin ∧ w = "admin-app-default" ∨
    p ≠ admin ∧ ∃ q held, normalize_field field = Ok q ∧ effective_scopes s p = Ok held ∧
      w ∈ held ∧ scope_matches_field w q = true).

Lemma check_cases admin s p f c :
  check admin s p f = Ok c →
  (allowed c = true ∧ ∃ w, via c = Some w ∧ authorised admin s p f w) ∨
  (allowed c = false ∧ via c = None ∧ ∀ w, ¬ authorised admin s p f w).
Proof.
  unfold check, authorised, granted, refused.
  destruct (truthy p) eqn:Hp; cbn [negb];
    [apply truthy_true in Hp|apply truthy_false in Hp; intros [= <-]; right; naive_solver].
  case_bool_decide as Ha; [intros [= <-]; left; naive_solver|].
  destruct (normalize_field f) as [q|e] eqn:Hq; [|intros [= <-]; right; naive_solver].
  apply normalize_field_ok in Hq as Hqf.
  intros (held & He & Hr)%result_bind_ok. rewrite He. revert Hr.
  assert (Hyes : ∀ w, w ∈ held → w ∈ WILDCARDS ∨ w = q → p ≠ "" ∧ (p = admin ∧ w = "admin-app-default" ∨
    p ≠ admin ∧ ∃ q' held', Ok q = Ok q' (E := bad_request) ∧ Ok held = Ok held' (E := grant_error) ∧
      w ∈ held' ∧ scope_matches_field w q' = true)).
  { intros w Hw Hwq. split; [done|]. right. split; [done|]. exists q, held.
    split_and!; try done. by apply scope_matches_spec. }
  repeat case_bool_decide; intros [= <-]; cbn [allowed via].
  2: left; split; [done|]; exists q; auto.
  2: left; split; [done|]; exists WILDCARD_SECURITY; split; [done|]; apply Hyes; [done|left; unfold WILDCARDS; set_solver].
  2: left; split; [done|]; exists WILDCARD_ALL; split; [done|]; apply Hyes; [done|left; unfold WILDCARDS; set_solver].
  all: right; split_and!; [done..|]; intros w (_ & [[? _]|(_ & q' & held' & [= <-] & [= <-] & Hw & Hm)]); [done|];
    apply scope_matches_spec in Hm as [_ Hm]; unfold WILDCARDS in Hm; set_solver.
Qed.

(** Check answers for every caller and field unless the principal's grant log
    itself cannot be replayed, in which case that error is raised and only for a
    non-admin asking about a known field. It allows exactly the admin principal and
    the principals holding a scope that matches the field exactly or by an explicit
    wildcard; what it reports as the authorising scope is held and matches. *)
Theorem check_spec admin s p f :
  match check admin s p f with
  | Ok c =>
      (allowed c = true ↔ ∃ w, authorised admin s p f w) ∧
      match via c with
      | Some w => allowed c = true ∧ authorised admin s p f w
      | None => allowed c = false
      end
  | Err e => p ≠ "" ∧ p ≠ admin ∧ is_ok (normalize_field f) = true ∧ effective_scopes s p = Err e
  end.
Proof.
  destruct (check admin s p f) as [c|e] eqn:Hc.
  - destruct (check_cases _ _ _ _ _ Hc) as [(Ha & w & Hv & Hau)|(Ha & Hv & Hau)];
      rewrite Ha, Hv; naive_solver.
  - revert Hc. unfold check, granted, refused.
    destruct (truthy p) eqn:Hp; cbn [negb]; [apply truthy_true in Hp|done].
    case_bool_decide; [done|]. destruct (normalize_field f); [|done].
    destruct (effective_scopes s p) as [held|e'] eqn:He; cbn [result_bind].
    + repeat case_bool_decide; done.
    + by intros [= <-].
Qed.

(** ** What an event does to the replay *)

Definition log (s : LineageStore) (p : string) : list (string * json * string * string * Z) :=
  assertions_for s (GRANT_SUBJECT_PREFIX +:+ p) (Some "broker-derived").

Lemma effective_scopes_log s p : p ≠ "" → effective_scopes s p = foldl replay_event (Ok ∅) (log s p).
Proof. intros Hp%truthy_true. unfold effective_scopes, grant_subject. by rewrite Hp. Qed.

Lemma grant_subject_inj p p' : GRANT_SUBJECT_PREFIX +:+ p = GRANT_SUBJECT_PREFIX +:+ p' → p = p'.
Proof. unfold GRANT_SUBJECT_PREFIX. rewrite !str_app_cons, !str_app_nil_l. by intros [=]. Qed.

Lemma event_value_wf p sc g why at_ : int_ok at_ → jwf (event_value p sc g why at_).
Proof.
  intros Hi. apply jwf_obj. split; [cbn; by apply (bool_decide_unpack _)|].
  repeat apply Forall_cons_2; [exact I..|exact Hi|apply Forall_nil_2].
Qed.

Lemma event_value_scope p sc g why at_ :
  event_scope (norm (event_value p sc g why at_)) = Ok (JStr sc).
Proof. reflexivity. Qed.

Lemma append_spec H s now fact p sc g why s' n :
  append H s now fact p sc g why = Ok (s', n) → int_ok now → p ≠ "" ∧
  ∀ p', p' ≠ "" → effective_scopes s' p' =
    if bool_decide (p = p')
    then replay_event (effective_scopes s p') (fact, norm (event_value p sc g why now), g, "broker-derived", now)
    else effective_scopes s p'.
Proof.
  unfold append, grant_subject. destruct (truthy p) eqn:Hp; cbn [lift_bad result_bind]; [|done].
  apply truthy_true in Hp. destruct (record_assertion _ _ _ _ _ _ _ _) as [r|e] eqn:Hr; [|done].
  intros [= ->] Hi. split; [done|]. intros p' Hp'. rewrite !effective_scopes_log by done.
  unfold log. rewrite (record_assertion_for _ _ _ _ _ _ _ _ _ _ (GRANT_SUBJECT_PREFIX +:+ p')
    (Some "broker-derived") Hr) by by apply event_value_wf.
  rewrite (bool_decide_ext _ (p = p')) by (split; [apply grant_subject_inj|congruence]).
  case_bool_decide; cbn [andb]; [|by rewrite app_nil_r].
  replace (authority_ok (Some "broker-derived") "broker-derived") with true by reflexivity.
  by rewrite foldl_app.
Qed.

Lemma replay_own_event fact p sc g why now by_ au at_ held :
  sc ∈ GRANTABLE_SCOPES →
  replay_event (Ok held) (fact, norm (event_value p sc g why now), by_, au, at_) =
    Ok (if bool_decide (fact = GRANT_FACT) then held ∪ {[sc]}
        else if bool_decide (fact = REVOKE_FACT) then held ∖ {[sc]} else held).
Proof.
  intros Hsc%isin_spec. unfold replay_event. cbn [result_bind]. rewrite event_value_scope.
  cbn [result_bind]. rewrite Hsc. cbn [negb]. by repeat case_bool_decide.
Qed.

Lemma grant_inv admin H s now p sc g why r :
  grant admin H s now p sc g why = Ok r →
  ∃ c chk, canonical_scope sc = Ok c ∧ can_delegate admin s g c = Ok chk ∧ allowed chk = true ∧
    append H s now GRANT_FACT p c g why = Ok r.
Proof.
  unfold grant. destruct (truthy p); cbn [negb]; [|done].
  destruct (canonical_scope sc) as [c|]; cbn [lift_bad result_bind]; [|done].
  intros (chk & Hc & Hr)%result_bind_ok. exists c, chk.
  by destruct (allowed chk); cbn [negb] in Hr.
Qed.

Lemma revoke_inv admin H s now p sc g why r :
  revoke admin H s now p sc g why = Ok r →
  ∃ c chk, canonical_scope sc = Ok c ∧ can_delegate admin s g c = Ok chk ∧ allowed chk = true ∧
    append H s now REVOKE_FACT p c g why = Ok r.
Proof.
  unfold revoke. destruct (truthy p); cbn [negb]; [|done].
  destruct (canonical_scope sc) as [c|]; cbn [lift_bad result_bind]; [|done].
  intros (chk & Hc & Hr)%result_bind_ok. exists c, chk.
  by destruct (allowed chk); cbn [negb] in Hr.
Qed.

(** A delegation that is not the admin's is backed by a scope at least as broad. *)
Lemma can_delegate_holds admin s g c chk :
  can_delegate admin s g c = Ok chk → allowed chk = true → g ≠ admin → c ∈ GRANTABLE_SCOPES →
  ∃ held, effective_scopes s g = Ok held ∧
    ∀ q, scope_matches_field c q = true → grants_permit_field held q = true.
Proof.
  unfold can_delegate, granted, refused. destruct (truthy g); cbn [negb]; [|by intros [= <-]].
  intros Hd Hal Hg Hc. rewrite bool_decide_false in Hd by done.
  destruct (isin c WILDCARDS) eqn:Hw.
  - apply result_bind_ok in Hd as (held & Hh & Hd). exists held. split; [done|].
    intros q [Hq _]%scope_matches_spec. apply grants_permit_spec.
    assert (∃ w, w ∈ held ∧ w ∈ WILDCARDS) as (w & Hwh & HwW).
    { unfold WILDCARDS. case_bool_decide as H1; [exists WILDCARD_ALL; set_solver|].
      case_bool_decide as H2; [case_bool_decide as H3; [exists WILDCARD_SECURITY; set_solver|]|];
        injection Hd as <-; discriminate Hal. }
    exists w. split; [done|]. apply scope_matches_spec. auto.
  - assert (c ∈ SECURITY_FIELDS) as Hcf.
    { apply elem_of_app in Hc as [|Hc%isin_spec]; [done|congruence]. }
    destruct (security_field_normal c Hcf) as [Hn _]. rewrite Hn in Hd.
    destruct (check_cases _ _ _ _ _ Hd) as
      [(_ & w & _ & _ & [[? _]|(_ & q & held & Hq & Hh & Hwh & Hm)])|(Ha & _)]; [done| |congruence].
    exists held. split; [done|]. intros q' [_ Hq']%scope_matches_spec. apply grants_permit_spec.
    destruct Hq' as [Hbad%isin_spec|<-]; [congruence|].
    exists w. split; [done|]. congruence.
Qed.

(** ** Granting and revoking *)

(** A grant that succeeds was made by the admin or by a principal holding the
    scope or a broader one, adds exactly the canonical scope to what the principal
    holds, and changes no other principal's scopes. *)
Theorem grant_effect admin H s now p sc g why s' n :
  grant admin H s now p sc g why = Ok (s', n) → int_ok now →
  ∃ c, canonical_scope sc = Ok c ∧
    (g = admin ∨ ∃ held, effective_scopes s g = Ok held ∧
       ∀ q, scope_matches_field c q = true → grants_permit_field held q = true) ∧
    (∀ held, effective_scopes s p = Ok held → effective_scopes s' p = Ok (held ∪ {[c]})) ∧
    ∀ p', p' ≠ "" → p' ≠ p → effective_scopes s' p' = effective_scopes s p'.
Proof.
  intros (c & chk & Hc & Hd & Hal & Ha)%grant_inv Hi. exists c. split; [done|].
  apply append_spec in Ha as [Hp Ha]; [|done]. split_and!.
  - destruct (decide (g = admin)) as [|Hg]; [by left|right].
    by eapply can_delegate_holds; [exact Hd|done..|eapply canonical_scope_grantable].
  - intros held Hh. rewrite Ha, bool_decide_true, Hh by done.
    by rewrite replay_own_event by by eapply canonical_scope_grantable.
  - intros p' Hp' Hne. by rewrite Ha, bool_decide_false by congruence.
Qed.

(** A revocation that succeeds removes exactly the named scope, broader and
    narrower ones stay, and changes no other principal's scopes; revoking right
    after granting leaves what was held before without the scope. *)
Theorem revoke_effect admin H s now p sc g why s' n :
  revoke admin H s now p sc g why = Ok (s', n) → int_ok now →
  ∃ c, canonical_scope sc = Ok c ∧
    (∀ held, effective_scopes s p = Ok held → effective_scopes s' p = Ok (held ∖ {[c]})) ∧
    (∀ p', p' ≠ "" → p' ≠ p → effective_scopes s' p' = effective_scopes s p') ∧
    ∀ s0 now0 g0 why0 n0 held, int_ok now0 → effective_scopes s0 p = Ok held →
      grant admin H s0 now0 p sc g0 why0 = Ok (s, n0) → effective_scopes s' p = Ok (held ∖ {[c]}).
Proof.
  intros (c & chk & Hc & Hd & Hal & Ha)%revoke_inv Hi. exists c. split; [done|].
  apply append_spec in Ha as [Hp Ha]; [|done]. apply canonical_scope_grantable in Hc as Hgr.
  assert (Hrev : ∀ held, effective_scopes s p = Ok held → effective_scopes s' p = Ok (held ∖ {[c]})).
  { intros held Hh. rewrite Ha, bool_decide_true, Hh by done. by rewrite replay_own_event. }
  split_and!; [exact Hrev| |].
  - intros p' Hp' Hne. by rewrite Ha, bool_decide_false by congruence.
  - intros s0 now0 g0 why0 n0 held Hi0 Hh (c0 & chk0 & Hc0 & _ & _ & Ha0)%grant_inv.
    assert (c0 = c) as -> by congruence. apply append_spec in Ha0 as [_ Ha0]; [|done].
    rewrite (Hrev (held ∪ {[c]})); [f_equal; set_solver|].
    rewrite Ha0, bool_decide_true, Hh by done. by rewrite replay_own_event.
Qed.

(** ** Confinement: no capability without a chain of grants from the admin *)

(** The grant-log operations of a broker, and whatever leaves every log alone. The
    admin never grants a scope that matches [q]. *)
Inductive step (admin : string) (H : string → string) (q : string) : relation LineageStore :=
| step_grant s now p sc g why s' n :
    grant admin H s now p sc g why = Ok (s', n) → int_ok now →
    (g = admin → ∀ c, canonical_scope sc = Ok c → scope_matches_field c q = false) →
    step admin H q s s'
| step_revoke s now p sc g why s' n :
    revoke admin H s now p sc g why = Ok (s', n) → int_ok now → step admin H q s s'
| step_other s s' : (∀ p, log s' p = log s p) → step admin H q s s'.

(** Nobody holds a scope that matches [q], and every log replays. *)
Definition nobody_holds (q : string) (s : LineageStore) : Prop :=
  ∀ p, p ≠ "" → ∃ held, effective_scopes s p = Ok held ∧ grants_permit_field held q = false.

Lemma permit_union held c q :
  grants_permit_field (held ∪ {[c]}) q = grants_permit_field held q || scope_matches_field c q.
Proof.
  apply eq_true_iff_eq. rewrite orb_true_iff, !grants_permit_spec. set_solver.
Qed.

Lemma permit_difference held c q :
  grants_permit_field held q = false → grants_permit_field (held ∖ {[c]}) q = false.
Proof.
  rewrite <- !not_true_iff_false, !grants_permit_spec. set_solver.
Qed.

Lemma nobody_holds_step admin H q s s' : step admin H q s s' → nobody_holds q s → nobody_holds q s'.
Proof.
  intros Hstep Hn p' Hp'. destruct (Hn p' Hp') as (held & Hh & Hq). destruct Hstep as
    [s now p sc g why s' n (c & chk & Hc & Hd & Hal & Ha)%grant_inv Hi Hadm
    |s now p sc g why s' n (c & chk & Hc & Hd & Hal & Ha)%revoke_inv Hi|s s' Hlog].
  - apply canonical_scope_grantable in Hc as Hgr.
    apply append_spec in Ha as [Hp Ha]; [|done]. rewrite Ha by done.
    case_bool_decide as Hpp; [subst p'|by exists held].
    rewrite Hh, replay_own_event by done. eexists. split; [reflexivity|].
    rewrite bool_decide_true, permit_union, Hq by done. cbn [orb].
    destruct (decide (g = admin)) as [Hg|Hg]; [by apply Hadm|].
    destruct (scope_matches_field c q) eqn:Hm; [|done]. exfalso.
    destruct (can_delegate_holds _ _ _ _ _ Hd Hal Hg Hgr) as (hg & Hhg & Hall).
    destruct (Hn g) as (hg' & Hhg' & Hno).
    { intros ->. unfold can_delegate in Hd. cbn in Hd. injection Hd as <-. discriminate Hal. }
    rewrite Hhg in Hhg'. injection Hhg' as <-. by rewrite (Hall q Hm) in Hno.
  - apply canonical_scope_grantable in Hc as Hgr.
    apply append_spec in Ha as [Hp Ha]; [|done]. rewrite Ha by done.
    case_bool_decide as Hpp; [subst p'|by exists held].
    rewrite Hh, replay_own_event by done. eexists. split; [reflexivity|].
    rewrite bool_decide_false, bool_decide_true by done. by apply permit_difference.
  - exists held. by rewrite effective_scopes_log, Hlog, <- effective_scopes_log.
Qed.

(** C33: capability confinement. From a store in which nobody holds a scope matching a
    security field, however grants, revocations and re-delegations are interleaved, as
    long as the admin itself grants no scope that matches the field, check keeps
    answering and denies the field to every other principal. *)
Theorem capability_confinement admin H q s s' :
  rtc (step admin H q) s s' → nobody_holds q s →
  ∀ p f, p ≠ admin → normalize_field f = Ok q →
    ∃ c, check admin s' p f = Ok c ∧ allowed c = false ∧ via c = None.
Proof.
  intros Hsteps Hn p f Hp Hf.
  apply (rtc_invariant _ (nobody_holds q) _ _ Hsteps) in Hn; [|intros a b; apply nobody_holds_step].
  assert (∃ c, check admin s' p f = Ok c) as [c Hc].
  { unfold check, granted, refused. destruct (truthy p) eqn:Ht; cbn [negb]; [|by eexists].
    rewrite bool_decide_false, Hf by done. apply truthy_true in Ht.
    destruct (Hn p Ht) as (held & -> & _). cbn [result_bind].
    repeat case_bool_decide; by eexists. }
  exists c. split; [done|].
  destruct (check_cases _ _ _ _ _ Hc) as [(Ha & w & _ & Ht & [[? _]|(_ & q' & held & Hq' & Hh & Hw & Hm)])|]; [done| |tauto].
  exfalso. assert (q' = q) as -> by congruence. destruct (Hn p Ht) as (held' & Hh' & Hno).
  assert (held' = held) as -> by congruence. apply not_true_iff_false in Hno.
  apply Hno, grants_permit_spec. by exists w.
Qed.

(** ** Witnesses: the admin lets an export workflow change guards *)

Definition demo_admin : string := ADMIN_APP_PRINCIPAL.
Definition demo_grant : answer (LineageStore * Z) :=
  grant demo_admin toy_digest empty_store 5 "wf:export" "guards" demo_admin "release".

Lemma demo_grant_ok : ∃ s1 n, demo_grant = Ok (s1, n).
Proof.
  destruct demo_grant as [[s1 n]|e] eqn:E; [by exists s1, n|].
  exfalso. assert (is_ok demo_grant = true) as Hok by (vm_compute; reflexivity).
  rewrite E in Hok. discriminate Hok.
Qed.

Lemma int_ok_5 : int_ok 5.
Proof. unfold int_ok. apply Nat.leb_le. reflexivity. Qed.

Lemma empty_scopes p : p ≠ "" → effective_scopes empty_store p = Ok ∅.
Proof. intros Hp. by rewrite effective_scopes_log. Qed.

Lemma grant_effect_witness :
  ∃ s1 n, demo_grant = Ok (s1, n) ∧ int_ok 5 ∧
    effective_scopes s1 "wf:export" = Ok (∅ ∪ {["security.guards"]}) ∧
    effective_scopes s1 "wf:import" = Ok ∅.
Proof.
  destruct demo_grant_ok as (s1 & n & Hg). exists s1, n. split; [exact Hg|].
  split; [exact int_ok_5|].
  destruct (grant_effect _ _ _ _ _ _ _ _ _ _ Hg int_ok_5) as (c & Hc & _ & He & Hf).
  vm_compute in Hc. injection Hc as <-. split.
  - apply He. by apply empty_scopes.
  - rewrite Hf by done. by apply empty_scopes.
Defined.

Lemma demo_revoke_ok s1 n : demo_grant = Ok (s1, n) →
  ∃ s2 n2, revoke demo_admin toy_digest s1 5 "wf:export" "guards" demo_admin "done" = Ok (s2, n2).
Proof.
  intros _. unfold revoke. cbn [truthy negb].
  replace (canonical_scope "guards") with (Ok "security.guards" : result bad_request string)
    by reflexivity.
  unfold can_delegate, granted, demo_admin. cbn [truthy negb ADMIN_APP_PRINCIPAL].
  rewrite bool_decide_true by done. by eexists _, _.
Qed.

Lemma revoke_effect_witness :
  ∃ s1 n s2 n2, demo_grant = Ok (s1, n) ∧
    revoke demo_admin toy_digest s1 5 "wf:export" "guards" demo_admin "done" = Ok (s2, n2) ∧
    effective_scopes s2 "wf:export" = Ok (∅ ∖ {["security.guards"]}).
Proof.
  destruct demo_grant_ok as (s1 & n & Hg). destruct (demo_revoke_ok s1 n Hg) as (s2 & n2 & Hr).
  exists s1, n, s2, n2. split; [exact Hg|]. split; [exact Hr|].
  destruct (revoke_effect _ _ _ _ _ _ _ _ _ _ Hr int_ok_5) as (c & Hc & _ & _ & Hround).
  vm_compute in Hc. injection Hc as <-.
  apply (Hround empty_store 5%Z demo_admin "release" n); [exact int_ok_5| |exact Hg].
  by apply empty_scopes.
Defined.

Lemma capability_confinement_witness :
  ∃ s1 n, demo_grant = Ok (s1, n) ∧ ∃ c,
    check demo_admin s1 "wf:export" "sensitivity" = Ok c ∧ allowed c = false ∧ via c = None.
Proof.
  destruct demo_grant_ok as (s1 & n & Hg). exists s1, n. split; [exact Hg|].
  apply (capability_confinement demo_admin toy_digest "security.sensitivity" empty_store s1).
  - apply rtc_once. eapply step_grant; [exact Hg|exact int_ok_5|].
    intros _ c Hc. vm_compute in Hc. by injection Hc as <-.
  - intros p Hp. exists ∅. split; [by apply empty_scopes|reflexivity].
  - done.
  - reflexivity.
Defined.

End Grants.
