(* ===== verification/Mutation.v ===== *)
(** * Policy-controlled mutation of security fields

    [src/broker/qdistro_security_mutation.py]: a requested change is classified against the
    entity's current snapshot, gated by the grants of its principal, and then recorded in
    place (tighten, state) or as a new derivative (narrow). A set is iterated in an order
    the language does not fix: [iter] is that order. [ts] is the reading of the mutator's
    clock, [clk i] the reading the [i]-th store write takes, [new_aid] and [new_eid] the
    identifiers [declassify] would draw. A call that raises leaves the store as it was:
    its writes are one transaction. *)

From S2P Require Import Prelude Json Guards LineageStore Chokepoint Grants.
Import Json Lineage Chokepoints Grants.

Module Mutation.

(** ** Vocabulary *)

Definition SENSITIVITY_ORDER : list string := ["public"; "internal"; "confidential"; "restricted"].
Definition DECLASSIFICATION_STATES : list string := ["none"; "requested"; "approved"].
Definition DECLASSIFY_VERDICT : string := "declassify".

Inductive ChangeClass := TIGHTEN | NARROW | STATE | NOOP.

(** A request; [None] leaves a field as it is. *)
Record SecurityChange := {
  ch_guards : option (gset string);
  ch_compartments : option (gset string);
  ch_conflict_classes : option (gset string);
  ch_sensitivity : option string;
  ch_declassification : option string;
}.

Inductive mutation_reason :=
| MR_noop
| MR_delegation (why : check_reason)
| MR_not_forward (from to : string)
| MR_approved_needs_authority
| MR_narrow_needs_authority
| MR_narrow_needs_verdict (got : option string)
| MR_tightened (eid : string) (added : list string)
| MR_state (from to : string)
| MR_declassified (eid out : string) (residual : list string).

Record MutationResult := {
  mr_allowed : bool;
  mr_class : ChangeClass;
  mr_reason : mutation_reason;
  mr_result : option string;
  mr_review : gset string;
  mr_via : list (string * string);
}.

Inductive mutation_error :=
| ME_unknown_entity (eid : string)
| ME_no_actor
| ME_unknown_state (target : string)
| ME_grant (e : grant_error)
| ME_chokepoint (e : chokepoint_error)
| ME_store (e : LineageStoreError).

(** ** Classification *)

(** Position in an ordered vocabulary; its length when absent *)
Fixpoint rank (order : list string) (s : string) : nat :=
  match order with
  | [] => 0
  | x :: order' => if bool_decide (x = s) then 0 else S (rank order' s)
  end.

(** [_sensitivity_rank]: an unknown value ranks above every known one. *)
Definition sensitivity_rank (s : string) : nat := rank SENSITIVITY_ORDER s.

(** A facet that is a string of its vocabulary, or the fallback *)
Definition facet (ent : Entity) (key : string) (vocabulary : list string) (fallback : string) : string :=
  match e_facets ent with
  | JObj d => match od_get d key with
              | Some (JStr v) => if isin v vocabulary then v else fallback
              | _ => fallback
              end
  | _ => fallback
  end.

(** [_current_sensitivity] *)
Definition current_sensitivity (ent : Entity) : string :=
  facet ent "sensitivity" SENSITIVITY_ORDER "internal".
(** [_current_declass_state] *)
Definition current_declass_state (ent : Entity) : string :=
  facet ent "declassification" DECLASSIFICATION_STATES "none".

(** [not new >= cur] and [new > cur] for an optional requested set *)
Definition removes (new : option (gset string)) (cur : gset string) : bool :=
  match new with Some n => negb (bool_decide (cur ⊆ n)) | None => false end.
Definition adds (new : option (gset string)) (cur : gset string) : bool :=
  match new with Some n => bool_decide (cur ⊆ n) && negb (bool_decide (cur = n)) | None => false end.

Definition lowers_sensitivity (ent : Entity) (new : option string) : bool :=
  match new with
  | Some n => sensitivity_rank n <? sensitivity_rank (current_sensitivity ent)
  | None => false
  end.
Definition raises_sensitivity (ent : Entity) (new : option string) : bool :=
  match new with
  | Some n => sensitivity_rank (current_sensitivity ent) <? sensitivity_rank n
  | None => false
  end.

(** [classify_change] *)
Definition classify_change (ent : Entity) (c : SecurityChange) : ChangeClass :=
  if removes (ch_guards c) (e_guards ent) || removes (ch_compartments c) (e_compartments ent)
     || removes (ch_conflict_classes c) (e_conflict_classes ent)
     || lowers_sensitivity ent (ch_sensitivity c) then NARROW
  else if adds (ch_guards c) (e_guards ent) || adds (ch_compartments c) (e_compartments ent)
     || adds (ch_conflict_classes c) (e_conflict_classes ent)
     || raises_sensitivity ent (ch_sensitivity c) then TIGHTEN
  else match ch_declassification c with
  | Some d => if bool_decide (d = current_declass_state ent) then NOOP else STATE
  | None => NOOP
  end.

(** A requested value that differs from the current one *)
Definition moved {A} `{EqDecision A} (new : option A) (cur : A) (field : string) : list string :=
  match new with Some n => if bool_decide (n = cur) then [] else [field] | None => [] end.

(** [touched_fields] *)
Definition touched_fields (ent : Entity) (c : SecurityChange) : gset string :=
  list_to_set (moved (ch_guards c) (e_guards ent) "security.guards"
    ++ moved (ch_compartments c) (e_compartments ent) "security.compartments"
    ++ moved (ch_conflict_classes c) (e_conflict_classes ent) "security.conflict_classes"
    ++ moved (ch_sensitivity c) (current_sensitivity ent) "security.sensitivity"
    ++ moved (ch_declassification c) (current_declass_state ent) "security.declassification").

(** ** The mutator *)

Definition lift_grant {A} (r : answer A) : result mutation_error A :=
  match r with Ok a => Ok a | Err e => Err (ME_grant e) end.
Definition lift_store {A} (r : result LineageStoreError A) : result mutation_error A :=
  match r with Ok a => Ok a | Err e => Err (ME_store e) end.
Definition lift_chokepoint {A} (r : result chokepoint_error A) : result mutation_error A :=
  match r with Ok a => Ok a | Err e => Err (ME_chokepoint e) end.

(** [_check_delegation] over the sorted fields: the scopes that authorise them, or the
    reason the first ungranted one gives *)
Fixpoint check_fields (admin : string) (s : LineageStore) (principal : string)
    (fields : list string) : answer (check_reason + list (string * string)) :=
  match fields with
  | [] => Ok (inr [])
  | f :: fields' =>
      let* chk := check admin s principal f in
      if negb (allowed chk) then Ok (inl (reason chk))
      else
        let* rest := check_fields admin s principal fields' in
        match rest with
        | inl why => Ok (inl why)
        | inr vias => Ok (inr ((f, default "unknown" (via chk)) :: vias))
        end
  end.
Definition check_delegation (admin : string) (s : LineageStore) (principal : string)
    (fields : gset string) : answer (check_reason + list (string * string)) :=
  check_fields admin s principal (sorted_set fields).

(** The arguments of [reclassify] after the change *)
Record request := {
  rq_actor : string;
  rq_principal : option string;
  rq_authority : option string;
  rq_reason : string;
  rq_verdict : option string;
  rq_propagate : bool;
  rq_output_kind : string;
  rq_output_digest : option string;
  rq_transform : option string;
  rq_destination : option string;
}.

(** [bool(authority)] *)
Definition has_authority (a : option string) : bool :=
  match a with Some a => truthy a | None => false end.

Definition jstrs (l : list string) : json := JArr (JStr <$> l).
Definition jvias (vias : list (string * string)) : json := JObj ((λ p, (p.1, JStr p.2)) <$> vias).

(** [dict(current.facets) if isinstance(..., dict) else {}] *)
Definition facets_dict (ent : Entity) : list (string * json) :=
  match e_facets ent with JObj d => d | _ => [] end.

Definition deny (k : ChangeClass) (why : mutation_reason) : MutationResult :=
  {| mr_allowed := false; mr_class := k; mr_reason := why; mr_result := None; mr_review := ∅;
     mr_via := [] |}.

(** The default [max_depth] of the store's walks *)
Definition DEFAULT_DEPTH : nat := 64.

Section mutator.
Context (H : string → string) (clk : nat → Z) (iter : gset string → list string) (admin : string).

(** The snapshot [current] with other security fields *)
Definition with_security (current : Entity) (g c k : gset string) (f : list (string * json))
    (ts : Z) : Entity :=
  {| eid := eid current; e_kind := e_kind current; e_digest := e_digest current;
     e_locator := e_locator current; e_guards := g; e_compartments := c;
     e_conflict_classes := k; e_integrity := e_integrity current; e_status := e_status current;
     e_facets := JObj f; e_created_at := ts |}.

(** The assertions that push added guards onto the descendants *)
Fixpoint propagate (s : LineageStore) (i : nat) (from : string) (added : list string)
    (actor : string) (ds : list string) : result mutation_error LineageStore :=
  match ds with
  | [] => Ok s
  | d :: ds' =>
      let* r := lift_store (record_assertion H s (clk i) d "security.propagated_guards"
        (JObj [("from", JStr from); ("added_guards", jstrs added); ("actor", JStr actor)])
        actor "broker-derived") in
      propagate r.1 (S i) from added actor ds'
  end.

Definition tighten_facets (current : Entity) (c : SecurityChange) (sens : string)
    : list (string * json) :=
  let f := od_set (facets_dict current) "sensitivity" (JStr sens) in
  match ch_declassification c with
  | Some d => od_set f "declassification" (JStr d)
  | None => f
  end.

(** [_do_tighten] *)
Definition do_tighten (s : LineageStore) (ts : Z) (current : Entity) (c : SecurityChange)
    (rq : request) (vias : list (string * string))
    : result mutation_error (LineageStore * MutationResult) :=
  let g := default (e_guards current) (ch_guards c) in
  let cs := default (e_compartments current) (ch_compartments c) in
  let ks := default (e_conflict_classes current) (ch_conflict_classes c) in
  let sens := match ch_sensitivity c with
              | Some v => if truthy v then v else current_sensitivity current
              | None => current_sensitivity current end in
  let added := g ∖ e_guards current in
  let* r1 := lift_store (record_entity H s (clk 0)
    (with_security current g cs ks (tighten_facets current c sens) ts)) in
  let* r2 := lift_store (record_assertion H r1.1 (clk 1) (eid current) "security.reclassify"
    (JObj [("class", JStr "tighten"); ("added_guards", jstrs (sorted_set added));
           ("guards", jstrs (sorted_set g)); ("compartments", jstrs (sorted_set cs));
           ("conflict_classes", jstrs (sorted_set ks)); ("sensitivity", JStr sens);
           ("actor", JStr (rq_actor rq)); ("authority", jopt (rq_authority rq));
           ("reason", JStr (rq_reason rq)); ("delegated_via", jvias vias)])
    (rq_actor rq) "broker-derived") in
  let push := rq_propagate rq && negb (bool_decide (added = ∅)) in
  let ds := if push then iter (downstream r2.1 (eid current) DEFAULT_DEPTH) else [] in
  let* s3 := propagate r2.1 2 (eid current) (sorted_set added) (rq_actor rq) ds in
  Ok (s3, {| mr_allowed := true; mr_class := TIGHTEN;
             mr_reason := MR_tightened (eid current) (sorted_set added);
             mr_result := Some (eid current); mr_review := list_to_set ds; mr_via := vias |}).

(** [_do_state]; it is only called with a requested state. *)
Definition do_state (s : LineageStore) (ts : Z) (current : Entity) (target : string)
    (rq : request) (vias : list (string * string))
    : result mutation_error (LineageStore * MutationResult) :=
  let cur := current_declass_state current in
  if negb (isin target DECLASSIFICATION_STATES) then Err (ME_unknown_state target)
  else if rank DECLASSIFICATION_STATES target <=? rank DECLASSIFICATION_STATES cur
  then Ok (s, deny STATE (MR_not_forward cur target))
  else if bool_decide (target = "approved") && negb (has_authority (rq_authority rq))
  then Ok (s, deny STATE MR_approved_needs_authority)
  else
    let* r1 := lift_store (record_entity H s (clk 0)
      (with_security current (e_guards current) (e_compartments current)
         (e_conflict_classes current)
         (od_set (facets_dict current) "declassification" (JStr target)) ts)) in
    let* r2 := lift_store (record_assertion H r1.1 (clk 1) (eid current)
      "security.declassification_state"
      (JObj [("from", JStr cur); ("to", JStr target); ("actor", JStr (rq_actor rq));
             ("authority", jopt (rq_authority rq)); ("reason", JStr (rq_reason rq));
             ("delegated_via", jvias vias)])
      (rq_actor rq) "broker-derived") in
    Ok (r2.1, {| mr_allowed := true; mr_class := STATE; mr_reason := MR_state cur target;
                 mr_result := Some (eid current); mr_review := ∅; mr_via := vias |}).

(** [_do_narrow] *)
Definition do_narrow (s : LineageStore) (ts : Z) (new_aid new_eid : string) (current : Entity)
    (c : SecurityChange) (rq : request) (vias : list (string * string))
    : result mutation_error (LineageStore * MutationResult) :=
  if negb (has_authority (rq_authority rq)) then Ok (s, deny NARROW MR_narrow_needs_authority)
  else if negb (bool_decide (rq_verdict rq = Some DECLASSIFY_VERDICT))
  then Ok (s, deny NARROW (MR_narrow_needs_verdict (rq_verdict rq)))
  else
    let authority := default "" (rq_authority rq) in
    let g := default (e_guards current) (ch_guards c) in
    let* r1 := lift_chokepoint (declassify H clk s ts new_aid new_eid
      {| da_source := eid current; da_output_eid := None; da_output_kind := rq_output_kind rq;
         da_output_digest := rq_output_digest rq; da_guards := g;
         da_compartments := default (e_compartments current) (ch_compartments c);
         da_conflict_classes := default (e_conflict_classes current) (ch_conflict_classes c);
         da_authority := authority; da_transform := rq_transform rq;
         da_agent := Some (rq_actor rq) |}) in
    let out := r1.2 in
    let* r2 := lift_store (record_assertion H r1.1 (clk 10) out "declassification.context"
      (JObj [("source", JStr (eid current)); ("destination", jopt (rq_destination rq));
             ("policy_verdict", jopt (rq_verdict rq)); ("reason", JStr (rq_reason rq));
             ("actor", JStr (rq_actor rq)); ("authority", JStr authority);
             ("delegated_via", jvias vias)])
      authority "broker-derived") in
    Ok (r2.1, {| mr_allowed := true; mr_class := NARROW;
                 mr_reason := MR_declassified (eid current) out (sorted_set g);
                 mr_result := Some out; mr_review := downstream r2.1 (eid current) DEFAULT_DEPTH;
                 mr_via := vias |}).

(** The delegation gate before the writes of a change *)
Definition gated (s : LineageStore) (current : Entity) (c : SecurityChange) (klass : ChangeClass)
    (rq : request) (k : list (string * string) → result mutation_error (LineageStore * MutationResult))
    : result mutation_error (LineageStore * MutationResult) :=
  let who := default admin (rq_principal rq) in
  let* gate := lift_grant (check_delegation admin s who (touched_fields current c)) in
  match gate with
  | inl why => Ok (s, deny klass (MR_delegation why))
  | inr vias => k vias
  end.

(** [reclassify] *)
Definition reclassify (s : LineageStore) (ts : Z) (new_aid new_eid id : string)
    (c : SecurityChange) (rq : request) : result mutation_error (LineageStore * MutationResult) :=
  match get_entity s id with
  | None => Err (ME_unknown_entity id)
  | Some current =>
      if negb (truthy (rq_actor rq)) then Err ME_no_actor
      else
        match classify_change current c with
        | NOOP => Ok (s, {| mr_allowed := true; mr_class := NOOP; mr_reason := MR_noop;
                            mr_result := Some id; mr_review := ∅; mr_via := [] |})
        | NARROW => gated s current c NARROW rq (do_narrow s ts new_aid new_eid current c rq)
        | STATE => gated s current c STATE rq
                     (do_state s ts current (default "" (ch_declassification c)) rq)
        | TIGHTEN => gated s current c TIGHTEN rq (do_tighten s ts current c rq)
        end
  end.
End mutator.
(** ** Classification *)

Lemma removes_false new cur : removes new cur = false → cur ⊆ default cur new.
Proof. unfold removes. destruct new; simpl; [|done]. intros Hn. by bool_hyps. Qed.

Lemma not_narrow ent c :
  classify_change ent c ≠ NARROW →
  removes (ch_guards c) (e_guards ent) = false ∧
  removes (ch_compartments c) (e_compartments ent) = false ∧
  removes (ch_conflict_classes c) (e_conflict_classes ent) = false ∧
  lowers_sensitivity ent (ch_sensitivity c) = false.
Proof.
  unfold classify_change. destruct (removes _ _), (removes _ _), (removes _ _), (lowers_sensitivity _ _);
    simpl; tauto.
Qed.

(** What it means, field by field, for a request to ask for another value than the current
    one, and to ask for less protection *)
Inductive moves (ent : Entity) (c : SecurityChange) : string → Prop :=
| mv_guards g : ch_guards c = Some g → g ≠ e_guards ent → moves ent c "security.guards"
| mv_compartments g : ch_compartments c = Some g → g ≠ e_compartments ent → moves ent c "security.compartments"
| mv_conflicts g : ch_conflict_classes c = Some g → g ≠ e_conflict_classes ent →
    moves ent c "security.conflict_classes"
| mv_sensitivity v : ch_sensitivity c = Some v → v ≠ current_sensitivity ent → moves ent c "security.sensitivity"
| mv_declassification d : ch_declassification c = Some d → d ≠ current_declass_state ent →
    moves ent c "security.declassification".

Inductive weakens (ent : Entity) (c : SecurityChange) : Prop :=
| wk_guard g x : ch_guards c = Some g → x ∈ e_guards ent → x ∉ g → weakens ent c
| wk_compartment g x : ch_compartments c = Some g → x ∈ e_compartments ent → x ∉ g → weakens ent c
| wk_conflict g x : ch_conflict_classes c = Some g → x ∈ e_conflict_classes ent → x ∉ g → weakens ent c
| wk_sensitivity v : ch_sensitivity c = Some v →
    sensitivity_rank v < sensitivity_rank (current_sensitivity ent) → weakens ent c.

Lemma moved_new {A} `{EqDecision A} (n cur : A) field : n ≠ cur → field ∈ moved (Some n) cur field.
Proof. intros Hn. unfold moved. rewrite bool_decide_false by done. by apply list_elem_of_singleton. Qed.

Lemma moves_touched ent c f : moves ent c f → f ∈ touched_fields ent c.
Proof.
  intros Hm. unfold touched_fields. rewrite elem_of_list_to_set, !elem_of_app.
  destruct Hm as [g Hc Hg|g Hc Hg|g Hc Hg|v Hc Hg|d Hc Hg]; rewrite Hc.
  all: match goal with |- context [?f ∈ _] => apply (moved_new _ _ f) in Hg end; auto 10.
Qed.

Lemma removes_spec new cur : removes new cur = true ↔ ∃ g x, new = Some g ∧ x ∈ cur ∧ x ∉ g.
Proof.
  unfold removes. destruct new as [g|]; [|naive_solver]. rewrite negb_true_iff, bool_decide_eq_false. split.
  - intros Hn. destruct (decide (cur ∖ g = ∅)) as [He|[x Hx]%set_choose_L].
    + by destruct Hn; apply empty_difference_subseteq_L.
    + apply elem_of_difference in Hx as [??]. by exists g, x.
  - intros (g' & x & [= <-] & Hx & Hg) Hs. auto.
Qed.

Lemma lowers_spec ent new :
  lowers_sensitivity ent new = true ↔
  ∃ v, new = Some v ∧ sensitivity_rank v < sensitivity_rank (current_sensitivity ent).
Proof.
  unfold lowers_sensitivity. destruct new as [v|]; [|naive_solver]. rewrite Nat.ltb_lt. split; [by eauto|].
  by intros (? & [= <-] & ?).
Qed.

Lemma narrow_weakens ent c : classify_change ent c = NARROW ↔ weakens ent c.
Proof.
  trans (removes (ch_guards c) (e_guards ent) || removes (ch_compartments c) (e_compartments ent)
    || removes (ch_conflict_classes c) (e_conflict_classes ent) || lowers_sensitivity ent (ch_sensitivity c) = true).
  { unfold classify_change. case_match; [done|]. split; [|done]. by repeat case_match. }
  rewrite !orb_true_iff, !removes_spec, lowers_spec. split.
  - intros [[[(g & x & ? & ? & ?)|(g & x & ? & ? & ?)]|(g & x & ? & ? & ?)]|(v & ? & ?)].
    + by eapply wk_guard.
    + by eapply wk_compartment.
    + by eapply wk_conflict.
    + by eapply wk_sensitivity.
  - destruct 1; by eauto 10.
Qed.

Lemma rank_known order s : rank order s < length order ↔ s ∈ order.
Proof.
  induction order as [|x o IH]; simpl; [split; [lia|by intros ?%elem_of_nil]|].
  rewrite elem_of_cons. case_bool_decide as Hx; [split; [auto|lia]|].
  rewrite <- Nat.succ_lt_mono, IH. naive_solver.
Qed.

(** ** The writes *)

Lemma lift_store_ok {A} (r : result LineageStoreError A) a : lift_store r = Ok a → r = Ok a.
Proof. destruct r; simpl; congruence. Qed.
Lemma lift_grant_ok {A} (r : answer A) a : lift_grant r = Ok a → r = Ok a.
Proof. destruct r; simpl; congruence. Qed.
Lemma lift_chokepoint_ok {A} (r : result chokepoint_error A) a : lift_chokepoint r = Ok a → r = Ok a.
Proof. destruct r; simpl; congruence. Qed.

Lemma get_entity_eid s id e : get_entity s id = Some e → eid e = id.
Proof.
  unfold get_entity. intros (r & Hl & Hr)%fmap_Some.
  apply last_Some_elem_of, list_elem_of_filter in Hl as [Hid _]. rewrite Hr. exact Hid.
Qed.

(** A new snapshot of [cur] with these security fields, and nothing else *)
Definition resnapshot (s s' : LineageStore) (cur : Entity) (g c k : gset string)
    (f : list (string * json)) : Prop :=
  (∃ e, get_entity s' (eid cur) = Some e ∧ e_guards e = g ∧ e_compartments e = c ∧
     e_conflict_classes e = k ∧ e_kind e = e_kind cur ∧ e_digest e = e_digest cur ∧
     e_locator e = e_locator cur ∧ e_integrity e = e_integrity cur ∧ e_status e = e_status cur ∧
     (jwf (JObj f) → f ≠ [] → e_facets e = norm (JObj f))) ∧
  (∀ x, x ≠ eid cur → get_entity s' x = get_entity s x) ∧
  edge_set s' = edge_set s.

Section writes.
Context (H : string → string) (clk : nat → Z) (iter : gset string → list string) (admin : string).

Lemma record_snapshot s now cur g c k f ts s' n :
  record_entity H s now (with_security cur g c k f ts) = Ok (s', n) →
  resnapshot s s' cur g c k f ∧ assertions s' = assertions s.
Proof.
  intros Hr. split; [|by eapply record_entity_assertions].
  unfold record_entity, seal_row in Hr. inv_ok. set (s' := with_entities _ _).
  pose proof (get_entity_append s' s (entity_columns now (with_security cur g c k f ts))
    (seal_value H (chain_head s) "entities" (body_of (entity_columns now (with_security cur g c k f ts)))))
    as Hg. split_and!; [|intros x Hx|done].
  - rewrite Hg, bool_decide_true by done. eexists. split; [reflexivity|].
    split_and!; try done; try apply jload_jset.
    intros Hf Hne. rewrite entity_of_columns by done. destruct f; [done|reflexivity].
  - rewrite Hg, bool_decide_false by (exact (not_eq_sym Hx) || done). done.
Qed.

Lemma resnapshot_frame s s1 s' cur g c k f :
  resnapshot s s1 cur g c k f → entities s' = entities s1 → edges s' = edges s1 →
  resnapshot s s' cur g c k f.
Proof.
  intros ((e & He & Hp) & Ho & Hs) Hent Hed. split_and!.
  - exists e. by rewrite (get_entity_frame s1).
  - intros x Hx. rewrite (get_entity_frame s1) by done. auto.
  - by rewrite (edge_set_frame s1).
Qed.

Lemma propagate_frame s i from added actor ds s' :
  propagate H clk s i from added actor ds = Ok s' → entities s' = entities s ∧ edges s' = edges s.
Proof.
  revert s i. induction ds as [|d ds IH]; intros s i; cbn [propagate]; [by intros [= <-]|].
  intros ([s1 n1] & [E1 D1]%lift_store_ok%record_assertion_frame & [E2 D2]%IH)%result_bind_ok.
  cbn [fst] in *. split; congruence.
Qed.

Lemma do_tighten_effect s ts cur c rq vias s' r :
  do_tighten H clk iter s ts cur c rq vias = Ok (s', r) →
  mr_allowed r = true ∧ mr_class r = TIGHTEN ∧ mr_result r = Some (eid cur) ∧ mr_via r = vias ∧
  resnapshot s s' cur (default (e_guards cur) (ch_guards c))
    (default (e_compartments cur) (ch_compartments c))
    (default (e_conflict_classes cur) (ch_conflict_classes c))
    (tighten_facets cur c match ch_sensitivity c with
       | Some v => if truthy v then v else current_sensitivity cur
       | None => current_sensitivity cur end).
Proof.
  unfold do_tighten.
  intros ([s1 n1] & [Hsn _]%lift_store_ok%record_snapshot & Hr)%result_bind_ok.
  apply result_bind_ok in Hr as ([s2 n2] & [E2 D2]%lift_store_ok%record_assertion_frame & Hr).
  apply result_bind_ok in Hr as (s3 & [E3 D3]%propagate_frame & [= <- <-]).
  cbn [fst] in *. split_and!; try done. eapply resnapshot_frame; [exact Hsn|congruence..].
Qed.

Lemma do_state_effect s ts cur target rq vias s' r :
  do_state H clk s ts cur target rq vias = Ok (s', r) →
  mr_class r = STATE ∧
  (mr_allowed r = false ∧ s' = s ∨
   mr_allowed r = true ∧ mr_result r = Some (eid cur) ∧ mr_via r = vias ∧
   target ∈ DECLASSIFICATION_STATES ∧
   rank DECLASSIFICATION_STATES (current_declass_state cur) < rank DECLASSIFICATION_STATES target ∧
   (target = "approved" → has_authority (rq_authority rq) = true) ∧
   resnapshot s s' cur (e_guards cur) (e_compartments cur) (e_conflict_classes cur)
     (od_set (facets_dict cur) "declassification" (JStr target))).
Proof.
  unfold do_state. destruct (isin target _) eqn:Ht; cbn [negb]; [|done].
  destruct (rank _ target <=? _) eqn:Hrk; [intros [= <- <-]; split; [done|by left]|].
  destruct (bool_decide (target = "approved") && _) eqn:Hap; [intros [= <- <-]; split; [done|by left]|].
  intros ([s1 n1] & [Hsn _]%lift_store_ok%record_snapshot & Hr)%result_bind_ok.
  apply result_bind_ok in Hr as ([s2 n2] & [E2 D2]%lift_store_ok%record_assertion_frame & [= <- <-]).
  cbn [fst] in *. split; [done|]. right. split_and!; try done.
  - by apply isin_spec.
  - apply Nat.leb_gt in Hrk. exact Hrk.
  - intros ->. rewrite bool_decide_true in Hap by done. cbn [andb] in Hap. by apply negb_false_iff.
  - eapply resnapshot_frame; [exact Hsn|congruence..].
Qed.

(** What an allowed narrowing has done *)
Definition narrowed (s s' : LineageStore) (new_aid new_eid : string) (cur : Entity)
    (c : SecurityChange) (rq : request) : Prop :=
  mints s s' new_eid (default (e_guards cur) (ch_guards c))
    (default (e_compartments cur) (ch_compartments c))
    (default (e_conflict_classes cur) (ch_conflict_classes c)) None ∧
  feeds s' (eid cur) new_eid ∧ edge_set s ⊆ edge_set s' ∧
  (eid cur ≠ new_eid → get_entity s' (eid cur) = get_entity s (eid cur)).

Lemma do_narrow_effect s ts new_aid new_eid cur c rq vias s' r :
  do_narrow H clk s ts new_aid new_eid cur c rq vias = Ok (s', r) →
  mr_class r = NARROW ∧
  (mr_allowed r = false ∧ s' = s ∨
   mr_allowed r = true ∧ mr_result r = Some new_eid ∧ mr_via r = vias ∧
   has_authority (rq_authority rq) = true ∧ rq_verdict rq = Some DECLASSIFY_VERDICT ∧
   narrowed s s' new_aid new_eid cur c rq).
Proof.
  unfold do_narrow. destruct (has_authority _) eqn:Ha; cbn [negb]; [|intros [= <- <-]; split; [done|by left]].
  case_bool_decide as Hv; cbn [negb]; [|intros [= <- <-]; split; [done|by left]].
  intros ([s1 out] & Hd%lift_chokepoint_ok & Hr)%result_bind_ok.
  apply result_bind_ok in Hr as ([s2 n2] & [E2 D2]%lift_store_ok%record_assertion_frame & [= <- <-]).
  cbn [fst snd] in *. split; [done|]. right.
  apply declassify_ok in Hd as (-> & ((e & He & Hp) & Ho) & Hs & Hf).
  cbn [output_id da_output_eid da_guards da_compartments da_conflict_classes da_source] in *.
  split_and!; try done. unfold narrowed, mints. split_and!.
  - exists e. by rewrite (get_entity_frame s1).
  - intros x Hx. rewrite (get_entity_frame s1) by done. auto.
  - apply feeds_edge_set. rewrite (edge_set_frame s1) by done. by apply feeds_edge_set.
  - rewrite (edge_set_frame s1 s2), Hs by done. apply union_subseteq_l.
  - intros Hne. rewrite (get_entity_frame s1) by done. auto.
Qed.
End writes.

(** ** Facets read back *)

Lemma od_get_norm d k :
  NoDup (keys d) → od_get (sort_entries ((λ '(k, x), (k, norm x)) <$> d)) k = norm <$> od_get d k.
Proof.
  intros Hnd. set (f := λ '(k, x), (k, norm x)).
  assert (Hk : keys (f <$> d) = keys d).
  { unfold keys. rewrite <- list_fmap_compose. apply list_fmap_ext. by intros ? []. }
  assert (Hnd' : NoDup (keys (sort_entries (f <$> d)))).
  { unfold keys. rewrite sort_entries_perm. unfold keys in Hk. by rewrite Hk. }
  destruct (od_get d k) as [v|] eqn:Hd; cbn [fmap option_fmap option_map].
  - apply od_elem_get; [done|]. rewrite sort_entries_perm. apply list_elem_of_fmap.
    exists (k, v). split; [done|]. by apply od_get_elem.
  - apply od_get_None. unfold keys. rewrite sort_entries_perm. fold (keys (f <$> d)).
    rewrite Hk. by apply od_get_None.
Qed.

Lemma facet_norm e e' f key voc dflt :
  jwf (JObj f) → e_facets e' = norm (JObj f) → e_facets e = JObj f →
  facet e' key voc dflt = facet e key voc dflt.
Proof.
  intros [Hnd _]%jwf_obj He' He. unfold facet. rewrite He', He. cbn [norm].
  rewrite od_get_norm by done. destruct (od_get f key) as [[]|]; reflexivity.
Qed.

Lemma od_set_wf f k v : jwf (JObj f) → jwf v → jwf (JObj (od_set f k v)).
Proof.
  intros [Hnd Hf]%jwf_obj Hv. apply jwf_obj. split; [by apply od_set_NoDup|].
  rewrite Forall_forall in *. intros p [->|Hp]%od_set_elem; auto.
Qed.

Lemma od_set_nonempty (f : list (string * json)) k v : od_set f k v ≠ [].
Proof. destruct f as [|[k' v'] f]; simpl; [done|]. by case_bool_decide. Qed.

Lemma facets_dict_wf e : jwf (e_facets e) → jwf (JObj (facets_dict e)).
Proof. unfold facets_dict. intros Hw. destruct (e_facets e) eqn:He; done || exact jwf_empty. Qed.

Lemma tighten_facets_wf e c sens :
  jwf (e_facets e) → jwf (JObj (tighten_facets e c sens)) ∧ tighten_facets e c sens ≠ [].
Proof.
  intros Hw%facets_dict_wf. unfold tighten_facets.
  destruct (ch_declassification c); split; repeat apply od_set_wf; try done; apply od_set_nonempty.
Qed.

(** ** Authority *)

Lemma check_fields_ok admin s p fields vias :
  check_fields admin s p fields = Ok (inr vias) →
  ∀ f, f ∈ fields → ∃ w, (f, w) ∈ vias ∧ authorised admin s p f w.
Proof.
  revert vias. induction fields as [|f fields IH]; intros vias; cbn [check_fields].
  { intros _ f []%elem_of_nil. }
  intros (chk & Hc & Hr)%result_bind_ok. apply check_cases in Hc.
  destruct Hc as [(Ha & w & Hv & Hau)|(Ha & _)]; rewrite Ha in Hr; cbn [negb] in Hr; [|done].
  apply result_bind_ok in Hr as ([why|rest] & Hrest & [= <-]).
  intros f' [->|Hf']%elem_of_cons.
  - exists w. rewrite Hv. split; [constructor|done].
  - destruct (IH _ Hrest f' Hf') as (w' & Hw' & Hau'). exists w'. split; [by constructor|done].
Qed.

Section gate.
Context (H : string → string) (clk : nat → Z) (iter : gset string → list string) (admin : string).

Lemma gated_inv s cur c klass rq k s' r :
  gated admin s cur c klass rq k = Ok (s', r) →
  (s' = s ∧ mr_allowed r = false ∧ mr_class r = klass ∧ mr_result r = None) ∨
  ∃ vias, k vias = Ok (s', r) ∧ ∀ f, f ∈ touched_fields cur c → ∃ w, (f, w) ∈ vias ∧
    authorised admin s (default admin (rq_principal rq)) f w.
Proof.
  unfold gated. intros ([why|vias] & Hg%lift_grant_ok & Hr)%result_bind_ok.
  - left. by injection Hr as <- <-.
  - right. exists vias. split; [done|]. intros f Hf. eapply check_fields_ok; [exact Hg|].
    by apply sorted_set_elem_of.
Qed.

(** What a successful call is, by the class of the change *)
Lemma reclassify_cases s ts na ne id c rq s' r :
  reclassify H clk iter admin s ts na ne id c rq = Ok (s', r) →
  ∃ cur, get_entity s id = Some cur ∧ eid cur = id ∧ rq_actor rq ≠ "" ∧
    mr_class r = classify_change cur c ∧
    (s' = s ∧ mr_allowed r = false ∨
     s' = s ∧ mr_allowed r = true ∧ mr_class r = NOOP ∨
     mr_allowed r = true ∧
     (∀ f, f ∈ touched_fields cur c → ∃ w, (f, w) ∈ mr_via r ∧
        authorised admin s (default admin (rq_principal rq)) f w) ∧
     match mr_class r with
     | NARROW => has_authority (rq_authority rq) = true ∧ rq_verdict rq = Some DECLASSIFY_VERDICT ∧
         mr_result r = Some ne ∧ narrowed s s' na ne cur c rq
     | STATE => ∃ d, ch_declassification c = Some d ∧ d ∈ DECLASSIFICATION_STATES ∧
         rank DECLASSIFICATION_STATES (current_declass_state cur) < rank DECLASSIFICATION_STATES d ∧
         (d = "approved" → has_authority (rq_authority rq) = true) ∧ mr_result r = Some id ∧
         resnapshot s s' cur (e_guards cur) (e_compartments cur) (e_conflict_classes cur)
           (od_set (facets_dict cur) "declassification" (JStr d))
     | TIGHTEN => mr_result r = Some id ∧
         resnapshot s s' cur (default (e_guards cur) (ch_guards c))
           (default (e_compartments cur) (ch_compartments c))
           (default (e_conflict_classes cur) (ch_conflict_classes c))
           (tighten_facets cur c match ch_sensitivity c with
              | Some v => if truthy v then v else current_sensitivity cur
              | None => current_sensitivity cur end)
     | NOOP => False
     end).
Proof.
  unfold reclassify. destruct (get_entity s id) as [cur|] eqn:Hcur; [|done].
  destruct (truthy (rq_actor rq)) eqn:Hact; cbn [negb]; [|done]. apply truthy_true in Hact.
  apply get_entity_eid in Hcur as Hid. intros Hr. exists cur. do 3 (split; [done|]).
  destruct (classify_change cur c) eqn:Hk;
    [apply gated_inv in Hr as [(-> & Ha & Hcl & Hres)|(vias & Hr & Hau)]; [by auto|]..|].
  - apply do_tighten_effect in Hr as (Ha & -> & Hres & Hv & Hsn). split; [done|]. right. right.
    rewrite Hv, Hres, Hid. split_and!; done.
  - apply do_narrow_effect in Hr as (-> & [[Ha Hs]|(Ha & Hres & Hv & Hauth & Hver & Hn)]);
      (split; [done|]); [by left|]. right. right. rewrite Hv, Hres. split_and!; done.
  - apply do_state_effect in Hr as (-> & [[Ha Hs]|(Ha & Hres & Hv & Ht & Hrk & Hap & Hsn)]);
      (split; [done|]); [by left|]. right. right. rewrite Hv, Hres, Hid. split_and!; try done.
    unfold classify_change in Hk. destruct (ch_declassification c) as [d|] eqn:Hd.
    + exists d. cbn in Ht, Hrk, Hap, Hsn. split_and!; done.
    + by repeat case_match.
  - injection Hr as <- <-. split; [done|]. right. left. done.
Qed.
End gate.

Lemma moved_in {A} `{EqDecision A} (new : option A) cur field x : x ∈ moved new cur field → x = field.
Proof.
  unfold moved. destruct new; [case_bool_decide|]; [intros []%elem_of_nil| |intros []%elem_of_nil].
  by intros ?%list_elem_of_singleton.
Qed.

(** ** Properties *)

Section properties.
Context (H : string → string) (clk : nat → Z) (iter : gset string → list string) (admin : string).

(** C34: a mutation that is refused writes nothing; one that is allowed and is no noop
    was authorised for every security field (guards, compartments, conflict classes,
    sensitivity, declassification state) it asks another value for than the entity has, by
    the admin default or a scope its principal holds. A request is a narrowing exactly when
    it drops a guard, compartment or conflict class or lowers the sensitivity; an allowed
    narrowing also had an approving authority and the declassify verdict. An allowed state
    move went forward, reaching approved only under an authority. *)
Theorem reclassify_authority s ts na ne id c rq s' r :
  reclassify H clk iter admin s ts na ne id c rq = Ok (s', r) →
  ∃ cur, get_entity s id = Some cur ∧ mr_class r = classify_change cur c ∧
    (mr_class r = NARROW ↔ weakens cur c) ∧
    (mr_allowed r = false ∨ mr_class r = NOOP → s' = s) ∧
    (mr_allowed r = true → mr_class r ≠ NOOP →
      (∀ f, moves cur c f → ∃ w, (f, w) ∈ mr_via r ∧
        authorised admin s (default admin (rq_principal rq)) f w) ∧
      (mr_class r = NARROW →
        has_authority (rq_authority rq) = true ∧ rq_verdict rq = Some DECLASSIFY_VERDICT) ∧
      (mr_class r = STATE → ∃ d, ch_declassification c = Some d ∧ d ∈ DECLASSIFICATION_STATES ∧
        rank DECLASSIFICATION_STATES (current_declass_state cur) < rank DECLASSIFICATION_STATES d ∧
        (d = "approved" → has_authority (rq_authority rq) = true))).
Proof.
  intros (cur & Hcur & _ & _ & Hk & Hcases)%reclassify_cases. exists cur. split; [done|].
  split; [done|]. split; [by rewrite Hk, narrow_weakens|].
  destruct Hcases as [[-> Ha]|[(-> & Ha & Hn)|(Ha & Hau & Hm)]].
  - split; [done|]. congruence.
  - split; [done|]. congruence.
  - split.
    + intros [?|Hn]; [congruence|]. by rewrite Hn in Hm.
    + intros _ _. split; [intros f Hf%moves_touched; by apply Hau|]. destruct (mr_class r); split; try done.
      * by destruct Hm as (? & ? & _).
      * intros _. destruct Hm as (d & ? & ? & ? & ? & _). by exists d.
Qed.

(** whatever a mutation request asks and whoever asks it, the entity it names
    loses no guard, compartment or conflict class: at worst a new derivative carries
    less, under a fresh id, recorded as derived from the still guarded source. No other
    entity changes, no provenance edge disappears, and the named entity keeps its kind,
    digest, locator, integrity and status. *)
Theorem reclassify_never_narrows s ts na ne id c rq s' r :
  reclassify H clk iter admin s ts na ne id c rq = Ok (s', r) → ne ≠ id →
  ∃ cur cur', get_entity s id = Some cur ∧ get_entity s' id = Some cur' ∧
    e_guards cur ⊆ e_guards cur' ∧ e_compartments cur ⊆ e_compartments cur' ∧
    e_conflict_classes cur ⊆ e_conflict_classes cur' ∧
    e_kind cur' = e_kind cur ∧ e_digest cur' = e_digest cur ∧ e_locator cur' = e_locator cur ∧
    e_integrity cur' = e_integrity cur ∧ e_status cur' = e_status cur ∧
    edge_set s ⊆ edge_set s' ∧
    (∀ x, x ≠ id → mr_result r ≠ Some x → get_entity s' x = get_entity s x) ∧
    (mr_allowed r = true → mr_class r = NARROW → mr_result r = Some ne ∧ feeds s' id ne ∧
      ∃ out, get_entity s' ne = Some out ∧ e_guards out = default (e_guards cur) (ch_guards c)).
Proof.
  intros (cur & Hcur & Hid & _ & Hk & Hcases)%reclassify_cases Hne. exists cur.
  destruct Hcases as [[-> Ha]|[(-> & Ha & Hn)|(Ha & _ & Hm)]].
  - exists cur. split_and!; done || congruence.
  - exists cur. split_and!; done || congruence.
  - destruct (mr_class r) eqn:Hcl; [| | |done].
    + destruct Hm as (Hres & (e & He & Hg & Hc & Hcf & Hids) & Ho & Hs).
      destruct (not_narrow cur c) as (R1 & R2 & R3 & _); [congruence|].
      rewrite Hid in *. exists e. rewrite Hs, Hg, Hc, Hcf. destruct Hids as (? & ? & ? & ? & ? & _).
      split_and!; try done; try (by apply removes_false); try congruence. auto.
    + destruct Hm as (_ & _ & Hres & ((e & He & Hg & _) & Ho) & Hf & Hs & Hsrc).
      rewrite Hid in *. exists cur. rewrite Hsrc by congruence. split_and!; try done.
      * intros x Hx Hr. apply Ho. congruence.
      * intros _ _. split_and!; try done. by exists e.
    + destruct Hm as (d & _ & _ & _ & _ & Hres & (e & He & Hg & Hc & Hcf & Hids) & Ho & Hs).
      rewrite Hid in *. exists e. rewrite Hs, Hg, Hc, Hcf. destruct Hids as (? & ? & ? & ? & ? & _).
      split_and!; try done; try congruence. auto.
Qed.

(** a tightening request writes the sensitivity and the declassification state it
    carries without the checks the state path makes: an allowed one leaves the entity
    reading exactly the state it asked for, forward or backward, approved with no
    authority included, and a sensitivity outside the vocabulary, which ranks above
    every known one, reads back as internal. *)
Theorem tighten_unchecked_facets s ts na ne id c rq s' r cur :
  reclassify H clk iter admin s ts na ne id c rq = Ok (s', r) →
  get_entity s id = Some cur → jwf (e_facets cur) →
  mr_allowed r = true → classify_change cur c = TIGHTEN →
  ∃ cur', get_entity s' id = Some cur' ∧
    (∀ d, ch_declassification c = Some d → d ∈ DECLASSIFICATION_STATES →
       current_declass_state cur' = d) ∧
    (∀ v, ch_sensitivity c = Some v → v ≠ "" → v ∉ SENSITIVITY_ORDER →
       sensitivity_rank (current_sensitivity cur) < sensitivity_rank v ∧
       current_sensitivity cur' = "internal").
Proof.
  intros (cur0 & Hcur & Hid & _ & Hk & Hcases)%reclassify_cases Hcur' Hw Ha Hcl.
  assert (cur0 = cur) as -> by congruence. clear Hcur'. rewrite Hcl in Hk.
  destruct Hcases as [[_ ?]|[(_ & _ & ?)|(_ & _ & Hm)]]; [congruence..|]. rewrite Hk in Hm.
  destruct Hm as (_ & (e & He & _ & _ & _ & _ & _ & _ & _ & _ & Hf) & _ & _).
  exists e. rewrite <- Hid. split; [done|].
  match type of Hf with jwf (JObj ?f) → _ => set (fs := f) in *;
    assert (Hfs : jwf (JObj fs) ∧ fs ≠ []) by (by apply tighten_facets_wf) end.
  destruct Hfs as [Hfs Hne]. specialize (Hf Hfs Hne).
  set (plain := with_security cur ∅ ∅ ∅ fs 0).
  assert (Hread : ∀ key voc dflt, facet e key voc dflt = facet plain key voc dflt)
    by (intros; by apply (facet_norm _ _ fs)).
  split.
  - intros d Hd Hin%isin_spec. unfold current_declass_state. rewrite Hread. unfold facet, plain.
    cbn [e_facets with_security]. subst fs. unfold tighten_facets. rewrite Hd, od_get_set_eq.
    by rewrite Hin.
  - intros v Hv Hv0 Hvn. split.
    + unfold sensitivity_rank at 2.
      assert (sensitivity_rank (current_sensitivity cur) < 4).
      { apply (rank_known SENSITIVITY_ORDER). unfold current_sensitivity, facet.
        repeat case_match; try (by apply (bool_decide_unpack _)). by apply isin_spec. }
      assert (¬ rank SENSITIVITY_ORDER v < 4) by (intros Hlt; by apply Hvn, rank_known).
      lia.
    + unfold current_sensitivity. rewrite Hread. unfold facet, plain.
      cbn [e_facets with_security]. subst fs. unfold tighten_facets. rewrite Hv.
      apply truthy_true in Hv0. rewrite Hv0.
      assert (isin v SENSITIVITY_ORDER = false) as Hf' by (by apply bool_decide_eq_false).
      destruct (ch_declassification c); [rewrite od_get_set_ne by done|];
        by rewrite od_get_set_eq, Hf'.
Qed.

(** An allowed narrowing drops the sensitivity: the derivative has no facets, so it
    reads as internal whatever the source's sensitivity was and whatever sensitivity the
    request asked for, and a request that leaves the sensitivity alone needs no grant for
    it. *)
Theorem narrow_drops_sensitivity s ts na ne id c rq s' r cur :
  reclassify H clk iter admin s ts na ne id c rq = Ok (s', r) →
  get_entity s id = Some cur → mr_allowed r = true → mr_class r = NARROW →
  (∃ out, get_entity s' ne = Some out ∧ feeds s' id ne ∧ current_sensitivity out = "internal" ∧
     current_declass_state out = "none") ∧
  (ch_sensitivity c = None → "security.sensitivity" ∉ touched_fields cur c).
Proof.
  intros (cur0 & Hcur & Hid & _ & Hk & Hcases)%reclassify_cases Hcur' Ha Hcl.
  assert (cur0 = cur) as -> by congruence. clear Hcur'.
  destruct Hcases as [[_ ?]|[(_ & _ & ?)|(_ & _ & Hm)]]; [congruence..|]. rewrite Hcl in Hm.
  destruct Hm as (_ & _ & _ & ((e & He & _ & _ & _ & _ & _ & Hf) & _) & Hfd & _ & _). split.
  - exists e. rewrite <- Hid. split_and!; try done;
      unfold current_sensitivity, current_declass_state, facet; by rewrite Hf.
  - intros Hs. unfold touched_fields. rewrite Hs, elem_of_list_to_set, !elem_of_app.
    intros [Hin%moved_in|[Hin%moved_in|[Hin%moved_in|[Hin|Hin%moved_in]]]]; try discriminate Hin.
    by apply elem_of_nil in Hin.
Qed.
End properties.

(** ** Witnesses: a recorded file is tightened and then declassified *)

Definition demo_clk (_ : nat) : Z := 9.
Definition demo_id : string := "file:/tmp/a".
Definition demo_store : LineageStore :=
  match record_entity toy_digest empty_store 7 sample_entity with
  | Ok r => r.1
  | Err _ => empty_store
  end.
Definition demo_request : request :=
  {| rq_actor := "user:1000"; rq_principal := None; rq_authority := None; rq_reason := "";
     rq_verdict := None; rq_propagate := true; rq_output_kind := "export";
     rq_output_digest := None; rq_transform := None; rq_destination := None |}.
Definition demo_approval : request :=
  {| rq_actor := "user:1000"; rq_principal := None; rq_authority := Some "admin:1"; rq_reason := "";
     rq_verdict := Some "declassify"; rq_propagate := false; rq_output_kind := "export";
     rq_output_digest := None; rq_transform := None; rq_destination := None |}.
(** One more guard, an unknown sensitivity and the approved state, without an authority *)
Definition demo_tighten : SecurityChange :=
  {| ch_guards := Some {["local-only"; "no-cross-contaminate"]}; ch_compartments := None;
     ch_conflict_classes := None; ch_sensitivity := Some "top-secret";
     ch_declassification := Some "approved" |}.
Definition demo_narrow : SecurityChange :=
  {| ch_guards := Some ∅; ch_compartments := None; ch_conflict_classes := None;
     ch_sensitivity := None; ch_declassification := None |}.

Definition demo_run (c : SecurityChange) (rq : request) : result mutation_error (LineageStore * MutationResult) :=
  reclassify toy_digest demo_clk elements ADMIN_APP_PRINCIPAL demo_store 9 "activity:1" "entity:1"
    demo_id c rq.

Lemma demo_current : get_entity demo_store demo_id = Some (stored_entity 7 sample_entity).
Proof.
  unfold demo_store. destruct (record_entity toy_digest empty_store 7 sample_entity) as [[s n]|e] eqn:E.
  - apply record_entity_frame in E as (_ & Hg & _); [exact Hg|exact sample_facets_wf].
  - discriminate E.
Qed.

(** What a run answers, decided by evaluation *)
Lemma demo_run_ok c rq k :
  match demo_run c rq with Ok (_, r) => mr_allowed r = true ∧ mr_class r = k | Err _ => False end →
  ∃ s' r, demo_run c rq = Ok (s', r) ∧ mr_allowed r = true ∧ mr_class r = k.
Proof. destruct (demo_run c rq) as [[s' r]|e]; [|done]. intros [Ha Hk].
  exists s', r. split; [reflexivity|]. split; [exact Ha|exact Hk].
Qed.

Lemma demo_tighten_ok : ∃ s' r,
  demo_run demo_tighten demo_request = Ok (s', r) ∧ mr_allowed r = true ∧ mr_class r = TIGHTEN.
Proof. apply demo_run_ok. by vm_compute. Qed.
Lemma demo_narrow_ok : ∃ s' r,
  demo_run demo_narrow demo_approval = Ok (s', r) ∧ mr_allowed r = true ∧ mr_class r = NARROW.
Proof. apply demo_run_ok. by vm_compute. Qed.

Lemma reclassify_authority_witness :
  ∃ s' r, demo_run demo_narrow demo_approval = Ok (s', r) ∧ mr_class r = NARROW ∧
    ∃ cur, get_entity demo_store demo_id = Some cur ∧ mr_class r = classify_change cur demo_narrow.
Proof.
  destruct demo_narrow_ok as (s' & r & Hr & Ha & Hk). exists s', r. split; [exact Hr|]. split; [exact Hk|].
  destruct (reclassify_authority _ _ _ _ _ _ _ _ _ _ _ _ _ Hr) as (cur & Hcur & Hcl & _).
  exists cur. split; [exact Hcur|exact Hcl].
Defined.

Lemma reclassify_never_narrows_witness :
  ∃ s' r, demo_run demo_narrow demo_approval = Ok (s', r) ∧ "entity:1" ≠ demo_id ∧
    ∃ cur cur', get_entity demo_store demo_id = Some cur ∧ get_entity s' demo_id = Some cur' ∧
      e_guards cur ⊆ e_guards cur'.
Proof.
  destruct demo_narrow_ok as (s' & r & Hr & _ & _). exists s', r. split; [exact Hr|]. split; [discriminate|].
  destruct (reclassify_never_narrows _ _ _ _ _ _ _ _ _ _ _ _ _ Hr) as (cur & cur' & H1 & H2 & H3 & _);
    [discriminate|]. exists cur, cur'. split; [exact H1|]. split; [exact H2|exact H3].
Defined.

Lemma tighten_unchecked_facets_witness :
  ∃ s' r cur', demo_run demo_tighten demo_request = Ok (s', r) ∧ rq_authority demo_request = None ∧
    get_entity s' demo_id = Some cur' ∧ current_declass_state cur' = "approved" ∧
    current_sensitivity cur' = "internal".
Proof.
  destruct demo_tighten_ok as (s' & r & Hr & Ha & Hk).
  destruct (tighten_unchecked_facets _ _ _ _ _ _ _ _ _ _ _ _ _ _ Hr demo_current) as (cur' & Hc & Hd & Hs).
  - exact (norm_wf _ sample_facets_wf).
  - exact Ha.
  - by vm_compute.
  - exists s', r, cur'. split; [exact Hr|]. split; [reflexivity|]. split; [exact Hc|]. split.
    + apply (Hd "approved"); [reflexivity|]. by apply (bool_decide_unpack _).
    + apply (Hs "top-secret"); [reflexivity|discriminate|]. by apply (bool_decide_unpack _).
Defined.

Lemma narrow_drops_sensitivity_witness :
  ∃ s' r out, demo_run demo_narrow demo_approval = Ok (s', r) ∧ get_entity s' "entity:1" = Some out ∧
    current_sensitivity out = "internal".
Proof.
  destruct demo_narrow_ok as (s' & r & Hr & Ha & Hk).
  destruct (narrow_drops_sensitivity _ _ _ _ _ _ _ _ _ _ _ _ _ _ Hr demo_current Ha Hk)
    as [(out & Ho & _ & Hs & _) _].
  exists s', r, out. split; [exact Hr|]. split; [exact Ho|exact Hs].
Defined.

End Mutation.
