(* ===== verification/Transfer.v ===== *)
(** * Transfers between silos

    [src/broker/transfer_protocol.py] and the broker methods that use its ledger,
    [RelayTransfer] and [GetTransferStatus] of [src/broker/qdistro_admin_broker.py]: the
    strict reading of what a receiver answers, and the ledger of payload-free receipts.
    What the bus and the relay answer, clock readings and drawn tokens are arguments; an
    untyped argument is a [json] value. A row is shared between the ledger and the closures
    of one call; a closure writes through it, so a write is an update of the row under its
    token while the ledger still holds it, and nothing otherwise. *)

From S2P Require Import Prelude Json Grants.
Import Json.

Module Transfer.

(** [1024 * 1024] *)
Definition MAX_BYTES : Z := 1048576.
Definition TERMINAL : list string := ["applied"; "declined"; "failed"; "rejected"].
Definition STATES : list string := TERMINAL ++ ["staged"; "unknown"].

Inductive transfer_error :=
| TE_budget
| TE_json (e : json_error)
| TE_not_object
| TE_identity
| TE_caps_version
| TE_caps_malformed
| TE_payload_text
| TE_payload_size
| TE_not_accepted
| TE_receipt_malformed
| TE_receipt_identity
| TE_capacity
| TE_other_actor.

(** ** Reading *)

(** [len(s.encode('utf-8'))] *)
Fixpoint utf8_len (s : string) : Z :=
  match s with
  | "" => 0
  | String c s' => ((if (ord c <? 128)%N then 1 else 2) + utf8_len s')%Z
  end.

Definition strict_hooks : hooks := {| unique_keys := true; no_constants := true |}.

(** [load_object]: the entries of the object *)
Definition load_object (raw : json) : result transfer_error (list (string * json)) :=
  match raw with
  | JStr raw =>
      if (8192 <? utf8_len raw)%Z then Err TE_budget
      else match loads_with strict_hooks raw with
           | Ok (JObj d) => Ok d
           | Ok _ => Err TE_not_object
           | Err e => Err (TE_json e)
           end
  | _ => Err TE_budget
  end.

Definition str_len (s : string) : Z := Z.of_nat (String.length s).

(** No character below 32 and no 127 *)
Definition no_controls (s : string) : bool :=
  forall_char (λ c, negb (ord c <? 32)%N && negb (ord c =? 127)%N) s.

(** [identity] *)
Definition identity (empty : bool) (value : json) : result transfer_error string :=
  match value with
  | JStr v =>
      if (128 <? str_len v)%Z || negb (no_controls v) || (negb empty && negb (truthy v))
      then Err TE_identity else Ok v
  | _ => Err TE_identity
  end.

Definition jget (d : list (string * json)) (k : string) : json := default JNull (od_get d k).

(** [type(v) is int and v == 1] *)
Definition is_version_1 (v : json) : bool := match v with JInt 1 => true | _ => false end.
Definition is_bool (v : json) : bool := match v with JBool _ => true | _ => false end.

Record Caps := {
  c_instance : string;
  c_kinds : list string;
  c_max_bytes : Z;
  c_available : bool;
  c_confirmation_required : bool;
  c_reason : string;
}.

(** The tests on one advertised kind *)
Definition kind_ok (k : json) : bool :=
  match k with
  | JStr k => truthy k && negb (128 <? str_len k)%Z && negb (has_char (ascii_of_N 0) k)
              && negb (has_char "*" k)
  | _ => false
  end.

(** [for kind in kinds: identity(kind)] *)
Fixpoint identities (l : list json) : result transfer_error (list string) :=
  match l with
  | [] => Ok []
  | v :: l' => let* x := identity false v in let* xs := identities l' in Ok (x :: xs)
  end.

(** [capabilities] *)
Definition capabilities (raw : json) : result transfer_error Caps :=
  let* obj := load_object raw in
  if negb (is_version_1 (jget obj "version")) then Err TE_caps_version
  else
    let* instance := identity false (jget obj "instance_id") in
    match jget obj "kinds", jget obj "max_bytes", jget obj "encoding", jget obj "available",
          jget obj "confirmation_required", default (JStr "") (od_get obj "reason") with
    | JArr kinds, JInt max_bytes, JStr encoding, JBool available, JBool confirmation, JStr reason =>
        if bool_decide (kinds = []) || (32 <? Z.of_nat (length kinds))%Z || negb (forallb kind_ok kinds)
           || negb ((0 <? max_bytes)%Z && (max_bytes <=? MAX_BYTES)%Z)
           || negb (bool_decide (encoding = "utf-8"))
        then Err TE_caps_malformed
        else
          let* ks := identities kinds in
          Ok {| c_instance := instance; c_kinds := ks; c_max_bytes := max_bytes;
                c_available := available; c_confirmation_required := confirmation;
                c_reason := str_take 160 reason |}
    | _, _, _, _, _, _ => Err TE_caps_malformed
    end.

(** [payload] *)
Definition payload (kind : string) (value : json) (caps : Caps) : result transfer_error unit :=
  match value with
  | JStr v =>
      if has_char (ascii_of_N 0) v then Err TE_payload_text
      else if (MAX_BYTES <? utf8_len v)%Z then Err TE_payload_size
      else if negb (c_available caps) || negb (bool_decide (kind ∈ c_kinds caps))
              || (c_max_bytes caps <? utf8_len v)%Z
      then Err TE_not_accepted
      else Ok tt
  | _ => Err TE_payload_text
  end.

Record Receipt := {
  r_instance : string;
  r_transfer_id : string;
  r_state : string;
  r_reason : string;
}.

(** [receipt]; its version is always 1. *)
Definition receipt (instance token state reason : string) : Receipt :=
  {| r_instance := instance; r_transfer_id := token; r_state := state;
     r_reason := str_take 160 reason |}.

(** The dictionary [receipt] returns *)
Definition receipt_json (r : Receipt) : json :=
  JObj [("version", JInt 1); ("instance_id", JStr (r_instance r));
        ("transfer_id", JStr (r_transfer_id r)); ("state", JStr (r_state r));
        ("reason", JStr (r_reason r))].

(** [validate_receipt] *)
Definition validate_receipt (raw : json) (expected_instance : string) (expected_id : option string)
    : result transfer_error Receipt :=
  let* obj := load_object raw in
  match jget obj "state", jget obj "reason" with
  | JStr state, JStr reason =>
      if negb (is_version_1 (jget obj "version")) || negb (bool_decide (state ∈ STATES))
         || negb (match jget obj "instance_id" with
                  | JStr i => bool_decide (i = expected_instance) | _ => false end)
         || (160 <? str_len reason)%Z
      then Err TE_receipt_malformed
      else
        let* token := identity (bool_decide (state ∈ ["rejected"; "unknown"]))
                        (jget obj "transfer_id") in
        if match expected_id with Some e => negb (bool_decide (token = e)) | None => false end
        then Err TE_receipt_identity
        else Ok (receipt expected_instance token state reason)
  | _, _ => Err TE_receipt_malformed
  end.

(** ** The ledger *)

(** [_peer_info]'s tuple *)
Record Actor := { a_uid : Z; a_pid : Z; a_exe : string; a_starttime : Z }.
#[export] Instance Actor_eq_dec : EqDecision Actor.
Proof. solve_decision. Defined.

(** The route without its bus connection *)
Record Route := { ro_uid : Z; ro_service : string; ro_relay_owner : string; ro_receiver_owner : string }.

Record lrow := {
  l_actor : Actor;
  l_route : Route;
  l_expires : Z;
  l_receiver_id : string;
  l_receipt : Receipt;
}.

Record ReceiptLedger := { capacity : Z; ttl : Z; rows : list (string * lrow) }.
Definition new_ledger (capacity ttl : Z) : ReceiptLedger :=
  {| capacity := capacity; ttl := ttl; rows := [] |}.
Definition with_rows (s : ReceiptLedger) (l : list (string * lrow)) : ReceiptLedger :=
  {| capacity := capacity s; ttl := ttl s; rows := l |}.

Definition terminal (r : lrow) : bool := bool_decide (r_state (l_receipt r) ∈ TERMINAL).

(** [_expire] *)
Definition expire (s : ReceiptLedger) (now : Z) : ReceiptLedger :=
  with_rows s (filter (λ p, ¬ (l_expires p.2 ≤ now)%Z) (rows s)).

(** The first terminal row *)
Definition first_terminal (l : list (string * lrow)) : option string :=
  fst <$> find (λ p, terminal p.2) l.

Definition full (s : ReceiptLedger) : bool := (capacity s <=? Z.of_nat (length (rows s)))%Z.

(** The eviction of [reserve] *)
Definition make_room (s : ReceiptLedger) : ReceiptLedger :=
  if full s then
    match first_terminal (rows s) with
    | Some token => with_rows s (od_del (rows s) token)
    | None => s
    end
  else s.

(** [reserve] at two clock readings, with the token it would draw. A refusal has still
    expired and evicted rows. *)
Definition reserve (s : ReceiptLedger) (now now2 : Z) (token : string) (actor : Actor)
    (route : Route) (instance : string) : ReceiptLedger * result transfer_error string :=
  let s := make_room (expire s now) in
  if full s then (s, Err TE_capacity)
  else (with_rows s (od_set (rows s) token
          {| l_actor := actor; l_route := route; l_expires := (now2 + ttl s)%Z;
             l_receiver_id := ""; l_receipt := receipt instance token "staged" "awaiting dispatch" |}),
        Ok token).

(** [get] *)
Definition get (s : ReceiptLedger) (now : Z) (token : string) (actor : Actor)
    : ReceiptLedger * result transfer_error (option lrow) :=
  let s := expire s now in
  match od_get (rows s) token with
  | Some row => if bool_decide (l_actor row = actor) then (s, Ok (Some row))
                else (s, Err TE_other_actor)
  | None => (s, Ok None)
  end.

(** A write through a row the caller holds *)
Definition write_row (s : ReceiptLedger) (token : string) (f : lrow → lrow) : ReceiptLedger :=
  match od_get (rows s) token with
  | Some row => with_rows s (od_set (rows s) token (f row))
  | None => s
  end.
Definition set_receipt (r : Receipt) (row : lrow) : lrow :=
  {| l_actor := l_actor row; l_route := l_route row; l_expires := l_expires row;
     l_receiver_id := l_receiver_id row; l_receipt := r |}.
Definition set_dispatched (receiver : string) (r : Receipt) (row : lrow) : lrow :=
  {| l_actor := l_actor row; l_route := l_route row; l_expires := l_expires row;
     l_receiver_id := receiver; l_receipt := r |}.

(** ** The broker's use of it *)

(** What the silo lookup lets through: the caller's own uid, or a silo that is not
    reported as anything but active *)
Definition silo_open (actor : Actor) (uid : Z) (state : option string) : bool :=
  bool_decide (a_uid actor = uid) ||
  match state with Some st => bool_decide (st = "Active") | None => true end.

(** A receiver's receipt under the ledger's own token *)
Definition as_token (token : string) (r : Receipt) : Receipt :=
  {| r_instance := r_instance r; r_transfer_id := token; r_state := r_state r;
     r_reason := r_reason r |}.

(** What the world answers a dispatch: the caller's identity now, the silo state, whether
    the relay still has its owner, and the receiver's reply when the call returns *)
Record dispatch_world := {
  dw_actor : option Actor;
  dw_state : option string;
  dw_relay_pinned : bool;
  dw_reply : option string;
}.

(** [forward]: the dispatch once the transfer is approved *)
Definition forward (s : ReceiptLedger) (now : Z) (token : string) (actor : Actor) (uid : Z)
    (instance : string) (w : dispatch_world) : ReceiptLedger :=
  let lost s := write_row s token
    (set_receipt (receipt instance token "unknown" "dispatch outcome unknown")) in
  if negb (bool_decide (dw_actor w = Some actor)) then lost s
  else
    let '(s, row) := get s now token actor in
    match row with
    | Ok (Some _) =>
        if negb (silo_open actor uid (dw_state w)) || negb (dw_relay_pinned w) then lost s
        else match dw_reply w with
             | None => lost s
             | Some raw =>
                 match validate_receipt (JStr raw) instance None with
                 | Ok r => write_row s token (set_dispatched (r_transfer_id r) (as_token token r))
                 | Err _ => lost s
                 end
             end
    | _ => lost s
    end.

(** [error]: the approval or the active gate refused *)
Definition refuse (s : ReceiptLedger) (token instance : string) : ReceiptLedger :=
  write_row s token (set_receipt (receipt instance token "rejected" "approval or active gate denied")).

(** [GetTransferStatus]: the receipt it answers *)
Definition status (s : ReceiptLedger) (now : Z) (token : string) (actor : Actor)
    (w : dispatch_world) : ReceiptLedger * result transfer_error Receipt :=
  let '(s, r) := get s now token actor in
  match r with
  | Err e => (s, Err e)
  | Ok None => (s, Ok (receipt "" (str_take 128 token) "unknown" "receipt expired or unknown"))
  | Ok (Some row) =>
      if terminal row || negb (truthy (l_receiver_id row)) then (s, Ok (l_receipt row))
      else
        let lost := receipt (r_instance (l_receipt row)) token "unknown" "status outcome unknown" in
        let answer :=
          if negb (dw_relay_pinned w) || negb (silo_open actor (ro_uid (l_route row)) (dw_state w))
          then lost
          else match dw_reply w with
               | None => lost
               | Some raw =>
                   match validate_receipt (JStr raw) (r_instance (l_receipt row))
                           (Some (l_receiver_id row)) with
                   | Ok r => as_token token r
                   | Err _ => lost
                   end
               end in
        (write_row s token (set_receipt answer), Ok answer)
  end.

(** ** Reading *)

(** [load_object] answers on every text: the reader's fuel never runs out. *)
Lemma load_object_fuel raw : load_object raw ≠ Err (TE_json JE_fuel).
Proof.
  unfold load_object. destruct raw as [| | | |raw| |]; try done.
  destruct (8192 <? utf8_len raw)%Z; [done|].
  pose proof (loads_total strict_hooks raw) as Ht.
  destruct (loads_with strict_hooks raw) as [[]|e]; try done. congruence.
Qed.

Lemma validate_receipt_ok raw instance id r :
  validate_receipt raw instance id = Ok r →
  r_instance r = instance ∧ r_state r ∈ STATES ∧ match id with Some e => r_transfer_id r = e | None => True end.
Proof.
  unfold validate_receipt. intros (obj & _ & Hr)%result_bind_ok.
  destruct (jget obj "state") as [| | | |state| |]; try done.
  destruct (jget obj "reason") as [| | | |reason| |]; try done.
  destruct (negb _ || negb _ || negb _ || _) eqn:Hb; [done|]. bool_hyps.
  apply result_bind_ok in Hr as (token & _ & Hr).
  destruct id as [e|]; [destruct (decide (token = e)) as [->|Hne]|].
  - rewrite bool_decide_true in Hr by done. by injection Hr as <-.
  - rewrite bool_decide_false in Hr by done. discriminate Hr.
  - by injection Hr as <-.
Qed.

(** ** The ledger *)

Lemma expire_get s now token row :
  NoDup (keys (rows s)) → od_get (rows (expire s now)) token = Some row →
  od_get (rows s) token = Some row ∧ (now < l_expires row)%Z.
Proof.
  intros Hnd Hg%od_get_elem. cbn [expire rows with_rows] in Hg.
  apply list_elem_of_filter in Hg as [He Hg]. cbn [snd] in He.
  split; [by apply od_elem_get|lia].
Qed.

Lemma expire_keeps s now token row :
  NoDup (keys (rows s)) → od_get (rows s) token = Some row → (now < l_expires row)%Z →
  od_get (rows (expire s now)) token = Some row.
Proof.
  intros Hnd Hg%od_get_elem He. cbn [expire rows with_rows].
  apply od_elem_get; [by apply od_filter_NoDup|]. apply list_elem_of_filter.
  split; [cbn [snd]; lia|done].
Qed.

Lemma first_terminal_some l token :
  first_terminal l = Some token → ∃ row, (token, row) ∈ l ∧ terminal row = true.
Proof.
  unfold first_terminal. destruct (find _ l) as [[k r]|] eqn:Hf; [|done].
  intros [= <-]. apply find_some in Hf as [Hin Ht]. exists r. split; [by apply list_elem_of_In|done].
Qed.

Lemma first_terminal_none l : first_terminal l = None → ∀ p, p ∈ l → terminal p.2 = false.
Proof.
  unfold first_terminal. destruct (find _ l) eqn:Hf; [done|]. intros _ p Hp%list_elem_of_In.
  by apply (find_none _ _ Hf).
Qed.

(** What every reachable ledger keeps at clock reading [t] *)
Record ledger_inv (s : ReceiptLedger) (t : Z) : Prop := {
  li_keys : NoDup (keys (rows s));
  li_bound : (Z.of_nat (length (rows s)) ≤ Z.max 0 (capacity s))%Z;
  li_rows : ∀ token row, od_get (rows s) token = Some row →
    r_transfer_id (l_receipt row) = token ∧ r_state (l_receipt row) ∈ STATES ∧
    (l_expires row ≤ t + ttl s)%Z;
}.

Lemma expire_inv s t now : ledger_inv s t → ledger_inv (expire s now) t.
Proof.
  intros [Hk Hb Hr]. split.
  - by apply od_filter_NoDup.
  - cbn [expire with_rows rows capacity]. pose proof (length_filter (λ p, ¬ (l_expires p.2 ≤ now)%Z) (rows s)). lia.
  - intros token row [Hg _]%expire_get; [|done]. by apply Hr.
Qed.

Lemma make_room_inv s t : ledger_inv s t → ledger_inv (make_room s) t.
Proof.
  intros Hi. unfold make_room. destruct (full s); [|done].
  destruct (first_terminal (rows s)) as [token|]; [|done]. destruct Hi as [Hk Hb Hr]. split.
  - by apply od_del_NoDup.
  - cbn [with_rows rows capacity]. pose proof (od_del_length_le (rows s) token). lia.
  - cbn [with_rows rows ttl]. intros token' row Hg. apply Hr.
    destruct (decide (token = token')) as [->|Hne]; [by rewrite od_get_del_eq in Hg|].
    by rewrite od_get_del_ne in Hg.
Qed.

Lemma time_inv s t t' : ledger_inv s t → (t ≤ t')%Z → ledger_inv s t'.
Proof.
  intros [Hk Hb Hr] Ht. split; [done..|]. intros token row Hg.
  destruct (Hr _ _ Hg) as (? & ? & ?). split_and!; done || lia.
Qed.

Lemma reserve_inv s t now now2 token actor route instance :
  ledger_inv s t → (t ≤ now2)%Z → ledger_inv (reserve s now now2 token actor route instance).1 now2.
Proof.
  intros Hi Ht. unfold reserve. set (s1 := make_room (expire s now)).
  assert (ledger_inv s1 now2) as Hs1.
  { eapply time_inv; [|done]. by apply make_room_inv, expire_inv. }
  destruct (full s1) eqn:Hf; [done|]. cbn [fst]. destruct Hs1 as [Hk Hb Hr].
  unfold full in Hf. apply Z.leb_gt in Hf. split; cbn [with_rows rows capacity ttl].
  - by apply od_set_NoDup.
  - rewrite od_set_length. case_bool_decide; lia.
  - intros token' row Hg. destruct (decide (token = token')) as [->|Hne].
    + rewrite od_get_set_eq in Hg. injection Hg as <-. cbn. split_and!; [done| |].
      * by apply (bool_decide_unpack _).
      * unfold s1, make_room. destruct (full (expire s now)); [|cbn; lia].
        destruct (first_terminal _); cbn; lia.
    + rewrite od_get_set_ne in Hg by done. by apply Hr.
Qed.

Lemma write_row_inv s t token f :
  ledger_inv s t →
  (∀ row, r_transfer_id (l_receipt (f row)) = token ∧ r_state (l_receipt (f row)) ∈ STATES ∧
     l_expires (f row) = l_expires row) →
  ledger_inv (write_row s token f) t.
Proof.
  intros Hi Hf. unfold write_row. destruct (od_get (rows s) token) as [row|] eqn:Hg; [|done].
  destruct Hi as [Hk Hb Hr]. split; cbn [with_rows rows capacity ttl].
  - by apply od_set_NoDup.
  - rewrite od_set_length, bool_decide_true; [done|]. apply od_get_is_Some. by rewrite Hg.
  - intros token' row' Hg'. destruct (decide (token = token')) as [->|Hne].
    + rewrite od_get_set_eq in Hg'. injection Hg' as <-. destruct (Hf row) as (? & ? & ->).
      split_and!; try done. by apply Hr in Hg as (_ & _ & ?).
    + rewrite od_get_set_ne in Hg' by done. by apply Hr.
Qed.

Lemma get_fst s now token actor : (get s now token actor).1 = expire s now.
Proof. unfold get. destruct (od_get _ _); [by case_bool_decide|done]. Qed.

Lemma unknown_state : "unknown" ∈ STATES.
Proof. by apply (bool_decide_unpack _). Qed.

Lemma lost_inv s t token r :
  ledger_inv s t → r_transfer_id r = token → r_state r ∈ STATES →
  ledger_inv (write_row s token (set_receipt r)) t.
Proof. intros Hi Ht Hs. by apply write_row_inv. Qed.

Lemma forward_inv s t now token actor uid instance w :
  ledger_inv s t → ledger_inv (forward s now token actor uid instance w) t.
Proof.
  intros Hi. unfold forward.
  assert (Hlost : ∀ s', ledger_inv s' t → ledger_inv (write_row s' token
    (set_receipt (receipt instance token "unknown" "dispatch outcome unknown"))) t).
  { intros s' Hs'. apply lost_inv; [done..|apply unknown_state]. }
  destruct (negb _); [by apply Hlost|].
  destruct (get s now token actor) as [s1 r] eqn:Hg.
  assert (ledger_inv s1 t) as Hi1.
  { pose proof (get_fst s now token actor) as Hs. rewrite Hg in Hs. cbn in Hs. subst s1.
    by apply expire_inv. }
  destruct r as [[row|]|e]; [|by apply Hlost..].
  destruct (negb _ || negb _); [by apply Hlost|]. destruct (dw_reply w) as [raw|]; [|by apply Hlost].
  destruct (validate_receipt _ _ _) as [r|e] eqn:Hv; [|by apply Hlost].
  apply validate_receipt_ok in Hv as (_ & Hs & _). by apply write_row_inv.
Qed.

Lemma status_inv s t now token actor w :
  ledger_inv s t → ledger_inv (status s now token actor w).1 t.
Proof.
  intros Hi. unfold status. destruct (get s now token actor) as [s1 r] eqn:Hg.
  assert (ledger_inv s1 t) as Hi1.
  { pose proof (get_fst s now token actor) as Hs. rewrite Hg in Hs. cbn in Hs. subst s1.
    by apply expire_inv. }
  destruct r as [[row|]|e]; [|done..]. destruct (terminal row || _); [done|]. cbn [fst].
  apply lost_inv; [done|..];
    destruct (negb _ || negb _); try (done || apply unknown_state);
    destruct (dw_reply w) as [raw|]; try (done || apply unknown_state);
    destruct (validate_receipt _ _ _) as [r|e] eqn:Hv; try (done || apply unknown_state).
  by apply validate_receipt_ok in Hv as (_ & Hs & _).
Qed.

(** One use of the ledger; the clock does not run backwards. *)
Inductive ledger_step : relation (ReceiptLedger * Z) :=
| ls_reserve s t now now2 token actor route instance :
    (t ≤ now)%Z → (now ≤ now2)%Z →
    ledger_step (s, t) ((reserve s now now2 token actor route instance).1, now2)
| ls_get s t now token actor :
    (t ≤ now)%Z → ledger_step (s, t) ((get s now token actor).1, now)
| ls_forward s t now token actor uid instance w :
    (t ≤ now)%Z → ledger_step (s, t) (forward s now token actor uid instance w, now)
| ls_refuse s t token instance : ledger_step (s, t) (refuse s token instance, t)
| ls_status s t now token actor w :
    (t ≤ now)%Z → ledger_step (s, t) ((status s now token actor w).1, now).

Lemma ledger_step_inv x y : ledger_step x y → ledger_inv x.1 x.2 → ledger_inv y.1 y.2.
Proof.
  destruct 1 as [s t now now2 token actor route instance H1 H2|s t now token actor Ht
    |s t now token actor uid instance w Ht|s t token instance|s t now token actor w Ht];
    cbn [fst snd]; intros Hi.
  - apply (reserve_inv _ t); [done|lia].
  - rewrite get_fst. apply (time_inv _ t); [by apply expire_inv|done].
  - apply (time_inv _ t); [by apply forward_inv|done].
  - apply lost_inv; [done..|]. by apply (bool_decide_unpack _).
  - apply (time_inv _ t); [by apply status_inv|done].
Qed.

Lemma new_ledger_inv cap ttl t : ledger_inv (new_ledger cap ttl) t.
Proof. split; [apply NoDup_nil_2|cbn; lia|done]. Qed.

Lemma reachable_ledger_inv cap tl t0 s t : rtc ledger_step (new_ledger cap tl, t0) (s, t) → ledger_inv s t.
Proof.
  intros Hr. apply (rtc_invariant _ (λ x, ledger_inv x.1 x.2) _ _ Hr).
  - apply new_ledger_inv.
  - intros a b. apply ledger_step_inv.
Qed.

(** The configuration of a ledger never changes. *)
Lemma ledger_step_config x y :
  ledger_step x y → capacity y.1 = capacity x.1 ∧ ttl y.1 = ttl x.1.
Proof.
  set (config := λ s, (capacity s, ttl s)).
  assert (Hw : ∀ s token f, config (write_row s token f) = config s).
  { intros. unfold write_row. by destruct (od_get _ _). }
  assert (Hm : ∀ s, config (make_room s) = config s).
  { intros s. unfold make_room. destruct (full s); [|done]. by destruct (first_terminal _). }
  assert (He : ∀ s now, config (expire s now) = config s) by done.
  intros Hs. enough (config y.1 = config x.1) as Hc by (injection Hc; auto).
  destruct Hs; cbn [fst].
  - unfold reserve. destruct (full _); cbn [fst]; [by rewrite Hm|].
    transitivity (config (make_room (expire s now))); [done|by rewrite Hm].
  - by rewrite get_fst.
  - unfold forward. pose proof (get_fst s now token actor) as Hg.
    destruct (get s now token actor) as [s1 r]. cbn in Hg. subst s1.
    destruct (negb _); [apply Hw|]. destruct r as [[row|]|e]; [|by rewrite Hw..].
    destruct (negb _ || negb _); [by rewrite Hw|]. destruct (dw_reply w); [|by rewrite Hw].
    destruct (validate_receipt _ _ _); by rewrite Hw.
  - apply Hw.
  - unfold status. pose proof (get_fst s now token actor) as Hg.
    destruct (get s now token actor) as [s1 r]. cbn in Hg. subst s1.
    destruct r as [[row|]|e]; [|done..]. destruct (terminal row || _); [done|].
    cbn [fst]. by rewrite Hw.
Qed.

Lemma reachable_config cap tl t0 s t :
  rtc ledger_step (new_ledger cap tl, t0) (s, t) → capacity s = cap ∧ ttl s = tl.
Proof.
  intros Hr. apply (rtc_invariant _ (λ x, capacity x.1 = cap ∧ ttl x.1 = tl) _ _ Hr); [done|].
  intros a b Hs [Hc Ht]. destruct (ledger_step_config a b Hs) as [-> ->]. done.
Qed.

(** In every ledger a broker reaches, keys are distinct, the capacity is respected
    and every row carries a receipt of its own token in a known state; a get answers a
    row exactly when the ledger holds one that has not expired and belongs to the asking
    actor, refuses another actor, and answers nothing otherwise. *)
Theorem ledger_reachable cap tl t0 s t :
  rtc ledger_step (new_ledger cap tl, t0) (s, t) →
  NoDup (keys (rows s)) ∧ (Z.of_nat (length (rows s)) ≤ Z.max 0 cap)%Z ∧
  (∀ token row, od_get (rows s) token = Some row →
     r_transfer_id (l_receipt row) = token ∧ r_state (l_receipt row) ∈ STATES) ∧
  ∀ now token actor, (get s now token actor).2 =
    match od_get (rows s) token with
    | Some row => if bool_decide (l_expires row ≤ now)%Z then Ok None
                  else if bool_decide (l_actor row = actor) then Ok (Some row)
                  else Err TE_other_actor
    | None => Ok None
    end.
Proof.
  intros Hr. destruct (reachable_config _ _ _ _ _ Hr) as [Hcap _].
  apply reachable_ledger_inv in Hr as [Hk Hb Hrow]. split_and!; [done|lia| |].
  - intros token row Hg. by destruct (Hrow _ _ Hg) as (? & ? & _).
  - intros now token actor. unfold get.
    assert (He : od_get (rows (expire s now)) token =
      match od_get (rows s) token with
      | Some row => if bool_decide (l_expires row ≤ now)%Z then None else Some row
      | None => None end).
    { destruct (od_get (rows (expire s now)) token) as [row|] eqn:He.
      - apply expire_get in He as [-> Hlt]; [|done]. by rewrite bool_decide_false by lia.
      - destruct (od_get (rows s) token) as [row|] eqn:Hg; [|done].
        case_bool_decide as Hle; [done|].
        rewrite (expire_keeps _ _ _ _ Hk Hg) in He by lia. discriminate He. }
    rewrite He. destruct (od_get (rows s) token) as [row|]; [|done].
    destruct (bool_decide (l_expires row ≤ now)%Z); [done|]. by case_bool_decide.
Qed.

Lemma expire_all s now :
  NoDup (keys (rows s)) → (∀ token row, od_get (rows s) token = Some row → (l_expires row ≤ now)%Z) →
  rows (expire s now) = [].
Proof.
  intros Hk He. cbn [expire with_rows rows]. apply list_filter_none.
  intros [token row] Hp. cbn [snd]. intros Hn. apply Hn, (He token). by apply od_elem_get.
Qed.

Lemma room_after_ttl s t now :
  ledger_inv s t → (0 < capacity s)%Z → (t + ttl s ≤ now)%Z → full (make_room (expire s now)) = false.
Proof.
  intros Hi Hcap Hlate. assert (rows (expire s now) = []) as Hnil.
  { apply expire_all; [apply Hi|]. intros token' row Hg.
    apply (li_rows _ _ Hi) in Hg as (_ & _ & Hle). lia. }
  assert (full (expire s now) = false) as Hf.
  { unfold full. rewrite Hnil. apply Z.leb_gt. cbn. lia. }
  unfold make_room. by rewrite Hf.
Qed.

Lemma room_by_eviction s t now token row :
  ledger_inv s t → (0 < capacity s)%Z → od_get (rows s) token = Some row → (now < l_expires row)%Z →
  terminal row = true → full (make_room (expire s now)) = false.
Proof.
  intros Hi Hcap Hg Hlive Ht. apply expire_keeps with (now := now) in Hg; [|apply Hi|done].
  apply (expire_inv _ _ now) in Hi as [Hk Hb _].
  unfold make_room. destruct (full (expire s now)) eqn:Hfull; [|done].
  destruct (first_terminal (rows (expire s now))) as [tk|] eqn:Hft.
  - apply first_terminal_some in Hft as (r & Hin & _). unfold full.
    cbn [with_rows capacity rows]. apply Z.leb_gt.
    assert (tk ∈ keys (rows (expire s now))) as Htk by (apply list_elem_of_fmap; by exists (tk, r)).
    pose proof (od_del_length_lt _ _ Htk) as Hlt.
    change (capacity (expire s now)) with (capacity s) in *. lia.
  - pose proof (first_terminal_none _ Hft (token, row)) as Hnt. cbn [snd] in Hnt.
    rewrite Hnt in Ht by (by apply od_get_elem). discriminate Ht.
Qed.

Lemma room_keeps s now token row :
  NoDup (keys (rows s)) → od_get (rows s) token = Some row → (now < l_expires row)%Z →
  terminal row = false → od_get (rows (make_room (expire s now))) token = Some row.
Proof.
  intros Hk Hg Hlive Hnt. apply expire_keeps with (now := now) in Hg; [|done..].
  unfold make_room. destruct (full _); [|done].
  destruct (first_terminal (rows (expire s now))) as [tk|] eqn:Hft; [|done].
  cbn [with_rows rows]. rewrite od_get_del_ne; [done|]. intros ->.
  apply first_terminal_some in Hft as (r & Hin & Ht).
  apply od_elem_get in Hin; [congruence|]. by apply od_filter_NoDup.
Qed.

(** Admission always comes back: in every reachable ledger of positive capacity a
    reservation goes through as soon as the time to live has passed since the last use,
    whatever the rows were waiting for, and at once when some live row is terminal; a
    reservation never drops a live row that is not terminal. *)
Theorem ledger_admits cap tl t0 s t now now2 token actor route instance :
  rtc ledger_step (new_ledger cap tl, t0) (s, t) → (0 < cap)%Z →
  ((t + tl ≤ now)%Z ∨
   ∃ token' row, od_get (rows s) token' = Some row ∧ (now < l_expires row)%Z ∧ terminal row = true) →
  (reserve s now now2 token actor route instance).2 = Ok token ∧
  ∀ token' row, token' ≠ token → od_get (rows s) token' = Some row → (now < l_expires row)%Z →
    terminal row = false →
    od_get (rows (reserve s now now2 token actor route instance).1) token' = Some row.
Proof.
  intros Hr Hcap Hroom. destruct (reachable_config _ _ _ _ _ Hr) as [<- <-].
  apply reachable_ledger_inv in Hr as Hi.
  assert (full (make_room (expire s now)) = false) as Hf.
  { destruct Hroom as [Hlate|(token' & row & Hg & Hlive & Ht)];
      [by eapply room_after_ttl|by eapply room_by_eviction]. }
  unfold reserve. rewrite Hf. split; [done|]. intros token' row Hne Hg Hlive Hnt.
  cbn [fst with_rows rows]. rewrite od_get_set_ne by done. by apply room_keeps; [apply Hi|..].
Qed.

(** ** Outcomes *)

Lemma expire_row s now token row :
  NoDup (keys (rows s)) → od_get (rows (expire s now)) token = Some row → od_get (rows s) token = Some row.
Proof. intros Hk Hg. by apply expire_get in Hg as [? _]. Qed.

(** A row after a write is an old row, or what was written. *)
Lemma write_row_get s token f token' row :
  od_get (rows (write_row s token f)) token' = Some row →
  od_get (rows s) token' = Some row ∨ token' = token ∧ ∃ old, od_get (rows s) token = Some old ∧ row = f old.
Proof.
  unfold write_row. destruct (od_get (rows s) token) as [old|] eqn:Hg; [|by left].
  cbn [with_rows rows]. destruct (decide (token = token')) as [->|Hne].
  - rewrite od_get_set_eq. intros [= <-]. right. split; [done|]. by exists old.
  - rewrite od_get_set_ne by done. by left.
Qed.

(** The receiver said so: its reply validates as a receipt of that state *)
Definition reported (w : dispatch_world) (instance : string) (id : option string) (state : string) : Prop :=
  ∃ raw r, dw_reply w = Some raw ∧ validate_receipt (JStr raw) instance id = Ok r ∧ r_state r = state.

(** C35: an outcome is never invented. Dispatching a transfer or asking for its status
    leaves every row as it was, drops it, or gives it the state unknown, unless the
    receiver itself reported the new state in a receipt that validates against the
    expected instance, and for a status against the receiver's own transfer id; a
    terminal receipt is never overwritten by a status query. *)
Theorem outcome_is_reported s now token actor uid instance w :
  NoDup (keys (rows s)) →
  (∀ token' row, od_get (rows (forward s now token actor uid instance w)) token' = Some row →
     od_get (rows s) token' = Some row ∨
     token' = token ∧ (r_state (l_receipt row) = "unknown" ∨
       dw_actor w = Some actor ∧ silo_open actor uid (dw_state w) = true ∧ dw_relay_pinned w = true ∧
       reported w instance None (r_state (l_receipt row)))) ∧
  (∀ token' row, od_get (rows (status s now token actor w).1) token' = Some row →
     od_get (rows s) token' = Some row ∨
     token' = token ∧ ∃ old, od_get (rows s) token = Some old ∧ l_actor old = actor ∧
       terminal old = false ∧ l_receiver_id old ≠ "" ∧ (r_state (l_receipt row) = "unknown" ∨
       reported w (r_instance (l_receipt old)) (Some (l_receiver_id old)) (r_state (l_receipt row)))).
Proof.
  intros Hk.
  assert (Hx : ∀ tk rw, od_get (rows (expire s now)) tk = Some rw → od_get (rows s) tk = Some rw)
    by (intros; by eapply expire_row).
  split; intros token' row.
  - unfold forward. pose proof (get_fst s now token actor) as Hg.
    destruct (get s now token actor) as [s1 r]. cbn in Hg. subst s1.
    assert (Hlost : ∀ s0, s0 = s ∨ s0 = expire s now →
      od_get (rows (write_row s0 token (set_receipt (receipt instance token "unknown"
        "dispatch outcome unknown")))) token' = Some row →
      od_get (rows s) token' = Some row ∨ token' = token ∧ r_state (l_receipt row) = "unknown").
    { intros s0 Hs0 [Ho|(-> & old & _ & ->)]%write_row_get; [left|by right].
      destruct Hs0 as [->| ->]; [done|by apply Hx]. }
    case_bool_decide as Ha; cbn [negb]; [|intros [?|[? ?]]%Hlost; auto].
    destruct r as [[old|]|e]; [|intros [?|[? ?]]%Hlost; auto..].
    destruct (silo_open actor uid (dw_state w)) eqn:Hso; [|intros [?|[? ?]]%Hlost; auto].
    destruct (dw_relay_pinned w) eqn:Hp; cbn [negb orb]; [|intros [?|[? ?]]%Hlost; auto].
    destruct (dw_reply w) as [raw|] eqn:Hraw; [|intros [?|[? ?]]%Hlost; auto].
    destruct (validate_receipt _ _ _) as [r|e] eqn:Hv; [|intros [?|[? ?]]%Hlost; auto].
    intros [Ho%Hx|(-> & o & _ & ->)]%write_row_get; [by left|].
    right. split; [done|]. right. split_and!; try done. exists raw, r. by rewrite Hraw.
  - unfold status, get.
    destruct (od_get (rows (expire s now)) token) as [old|] eqn:Hold;
      [|by intros ?%Hx; left].
    apply Hx in Hold as Hold'.
    case_bool_decide as Ha; [|by intros ?%Hx; left].
    destruct (terminal old) eqn:Ht; [by intros ?%Hx; left|]. cbn [orb].
    destruct (truthy (l_receiver_id old)) eqn:Hid; cbn [negb fst];
      [apply truthy_true in Hid|by intros ?%Hx; left].
    intros [Ho%Hx|(-> & o & _ & ->)]%write_row_get; [by left|].
    right. split; [done|]. exists old. do 4 (split; [done|]). cbn [set_receipt l_receipt].
    destruct (negb _ || negb _); [by left|]. destruct (dw_reply w) as [raw|] eqn:Hraw; [|by left].
    destruct (validate_receipt _ _ _) as [r|e] eqn:Hv; [|by left].
    right. exists raw, r. by rewrite Hraw.
Qed.


(** ** Termination and round trip of the reader *)

Lemma identity_error empty v e : identity empty v = Err e → e = TE_identity.
Proof. unfold identity. destruct v; repeat case_match; congruence. Qed.

Lemma identities_error l e : identities l = Err e → e = TE_identity.
Proof.
  induction l as [|v l IH]; cbn [identities]; [done|].
  destruct (identity false v) eqn:Hv; cbn [result_bind]; [|intros [= <-]; by eapply identity_error].
  destruct (identities l); cbn [result_bind]; [done|]. intros [= <-]. by apply IH.
Qed.

(** Reading terminates with an answer or one of the errors of the code: whatever the
    text, the fuel the JSON reader is given, linear in the text's length, never runs out,
    for the envelope, a receipt or the capabilities of a receiver. *)
Theorem reading_terminates raw instance id :
  load_object raw ≠ Err (TE_json JE_fuel) ∧
  validate_receipt raw instance id ≠ Err (TE_json JE_fuel) ∧
  capabilities raw ≠ Err (TE_json JE_fuel).
Proof.
  pose proof (load_object_fuel raw) as Hf. split; [done|].
  split; [unfold validate_receipt|unfold capabilities];
    (destruct (load_object raw) as [obj|e]; cbn [result_bind]; [|congruence]).
  - destruct (jget obj "state"); try done. destruct (jget obj "reason"); try done.
    destruct (negb _ || negb _ || negb _ || _); [done|].
    destruct (identity _ _) eqn:Hi; cbn [result_bind]; [by repeat case_match|].
    apply identity_error in Hi. congruence.
  - destruct (negb _); [done|].
    destruct (identity _ _) eqn:Hi; cbn [result_bind]; [|apply identity_error in Hi; congruence].
    do 6 (case_match; try done). destruct (bool_decide _ || _ || _ || _ || _); [done|].
    destruct (identities _) eqn:Hs; cbn [result_bind]; [done|]. apply identities_error in Hs. congruence.
Qed.

Lemma printable_utf8 s : forall_char printable s = true → utf8_len s = str_len s.
Proof.
  unfold str_len. induction s as [|c s IH]; cbn [forall_char utf8_len String.length]; [done|].
  intros [Hc Hs]%andb_true_iff. rewrite IH by done. unfold printable in Hc.
  replace (ord c <? 128)%N with true; [lia|]. symmetry. apply N.ltb_lt.
  apply andb_true_iff in Hc as [_ Hc]. apply N.leb_le in Hc. lia.
Qed.

Lemma esc_char_length c : String.length (esc_char c) ≤ 6.
Proof. unfold esc_char. repeat case_match; simpl; lia. Qed.

Lemma dump_str_length s : String.length (dump_str s) ≤ 6 * String.length s + 2.
Proof.
  unfold dump_str. cbn [String.length]. rewrite str_app_length. cbn [String.length].
  enough (String.length (esc s) ≤ 6 * String.length s) by lia.
  induction s as [|c s IH]; cbn [esc String.length]; [lia|].
  rewrite str_app_length. pose proof (esc_char_length c). lia.
Qed.

Lemma receipt_json_wf r : jwf (receipt_json r).
Proof.
  apply jwf_obj. split; [cbn; by apply (bool_decide_unpack _)|].
  repeat apply Forall_cons_2; try exact I; [|apply Forall_nil_2].
  cbn [snd jwf]. unfold int_ok. apply Nat.leb_le. reflexivity.
Qed.

Lemma receipt_text_length r :
  String.length (dumps (spaced false) (receipt_json r)) ≤
    6 * (String.length (r_instance r) + String.length (r_transfer_id r) + String.length (r_state r)
         + String.length (r_reason r)) + 100.
Proof.
  unfold dumps, receipt_json. cbn [sort_keys spaced write fmap list_fmap join item_sep key_sep].
  rewrite !str_app_length.
  pose proof (dump_str_length (r_instance r)). pose proof (dump_str_length (r_transfer_id r)).
  pose proof (dump_str_length (r_state r)). pose proof (dump_str_length (r_reason r)).
  repeat match goal with
  | |- context [String.length (dump_str (String ?c ?s))] =>
      let n := eval vm_compute in (String.length (dump_str (String c s))) in
      change (String.length (dump_str (String c s))) with n
  | |- context [String.length (String ?c ?s)] =>
      let n := eval vm_compute in (String.length (String c s)) in
      change (String.length (String c s)) with n
  end.
  change (String.length (dump_int 1)) with 1. lia.
Qed.

Lemma state_length st : st ∈ STATES → String.length st ≤ 8.
Proof.
  unfold STATES, TERMINAL. cbn [app]. rewrite !elem_of_cons, elem_of_nil.
  intros [->|[->|[->|[->|[->|[->|[]]]]]]]; simpl; lia.
Qed.

Lemma identity_length empty s v : identity empty (JStr s) = Ok v → String.length s ≤ 128.
Proof.
  unfold identity, str_len. destruct (128 <? _)%Z eqn:Hl; [done|]. apply Z.ltb_ge in Hl. lia.
Qed.

Lemma str_take_all n s : String.length s ≤ n → str_take n s = s.
Proof.
  revert n. induction s as [|c s IH]; intros [|n]; cbn [String.length str_take]; try done; [lia|].
  intros Hn. rewrite IH by lia. done.
Qed.

(** A receipt the ledger can hold reads back as itself: the text json.dumps writes
    for it passes validate_receipt against its instance and its transfer id. *)
Theorem receipt_roundtrip r :
  r_state r ∈ STATES → String.length (r_instance r) ≤ 128 → String.length (r_reason r) ≤ 160 →
  identity (bool_decide (r_state r ∈ ["rejected"; "unknown"])) (JStr (r_transfer_id r))
    = Ok (r_transfer_id r) →
  validate_receipt (JStr (dumps (spaced false) (receipt_json r))) (r_instance r)
    (Some (r_transfer_id r)) = Ok r.
Proof.
  intros Hs Hi Hr Hid. unfold validate_receipt, load_object.
  assert (Hlen : (utf8_len (dumps (spaced false) (receipt_json r)) ≤ 8192)%Z).
  { rewrite printable_utf8 by (apply dumps_printable; [apply spaced_ok|apply receipt_json_wf]).
    unfold str_len. pose proof (receipt_text_length r).
    assert (String.length (r_state r) ≤ 8) by (by apply state_length).
    assert (String.length (r_transfer_id r) ≤ 128) by (by eapply identity_length).
    lia. }
  rewrite (proj2 (Z.ltb_ge _ _) Hlen), loads_dumps by (apply spaced_ok || apply receipt_json_wf).
  cbn [sort_keys spaced receipt_json result_bind].
  change (jget _ "state") with (JStr (r_state r)).
  change (jget _ "reason") with (JStr (r_reason r)).
  change (jget _ "version") with (JInt 1).
  change (jget _ "instance_id") with (JStr (r_instance r)).
  change (jget _ "transfer_id") with (JStr (r_transfer_id r)).
  cbn [is_version_1 negb orb]. rewrite !bool_decide_true by done. cbn [negb orb].
  replace (160 <? str_len (r_reason r))%Z with false by (symmetry; apply Z.ltb_ge; unfold str_len; lia).
  rewrite Hid. cbn [result_bind]. rewrite bool_decide_true by done. cbn [negb].
  unfold receipt. rewrite str_take_all by done. by destruct r.
Qed.

(** ** Witnesses: a full ledger of one row *)

Definition demo_actor : Actor := {| a_uid := 1000; a_pid := 7; a_exe := "/usr/bin/app"; a_starttime := 42 |}.
Definition demo_route : Route :=
  {| ro_uid := 2000; ro_service := "notes"; ro_relay_owner := ":1.5"; ro_receiver_owner := ":1.9" |}.
Definition demo_ledger : ReceiptLedger :=
  (reserve (new_ledger 1 600) 10 10 "t1" demo_actor demo_route "inst").1.
Definition demo_reply : string :=
  dumps (spaced false) (receipt_json {| r_instance := "inst"; r_transfer_id := "rx"; r_state := "applied";
                                        r_reason := "ok" |}).
Definition demo_world : dispatch_world :=
  {| dw_actor := Some demo_actor; dw_state := Some "Active"; dw_relay_pinned := true;
     dw_reply := Some demo_reply |}.

Lemma demo_reachable : rtc ledger_step (new_ledger 1 600, 0%Z) (demo_ledger, 10%Z).
Proof. apply rtc_once. by apply ls_reserve. Qed.

Lemma ledger_reachable_witness :
  rtc ledger_step (new_ledger 1 600, 0%Z) (demo_ledger, 10%Z) ∧
  (get demo_ledger 20 "t1" {| a_uid := 1; a_pid := 7; a_exe := ""; a_starttime := 1 |}).2 = Err TE_other_actor ∧
  (get demo_ledger 610 "t1" demo_actor).2 = Ok None.
Proof.
  split; [exact demo_reachable|].
  destruct (ledger_reachable _ _ _ _ _ demo_reachable) as (_ & _ & _ & Hget).
  split; rewrite Hget; reflexivity.
Defined.

Lemma ledger_admits_witness :
  (reserve demo_ledger 609 609 "t2" demo_actor demo_route "inst").2 = Err TE_capacity ∧
  (reserve demo_ledger 610 610 "t2" demo_actor demo_route "inst").2 = Ok "t2".
Proof.
  split; [reflexivity|].
  apply (ledger_admits _ _ _ _ _ 610 610 "t2" demo_actor demo_route "inst" demo_reachable); [lia|].
  left. lia.
Defined.

Lemma outcome_is_reported_witness :
  ∃ row, od_get (rows (forward demo_ledger 20 "t1" demo_actor 2000 "inst" demo_world)) "t1" = Some row ∧
    r_state (l_receipt row) = "applied" ∧ reported demo_world "inst" None "applied".
Proof.
  eexists. split; [vm_compute; reflexivity|]. split; [reflexivity|].
  destruct (outcome_is_reported demo_ledger 20 "t1" demo_actor 2000 "inst" demo_world) as [Hf _];
    [apply NoDup_singleton|].
  edestruct (Hf "t1") as [Hold|(_ & [Hu|(_ & _ & _ & Hrep)])]; [vm_compute; reflexivity|..].
  - vm_compute in Hold. discriminate Hold.
  - discriminate Hu.
  - exact Hrep.
Defined.

Lemma receipt_roundtrip_witness :
  validate_receipt (JStr demo_reply) "inst" (Some "rx") =
    Ok {| r_instance := "inst"; r_transfer_id := "rx"; r_state := "applied"; r_reason := "ok" |}.
Proof.
  apply (receipt_roundtrip {| r_instance := "inst"; r_transfer_id := "rx"; r_state := "applied";
                              r_reason := "ok" |}); [by apply (bool_decide_unpack _)|cbn; lia..|reflexivity].
Defined.

End Transfer.
