(* ===== verification/AuditTrail.v ===== *)
(** * The audit log

    [src/broker/qdistro_admin_audit.py]: one row per decision, an append-only table with
    retention. Whether the database accepts a write is an argument of the callers, which
    decide what a failed write means. A source text is a constructor carrying the values it
    interpolates. *)

From S2P Require Import Prelude Json Guards Resolver SiloSecurity.
Import Json.

Module AuditTrail.

(** Why a relayed source process is not the attested source of a flow *)
Inductive source_fault :=
| SF_no_pid
| SF_drift (live relayed : Z)
| SF_unverified (reason : Resolve.subject_reason)
| SF_silo (claimed attested : string)
| SF_app (claimed attested : string)
| SF_engine (claimed attested : string).

(** What a gate notes of the lineage of the flow it decided *)
Inductive lineage_note :=
| LN_shadow
| LN_attested
| LN_not_attempted
| LN_no_pid
| LN_drift (live relayed : Z)
| LN_unresolved (e : SiloSec.UnresolvedSilo)
| LN_silo_mismatch (attested decided : string)
| LN_guard_denied (reasons : list GuardRegistry.GuardReason)
| LN_recorded (output : option string).

(** What [VerifyClientIdentity] finds wrong with a claimed process *)
Inductive identity_fault :=
| IF_proc_gone
| IF_starttime (live claimed : Z)
| IF_exe (live claimed : string)
| IF_uid (live claimed : Z)
| IF_label (live claimed : string).

Inductive audit_source :=
| AS_rule
| AS_cache
| AS_prompt
| AS_caller_gone
| AS_rate_limit
| AS_hook (verdict : string) (identity_valid : bool) (reason : string)
| AS_lineage (verified : bool) (claimed_engine resolved_engine claimed_app resolved_app : string)
| AS_polkit_local_auth
| AS_polkit_cancel
| AS_polkit_stale_reap
| AS_revoke
| AS_same_silo (kind target : string)
| AS_notification (app : string) (urgency : Z) (summary body : string)
| AS_unattested (same_silo : bool) (fault : source_fault)
| AS_gate (label : string) (lineage : list lineage_note) (provenance : string)
    (mime : option string) (src_app dst_app src_engine : string)
| AS_share (label content_type dest extension parent_exe : string)
| AS_launch (record : string) (pid starttime uid : Z) (engine app label : string)
| AS_identity (pid starttime uid : Z) (exe label : string) (faults : list identity_fault).

(** A row of the [audit] table; [au_argv] is the text of its column. *)
Record audit_row := {
  au_id : Z;
  au_ts : Z;
  au_uid : Z;
  au_pid : Z;
  au_exe : string;
  au_action : string;
  au_decision : bool;
  au_scope : option string;
  au_source : audit_source;
  au_approver : option Z;
  au_rule_path : option string;
  au_request_id : option Z;
  au_selinux : option string;
  au_argv : option string;
  au_context : option string;
}.

(** The keyword arguments of [log] *)
Record entry := {
  en_uid : Z;
  en_pid : Z;
  en_exe : string;
  en_action : string;
  en_decision : bool;
  en_scope : option string;
  en_source : audit_source;
  en_approver : option Z;
  en_rule_path : option string;
  en_request_id : option Z;
  en_selinux : option string;
  en_argv : option (list string);
  en_context : option string;
}.

Definition AuditLog := list audit_row.

Definition next_row_id (t : AuditLog) : Z := (1 + foldr Z.max 0 (au_id <$> t))%Z.

(** The row [log] inserts *)
Definition row_of (id now : Z) (e : entry) : audit_row :=
  {| au_id := id; au_ts := now; au_uid := en_uid e; au_pid := en_pid e; au_exe := en_exe e;
     au_action := en_action e; au_decision := en_decision e; au_scope := en_scope e;
     au_source := en_source e; au_approver := en_approver e; au_rule_path := en_rule_path e;
     au_request_id := en_request_id e;
     au_selinux := en_selinux e; au_argv := (λ l, dumps (spaced false) (JArr (JStr <$> l))) <$> en_argv e;
     au_context := en_context e |}.

(** [log] *)
Definition log (t : AuditLog) (now : Z) (e : entry) : AuditLog := t ++ [row_of (next_row_id t) now e].

(** [ORDER BY ts DESC, id DESC] *)
Definition recent_first (a b : audit_row) : Prop :=
  (au_ts b < au_ts a)%Z ∨ (au_ts a = au_ts b ∧ (au_id b ≤ au_id a)%Z).
#[export] Instance recent_first_dec a b : Decision (recent_first a b).
Proof. unfold recent_first. apply _. Defined.

(** The argv column read back; what is not a list of JSON values reads as none. *)
Definition read_argv (t : option string) : option (list json) :=
  match t with
  | Some t => if truthy t then match loads t with Ok (JArr l) => Some l | _ => None end else None
  | None => None
  end.

(** [recent]: the rows with their argv decoded *)
Definition recent (t : AuditLog) (limit : Z) : list (audit_row * option (list json)) :=
  let n := Z.to_nat (Z.max 1 (Z.min limit 10000)) in
  (λ r, (r, read_argv (au_argv r))) <$> take n (merge_sort recent_first t).

Inductive audit_error := AE_negative_age.

(** [gc] *)
Definition gc (t : AuditLog) (now older_than_seconds : Z) : result audit_error (AuditLog * nat) :=
  if (older_than_seconds <? 0)%Z then Err AE_negative_age
  else
    let cutoff := (now - older_than_seconds)%Z in
    Ok (filter (λ r, ¬ (au_ts r < cutoff)%Z) t, length (filter (λ r, (au_ts r < cutoff)%Z) t)).

(** ** What is logged stays and reads back *)

Lemma log_elem t now e r : r ∈ log t now e ↔ r ∈ t ∨ r = row_of (next_row_id t) now e.
Proof. unfold log. by rewrite elem_of_app, list_elem_of_singleton. Qed.

(** A logged argv reads back as the strings it was. *)
Lemma read_argv_logged l : read_argv (Some (dumps (spaced false) (JArr (JStr <$> l)))) = Some (JStr <$> l).
Proof.
  assert (Hw : jwf (JArr (JStr <$> l))) by (apply jwf_arr, Forall_fmap, Forall_true; done).
  unfold read_argv, loads. rewrite loads_dumps by (apply spaced_ok || done). done.
Qed.

(** Retention keeps exactly the rows young enough. *)
Lemma gc_elem t now age t' n r :
  gc t now age = Ok (t', n) → (r ∈ t' ↔ r ∈ t ∧ (now - age ≤ au_ts r)%Z) ∧ length t = length t' + n.
Proof.
  unfold gc, AuditLog in *. destruct (age <? 0)%Z; [done|]. intros [= <- <-]. split.
  - rewrite list_elem_of_filter. split; [intros [? ?]; split; [done|lia]|intros [? ?]; split; [lia|done]].
  - cbv zeta. clear r. induction t as [|x t IH]; [done|]. rewrite !(filter_cons _ x).
    destruct (decide (au_ts x < now - age)%Z); repeat case_decide; try tauto; cbn [length] in *; rewrite IH; lia.
Qed.

End AuditTrail.
