(* ===== verification/Broker.v ===== *)
(** * The decision core of the broker

    [src/broker/qdistro_admin_broker.py]: the synchronous check, the queue of pending
    requests, the hook and admin decisions on them, their waiters, and the relay of polkit
    authorizations. The rules, the cache, the rate limiter, the resolver and the audit log
    are the components modelled beside this one.

    A request object is shared between the queue and the closures that finish it, so the
    objects live in a heap ([reqs], by id) and the queue is the list of the ids it holds.
    [sent] is the history of the replies and signals the broker has sent. Whether a peer
    passes an identity gate, what /proc, polkit and the databases answer, and clock
    readings are arguments. A details dictionary maps text to text. *)

From S2P Require Import Prelude Json RateLimit Resolver Rules Cache AuditTrail.
Import Json AuditTrail.

Module Broker.
Module R := AdminRules.
Module C := ApprovalCache.
Module L := RateLimit.
Module V := Resolve.

(** ** Details *)

Abbreviation details := (list (string * string)).

(** [c == "\t" or c == " " or c.isprintable()] below 256 *)
Definition shown_char (c : ascii) : bool :=
  let n := ord c in
  (n =? 9)%N || ((32 <=? n)%N && (n <=? 126)%N)
  || ((161 <=? n)%N && negb (n =? 173)%N).

(** [_scrub] *)
Fixpoint scrub (s : string) : string :=
  match s with
  | "" => ""
  | String c s' => if shown_char c then String c (scrub s') else scrub s'
  end.

(** [_sanitize_details] *)
Fixpoint sanitize_go (out raw : details) : details :=
  match raw with
  | [] => out
  | (k, v) :: raw' =>
      if 32 <=? length out then out
      else
        let key := str_take 64 (scrub k) in
        let val := str_take 1024 (scrub v) in
        sanitize_go (if truthy key then od_set out key val else out) raw'
  end.
Definition sanitize_details (raw : details) : details := sanitize_go [] raw.

(** [_ARGV_KEY_RE]: the index of an [argv[NN]] key, two to four digits *)
Definition argv_index (k : string) : option Z :=
  match strip "argv[" k with
  | Some s =>
      let '(d, r) := span_digits s in
      let n := String.length d in
      if bool_decide (r = "]") && (2 <=? n) && (n <=? 4) then Some (Z.of_N (digits_val 0 d)) else None
  | None => None
  end.

(** Stable insertion by index *)
Fixpoint insert_indexed (p : Z * string) (l : list (Z * string)) : list (Z * string) :=
  match l with
  | [] => [p]
  | q :: l' => if (p.1 <=? q.1)%Z then p :: q :: l' else q :: insert_indexed p l'
  end.

(** The indexed elements of a details dictionary *)
Definition indexed_argv (d : details) : list (Z * string) :=
  omap (λ '(k, v), match argv_index k with
                   | Some i => if (1024 <? i)%Z then None else Some (i, v)
                   | None => None end) d.

(** [_argv_from_details] *)
Definition argv_from_details (d : details) : option (list string) :=
  let indexed := indexed_argv d in
  if bool_decide (indexed = [])
     || negb (existsb (λ p, (p.1 =? 0)%Z && truthy p.2) indexed)
  then None
  else Some (snd <$> foldr insert_indexed [] indexed).

(** [_selector_from_details] *)
Definition selector_from_details (d : details) (key : string) : string :=
  str_take 128 (default "" (od_get d key)).

(** [dict(details, app_id=..., sandbox_engine=...)] *)
Definition with_lineage (d : details) (app engine : string) : details :=
  od_set (od_set d "app_id" app) "sandbox_engine" engine.

(** ** Vocabulary *)

Definition VALID_SCOPES : list string :=
  ["once"; "1h"; "24h"; "forever"; "forever_exe"; "forever_argv"; "forever_basename"; "forever_prefix"].
Definition DELEGATED_FORBIDDEN_SCOPES : list string := ["1h"; "24h"; "forever"; "forever_exe"].
Definition ARGV_REQUIRED_SCOPES : list string := ["forever_argv"; "forever_basename"; "forever_prefix"].
Definition ONESHOT_FORBIDDEN_SCOPES : list string :=
  ["1h"; "24h"; "forever"; "forever_exe"; "forever_argv"; "forever_basename"; "forever_prefix"].
Definition TIER_LAUNCH_PREFIXES : list string :=
  ["qdistro.tier1.spawn:"; "qdistro.tier2.spawn:"; "qdistro.tier3s.spawn:";
   "qdistro.dispose.spawn:"; "qdistro.dispose.open:"; "qdistro.dispose.export:"].
Definition POLKIT_UNDECIDED_TTL_S : Z := 1200.
Definition POLKIT_CANCELLED_MAX : nat := 512.

Definition isin (x : string) (l : list string) : bool := bool_decide (x ∈ l).

(** ** State *)

(** A normalized polkit identity: its kind and its [uid] field *)
Record identity := { id_kind : string; id_uid : option Z }.

(** What a request is filed with and never changes *)
Record filing := {
  f_id : Z;
  f_uid : Z;
  f_pid : Z;
  f_exe : string;
  f_start : Z;
  f_action : string;
  f_details : details;
  f_delegated : bool;
  f_one_shot : bool;
  f_cookie : string;
  f_identities : list identity;
  f_filed_by : string;
  f_created_at : Z;
}.

(** [_Request] *)
Record Request := {
  q_filing : filing;
  q_decision : option bool;
  q_finalizing : bool;
  q_waiters : list Z;
  q_decided_at : option Z;
  q_layered : string * string * string;
  q_layered_pending : bool;
}.

(** What the broker sends: a verdict to a waiter, the "no" a waiter gets for a request that
    is not queued (on the wire the same False as a verdict, which the caller cannot tell
    apart), an access error, its signals, a polkit response *)
Inductive event :=
| E_reply (rid waiter : Z) (verdict : bool)
| E_gone (rid waiter : Z)
| E_refused (rid waiter : Z)
| E_pending (rid : Z)
| E_decided (rid : Z) (verdict : bool)
| E_polkit (uid : Z) (cookie : string) (id : identity)
| E_revoked (uid : Z) (action value : string)
| E_rules (n : nat).

Record config := {
  cf_audit_required : bool;
  cf_lineage_enforce : bool;
  cf_admin_uid : Z;
  cf_retention : Z;
  cf_require_silo_active : bool;
  cf_launcher_gated : bool;          (* [SECCTX_LAUNCHER_GATED] *)
  cf_cookie_ref : string → string;   (* [_polkit_cookie_ref]: a digest of the cookie *)
}.

Record Broker := {
  ratelimit : L.RateLimiter;
  rules : R.RulesEngine;
  cache : C.db;
  audit : AuditLog;
  reqs : gmap Z Request;
  pending : list Z;
  next_id : Z;
  cancelled : list (string * (gset string * Z));
  announced : list (string * (string * Z));
  sent : list event;
}.

Definition with_ratelimit (b : Broker) x := {| ratelimit := x; rules := rules b; cache := cache b;
  audit := audit b; reqs := reqs b; pending := pending b; next_id := next_id b;
  cancelled := cancelled b; announced := announced b; sent := sent b |}.
Definition with_rules (b : Broker) x := {| ratelimit := ratelimit b; rules := x; cache := cache b;
  audit := audit b; reqs := reqs b; pending := pending b; next_id := next_id b;
  cancelled := cancelled b; announced := announced b; sent := sent b |}.
Definition with_cache (b : Broker) x := {| ratelimit := ratelimit b; rules := rules b; cache := x;
  audit := audit b; reqs := reqs b; pending := pending b; next_id := next_id b;
  cancelled := cancelled b; announced := announced b; sent := sent b |}.
Definition with_audit (b : Broker) x := {| ratelimit := ratelimit b; rules := rules b; cache := cache b;
  audit := x; reqs := reqs b; pending := pending b; next_id := next_id b;
  cancelled := cancelled b; announced := announced b; sent := sent b |}.
Definition with_reqs (b : Broker) x := {| ratelimit := ratelimit b; rules := rules b; cache := cache b;
  audit := audit b; reqs := x; pending := pending b; next_id := next_id b;
  cancelled := cancelled b; announced := announced b; sent := sent b |}.
Definition with_pending (b : Broker) x := {| ratelimit := ratelimit b; rules := rules b; cache := cache b;
  audit := audit b; reqs := reqs b; pending := x; next_id := next_id b;
  cancelled := cancelled b; announced := announced b; sent := sent b |}.
Definition with_next_id (b : Broker) x := {| ratelimit := ratelimit b; rules := rules b; cache := cache b;
  audit := audit b; reqs := reqs b; pending := pending b; next_id := x;
  cancelled := cancelled b; announced := announced b; sent := sent b |}.
Definition with_marks (b : Broker) x y := {| ratelimit := ratelimit b; rules := rules b; cache := cache b;
  audit := audit b; reqs := reqs b; pending := pending b; next_id := next_id b;
  cancelled := x; announced := y; sent := sent b |}.
Definition emit (b : Broker) (es : list event) := {| ratelimit := ratelimit b; rules := rules b;
  cache := cache b; audit := audit b; reqs := reqs b; pending := pending b; next_id := next_id b;
  cancelled := cancelled b; announced := announced b; sent := sent b ++ es |}.

(** [self._pending.get(rid)] *)
Definition lookup_pending (b : Broker) (rid : Z) : option Request :=
  if bool_decide (rid ∈ pending b) then reqs b !! rid else None.

(** A write through a request object *)
Definition update_req (b : Broker) (rid : Z) (f : Request → Request) : Broker :=
  match reqs b !! rid with
  | Some q => with_reqs b (<[rid := f q]> (reqs b))
  | None => b
  end.

Definition set_decision (d : bool) (fin : bool) (q : Request) : Request :=
  {| q_filing := q_filing q; q_decision := Some d; q_finalizing := fin; q_waiters := q_waiters q;
     q_decided_at := q_decided_at q; q_layered := q_layered q;
     q_layered_pending := q_layered_pending q |}.
Definition set_waiters (w : list Z) (q : Request) : Request :=
  {| q_filing := q_filing q; q_decision := q_decision q; q_finalizing := q_finalizing q;
     q_waiters := w; q_decided_at := q_decided_at q; q_layered := q_layered q;
     q_layered_pending := q_layered_pending q |}.
Definition set_decided_at (t : Z) (q : Request) : Request :=
  {| q_filing := q_filing q; q_decision := q_decision q; q_finalizing := q_finalizing q;
     q_waiters := q_waiters q; q_decided_at := Some t; q_layered := q_layered q;
     q_layered_pending := q_layered_pending q |}.
Definition set_layered (l : string * string * string) (q : Request) : Request :=
  {| q_filing := q_filing q; q_decision := q_decision q; q_finalizing := q_finalizing q;
     q_waiters := q_waiters q; q_decided_at := q_decided_at q; q_layered := l;
     q_layered_pending := false |}.

(** ** Auditing a decision *)

(** [self.audit.log(...)] when the database takes it *)
Definition audit_log (b : Broker) (ok : bool) (now : Z) (e : entry) : Broker :=
  if ok then with_audit b (log (audit b) now e) else b.

(** The [context] of a check: its selectors and the grant, keys sorted *)
Definition check_context (d : details) (grant : option Z) : string :=
  dumps (spaced true) (JObj (
    [("app_id", JStr (selector_from_details d "app_id"));
     ("sandbox_engine", JStr (selector_from_details d "sandbox_engine"));
     ("mime_type", JStr (selector_from_details d "mime_type"))]
    ++ match grant with Some g => [("grant_id", JInt g)] | None => [] end)).

(** The process a check decides for *)
Record subject := { su_uid : Z; su_pid : Z; su_exe : string; su_action : string }.

(** [_record_check]: whether the answer is "allow" *)
Definition record_check (cf : config) (b : Broker) (ok : bool) (now : Z) (su : subject)
    (allowed : bool) (d : details) (src : audit_source) (scope rule_path : option string)
    (approver request_id grant : option Z) : Broker * bool :=
  (audit_log b ok now
     {| en_uid := su_uid su; en_pid := su_pid su; en_exe := su_exe su; en_action := su_action su;
        en_decision := allowed; en_scope := scope; en_source := src; en_approver := approver;
        en_rule_path := rule_path; en_request_id := request_id;
        en_argv := argv_from_details d;
        en_selinux := None; en_context := Some (check_context d grant) |},
   if negb ok && cf_audit_required cf then false else allowed).

(** ** The rules and the cache *)

(** What the world answers while a request is looked up *)
Record lookup_world := {
  lw_clock : Z;                         (* the rate limiter's monotonic clock *)
  lw_now : Z;                           (* [int(time.time())] *)
  lw_subject : V.Subject;               (* [_resolve_subject(pid)] for the selectors *)
  lw_cache_subject : option V.Subject;  (* and for the cache; [None]: it raised *)
  lw_lineage_ok : bool;                 (* does the audit take a mismatch row *)
  lw_audit_ok : bool;                   (* and the decision's row *)
}.

(** [_lineage_selectors]: the engine and the app id the rules see *)
Definition lineage_selectors (cf : config) (b : Broker) (w : lookup_world) (su : subject)
    (claimed_engine claimed_app : string) : Broker * (string * string) :=
  let sj := lw_subject w in
  let engine := if V.sj_verified sj then V.sj_sandbox_engine sj else "" in
  let app := if V.sj_verified sj then V.sj_app_id sj else "" in
  let mismatch :=
    (negb (V.sj_verified sj) && (truthy claimed_engine || truthy claimed_app))
    || (V.sj_verified sj && (negb (bool_decide (engine = claimed_engine))
                             || negb (bool_decide (app = claimed_app)))) in
  let b1 := if mismatch && cf_lineage_enforce cf then
      audit_log b (lw_lineage_ok w) (lw_now w)
        {| en_uid := su_uid su; en_pid := su_pid su; en_exe := su_exe su;
           en_action := "qdistro.lineage.mismatch:" +:+ su_action su; en_decision := false;
           en_scope := None;
           en_source := AS_lineage (V.sj_verified sj) claimed_engine engine claimed_app app;
           en_approver := None; en_rule_path := None; en_request_id := None; en_argv := None;
           en_selinux := None; en_context := None |}
    else b in
  (b1, if cf_lineage_enforce cf then (engine, app) else (claimed_engine, claimed_app)).

(** [_cache_sandboxed] *)
Definition cache_sandboxed (w : lookup_world) : bool :=
  match lw_cache_subject w with
  | Some sj => V.sj_verified sj && truthy (V.sj_sandbox_engine sj)
  | None => false
  end.

Definition rule_request (su : subject) (d : details) (app engine : string) : R.request :=
  {| R.rq_uid := su_uid su; R.rq_action := su_action su; R.rq_exe := su_exe su;
     R.rq_app_id := app; R.rq_sandbox_engine := engine;
     R.rq_mime_type := selector_from_details d "mime_type"; R.rq_argv := argv_from_details d |}.

Definition cache_query (su : subject) (d : details) (delegated sandboxed : bool) : C.query :=
  {| C.q_uid := su_uid su; C.q_action := su_action su; C.q_exe := su_exe su;
     C.q_argv := default [] (argv_from_details d); C.q_delegated := delegated;
     C.q_sandboxed := sandboxed |}.

Definition tier_launch (action : string) : bool :=
  existsb (λ p, starts_with p action) TIER_LAUNCH_PREFIXES.

(** [_decide_check]: [Some] whether it answers "allow", [None] for "unknown" *)
Definition decide_check (cf : config) (b : Broker) (w : lookup_world) (su : subject)
    (d : details) (app engine : string) : Broker * option bool :=
  let d := with_lineage d app engine in
  match R.match_ (rules b) (rule_request su d app engine) None with
  | Some rule =>
      let '(b1, r) := record_check cf b (lw_audit_ok w) (lw_now w) su
        (bool_decide (R.rl_decision rule = "allow")) d AS_rule (R.rl_scope rule)
        (Some (R.rl_source_path rule)) None None None in
      (b1, Some r)
  | None =>
      if tier_launch (su_action su) then (b, None)
      else
        match C.lookup_detail (cache b) (lw_now w) (cache_query su d false (cache_sandboxed w)) with
        | Some row =>
            let '(b1, r) := record_check cf b (lw_audit_ok w) (lw_now w) su (C.decision row) d
              AS_cache (C.r_scope row) None (Some (C.approver_uid row)) None (Some (C.r_id row)) in
            (b1, Some r)
        | None => (b, None)
        end
  end.

Inductive broker_error :=
| BE_rate_limited
| BE_access_denied
| BE_bad_argument
| BE_scope_not_permitted
| BE_caller_gone
| BE_audit_unavailable
| BE_polkit_failed
| BE_cache_gc_failed
| BE_silo_unreachable
| BE_silo_not_active
| BE_relay_failed
| BE_identity_mismatch
| BE_lineage_unavailable
| BE_internal
| BE_too_many_marks.

(** [CheckPermission], and [CheckPermissionForClient] once its client is authenticated *)
Definition check_permission (cf : config) (b : Broker) (w : lookup_world) (su : subject)
    (d : details) : Broker * result broker_error (option bool) :=
  let '(rl, ok) := L.check (ratelimit b) (lw_clock w) (su_uid su) (su_action su) in
  let b := with_ratelimit b rl in
  if negb ok then (b, Err BE_rate_limited)
  else
    let '(b, (engine, app)) := lineage_selectors cf b w su
      (selector_from_details d "sandbox_engine") (selector_from_details d "app_id") in
    let '(b, r) := decide_check cf b w su d app engine in
    (b, Ok r).

(** [CheckPermissionForClient]: [client] is what /proc says of the named pid, when it is
    still the process the frontend named. *)
Definition check_permission_for_client (cf : config) (b : Broker) (w : lookup_world)
    (frontend : bool) (client : option subject) (d : details)
    : Broker * result broker_error (option bool) :=
  if negb frontend then (b, Err BE_access_denied)
  else match client with
       | None => (b, Ok None)
       | Some su => check_permission cf b w su d
       end.

(** ** Filing a request *)

(** The first queued request of a polkit cookie *)
Definition filed_cookie (b : Broker) (cookie : string) : option Request :=
  find (λ q, truthy (f_cookie (q_filing q)) && bool_decide (f_cookie (q_filing q) = cookie))
    (omap (λ rid, reqs b !! rid) (pending b)).

(** The pool that reads the layered identity takes the job, is shut down, or does not exist:
    then the filing reads it itself *)
Inductive io_pool := Pool_takes | Pool_down | Pool_absent (layered : string * string * string).

(** What the world answers while a request is filed *)
Record enqueue_world := {
  ew_lookup : lookup_world;
  ew_time : Z;             (* [time.time()] at creation *)
  ew_io_pool : io_pool;    (* what the layered-identity job meets *)
  ew_hook_starts : bool;   (* [_start_hook]: a hook is asked before the admin *)
}.

(** The cancel mark of a polkit filing: whether the filing is dead, and the marks left *)
Definition cancel_mark (b : Broker) (cookie filed_by : string) : bool * Broker :=
  match od_get (cancelled b) cookie with
  | Some (senders, _) =>
      if bool_decide (filed_by ∈ senders) then (true, b)
      else (false, with_marks b (od_del (cancelled b) cookie) (announced b))
  | None => (false, b)
  end.

(** The tiers a filing consults: the rule, and the cache row when no rule answered *)
Definition consult (b : Broker) (w : lookup_world) (su : subject) (d : details)
    (app engine : string) (delegated polkit : bool) : option R.Rule * option C.row :=
  let rule := R.match_ (rules b) (rule_request su d app engine)
                (if polkit then Some "deny" else None) in
  match rule with
  | Some _ => (rule, None)
  | None =>
      (None, if polkit then None
             else C.lookup_detail (cache b) (lw_now w)
                    (cache_query su d delegated (cache_sandboxed w)))
  end.

(** A polkit cookie bound or filed by another peer *)
Definition cookie_taken (b : Broker) (cookie filed_by : string) : bool :=
  match od_get (announced b) cookie with
  | Some (owner, _) => negb (bool_decide (owner = filed_by))
  | None => false
  end
  || match filed_cookie b cookie with
     | Some q => negb (bool_decide (f_filed_by (q_filing q) = filed_by))
     | None => false
     end.

(** The arguments of [_enqueue] *)
Record filing_args := {
  fa_subject : subject;
  fa_start : Z;
  fa_details : details;
  fa_delegated : bool;
  fa_one_shot : bool;
  fa_polkit : option (string * list identity);
  fa_filed_by : string;
}.

Definition new_filing (a : filing_args) (rid : Z) (d : details) (time : Z) : filing :=
  let su := fa_subject a in
  {| f_id := rid; f_uid := su_uid su; f_pid := su_pid su; f_exe := su_exe su; f_start := fa_start a;
     f_action := su_action su; f_details := d; f_delegated := fa_delegated a;
     f_one_shot := fa_one_shot a;
     f_cookie := match fa_polkit a with Some (c, _) => c | None => "" end;
     f_identities := match fa_polkit a with Some (_, l) => l | None => [] end;
     f_filed_by := fa_filed_by a; f_created_at := time |}.

(** The object joins the heap and the queue *)
Definition add_request (b : Broker) (q : Request) : Broker :=
  let rid := next_id b in
  with_pending (with_reqs (with_next_id b (rid + 1)) (<[rid := q]> (reqs b))) (pending b ++ [rid]).

(** [_audit_polkit_deny] *)
Definition audit_polkit_deny (cf : config) (b : Broker) (ok : bool) (now : Z) (f : filing) (src : audit_source) : Broker :=
  audit_log b ok now
    {| en_uid := f_uid f; en_pid := f_pid f; en_exe := f_exe f; en_action := f_action f;
       en_decision := false; en_scope := None; en_source := src; en_approver := None;
       en_rule_path := None; en_request_id := Some (f_id f); en_argv := None;
       en_selinux := None; en_context := Some (cf_cookie_ref cf (f_cookie f)) |}.

(** The rate-limit gate, which audits what it refuses *)
Definition enqueue_rate (b : Broker) (w : lookup_world) (su : subject) : Broker * bool :=
  let '(rl, ok) := L.check (ratelimit b) (lw_clock w) (su_uid su) (su_action su) in
  let b := with_ratelimit b rl in
  (if ok then b
   else audit_log b (lw_audit_ok w) (lw_now w)
     {| en_uid := su_uid su; en_pid := su_pid su; en_exe := su_exe su; en_action := su_action su;
        en_decision := false; en_scope := None; en_source := AS_rate_limit; en_approver := None;
        en_rule_path := None; en_request_id := None; en_argv := None;
        en_selinux := None; en_context := None |},
   ok).

(** The cancel mark, the tiers and the details a filing goes in with *)
Definition enqueue_consult (cf : config) (b : Broker) (w : lookup_world) (a : filing_args)
    : Broker * (bool * option R.Rule * option C.row * details) :=
  let su := fa_subject a in
  let '(dead, b) := match fa_polkit a with
                    | Some (cookie, _) => cancel_mark b cookie (fa_filed_by a)
                    | None => (false, b) end in
  let polkit := bool_decide (is_Some (fa_polkit a)) in
  let clean := sanitize_details (fa_details a) in
  if (negb (fa_one_shot a) || polkit) && negb dead then
    let '(b, (engine, app)) := lineage_selectors cf b w su
      (selector_from_details (fa_details a) "sandbox_engine")
      (selector_from_details (fa_details a) "app_id") in
    let '(rule, row) := consult b w su (fa_details a) app engine (fa_delegated a) polkit in
    (b, (dead, rule, row, with_lineage clean app engine))
  else (b, (dead, None, None, clean)).

(** The layered identity a fresh undecided request carries, and whether its reading is
    pending *)
Definition layered_at_filing (pid : Z) (pool : io_pool) : string * string * string * bool :=
  if (0 <? pid)%Z then
    match pool with
    | Pool_takes => ("", "", "", true)
    | Pool_down => ("", "", "", false)
    | Pool_absent l => (l, false)
    end
  else ("", "", "", false).

(** [_enqueue]: the new request's id *)
Definition enqueue (cf : config) (b : Broker) (w : enqueue_world) (a : filing_args)
    : Broker * result broker_error Z :=
  let su := fa_subject a in
  let lw := ew_lookup w in
  let '(b, ok) := enqueue_rate b lw su in
  if negb ok then (b, Err BE_rate_limited)
  else
    let '(b, (dead, rule, row, clean)) := enqueue_consult cf b lw a in
    if match fa_polkit a with Some (c, _) => cookie_taken b c (fa_filed_by a) | None => false end
    then (b, Err BE_access_denied)
    else
      let rid := next_id b in
      let f := new_filing a rid clean (ew_time w) in
      let decision :=
        if dead then Some false
        else match rule, row with
             | Some r, _ => Some (bool_decide (R.rl_decision r = "allow"))
             | None, Some r => Some (C.decision r)
             | None, None => None
             end in
      let open_request d (ly : string * string * string * bool) := {| q_filing := f; q_decision := d;
        q_finalizing := false; q_waiters := []; q_decided_at := None; q_layered := ly.1;
        q_layered_pending := ly.2 |} in
      match decision with
      | None =>
          let b := add_request b (open_request None (layered_at_filing (su_pid su) (ew_io_pool w))) in
          (if fa_one_shot a || negb (ew_hook_starts w) then emit b [E_pending rid] else b, Ok rid)
      | Some d =>
          let b := add_request b (open_request (Some d) ("", "", "", false)) in
          if dead then (audit_polkit_deny cf b (lw_audit_ok lw) (lw_now lw) f AS_polkit_cancel, Ok rid)
          else
            let '(b, r) := match rule, row with
              | Some r, _ => record_check cf b (lw_audit_ok lw) (lw_now lw) su d clean AS_rule
                  (R.rl_scope r) (Some (R.rl_source_path r)) None (Some rid) None
              | None, Some r => record_check cf b (lw_audit_ok lw) (lw_now lw) su d clean AS_cache
                  (C.r_scope r) None (Some (C.approver_uid r)) (Some rid) (Some (C.r_id r))
              | None, None => (b, d)
              end in
            (update_req b rid (set_decision r false), Ok rid)
      end.

(** [RequestPermission], [RequestPermissionAs] (its claim verified: [delegated]) and
    [RequestPolkitAuth] ([polkit]) are [_enqueue] at their arguments. *)
Definition request_permission (su : subject) (start : Z) (d : details) : filing_args :=
  {| fa_subject := su; fa_start := start; fa_details := d; fa_delegated := false;
     fa_one_shot := false; fa_polkit := None; fa_filed_by := "" |}.
Definition request_permission_as (su : subject) (start : Z) (d : details) : filing_args :=
  {| fa_subject := su; fa_start := start; fa_details := d; fa_delegated := true;
     fa_one_shot := false; fa_polkit := None; fa_filed_by := "" |}.
Definition request_polkit_auth (su : subject) (start : Z) (d : details) (cookie : string)
    (ids : list identity) (sender : string) : filing_args :=
  {| fa_subject := su; fa_start := start; fa_details := d; fa_delegated := false;
     fa_one_shot := true; fa_polkit := Some (cookie, ids); fa_filed_by := sender |}.

Definition request_relay (su : subject) (start : Z) (d : details) : filing_args :=
  {| fa_subject := su; fa_start := start; fa_details := d; fa_delegated := false;
     fa_one_shot := true; fa_polkit := None; fa_filed_by := "" |}.

(** [RequestPermissionForClient]: 0 for a client that is not authenticated *)
Definition request_permission_for_client (cf : config) (b : Broker) (w : enqueue_world)
    (frontend : bool) (client : option (subject * Z)) (d : details) : Broker * result broker_error Z :=
  if negb frontend then (b, Err BE_access_denied)
  else match client with
       | None => (b, Ok 0%Z)
       | Some (su, start) => enqueue cf b w (request_permission su start d)
       end.

(** ** Answering polkit *)

(** [_pick_polkit_identity] *)
Definition pick_polkit_identity (ids : list identity) (uid : Z) : option identity :=
  let unix_users := filter (λ i, id_kind i = "unix-user") ids in
  match find (λ i, (default (-1) (id_uid i) =? uid)%Z) unix_users with
  | Some i => Some i
  | None => match head unix_users with Some i => Some i | None => head ids end
  end.

(** [_polkit_cookie_cancelled] *)
Definition polkit_cookie_cancelled (b : Broker) (cookie sender : string) : bool :=
  match od_get (cancelled b) cookie with
  | Some (senders, _) => negb (truthy sender) || bool_decide (sender ∈ senders)
  | None => false
  end.

(** [_respond_polkit]; the call itself may fail, which changes nothing here. *)
Definition respond_polkit (b : Broker) (f : filing) : Broker :=
  if polkit_cookie_cancelled b (f_cookie f) (f_filed_by f) then b
  else match pick_polkit_identity (f_identities f) (f_uid f) with
       | Some i => emit b [E_polkit (f_uid f) (f_cookie f) i]
       | None => b
       end.

(** The waiters a decision releases *)
Definition replies (rid : Z) (ws : list Z) (verdict : bool) : list event :=
  (λ w, E_reply rid w verdict) <$> ws.

(** ** Hooks *)

(** What the hook answered and what /proc says of the caller when it did *)
Record hook_world := {
  hw_response : option (string * string);   (* verdict and reason of a mapping *)
  hw_exe : string;
  hw_start : Z;
  hw_uid : option Z;
  hw_lookup : lookup_world;
}.

Definition subject_of (f : filing) : subject :=
  {| su_uid := f_uid f; su_pid := f_pid f; su_exe := f_exe f; su_action := f_action f |}.

(** The verdict of a hook: whether the request is still its caller's, what policy says
    now, and the row that is recorded *)
Definition hook_verdict (cf : config) (b : Broker) (w : hook_world) (f : filing)
    (verdict why : string) : Broker * bool :=
  let lw := hw_lookup w in
  let d := f_details f in
  let engine0 := default "" (od_get d "sandbox_engine") in
  let app0 := default "" (od_get d "app_id") in
  let same := (0 <? f_start f)%Z && (hw_start w =? f_start f)%Z && bool_decide (hw_exe w = f_exe f)
              && bool_decide (hw_uid w = Some (f_uid f)) in
  let '(b, valid, current) :=
    if same then
      let '(b, (engine, app)) := lineage_selectors cf b lw (subject_of f) engine0 app0 in
      if bool_decide (engine = engine0) && bool_decide (app = app0) then
        let '(b, r) := decide_check cf b lw (subject_of f) d app engine in (b, true, r)
      else (b, false, None)
    else (b, false, None) in
  match current with
  | Some r => (b, r)
  | None =>
      record_check cf b (lw_audit_ok lw) (lw_now lw) (subject_of f)
        (valid && bool_decide (verdict = "allow")) d (AS_hook verdict valid (str_take 256 why))
        None None None (Some (f_id f)) None
  end.

(** [_apply_hook] *)
Definition apply_hook (cf : config) (b : Broker) (w : hook_world) (rid : Z) : Broker :=
  match lookup_pending b rid with
  | None => b
  | Some q =>
      if bool_decide (is_Some (q_decision q)) then b
      else
        match hw_response w with
        | Some (verdict, why) =>
            if isin verdict ["allow"; "deny"] then
              let '(b, r) := hook_verdict cf b w (q_filing q) verdict why in
              let b := update_req b rid (λ q, set_waiters [] (set_decision r false q)) in
              let b := if r && truthy (f_cookie (q_filing q)) then respond_polkit b (q_filing q) else b in
              emit b (E_decided rid r :: replies rid (q_waiters q) r)
            else emit b [E_pending rid]
        | None => emit b [E_pending rid]
        end
  end.

(** [_apply_layered_identity] *)
Definition apply_layered_identity (b : Broker) (rid : Z) (l : string * string * string) : Broker :=
  match lookup_pending b rid with Some _ => update_req b rid (set_layered l) | None => b end.

(** ** Waiting *)

(** A waiter joins a request, or is answered when its decision is final. *)
Definition park (b : Broker) (rid : Z) (q : Request) (waiter : Z) : Broker :=
  match q_decision q with
  | Some d =>
      if q_finalizing q then update_req b rid (set_waiters (q_waiters q ++ [waiter]))
      else emit b [E_reply rid waiter d]
  | None => update_req b rid (set_waiters (q_waiters q ++ [waiter]))
  end.

(** [WaitForDecision] *)
Definition wait_for_decision (cf : config) (b : Broker) (rid waiter_uid waiter : Z) : Broker :=
  match lookup_pending b rid with
  | None => emit b [E_gone rid waiter]
  | Some q =>
      if negb (bool_decide (waiter_uid ∈ [0; cf_admin_uid cf; f_uid (q_filing q)]%Z))
      then emit b [E_refused rid waiter]
      else park b rid q waiter
  end.

(** ** Relayed messages *)

(** [_SERVICE_NAME_RE]: dot-separated words after the prefix *)
Definition word_char (c : ascii) : bool :=
  let n := ord c in
  ((48 <=? n)%N && (n <=? 57)%N) || ((65 <=? n)%N && (n <=? 90)%N)
  || ((97 <=? n)%N && (n <=? 122)%N) || (n =? 95)%N.
Fixpoint dotted_words (inside : bool) (s : string) : bool :=
  match s with
  | "" => inside
  | String c s' =>
      if bool_decide (c = "."%char) then inside && dotted_words false s'
      else word_char c && dotted_words true s'
  end.
Definition service_name (s : string) : bool :=
  match strip "org.qdistro." s with Some r => dotted_words false r | None => false end.

(** [_silo_state]; [answer]: the manager's rows of uid and state, [None] when the call or
    its reading failed. *)
Definition silo_state (cf : config) (target : Z) (answer : option (list (Z * string))) : option string :=
  if (target =? cf_admin_uid cf)%Z then Some "Active"
  else match answer with
       | Some rows => snd <$> find (λ r, (r.1 =? target)%Z) rows
       | None => if cf_require_silo_active cf then Some "Unreachable" else None
       end.

Definition silo_refusal (state : option string) : option broker_error :=
  match state with
  | Some st => if bool_decide (st = "Unreachable") then Some BE_silo_unreachable
               else if bool_decide (st = "Active") then None else Some BE_silo_not_active
  | None => None
  end.

Inductive relay_answer := RA_forwarded | RA_waiting (rid : Z).

(** What the world answers a relay: the silo manager, the forward, the audit *)
Record relay_world := {
  rw_silos : option (list (Z * string));
  rw_forward_ok : bool;
  rw_audit_ok : bool;
  rw_now : Z;
  rw_enqueue : enqueue_world;
}.

(** [_relay_message_common]: across silos the message waits for the admin in a one-shot
    request, whose waiter forwards it on an allow; within a silo it is forwarded at once. *)
Definition relay_message (cf : config) (b : Broker) (w : relay_world) (su : subject) (start target : Z)
    (service kind payload : string) (waiter : Z) : Broker * result broker_error relay_answer :=
  if (target <? 0)%Z then (b, Err BE_bad_argument)
  else if negb (service_name service) then (b, Err BE_bad_argument)
  else
    let action := "app.send-to:" +:+ pretty target +:+ ":" +:+ service in
    if (su_uid su =? target)%Z then
      if negb (rw_forward_ok w) then (b, Err BE_relay_failed)
      else (audit_log b (rw_audit_ok w) (rw_now w)
              {| en_uid := su_uid su; en_pid := su_pid su; en_exe := su_exe su; en_action := action;
                 en_decision := true; en_scope := Some "once"; en_source := AS_same_silo kind service;
                 en_approver := None; en_rule_path := None; en_request_id := None; en_argv := None;
                 en_selinux := None; en_context := None |}, Ok RA_forwarded)
    else match silo_refusal (silo_state cf target (rw_silos w)) with
    | Some e => (b, Err e)
    | None =>
        let d := [("kind", kind); ("payload", payload); ("target_uid", pretty target);
                  ("target_service", service)] in
        let su := {| su_uid := su_uid su; su_pid := su_pid su; su_exe := su_exe su; su_action := action |} in
        match enqueue cf b (rw_enqueue w) (request_relay su start d) with
        | (b, Err e) => (b, Err e)
        | (b, Ok rid) =>
            match lookup_pending b rid with
            | None => (b, Err BE_internal)
            | Some q => (park b rid q waiter, Ok (RA_waiting rid))
            end
        end
    end.

(** [GetPending]: the requests the approvals UI sees *)
Definition get_pending (b : Broker) (admin : bool) : result broker_error (list Request) :=
  if admin then Ok (filter (λ q, q_decision q = None) (omap (λ rid, reqs b !! rid) (pending b)))
  else Err BE_access_denied.

(** ** The admin's decision

    [DecideRequest] records its decision under the lock, releases the lock to audit and to
    write the cache, and takes it again to finish. [decide_begin] and [decide_finish] are
    the two sides; what the first hands to the second is a [ticket]. *)

Inductive decide_answer := DA_applied | DA_applied_uncached | DA_already (allow : bool) | DA_deciding
  | DA_unknown.

Record ticket := {
  tk_rid : Z;
  tk_allowed : bool;
  tk_scope : string;
  tk_admin : Z;
  tk_waiters : list Z;
  tk_argv : option (list string);
}.

(** The scope checks that raise [ScopeNotPermitted] *)
Definition scope_permitted (f : filing) (allowed : bool) (scope : string) : bool :=
  negb (f_delegated f && isin scope DELEGATED_FORBIDDEN_SCOPES)
  && negb (f_one_shot f && isin scope ONESHOT_FORBIDDEN_SCOPES)
  && negb (allowed && isin scope ARGV_REQUIRED_SCOPES
           && bool_decide (argv_from_details (f_details f) = None)).

(** The pid now belongs to another process *)
Definition recycled (f : filing) (start_now : Z) : bool :=
  negb (f_delegated f) && (0 <? f_pid f)%Z && negb (f_start f =? 0)%Z && negb (start_now =? 0)%Z
  && negb (start_now =? f_start f)%Z.

(** [DecideRequest] up to the audit: an answer, an error, or the ticket to finish.
    [admin] is the uid of a peer that passed the control gate, [start_now] what /proc says
    of the pid now, [ok] whether the audit takes the forced deny. *)
Definition decide_begin (b : Broker) (admin : option Z) (rid : Z) (decision scope : string)
    (start_now : Z) (ok : bool) (now : Z) : Broker * result broker_error (decide_answer + ticket) :=
  match admin with
  | None => (b, Err BE_access_denied)
  | Some admin_uid =>
      if negb (isin decision ["allow"; "deny"]) then (b, Err BE_bad_argument)
      else if negb (isin scope VALID_SCOPES) then (b, Err BE_bad_argument)
      else match lookup_pending b rid with
      | None => (b, Ok (inl DA_unknown))
      | Some q =>
          let f := q_filing q in
          let allowed := bool_decide (decision = "allow") in
          match q_decision q with
          | Some d => (b, Ok (inl (if q_finalizing q then DA_deciding else DA_already d)))
          | None =>
              if negb (scope_permitted f allowed scope) then (b, Err BE_scope_not_permitted)
              else if recycled f start_now then
                let b := update_req b rid (λ q, set_waiters [] (set_decision false false q)) in
                let b := audit_log b ok now
                  {| en_uid := f_uid f; en_pid := f_pid f; en_exe := f_exe f; en_action := f_action f;
                     en_decision := false; en_scope := None; en_source := AS_caller_gone;
                     en_approver := Some admin_uid; en_rule_path := None; en_request_id := Some rid;
                     en_argv := None; en_selinux := None; en_context := None |} in
                (emit b (E_decided rid false :: replies rid (q_waiters q) false), Err BE_caller_gone)
              else
                (update_req b rid (λ q, set_waiters [] (set_decision allowed true q)),
                 Ok (inr {| tk_rid := rid; tk_allowed := allowed; tk_scope := scope;
                            tk_admin := admin_uid; tk_waiters := q_waiters q;
                            tk_argv := argv_from_details (f_details f) |}))
          end
      end
  end.

(** What the databases answer while a decision is finished *)
Record finish_world := {
  fw_now : Z;
  fw_audit_ok : bool;
  fw_cache_ok : bool;
}.

(** The grant an allowed decision stores *)
Definition ticket_grant (f : filing) (tk : ticket) : C.grant :=
  {| C.g_uid := f_uid f; C.g_action := f_action f; C.g_exe := f_exe f; C.g_scope := tk_scope tk;
     C.g_decision := tk_allowed tk; C.g_approver := tk_admin tk; C.g_argv := default [] (tk_argv tk) |}.

(** [DecideRequest] from the audit on *)
Definition decide_finish (cf : config) (b : Broker) (w : finish_world) (tk : ticket)
    : Broker * result broker_error decide_answer :=
  let rid := tk_rid tk in
  match reqs b !! rid with
  | None => (b, Ok DA_unknown)
  | Some q =>
      let f := q_filing q in
      let allowed := tk_allowed tk in
      let b := audit_log b (fw_audit_ok w) (fw_now w)
        {| en_uid := f_uid f; en_pid := f_pid f; en_exe := f_exe f; en_action := f_action f;
           en_decision := allowed; en_scope := Some (tk_scope tk); en_source := AS_prompt;
           en_approver := Some (tk_admin tk); en_rule_path := None; en_request_id := Some rid;
           en_argv := tk_argv tk; en_selinux := None; en_context := None |} in
      let waiters := tk_waiters tk ++ q_waiters q in
      if negb (fw_audit_ok w) && cf_audit_required cf then
        let b := update_req b rid (λ q, set_waiters []
          (if bool_decide (rid ∈ pending b) then set_decision false false q else q)) in
        (emit b (replies rid waiters false ++ [E_decided rid false]), Err BE_audit_unavailable)
      else
        let store := allowed && negb (f_one_shot f) in
        let b := if store && fw_cache_ok w then with_cache b (C.store (cache b) (fw_now w) (ticket_grant f tk)).1
                 else b in
        let b := if allowed && truthy (f_cookie f) then respond_polkit b f else b in
        let b := update_req b rid (λ q, set_waiters []
          {| q_filing := q_filing q; q_decision := q_decision q; q_finalizing := false;
             q_waiters := q_waiters q; q_decided_at := q_decided_at q; q_layered := q_layered q;
             q_layered_pending := q_layered_pending q |}) in
        (emit b (replies rid waiters allowed ++ [E_decided rid allowed]),
         Ok (if store && negb (fw_cache_ok w) then DA_applied_uncached else DA_applied))
  end.

(** [DecideRequest] when nothing runs in between *)
Definition decide_request (cf : config) (b : Broker) (admin : option Z) (rid : Z)
    (decision scope : string) (start_now : Z) (ok : bool) (w : finish_world)
    : Broker * result broker_error decide_answer :=
  match decide_begin b admin rid decision scope start_now ok (fw_now w) with
  | (b, Err e) => (b, Err e)
  | (b, Ok (inl a)) => (b, Ok a)
  | (b, Ok (inr tk)) => decide_finish cf b w tk
  end.

(** ** Polkit sessions *)

(** [_prune_polkit_marks] *)
Definition prune_marks (b : Broker) (now : Z) : Broker :=
  with_marks b (filter (λ m, ¬ (POLKIT_UNDECIDED_TTL_S < now - m.2.2)%Z) (cancelled b))
    (filter (λ m, ¬ (POLKIT_UNDECIDED_TTL_S < now - m.2.2)%Z) (announced b)).

(** [_note_polkit_cancelled] *)
Definition note_polkit_cancelled (b : Broker) (now : Z) (cookie sender : string)
    : Broker * result broker_error unit :=
  if negb (truthy cookie) then (b, Ok tt)
  else
    let b := prune_marks b now in
    match od_get (cancelled b) cookie with
    | None =>
        if POLKIT_CANCELLED_MAX <=? length (cancelled b) then (b, Err BE_too_many_marks)
        else (with_marks b (od_set (cancelled b) cookie ({[sender]}, now)) (announced b), Ok tt)
    | Some (senders, t) =>
        (with_marks b (od_set (cancelled b) cookie (senders ∪ {[sender]}, t)) (announced b), Ok tt)
    end.

(** [AnnouncePolkitAuth]; [agent]: the peer passed the agent gate. *)
Definition announce_polkit_auth (b : Broker) (agent : bool) (now : Z) (cookie sender : string)
    : Broker * result broker_error unit :=
  if negb agent then (b, Err BE_access_denied)
  else if negb (truthy cookie) then (b, Ok tt)
  else
    let b := prune_marks b now in
    if cookie_taken b cookie sender then (b, Err BE_access_denied)
    else
      (* the cancel marks are popped and put back: they move to the end *)
      let '(b, dead) := match od_get (cancelled b) cookie with
        | Some mark => (with_marks b (od_del (cancelled b) cookie ++ [(cookie, mark)]) (announced b),
                        bool_decide (sender ∈ mark.1))
        | None => (b, false) end in
      if dead then (b, Ok tt)
      else if negb (bool_decide (is_Some (od_get (announced b) cookie)))
              && (POLKIT_CANCELLED_MAX <=? length (announced b))
      then (b, Err BE_too_many_marks)
      else (with_marks b (cancelled b) (od_set (announced b) cookie (sender, now)), Ok tt).

(** The first queued request of a cookie, empty cookies included *)
Definition cookie_request (b : Broker) (cookie : string) : option Request :=
  find (λ q, bool_decide (f_cookie (q_filing q) = cookie)) (omap (λ rid, reqs b !! rid) (pending b)).

(** [RespondPolkitAuth]: [agent] is the peer that passed the agent gate; [call_ok] is
    whether polkitd took the response, which otherwise raises. *)
Definition respond_polkit_auth (cf : config) (b : Broker) (agent : option subject) (now : Z)
    (cookie sender : string) (ids : list identity) (audit_ok call_ok : bool)
    : Broker * result broker_error unit :=
  match agent with
  | None => (b, Err BE_access_denied)
  | Some su =>
      let req := cookie_request b cookie in
      let owned := match req with
                   | Some q => bool_decide (f_filed_by (q_filing q) = sender) | None => false end
                   || match od_get (announced b) cookie with
                      | Some (owner, _) => bool_decide (owner = sender) | None => false end in
      if match od_get (cancelled b) cookie with
         | Some (senders, _) => bool_decide (sender ∈ senders) | None => false end
      then (b, Ok tt)
      else if negb owned then (b, Err BE_access_denied)
      else if match req with Some q => bool_decide (q_decision q = Some false) | None => false end
      then (b, Ok tt)
      else match pick_polkit_identity ids (su_uid su) with
      | None => (b, Err BE_bad_argument)
      | Some i =>
          let b := audit_log b audit_ok now
            {| en_uid := su_uid su; en_pid := su_pid su; en_exe := su_exe su;
               en_action := match req with Some q => f_action (q_filing q) | None => "polkit.local_auth" end;
               en_decision := true; en_scope := Some "once"; en_source := AS_polkit_local_auth;
               en_approver := Some (su_uid su); en_rule_path := None;
               en_request_id := (λ q, f_id (q_filing q)) <$> req; en_argv := None;
               en_selinux := None; en_context := Some (cf_cookie_ref cf cookie) |} in
          if negb audit_ok && cf_audit_required cf then (b, Err BE_audit_unavailable)
          else if negb call_ok then (b, Err BE_polkit_failed)
          else
            let b := emit b [E_polkit (su_uid su) cookie i] in
            match req with
            | Some q =>
                if bool_decide (q_decision q = None) then
                  let rid := f_id (q_filing q) in
                  let b := update_req b rid (λ q, set_waiters [] (set_decision true false q)) in
                  (emit b (replies rid (q_waiters q) true ++ [E_decided rid true]), Ok tt)
                else (b, Ok tt)
            | None => (b, Ok tt)
            end
      end
  end.

(** A queued request is denied by the relay itself: its waiters hear it. *)
Definition relay_deny (cf : config) (ok : bool) (now : Z) (src : audit_source) (b : Broker)
    (q : Request) : Broker :=
  let rid := f_id (q_filing q) in
  let b := audit_polkit_deny cf b ok now (q_filing q) src in
  emit b (replies rid (q_waiters q) false ++ [E_decided rid false]).

(** Decide requests deny and take their waiters *)
Definition deny_all (f : Request → Request) (b : Broker) (qs : list Request) : Broker :=
  fold_left (λ b q, update_req b (f_id (q_filing q)) (λ q, set_waiters [] (f (set_decision false false q))))
    qs b.

(** [CancelPolkitAuth] *)
Definition cancel_polkit_auth (cf : config) (b : Broker) (agent : option subject) (now : Z)
    (cookie sender : string) (audit_ok : bool) : Broker * result broker_error unit :=
  match agent with
  | None => (b, Err BE_access_denied)
  | Some su =>
      let '(b, r) := note_polkit_cancelled b now cookie sender in
      match r with
      | Err e => (b, Err e)
      | Ok _ =>
          let was_announced := match od_get (announced b) cookie with
            | Some (owner, _) => bool_decide (owner = sender) | None => false end in
          let b := if was_announced then with_marks b (cancelled b) (od_del (announced b) cookie) else b in
          let hits := filter (λ q, truthy (f_cookie (q_filing q)) = true ∧ f_cookie (q_filing q) = cookie ∧
              q_decision q = None ∧ f_filed_by (q_filing q) = sender)
            (omap (λ rid, reqs b !! rid) (pending b)) in
          match hits with
          | [] =>
              (if was_announced then audit_log b audit_ok now
                 {| en_uid := su_uid su; en_pid := su_pid su; en_exe := su_exe su;
                    en_action := "polkit.local_auth"; en_decision := false; en_scope := None;
                    en_source := AS_polkit_cancel; en_approver := None; en_rule_path := None;
                    en_request_id := None; en_argv := None;
                    en_selinux := None; en_context := Some (cf_cookie_ref cf cookie) |}
               else b, Ok tt)
          | _ =>
              let b := deny_all id b hits in
              (fold_left (relay_deny cf audit_ok now AS_polkit_cancel) hits b, Ok tt)
          end
      end
  end.

(** ** The reaper *)

(** What the reaper does with one queued request: deny it, drop it, stamp it or leave it *)
Inductive reap_action := RA_deny | RA_drop | RA_stamp | RA_leave.
#[export] Instance reap_action_eq_dec : EqDecision reap_action.
Proof. solve_decision. Defined.

Definition reap_one (cf : config) (now : Z) (q : Request) : reap_action :=
  match q_decision q with
  | None =>
      if truthy (f_cookie (q_filing q))
         && (POLKIT_UNDECIDED_TTL_S <=? now - f_created_at (q_filing q))%Z
      then RA_deny else RA_leave
  | Some _ =>
      if (cf_retention cf <=? 0)%Z then RA_leave
      else match q_decided_at q with
           | None => RA_stamp
           | Some t => if (cf_retention cf <=? now - t)%Z then RA_drop else RA_leave
           end
  end.

(** [_reap_pending]: the number of requests dropped *)
Definition reap_pending (cf : config) (b : Broker) (now : Z) (audit_ok : bool) : Broker * nat :=
  let qs := omap (λ rid, reqs b !! rid) (pending b) in
  let denied := filter (λ q, reap_one cf now q = RA_deny) qs in
  let dropped := filter (λ q, reap_one cf now q = RA_drop) qs in
  let stamped := filter (λ q, reap_one cf now q = RA_stamp) qs in
  let b := deny_all (set_decided_at now) b denied in
  let b := fold_left (λ b q, update_req b (f_id (q_filing q)) (set_decided_at now)) stamped b in
  let b := with_pending b (filter (λ rid, rid ∉ ((λ q, f_id (q_filing q)) <$> dropped)) (pending b)) in
  (fold_left (relay_deny cf audit_ok now AS_polkit_stale_reap) denied b, length dropped).

(** ** Administration *)

(** [_audit_revoke]: a failed write does not undo the revocation. *)
Definition audit_revoke (b : Broker) (ok : bool) (now admin : Z) (row : C.row) : Broker :=
  audit_log b ok now
    {| en_uid := C.caller_uid row; en_pid := 0; en_exe := C.match_value row; en_action := C.action row;
       en_decision := false;
       en_scope := match C.r_scope row with Some s => if truthy s then Some s else None | None => None end;
       en_source := AS_revoke; en_approver := Some admin; en_rule_path := None; en_request_id := None;
       en_argv := None; en_selinux := None; en_context := None |}.

(** A row is gone: the revocation is audited and signalled. *)
Definition revoked (ok : C.row → bool) (now admin : Z) (b : Broker) (row : C.row) : Broker :=
  emit (audit_revoke b (ok row) now admin row)
    [E_revoked (C.caller_uid row) (C.action row) (C.match_value row)].

(** [ListCache] *)
Definition list_cache (b : Broker) (admin : option Z) : result broker_error (list C.row) :=
  match admin with None => Err BE_access_denied | Some _ => Ok (C.list_all (cache b)) end.

(** [RevokeApproval] *)
Definition revoke_approval (b : Broker) (admin : option Z) (id : Z) (ok : C.row → bool) (now : Z)
    : Broker * result broker_error bool :=
  match admin with
  | None => (b, Err BE_access_denied)
  | Some a =>
      match C.delete_by_id (cache b) id with
      | (_, None) => (b, Ok false)
      | (d, Some row) => (revoked ok now a (with_cache b d) row, Ok true)
      end
  end.

(** [RevokeAllForUid] *)
Definition revoke_all_for_uid (b : Broker) (admin : option Z) (uid : Z) (ok : C.row → bool) (now : Z)
    : Broker * result broker_error nat :=
  match admin with
  | None => (b, Err BE_access_denied)
  | Some a =>
      let '(d, rs) := C.delete_by_uid (cache b) uid in
      (fold_left (revoked ok now a) rs (with_cache b d), Ok (length rs))
  end.

(** [RunCacheGc] *)
Definition run_cache_gc (b : Broker) (admin : option Z) (ok : bool) (now : Z)
    : Broker * result broker_error nat :=
  match admin with
  | None => (b, Err BE_access_denied)
  | Some _ =>
      if ok then let '(d, n) := C.gc (cache b) now in (with_cache b d, Ok n)
      else (b, Err BE_cache_gc_failed)
  end.

(** [_gc_tick]; the launch records are collected by [LaunchRecords.reap_expired]. *)
Definition gc_tick (cf : config) (b : Broker) (gc_ok audit_ok : bool) (now : Z) : Broker :=
  let b := if gc_ok then with_cache b (C.gc (cache b) now).1 else b in
  (reap_pending cf b now audit_ok).1.

(** [ListHistory] *)
Definition list_history (cf : config) (b : Broker) (peer limit : Z)
    : result broker_error (list (audit_row * option (list json))) :=
  if negb (bool_decide (peer ∈ [0; cf_admin_uid cf]%Z)) then Err BE_access_denied
  else Ok (recent (audit b) (if (0 <? limit)%Z then limit else 200)).

(** [RunAuditGc] *)
Definition run_audit_gc (b : Broker) (admin : option Z) (days now : Z)
    : Broker * result broker_error nat :=
  match admin with
  | None => (b, Err BE_access_denied)
  | Some _ =>
      if (days <? 1)%Z then (b, Err BE_bad_argument)
      else match gc (audit b) now (days * 86400) with
           | Ok (t, n) => (with_audit b t, Ok n)
           | Err _ => (b, Err BE_bad_argument)
           end
  end.

(** [RecordNotification]: a row over the caller's rate is dropped without an error. *)
Definition record_notification (b : Broker) (su : subject) (app summary body : string) (urgency : Z)
    (clock : Z) (ok : bool) (now : Z) : Broker :=
  let '(rl, allowed) := L.check (ratelimit b) clock (su_uid su) "notification.posted" in
  let b := with_ratelimit b rl in
  if negb allowed then b
  else
    let u := if bool_decide (urgency ∈ [0; 1; 2]%Z) then urgency else 1%Z in
    audit_log b ok now
      {| en_uid := su_uid su; en_pid := su_pid su; en_exe := su_exe su;
         en_action := "notification.posted"; en_decision := true; en_scope := None;
         en_source := AS_notification (str_take 128 app) u (str_take 256 summary) (str_take 512 body);
         en_approver := None; en_rule_path := None; en_request_id := None; en_argv := None;
         en_selinux := None; en_context := None |}.

(** [reload_rules_from_disk]: an exception escapes before the signal. *)
Definition reload_rules_from_disk (b : Broker) (has_yaml : bool)
    (listing : option (gmap string R.rules_file)) : Broker * option R.rule_exn :=
  let '(e, exn) := R.reload (rules b) has_yaml listing in
  let b := with_rules b e in
  (match exn with None => emit b [E_rules (length (R.eng_rules e))] | Some _ => b end, exn).

End Broker.
