(* ===== verification/BrokerDecisions.v ===== *)
(** * What the broker promises about decisions

    Over every interleaving of the operations of [Broker]: a decision that is final never
    changes, the waiters of a request all hear the same verdict, and no request is allowed
    without a row in the audit log that says who allowed it. A [DecideRequest] is two
    steps, so whatever the lock admits between them is covered. *)

From S2P Require Import Prelude Resolver Rules Cache AuditTrail Broker.
Import AuditTrail Broker.

Module Decisions.

(** ** Evidence *)

(** The rows that may stand behind an allowed request: a decision of its own id, or one of
    the rules or the cache for the same process and action. A one-shot request has only
    the admin's prompt and the local polkit verification. *)
Definition evidence (f : filing) (r : audit_row) : Prop :=
  au_decision r = true ∧ au_action r = f_action f ∧
  (au_request_id r = Some (f_id f) ∨
   au_uid r = f_uid f ∧ au_pid r = f_pid f ∧ au_exe r = f_exe f ∧
   (au_source r = AS_rule ∨ au_source r = AS_cache)) ∧
  (f_one_shot f = true → au_source r = AS_prompt ∨ au_source r = AS_polkit_local_auth).

Definition backed (b : Broker) (f : filing) : Prop := ∃ r, r ∈ audit b ∧ evidence f r.

Definition final (q : Request) (v : bool) : Prop := q_decision q = Some v ∧ q_finalizing q = false.

(** A verdict leaves the broker as a reply to a waiter or as the [RequestDecided] signal.
    The "no" for a request that is no longer queued ([E_gone]) is not one: it says nothing
    about the decision. *)
Definition says (e : event) (rid : Z) (v : bool) : Prop :=
  match e with
  | E_reply r _ v' | E_decided r v' => r = rid ∧ v' = v
  | _ => False
  end.

(** What may stand behind an answer to polkit *)
Definition polkit_backed (cf : config) (b : Broker) (cookie : string) : Prop :=
  ∃ r, r ∈ audit b ∧ au_decision r = true ∧
    ((au_source r = AS_polkit_local_auth ∧ au_context r = Some (cf_cookie_ref cf cookie)) ∨
     (au_source r = AS_prompt ∧ ∃ rid q, au_request_id r = Some rid ∧ reqs b !! rid = Some q ∧
        f_cookie (q_filing q) = cookie)).

(** ** The invariant *)

(** A verdict [v] about the object [q] was sent: it is final, or the audit failed after the
    object left the queue. *)
Definition heard (b : Broker) (T : list ticket) (rid : Z) (q : Request) (v : bool) : Prop :=
  final q v ∨ (v = false ∧ q_finalizing q = true ∧ rid ∉ pending b ∧ rid ∉ (tk_rid <$> T)).

Record binv (cf : config) (b : Broker) (T : list ticket) : Prop := {
  bi_ids : ∀ rid q, reqs b !! rid = Some q → f_id (q_filing q) = rid ∧ (rid < next_id b)%Z;
  bi_pending : ∀ rid, rid ∈ pending b → is_Some (reqs b !! rid);
  bi_nodup : NoDup (pending b);
  bi_tickets : NoDup (tk_rid <$> T);
  bi_ticket : ∀ tk, tk ∈ T → ∃ q, reqs b !! tk_rid tk = Some q ∧
    q_decision q = Some (tk_allowed tk) ∧ q_finalizing q = true;
  bi_prov : ∀ rid q, reqs b !! rid = Some q → q_finalizing q = true → is_Some (q_decision q);
  bi_cookie : ∀ rid q, reqs b !! rid = Some q → f_one_shot (q_filing q) = false →
    f_cookie (q_filing q) = "";
  bi_backed : cf_audit_required cf = true → ∀ rid q, reqs b !! rid = Some q → final q true →
    backed b (q_filing q);
  bi_said : ∀ e rid v, e ∈ sent b → says e rid v → ∃ q, reqs b !! rid = Some q ∧ heard b T rid q v;
  bi_polkit : cf_audit_required cf = true → ∀ u c i, E_polkit u c i ∈ sent b → polkit_backed cf b c;
}.

(** Objects are never dropped and a final decision stays. *)
Definition stable (b b' : Broker) : Prop :=
  ∀ rid q, reqs b !! rid = Some q → ∃ q', reqs b' !! rid = Some q' ∧ q_filing q' = q_filing q ∧
    (∀ v, final q v → final q' v).

#[export] Instance stable_preorder : PreOrder stable.
Proof.
  split.
  - intros b rid q Hq. by exists q.
  - intros b1 b2 b3 H12 H23 rid q Hq. destruct (H12 _ _ Hq) as (q2 & Hq2 & Hf2 & Hv2).
    destruct (H23 _ _ Hq2) as (q3 & Hq3 & Hf3 & Hv3). exists q3. repeat split; try congruence; firstorder.
Qed.

(** A transition that keeps the invariant and every final decision *)
Definition goes (cf : config) (b : Broker) (T : list ticket) (b' : Broker) (T' : list ticket) : Prop :=
  binv cf b T → binv cf b' T' ∧ stable b b'.

Lemma goes_refl cf b T : goes cf b T b T.
Proof. by intros ?. Qed.
Lemma goes_trans cf b1 T1 b2 T2 b3 T3 : goes cf b1 T1 b2 T2 → goes cf b2 T2 b3 T3 → goes cf b1 T1 b3 T3.
Proof. intros H12 H23 [H2 S12]%H12. destruct (H23 H2) as [H3 S23]. split; [done|]. by etrans. Qed.

(** ** Steps that touch no request and give no verdict *)

Definition mute (e : event) : Prop :=
  match e with E_reply _ _ _ | E_decided _ _ | E_polkit _ _ _ => False | _ => True end.

Record quiet (b b' : Broker) : Prop := {
  qt_reqs : reqs b' = reqs b;
  qt_pending : pending b' = pending b;
  qt_next : next_id b' = next_id b;
  qt_audit : audit b ⊆ audit b';
  qt_sent : ∀ e, e ∈ sent b' → e ∈ sent b ∨ mute e;
}.

#[export] Instance quiet_preorder : PreOrder quiet.
Proof.
  split.
  - intros b. split; auto; done.
  - intros b1 b2 b3 [A1 A2 A3 A4 A5] [B1 B2 B3 B4 B5]. split; [congruence..| |].
    + set_solver.
    + intros e [He|He]%B5; auto.
Qed.

Lemma backed_mono b b' f : audit b ⊆ audit b' → backed b f → backed b' f.
Proof. intros Ha (r & Hr & He). exists r. auto. Qed.

Lemma polkit_backed_mono cf b b' c :
  audit b ⊆ audit b' → stable b b' → polkit_backed cf b c → polkit_backed cf b' c.
Proof.
  intros Ha Hs (r & Hr & Hd & Hc). exists r. split; [auto|]. split; [done|].
  destruct Hc as [?|(? & rid & q & Hi & Hq & Hk)]; [by left|right]. split; [done|].
  destruct (Hs _ _ Hq) as (q' & Hq' & Hf & _). exists rid, q'. repeat split; congruence.
Qed.

Lemma stable_same b b' : reqs b' = reqs b → stable b b'.
Proof. intros Hr rid q Hq. exists q. by rewrite Hr. Qed.

Lemma quiet_goes cf b b' T : quiet b b' → goes cf b T b' T.
Proof.
  intros [E1 E2 E3 E4 E5] [I1 I2 I3 I4 I5 I6 I7 I8 I9 I10]. assert (Hs : stable b b') by by apply stable_same.
  split; [|done]. split; unfold heard; rewrite ?E1, ?E2, ?E3; try done.
  - intros Hr rid q Hq Hf. eapply backed_mono; [exact E4|eauto].
  - intros e rid v [He|He]%E5 Hsay; [by eapply I9|by destruct e].
  - intros Hr u c i [He|He]%E5; [eapply polkit_backed_mono; eauto|done].
Qed.

(** ** One object changes *)

Record changed (b b' : Broker) (rid : Z) (q' : Request) : Prop := {
  ch_reqs : reqs b' = <[rid := q']> (reqs b);
  ch_pending : pending b' = pending b;
  ch_next : next_id b' = next_id b;
  ch_audit : audit b ⊆ audit b';
  ch_sent : ∀ e, e ∈ sent b' → e ∈ sent b ∨ mute e;
}.

Lemma update_changed b rid q f :
  reqs b !! rid = Some q → changed b (update_req b rid f) rid (f q).
Proof. intros Hq. unfold update_req. rewrite Hq. split; auto; done. Qed.

Lemma decision_changed b rid q d fin :
  reqs b !! rid = Some q →
  changed b (update_req b rid (λ q, set_waiters [] (set_decision d fin q))) rid
    (set_waiters [] (set_decision d fin q)).
Proof. intros Hq. by apply (update_changed _ _ q (λ q, set_waiters [] (set_decision d fin q))). Qed.

Lemma quiet_changed b1 b2 b3 rid q' : quiet b1 b2 → changed b2 b3 rid q' → changed b1 b3 rid q'.
Proof.
  intros [A1 A2 A3 A4 A5] [B1 B2 B3 B4 B5]. split; [congruence..| |].
  - set_solver.
  - intros e [He|He]%B5; auto.
Qed.

(** What the change must respect *)
Record permitted (cf : config) (b' : Broker) (rid : Z) (T T' : list ticket) (q q' : Request) : Prop := {
  pm_filing : q_filing q' = q_filing q;
  pm_prov : q_finalizing q' = true → is_Some (q_decision q');
  pm_tickets : NoDup (tk_rid <$> T');
  pm_ticket : ∀ tk, tk ∈ T' → (tk_rid tk ≠ rid ∧ tk ∈ T) ∨
    (tk_rid tk = rid ∧ q_decision q' = Some (tk_allowed tk) ∧ q_finalizing q' = true);
  pm_backed : cf_audit_required cf = true → final q' true → backed b' (q_filing q);
  pm_final : ∀ v, final q v → final q' v;
  pm_heard : ∀ v, heard b' T rid q v → heard b' T' rid q' v;
}.

Lemma change_goes cf b b' T T' rid q q' :
  changed b b' rid q' → reqs b !! rid = Some q →
  (binv cf b T → permitted cf b' rid T T' q q') → goes cf b T b' T'.
Proof.
  intros [E1 E2 E3 E4 E5] Hq Hperm Hinv. destruct (Hperm Hinv) as [P1 P2 P3 P4 P5 P6 P7].
  destruct Hinv as [I1 I2 I3 I4 I5 I6 I7 I8 I9 I10].
  assert (Hcase : ∀ rid' q0, reqs b' !! rid' = Some q0 →
    (rid' = rid ∧ q0 = q') ∨ (rid' ≠ rid ∧ reqs b !! rid' = Some q0)).
  { intros rid' q0. rewrite E1. intros [[<- <-]|[Hne Hl]]%lookup_insert_Some; auto. }
  assert (Hself : reqs b' !! rid = Some q') by by rewrite E1, lookup_insert_eq.
  assert (Hother : ∀ rid', rid' ≠ rid → reqs b' !! rid' = reqs b !! rid').
  { intros rid' Hne. by rewrite E1, lookup_insert_ne. }
  assert (Hs : stable b b').
  { intros rid' q0 Hq0. destruct (decide (rid' = rid)) as [->|Hne].
    - assert (q0 = q) as -> by congruence. eauto.
    - exists q0. by rewrite Hother. }
  split; [|done]. split.
  - intros rid' q0 [[-> ->]|[Hne Hl]]%Hcase; rewrite E3; [rewrite P1|]; by apply I1.
  - intros rid'. rewrite E2. intros Hr. destruct (decide (rid' = rid)) as [->|Hne]; [eauto|].
    rewrite Hother by done. by apply I2.
  - by rewrite E2.
  - done.
  - intros tk [[Hne Ht]|(<- & Hd & Hf)]%P4; [rewrite Hother by done; by apply I5|eauto].
  - intros rid' q0 [[-> ->]|[Hne Hl]]%Hcase; [done|by eapply I6].
  - intros rid' q0 [[-> ->]|[Hne Hl]]%Hcase; [rewrite P1|]; by eapply I7.
  - intros Hr rid' q0 [[-> ->]|[Hne Hl]]%Hcase Hf; [rewrite P1; auto|].
    eapply backed_mono; [exact E4|by eapply I8].
  - intros e rid' v [He|He]%E5 Hsay; [|by destruct e].
    destruct (I9 _ _ _ He Hsay) as (q0 & Hl & Hh). unfold heard in *. rewrite E2 in *.
    destruct (decide (rid' = rid)) as [->|Hne].
    + assert (q0 = q) as -> by congruence. eauto.
    + exists q0. rewrite Hother by done. split; [done|]. destruct Hh as [?|(-> & Hz & Hnp & Hnt)]; [by left|right].
      repeat split; try done. contradict Hnt. apply list_elem_of_fmap in Hnt as (tk & -> & Ht).
      apply P4 in Ht as [[_ Ht]|[Heq _]]; [by apply list_elem_of_fmap_2|done].
  - intros Hr u c i [He|He]%E5; [eapply polkit_backed_mono; eauto|done].
Qed.

(** The decision of the object stays as it was. *)
Lemma benign_goes cf b b' T rid q q' :
  changed b b' rid q' → reqs b !! rid = Some q → q_filing q' = q_filing q →
  q_decision q' = q_decision q → q_finalizing q' = q_finalizing q → goes cf b T b' T.
Proof.
  intros Hc Hq Hf Hd Hz. eapply change_goes; [done..|]. intros I. split; try done.
  - rewrite Hz, Hd. by eapply bi_prov.
  - eapply bi_tickets; eauto.
  - intros tk Ht. destruct (decide (tk_rid tk = rid)) as [He|Hne]; [right|by left].
    destruct (bi_ticket _ _ _ I _ Ht) as (q0 & Hl & ?). rewrite He in Hl. replace q0 with q in * by congruence.
    by rewrite Hd, Hz.
  - intros Hr Hfin. eapply backed_mono; [apply Hc|]. eapply bi_backed; eauto. unfold final in *. by rewrite <- Hd, <- Hz.
  - intros v. unfold final. by rewrite Hd, Hz.
  - intros v. unfold heard, final. by rewrite Hd, Hz.
Qed.

(** An undecided request is decided; an allow has its evidence. *)
Lemma decide_goes cf b b' T rid q q' v :
  changed b b' rid q' → reqs b !! rid = Some q → q_filing q' = q_filing q →
  q_decision q = None → final q' v →
  (binv cf b T → cf_audit_required cf = true → v = true → backed b' (q_filing q)) →
  goes cf b T b' T.
Proof.
  intros Hc Hq Hf Hd [Hv Hz] Hb. eapply change_goes; [done..|]. intros I.
  assert (q_finalizing q = true → False) as Hnf.
  { intros Hfz. destruct (bi_prov _ _ _ I _ _ Hq Hfz). congruence. }
  split; try done.
  - eapply bi_tickets; eauto.
  - intros tk Ht. left. split; [|done]. intros <-. destruct (bi_ticket _ _ _ I _ Ht) as (q0 & ? & ? & ?). congruence.
  - intros Hr [Ht _]. apply Hb; [done..|congruence].
  - intros v' [? _]. congruence.
  - intros v' [[? _]|(_ & ? & _)]; [congruence|tauto].
Qed.

(** The admin decides provisionally: the ticket is out. *)
Lemma begin_goes cf b b' T rid q q' tk :
  changed b b' rid q' → reqs b !! rid = Some q → q_filing q' = q_filing q →
  q_decision q = None → q_decision q' = Some (tk_allowed tk) → q_finalizing q' = true → tk_rid tk = rid →
  goes cf b T b' (tk :: T).
Proof.
  intros Hc Hq Hf Hd Hv Hz Hk. eapply change_goes; [done..|]. intros I.
  assert (∀ tk', tk' ∈ T → tk_rid tk' ≠ rid) as Hnew.
  { intros tk' Ht <-. destruct (bi_ticket _ _ _ I _ Ht) as (q0 & ? & ? & ?). congruence. }
  split; try done.
  - rewrite fmap_cons. apply NoDup_cons. split; [|by eapply bi_tickets].
    intros (tk' & He & Ht)%list_elem_of_fmap. apply (Hnew _ Ht). congruence.
  - intros tk' [->|Ht]%elem_of_cons; [by right|left; auto].
  - intros _ [_ ?]. congruence.
  - intros v' [? _]. congruence.
  - intros v' [[? _]|(_ & Hfz & _)]; [congruence|]. destruct (bi_prov _ _ _ I _ _ Hq Hfz). congruence.
Qed.

(** The ticket comes back. *)
Lemma finish_goes cf b b' T1 tk T2 q q' :
  changed b b' (tk_rid tk) q' → reqs b !! tk_rid tk = Some q → q_filing q' = q_filing q →
  (q_finalizing q' = true → is_Some (q_decision q')) →
  (binv cf b (T1 ++ tk :: T2) → cf_audit_required cf = true → final q' true → backed b' (q_filing q)) →
  goes cf b (T1 ++ tk :: T2) b' (T1 ++ T2).
Proof.
  intros Hc Hq Hf Hz Hb. eapply change_goes; [done..|]. intros I.
  pose proof (bi_tickets _ _ _ I) as Hnd.
  destruct (bi_ticket _ _ _ I tk ltac:(set_solver)) as (q0 & Hq0 & Hd0 & Hz0).
  replace q0 with q in * by congruence. rewrite fmap_app, fmap_cons in Hnd.
  apply NoDup_app in Hnd as (Hn1 & Hdis & [Hnk Hn2]%NoDup_cons).
  split; try done; try tauto.
  - rewrite fmap_app. apply NoDup_app. repeat split; [done| |done]. set_solver.
  - intros tk' Ht. left. split; [|set_solver]. intros He.
    apply elem_of_app in Ht as [Ht|Ht]; apply (list_elem_of_fmap_2 tk_rid) in Ht; rewrite He in Ht; set_solver.
  - intros v [_ ?]. congruence.
  - intros v [[_ ?]|(_ & _ & _ & Hn)]; [congruence|]. contradict Hn. rewrite fmap_app, fmap_cons. set_solver.
Qed.

(** ** Events *)

Definition sayable (cf : config) (b : Broker) (T : list ticket) (e : event) : Prop :=
  (∀ rid v, says e rid v → ∃ q, reqs b !! rid = Some q ∧ heard b T rid q v) ∧
  (cf_audit_required cf = true → ∀ u c i, e = E_polkit u c i → polkit_backed cf b c).

Lemma emit_goes cf b T es : (binv cf b T → Forall (sayable cf b T) es) → goes cf b T (emit b es) T.
Proof.
  intros Hes I. specialize (Hes I). destruct I as [I1 I2 I3 I4 I5 I6 I7 I8 I9 I10].
  rewrite Forall_forall in Hes. split; [|by apply stable_same]. split; try done.
  - intros e rid v [He|He]%elem_of_app Hs; [by eapply I9|]. by apply (Hes _ He).
  - intros Hr u c i [He|He]%elem_of_app; [by eapply I10|]. by eapply (Hes _ He).
Qed.

(** An event that carries the verdict [v] of [rid], or none *)
Definition verdict_of (rid : Z) (v : bool) (e : event) : Prop := says e rid v ∨ mute e.

Lemma verdict_sayable cf b T rid q v es :
  reqs b !! rid = Some q → heard b T rid q v → Forall (verdict_of rid v) es → Forall (sayable cf b T) es.
Proof.
  intros Hq Hh. intros Hes. eapply Forall_impl; [exact Hes|].
  intros e [He|He]; destruct e; try done; split; intros; cbn in *;
    destruct_and?; subst; eauto; done.
Qed.

Lemma replies_verdict rid ws v : Forall (verdict_of rid v) (replies rid ws v).
Proof. apply Forall_fmap, Forall_true. intros w. by left. Qed.
Lemma decided_verdict rid v : verdict_of rid v (E_decided rid v).
Proof. by left. Qed.
Lemma replies_decided rid ws v : Forall (verdict_of rid v) (replies rid ws v ++ [E_decided rid v]).
Proof. apply Forall_app; split; [apply replies_verdict|]. by apply Forall_singleton, decided_verdict. Qed.
Lemma decided_replies rid ws v : Forall (verdict_of rid v) (E_decided rid v :: replies rid ws v).
Proof. apply Forall_cons_2; [apply decided_verdict|apply replies_verdict]. Qed.
#[local] Hint Resolve replies_verdict replies_decided decided_replies : qd.

(** An undecided request is decided and its waiters hear of it. *)
Lemma settle_goes cf b b1 T rid q q' v es :
  changed b b1 rid q' → reqs b !! rid = Some q → q_filing q' = q_filing q →
  q_decision q = None → final q' v →
  (binv cf b T → cf_audit_required cf = true → v = true → backed b1 (q_filing q)) →
  Forall (verdict_of rid v) es → goes cf b T (emit b1 es) T.
Proof.
  intros Hc Hq Hf Hd Hv Hb Hes. eapply goes_trans; [by eapply decide_goes|].
  apply emit_goes. intros I. eapply verdict_sayable; [| |done].
  - rewrite (ch_reqs _ _ _ _ Hc). apply lookup_insert_eq.
  - by left.
Qed.

(** ** The quiet operations *)

Lemma audit_log_quiet b ok now e : quiet b (audit_log b ok now e).
Proof. unfold audit_log. destruct ok; [|done]. split; auto; intros r Hr. apply log_elem. by left. Qed.
Lemma with_ratelimit_quiet b x : quiet b (with_ratelimit b x).
Proof. split; auto; done. Qed.
Lemma with_cache_quiet b x : quiet b (with_cache b x).
Proof. split; auto; done. Qed.
Lemma with_marks_quiet b x y : quiet b (with_marks b x y).
Proof. split; auto; done. Qed.
Lemma emit_quiet b es : Forall mute es → quiet b (emit b es).
Proof. intros Hm. rewrite Forall_forall in Hm. split; auto; intros e [He|He]%elem_of_app; auto. Qed.
#[local] Hint Resolve audit_log_quiet with_ratelimit_quiet with_cache_quiet with_marks_quiet : qd.

Lemma lineage_selectors_quiet cf b w su ce ca : quiet b (lineage_selectors cf b w su ce ca).1.
Proof. unfold lineage_selectors. cbn [fst]. case_match; auto with qd; reflexivity. Qed.

Lemma record_check_quiet cf b ok now su al d src sc rp ap ri gr :
  quiet b (record_check cf b ok now su al d src sc rp ap ri gr).1.
Proof. unfold record_check. cbn [fst]. auto with qd. Qed.

Lemma decide_check_quiet cf b w su d app engine : quiet b (decide_check cf b w su d app engine).1.
Proof.
  unfold decide_check, record_check. repeat (case_match; simplify_eq); cbn [fst]; auto with qd; reflexivity.
Qed.

Lemma cancel_mark_quiet b c by_ : quiet b (cancel_mark b c by_).2.
Proof. unfold cancel_mark. repeat case_match; cbn [snd]; auto with qd; reflexivity. Qed.

Lemma enqueue_rate_quiet b w su : quiet b (enqueue_rate b w su).1.
Proof.
  unfold enqueue_rate. case_match. case_match; cbn [fst]; auto with qd.
  etrans; [apply with_ratelimit_quiet|apply audit_log_quiet].
Qed.

Lemma enqueue_consult_quiet cf b w a : quiet b (enqueue_consult cf b w a).1.
Proof.
  unfold enqueue_consult.
  destruct (match fa_polkit a with Some (c, _) => cancel_mark b c (fa_filed_by a) | None => (false, b) end)
    as [dead b1] eqn:Hm.
  assert (quiet b b1) as H1.
  { destruct (fa_polkit a) as [[c ?]|]; [|by simplify_eq].
    pose proof (cancel_mark_quiet b c (fa_filed_by a)) as H1. by rewrite Hm in H1. }
  destruct (((negb (fa_one_shot a) || _) && _)%bool); [|done]. destruct (lineage_selectors _ _ _ _ _ _) as [b2 [? ?]] eqn:Hl.
  destruct (consult _ _ _ _ _ _ _ _). cbn [fst]. etrans; [done|].
  apply (f_equal fst) in Hl. cbn [fst] in Hl. rewrite <- Hl.
  apply lineage_selectors_quiet.
Qed.
#[local] Hint Resolve lineage_selectors_quiet record_check_quiet decide_check_quiet enqueue_rate_quiet
  enqueue_consult_quiet : qd.

(** ** Evidence of the synchronous tiers *)

(** The row is about the process and the action. *)
Definition names (su : subject) (r : audit_row) : Prop :=
  au_uid r = su_uid su ∧ au_pid r = su_pid su ∧ au_exe r = su_exe su ∧ au_action r = su_action su.

Lemma record_check_evidence cf b ok now su al d src sc rp ap ri gr :
  cf_audit_required cf = true → (record_check cf b ok now su al d src sc rp ap ri gr).2 = true →
  ∃ r, r ∈ audit (record_check cf b ok now su al d src sc rp ap ri gr).1 ∧ au_decision r = true ∧
    names su r ∧ au_source r = src ∧ au_request_id r = ri.
Proof.
  unfold record_check. cbn [fst snd]. intros ->. destruct ok; cbn; [|done]. intros ->.
  eexists. split; [apply log_elem; by right|]. done.
Qed.

Lemma decide_check_evidence cf b w su d app engine :
  cf_audit_required cf = true → (decide_check cf b w su d app engine).2 = Some true →
  ∃ r, r ∈ audit (decide_check cf b w su d app engine).1 ∧ au_decision r = true ∧ names su r ∧
    (au_source r = AS_rule ∨ au_source r = AS_cache) ∧ au_request_id r = None.
Proof.
  intros Hr. unfold decide_check. case_match.
  - match goal with |- context [record_check ?cf ?b ?ok ?now ?su ?al ?d ?src ?sc ?rp ?ap ?ri ?gr] =>
      pose proof (record_check_evidence cf b ok now su al d src sc rp ap ri gr Hr) as Hev;
      destruct (record_check cf b ok now su al d src sc rp ap ri gr) as [b1 x] end.
    cbn [fst snd] in *. intros [= ->]. destruct Hev as (rw & ? & ? & ? & ? & ?); [done|]. exists rw. split_and!; auto.
  - case_match; [done|]. case_match; [|done].
    match goal with |- context [record_check ?cf ?b ?ok ?now ?su ?al ?d ?src ?sc ?rp ?ap ?ri ?gr] =>
      pose proof (record_check_evidence cf b ok now su al d src sc rp ap ri gr Hr) as Hev;
      destruct (record_check cf b ok now su al d src sc rp ap ri gr) as [b1 x] end.
    cbn [fst snd] in *. intros [= ->]. destruct Hev as (rw & ? & ? & ? & ? & ?); [done|]. exists rw. split_and!; auto.
Qed.

Lemma names_evidence f r :
  au_decision r = true → names (subject_of f) r → f_one_shot f = false →
  au_request_id r = Some (f_id f) ∨ au_source r = AS_rule ∨ au_source r = AS_cache → evidence f r.
Proof.
  intros Hd (Hu & Hp & He & Ha) Hos Hw. unfold evidence. cbn in *. split_and!; [done..| |congruence].
  destruct Hw as [?|?]; auto.
Qed.

Lemma check_permission_quiet cf b w su d : quiet b (check_permission cf b w su d).1.
Proof.
  unfold check_permission. destruct (L.check _ _ _ _) as [rl ok]. destruct ok; cbn [negb fst]; [|auto with qd].
  match goal with |- context [lineage_selectors ?cf ?b ?w ?su ?x ?y] =>
    pose proof (lineage_selectors_quiet cf b w su x y) as H1;
    destruct (lineage_selectors cf b w su x y) as [b1 [engine app]] end.
  pose proof (decide_check_quiet cf b1 w su d app engine) as H2.
  destruct (decide_check _ _ _ _ _ _ _) as [b2 r]. cbn [fst] in *.
  etrans; [apply with_ratelimit_quiet|]. by etrans.
Qed.

(** A check that answers "allow" leaves a row that records it *)
Lemma check_permission_evidence cf b w su d b' :
  cf_audit_required cf = true → check_permission cf b w su d = (b', Ok (Some true)) →
  ∃ r, r ∈ audit b' ∧ au_decision r = true ∧ names su r ∧ (au_source r = AS_rule ∨ au_source r = AS_cache).
Proof.
  intros Hr. unfold check_permission. destruct (L.check _ _ _ _) as [rl ok]. destruct ok; cbn [negb]; [|done].
  match goal with |- context [lineage_selectors ?cf ?b ?w ?su ?x ?y] => destruct (lineage_selectors cf b w su x y) as [b1 [engine app]] end.
  pose proof (decide_check_evidence cf b1 w su d app engine Hr) as He.
  destruct (decide_check _ _ _ _ _ _ _) as [b2 r]. intros [= <- ->]. destruct (He eq_refl) as (row & ? & ? & ? & ? & _). by eauto 10.
Qed.

Lemma check_for_client_quiet cf b w fe c d : quiet b (check_permission_for_client cf b w fe c d).1.
Proof. unfold check_permission_for_client. case_match; [done|]. case_match; [apply check_permission_quiet|done]. Qed.

(** ** Hooks, layers and waiters *)

Lemma lookup_pending_Some b rid q : lookup_pending b rid = Some q ↔ rid ∈ pending b ∧ reqs b !! rid = Some q.
Proof. unfold lookup_pending. case_bool_decide; naive_solver. Qed.

Lemma hook_verdict_spec cf b w f verdict why :
  quiet b (hook_verdict cf b w f verdict why).1 ∧
  (cf_audit_required cf = true → f_one_shot f = false → (hook_verdict cf b w f verdict why).2 = true →
   backed (hook_verdict cf b w f verdict why).1 f).
Proof.
  unfold hook_verdict.
  match goal with |- context [match ?x with pair p z => _ end] => set (X := x) end.
  assert (∃ b1 valid cur, X = (b1, valid, cur) ∧ quiet b b1 ∧
    (cf_audit_required cf = true → f_one_shot f = false → cur = Some true → backed b1 f)) as (b1 & valid & cur & -> & Hq & Hb).
  { subst X. case_match; [|by exists b, false, None]. 
    match goal with |- context [lineage_selectors ?cf ?b ?w ?su ?x ?y] =>
      pose proof (lineage_selectors_quiet cf b w su x y) as H1;
      destruct (lineage_selectors cf b w su x y) as [b1 [engine app]] end.
    cbn [fst] in H1. case_match; [|by exists b1, false, None].
    pose proof (decide_check_quiet cf b1 (hw_lookup w) (subject_of f) (f_details f) app engine) as H2.
    pose proof (decide_check_evidence cf b1 (hw_lookup w) (subject_of f) (f_details f) app engine) as H3.
    destruct (decide_check _ _ _ _ _ _ _) as [b2 r]. cbn [fst snd] in *. exists b2, true, r.
    split; [done|]. split; [by etrans|]. intros Hr Hos ->.
    destruct (H3 Hr eq_refl) as (row & ? & ? & ? & ? & ?). exists row. split; [done|]. by apply names_evidence; auto. }
  destruct cur as [r|]; cbn [fst snd].
  { split; [done|]. intros ? ? ->. auto. }
  match goal with |- context [record_check ?cf ?b ?ok ?now ?su ?al ?d ?src ?sc ?rp ?ap ?ri ?gr] =>
    pose proof (record_check_quiet cf b ok now su al d src sc rp ap ri gr) as H1;
    pose proof (record_check_evidence cf b ok now su al d src sc rp ap ri gr) as H2;
    destruct (record_check cf b ok now su al d src sc rp ap ri gr) as [b2 r] end.
  cbn [fst snd] in *. split; [by etrans|]. intros Hr Hos ->.
  destruct (H2 Hr eq_refl) as (row & ? & ? & ? & ? & ?). exists row. split; [done|]. apply names_evidence; auto.
Qed.

Lemma apply_hook_goes cf b T w rid :
  (∀ q, lookup_pending b rid = Some q → f_one_shot (q_filing q) = false) → goes cf b T (apply_hook cf b w rid) T.
Proof.
  intros Hos. unfold apply_hook. destruct (lookup_pending b rid) as [q|] eqn:Hq; [|apply goes_refl].
  specialize (Hos q eq_refl). apply lookup_pending_Some in Hq as [_ Hq].
  case_bool_decide as Hd; [apply goes_refl|]. apply eq_None_not_Some in Hd.
  destruct (hw_response w) as [[verdict why]|]; [|apply quiet_goes, emit_quiet; by apply Forall_singleton].
  case_match; [|apply quiet_goes, emit_quiet; by apply Forall_singleton].
  destruct (hook_verdict_spec cf b w (q_filing q) verdict why) as [H1 H2].
  destruct (hook_verdict _ _ _ _ _ _) as [b1 r]. cbn [fst snd] in *.
  intros I. pose proof (bi_cookie _ _ _ I _ _ Hq Hos) as Hc. rewrite Hc. rewrite andb_false_r.
  revert I. eapply (settle_goes _ _ _ _ _ q (set_waiters [] (set_decision r false q))); [|exact Hq| |exact Hd|split| |apply decided_replies]; try done.
  - eapply quiet_changed; [exact H1|]. apply decision_changed. by rewrite (qt_reqs _ _ H1).
  - intros _ Hr ->. eapply backed_mono; [|auto]. unfold update_req. rewrite (qt_reqs _ _ H1), Hq. done.
Qed.

Lemma apply_layered_goes cf b T rid l : goes cf b T (apply_layered_identity b rid l) T.
Proof.
  unfold apply_layered_identity. destruct (lookup_pending b rid) as [q|] eqn:Hq; [|apply goes_refl].
  apply lookup_pending_Some in Hq as [_ Hq]. by eapply benign_goes; [apply update_changed|..].
Qed.

Lemma park_goes cf b T rid q wt : reqs b !! rid = Some q → goes cf b T (park b rid q wt) T.
Proof.
  intros Hq. unfold park.
  destruct (q_decision q) as [d|] eqn:Hd; [|by eapply benign_goes; [apply update_changed|..]].
  destruct (q_finalizing q) eqn:Hf; [by eapply benign_goes; [apply update_changed|..]|].
  apply emit_goes. intros _. eapply verdict_sayable; [exact Hq|by left|]. apply (replies_verdict rid [wt]).
Qed.

Lemma wait_goes cf b T rid u wt : goes cf b T (wait_for_decision cf b rid u wt) T.
Proof.
  unfold wait_for_decision. destruct (lookup_pending b rid) as [q|] eqn:Hq;
    [|apply quiet_goes, emit_quiet; by apply Forall_singleton].
  apply lookup_pending_Some in Hq as [_ Hq].
  case_match; [apply quiet_goes, emit_quiet; by apply Forall_singleton|].
  by apply park_goes.
Qed.

(** ** A request is filed *)

Record added (b b' : Broker) (q : Request) : Prop := {
  ad_reqs : reqs b' = <[next_id b := q]> (reqs b);
  ad_pending : pending b' = pending b ++ [next_id b];
  ad_next : next_id b' = (next_id b + 1)%Z;
  ad_audit : audit b ⊆ audit b';
  ad_sent : ∀ e, e ∈ sent b' → e ∈ sent b ∨ mute e;
}.

Lemma add_request_added b q : added b (add_request b q) q.
Proof. split; auto; done. Qed.
Lemma quiet_added b1 b2 b3 q : quiet b1 b2 → added b2 b3 q → added b1 b3 q.
Proof.
  intros [A1 A2 A3 A4 A5] [B1 B2 B3 B4 B5]. rewrite A1, A2, A3 in *. split; [done..| |].
  - set_solver.
  - intros e [He|He]%B5; auto.
Qed.
Lemma added_quiet b1 b2 b3 q : added b1 b2 q → quiet b2 b3 → added b1 b3 q.
Proof.
  intros [A1 A2 A3 A4 A5] [B1 B2 B3 B4 B5]. split; [congruence..| |].
  - set_solver.
  - intros e [He|He]%B5; auto.
Qed.
Lemma added_changed b1 b2 b3 q q' : added b1 b2 q → changed b2 b3 (next_id b1) q' → added b1 b3 q'.
Proof.
  intros [A1 A2 A3 A4 A5] [B1 B2 B3 B4 B5]. split; [|congruence..| |].
  - by rewrite B1, A1, insert_insert_eq.
  - set_solver.
  - intros e [He|He]%B5; auto.
Qed.

Lemma added_goes cf b b' T q :
  added b b' q → f_id (q_filing q) = next_id b → q_finalizing q = false →
  (f_one_shot (q_filing q) = false → f_cookie (q_filing q) = "") →
  (cf_audit_required cf = true → q_decision q = Some true → backed b' (q_filing q)) →
  goes cf b T b' T.
Proof.
  intros [E1 E2 E3 E4 E5] Hid Hz Hck Hbk [I1 I2 I3 I4 I5 I6 I7 I8 I9 I10].
  assert (Hfresh : ∀ rid q0, reqs b !! rid = Some q0 → reqs b' !! rid = Some q0).
  { intros rid q0 Hq. rewrite E1, lookup_insert_ne; [done|]. destruct (I1 _ _ Hq). lia. }
  assert (Hcase : ∀ rid q0, reqs b' !! rid = Some q0 → (rid = next_id b ∧ q0 = q) ∨ reqs b !! rid = Some q0).
  { intros rid q0. rewrite E1. intros [[<- <-]|[Hne Hl]]%lookup_insert_Some; auto. }
  assert (Hs : stable b b') by (intros rid q0 Hq; exists q0; auto).
  assert (Hpend : ∀ rid, rid ∈ pending b → (rid < next_id b)%Z).
  { intros rid Hr. destruct (I2 _ Hr) as [q0 Hq0]. by apply (I1 _ _ Hq0). }
  split; [|done]. split.
  - intros rid q0 [[-> ->]|Hl]%Hcase; rewrite E3; [split; [done|lia]|]. apply I1 in Hl as [? ?]. split; [done|lia].
  - intros rid. rewrite E2, elem_of_app, list_elem_of_singleton. intros [Hr| ->].
    + destruct (I2 _ Hr) as [q0 Hq0]. eauto.
    + rewrite E1, lookup_insert_eq. done.
  - rewrite E2. apply NoDup_app. split_and!; [done| |apply NoDup_singleton].
    intros rid Hr ->%list_elem_of_singleton. apply Hpend in Hr. lia.
  - done.
  - intros tk Ht. destruct (I5 _ Ht) as (q0 & Hq0 & ?). eauto.
  - intros rid q0 [[-> ->]|Hl]%Hcase; [congruence|by eapply I6].
  - intros rid q0 [[-> ->]|Hl]%Hcase; [done|by eapply I7].
  - intros Hr rid q0 [[-> ->]|Hl]%Hcase; [intros [? _]; auto|]. intros Hf.
    eapply backed_mono; [exact E4|by eapply I8].
  - intros e rid v [He|He]%E5 Hsay; [|by destruct e]. destruct (I9 _ _ _ He Hsay) as (q0 & Hl & Hh).
    exists q0. split; [auto|]. destruct Hh as [?|(-> & Hq & Hnp & Hnt)]; [by left|right].
    split_and!; try done. rewrite E2, elem_of_app, list_elem_of_singleton. intros [?| ->]; [done|].
    destruct (I1 _ _ Hl). lia.
  - intros Hr u c i [He|He]%E5; [eapply polkit_backed_mono; eauto|done].
Qed.

(** The four ways a request is filed *)
Inductive filed : filing_args → Prop :=
| F_request su start d : filed (request_permission su start d)
| F_request_as su start d : filed (request_permission_as su start d)
| F_relay su start d : filed (request_relay su start d)
| F_polkit su start d cookie ids sender : filed (request_polkit_auth su start d cookie ids sender).

(** A polkit filing is only answered from the tiers by a deny rule. *)
Lemma consult_polkit b w su d app engine delegated rule row :
  consult b w su d app engine delegated true = (rule, row) →
  row = None ∧ ∀ r, rule = Some r → R.rl_decision r = "deny".
Proof.
  unfold consult. case_match eqn:Hm; intros [= <- <-]; split; try done. intros r' [= ->].
  apply R.match_rules_Some in Hm as (? & ? & _ & _ & Hd & _). by apply Hd.
Qed.

Lemma enqueue_consult_polkit cf b w a b' dead rule row d :
  filed a → fa_one_shot a = true → enqueue_consult cf b w a = (b', (dead, rule, row, d)) →
  row = None ∧ ∀ r, rule = Some r → R.rl_decision r = "deny".
Proof.
  intros Hf Hos. unfold enqueue_consult. rewrite Hos. cbn [negb orb].
  destruct (match fa_polkit a with Some (c, _) => cancel_mark b c (fa_filed_by a) | None => (false, b) end)
    as [dead' b1]. destruct (bool_decide (is_Some (fa_polkit a))); cbn [andb]; [|by intros [= <- <- <- <- <-]].
  destruct (negb dead'); [|by intros [= <- <- <- <- <-]].
  destruct (lineage_selectors _ _ _ _ _ _) as [b2 [? ?]].
  destruct (consult _ _ _ _ _ _ _ _) as [rule' row'] eqn:Hc. intros [= <- <- <- <- <-].
  by eapply consult_polkit.
Qed.

(** A request the tiers answer is filed, audited and decided. *)
Lemma audited_goes cf b b2 T q0 ok now al d src sc rp ap gr :
  quiet b b2 → f_id (q_filing q0) = next_id b2 → q_finalizing q0 = false →
  (f_one_shot (q_filing q0) = false → f_cookie (q_filing q0) = "") →
  (f_one_shot (q_filing q0) = true → al = false) →
  let c := record_check cf (add_request b2 q0) ok now (subject_of (q_filing q0)) al d src sc rp ap
             (Some (next_id b2)) gr in
  goes cf b T (update_req c.1 (next_id b2) (set_decision c.2 false)) T.
Proof.
  intros Q Hid Hz Hck Hos. cbv zeta.
  match goal with |- context [record_check ?cf ?b ?ok ?now ?su ?al ?d ?src ?sc ?rp ?ap ?ri ?gr] =>
    pose proof (record_check_quiet cf b ok now su al d src sc rp ap ri gr) as Q3;
    pose proof (record_check_evidence cf b ok now su al d src sc rp ap ri gr) as Hev;
    assert (al = false → (record_check cf b ok now su al d src sc rp ap ri gr).2 = false) as Hno
      by (unfold record_check; cbn [snd]; intros ->; by case_match);
    destruct (record_check cf b ok now su al d src sc rp ap ri gr) as [b3 r] end.
  cbn [fst snd] in *.
  pose proof (added_quiet _ _ _ _ (add_request_added b2 q0) Q3) as Ha.
  assert (Hq0 : reqs b3 !! next_id b2 = Some q0) by (rewrite (ad_reqs _ _ _ Ha); apply lookup_insert_eq).
  eapply (added_goes _ _ _ _ (set_decision r false q0)); try done.
  - eapply quiet_added; [exact Q|]. eapply added_changed; [exact Ha|].
    by apply (update_changed _ _ q0 (set_decision r false)).
  - rewrite <- (qt_next _ _ Q). done.
  - cbn. intros Hr [= ->]. destruct (Hev Hr eq_refl) as (rw & Hin & Hd & Hn & _ & Hi).
    exists rw. unfold update_req. rewrite Hq0. split; [done|].
    apply names_evidence; [done..| |left; congruence].
    destruct (f_one_shot (q_filing q0)); [|done]. specialize (Hno (Hos eq_refl)). done.
Qed.

Lemma enqueue_goes cf b T w a : filed a → goes cf b T (enqueue cf b w a).1 T.
Proof.
  intros Hf. unfold enqueue.
  pose proof (enqueue_rate_quiet b (ew_lookup w) (fa_subject a)) as Q1.
  destruct (enqueue_rate b (ew_lookup w) (fa_subject a)) as [b1 ok]. cbn [fst] in Q1.
  destruct ok; cbn [negb]; [|by apply quiet_goes].
  pose proof (enqueue_consult_quiet cf b1 (ew_lookup w) a) as Q2.
  pose proof (λ b' de ru ro d, enqueue_consult_polkit cf b1 (ew_lookup w) a b' de ru ro d Hf) as Hp.
  destruct (enqueue_consult cf b1 (ew_lookup w) a) as [b2 [[[dead rule] row] clean]]. cbn [fst] in Q2.
  specialize (λ H, Hp _ _ _ _ _ H eq_refl).
  assert (Q : quiet b b2) by by etrans. clear Q1 Q2.
  destruct (match fa_polkit a with Some (c, _) => cookie_taken b2 c (fa_filed_by a) | None => false end);
    [by apply quiet_goes|].
  set (f := new_filing a (next_id b2) clean (ew_time w)).
  assert (Hck : f_one_shot f = false → f_cookie f = "") by by destruct Hf.
  assert (Hos : f_one_shot f = fa_one_shot a) by done.
  assert (Hsu : fa_subject a = subject_of f) by (subst f; unfold subject_of, new_filing; cbn; by destruct (fa_subject a)).
  assert (Hid : f_id f = next_id b) by (subst f; cbn; by rewrite (qt_next _ _ Q)).
  destruct dead; [|destruct rule as [ru|]; [|destruct row as [ro|]]]; cbv zeta.
  - eapply added_goes; [eapply quiet_added; [exact Q|]; eapply added_quiet; [apply add_request_added|]|..];
      first [apply audit_log_quiet|exact Hid|done].
  - rewrite Hsu. apply audited_goes; try done. intros Ht. change (fa_one_shot a = true) in Ht.
    destruct (Hp Ht) as [_ Hru]. by rewrite (Hru _ eq_refl).
  - rewrite Hsu. apply audited_goes; try done. intros Ht. change (fa_one_shot a = true) in Ht. by destruct (Hp Ht).
  - cbn [fst]. set (q := {| q_filing := f; q_decision := None; q_finalizing := false; q_waiters := [];
      q_decided_at := None; q_layered := (layered_at_filing (su_pid (fa_subject a)) (ew_io_pool w)).1;
      q_layered_pending := (layered_at_filing (su_pid (fa_subject a)) (ew_io_pool w)).2 |}).
    assert (Ha : goes cf b T (add_request b2 q) T).
    { eapply added_goes; [eapply quiet_added; [exact Q|apply add_request_added]|..]; done. }
    case_match; [|done]. eapply goes_trans; [exact Ha|]. apply quiet_goes, emit_quiet. by apply Forall_singleton.
Qed.

Lemma client_enqueue_goes cf b T w fe c d : goes cf b T (request_permission_for_client cf b w fe c d).1 T.
Proof.
  unfold request_permission_for_client. destruct fe; [|apply goes_refl]. destruct c as [[su st]|]; [|apply goes_refl].
  apply enqueue_goes. constructor.
Qed.

Lemma relay_goes cf b T w su st tg sv kd pl wt : goes cf b T (relay_message cf b w su st tg sv kd pl wt).1 T.
Proof.
  unfold relay_message. do 2 (case_match; [apply goes_refl|]). cbv zeta.
  case_match; [case_match; [apply goes_refl|apply quiet_goes, audit_log_quiet]|].
  case_match; [apply goes_refl|].
  match goal with |- context [enqueue cf b ?ew ?a] =>
    pose proof (enqueue_goes cf b T ew a ltac:(constructor)) as Hg; destruct (enqueue cf b ew a) as [b1 r] end.
  cbn [fst] in Hg. destruct r as [rid|e]; [|done].
  destruct (lookup_pending b1 rid) as [q|] eqn:Hq; [|done]. apply lookup_pending_Some in Hq as [_ Hq].
  eapply goes_trans; [exact Hg|]. by apply park_goes.
Qed.

(** ** The admin's decision *)

Lemma changed_quiet b1 b2 b3 rid q' : changed b1 b2 rid q' → quiet b2 b3 → changed b1 b3 rid q'.
Proof.
  intros [A1 A2 A3 A4 A5] [B1 B2 B3 B4 B5]. split; [congruence..| |].
  - set_solver.
  - intros e [He|He]%B5; auto.
Qed.

Lemma decide_begin_goes cf b T admin rid decision scope start ok now :
  match decide_begin b admin rid decision scope start ok now with
  | (b', Ok (inr tk)) => goes cf b T b' (tk :: T)
  | (b', _) => goes cf b T b' T
  end.
Proof.
  unfold decide_begin. destruct admin as [adm|]; [|apply goes_refl].
  destruct (negb (isin decision _)); [apply goes_refl|].
  destruct (negb (isin scope _)); [apply goes_refl|].
  destruct (lookup_pending b rid) as [q|] eqn:Hq; [|apply goes_refl].
  apply lookup_pending_Some in Hq as [_ Hq].
  destruct (q_decision q) as [d|] eqn:Hd; [apply goes_refl|].
  destruct (negb (scope_permitted _ _ _)); [apply goes_refl|]. destruct (recycled _ _).
  - eapply (settle_goes _ _ _ _ _ q (set_waiters [] (set_decision false false q)) false); try done.
    + eapply changed_quiet; [by apply decision_changed|apply audit_log_quiet].
    + apply decided_replies.
  - eapply begin_goes; [by apply decision_changed|exact Hq|done..].
Qed.

(** The response to polkit has the row of its request behind it. *)
Lemma respond_polkit_goes cf b T f :
  (cf_audit_required cf = true → polkit_backed cf b (f_cookie f)) → goes cf b T (respond_polkit b f) T.
Proof.
  intros Hb. unfold respond_polkit. case_match; [apply goes_refl|]. case_match; [|apply goes_refl].
  apply emit_goes. intros _. apply Forall_singleton. split; [done|]. intros Hr u c i' [= <- <- <-]. auto.
Qed.

Lemma respond_polkit_same b f :
  reqs (respond_polkit b f) = reqs b ∧ pending (respond_polkit b f) = pending b ∧
  audit (respond_polkit b f) = audit b.
Proof. unfold respond_polkit. by repeat case_match. Qed.

(** The audit failed: the decision turns into a denial. *)
Lemma finish_denied_goes cf b T1 tk T2 q ws :
  reqs b !! tk_rid tk = Some q →
  goes cf b (T1 ++ tk :: T2)
    (emit (update_req b (tk_rid tk) (λ q, set_waiters []
            (if bool_decide (tk_rid tk ∈ pending b) then set_decision false false q else q)))
       (replies (tk_rid tk) ws false ++ [E_decided (tk_rid tk) false])) (T1 ++ T2).
Proof.
  intros Hq I. destruct (bi_ticket _ _ _ I tk ltac:(set_solver)) as (q0 & Hq0 & Hd & Hz).
  replace q0 with q in * by congruence.
  pose proof (bi_tickets _ _ _ I) as Hnd. rewrite fmap_app, fmap_cons in Hnd.
  apply NoDup_app in Hnd as (_ & Hdis & [Hnk _]%NoDup_cons).
  set (g := λ q, set_waiters []
    (if bool_decide (tk_rid tk ∈ pending b) then set_decision false false q else q)).
  pose proof (update_changed b (tk_rid tk) q g Hq) as Hc. revert I.
  eapply goes_trans; [eapply (finish_goes _ _ _ _ _ _ _ _ Hc Hq)|].
  - subst g. cbn. by case_bool_decide.
  - subst g. cbn. case_bool_decide; [done|]. cbn. intros _. by rewrite Hd.
  - intros _ _ [Hv Hf]. subst g. cbn in *. case_bool_decide; cbn in *; congruence.
  - apply emit_goes. intros _. eapply verdict_sayable; [| |apply replies_decided].
    + rewrite (ch_reqs _ _ _ _ Hc). apply lookup_insert_eq.
    + unfold heard. rewrite (ch_pending _ _ _ _ Hc). subst g. cbn. case_bool_decide; [by left|right].
      split_and!; try done. rewrite fmap_app. set_solver.
Qed.

(** The decision stands. *)
Lemma finish_stands_goes cf b T1 tk T2 q f ws :
  reqs b !! tk_rid tk = Some q → q_filing (f q) = q_filing q → q_decision (f q) = q_decision q →
  q_finalizing (f q) = false →
  (cf_audit_required cf = true → tk_allowed tk = true → backed b (q_filing q)) →
  goes cf b (T1 ++ tk :: T2)
    (emit (update_req b (tk_rid tk) f)
       (replies (tk_rid tk) ws (tk_allowed tk) ++ [E_decided (tk_rid tk) (tk_allowed tk)])) (T1 ++ T2).
Proof.
  intros Hq Hf Hd Hz Hb I. destruct (bi_ticket _ _ _ I tk ltac:(set_solver)) as (q0 & Hq0 & Hdq & _).
  replace q0 with q in * by congruence.
  pose proof (update_changed b (tk_rid tk) q f Hq) as Hc. revert I.
  eapply goes_trans; [eapply (finish_goes _ _ _ _ _ _ _ _ Hc Hq); try done|].
  - congruence.
  - intros _ Hr [Hv _]. eapply backed_mono; [apply Hc|]. apply Hb; [done|congruence].
  - apply emit_goes. intros _. eapply verdict_sayable; [| |apply replies_decided].
    + rewrite (ch_reqs _ _ _ _ Hc). apply lookup_insert_eq.
    + left. split; congruence.
Qed.

Lemma decide_finish_goes cf b T1 tk T2 w :
  goes cf b (T1 ++ tk :: T2) (decide_finish cf b w tk).1 (T1 ++ T2).
Proof.
  intros I. destruct (bi_ticket _ _ _ I tk ltac:(set_solver)) as (q & Hq & Hd & Hz).
  pose proof (bi_ids _ _ _ I _ _ Hq) as [Hid _]. revert I. unfold decide_finish. rewrite Hq.
  match goal with |- context [audit_log b ?ok ?now ?e] =>
    pose proof (audit_log_quiet b ok now e) as Q1;
    assert (cf_audit_required cf = true → ok = true →
      row_of (next_row_id (audit b)) now e ∈ audit (audit_log b ok now e)) as Hrow
      by (intros _ ->; apply log_elem; by right);
    set (r := row_of (next_row_id (audit b)) now e) in Hrow;
    set (b1 := audit_log b ok now e) in * end.
  assert (Hq1 : reqs b1 !! tk_rid tk = Some q) by by rewrite (qt_reqs _ _ Q1).
  eapply goes_trans; [apply quiet_goes, Q1|].
  destruct (negb (fw_audit_ok w) && cf_audit_required cf)%bool eqn:Hok; cbn [fst].
  { by apply (finish_denied_goes cf b1 T1 tk T2 q). }
  assert (Hback : cf_audit_required cf = true → tk_allowed tk = true → r ∈ audit b1 ∧ au_decision r = true).
  { intros Hr Ha. split; [|done]. apply Hrow; [done|]. rewrite Hr in Hok. by destruct (fw_audit_ok w). }
  set (b2 := if (tk_allowed tk && negb (f_one_shot (q_filing q)) && fw_cache_ok w)%bool then _ else b1).
  assert (Q2 : quiet b1 b2) by (subst b2; case_match; auto with qd; reflexivity).
  eapply goes_trans; [apply quiet_goes, Q2|].
  set (b3 := if (tk_allowed tk && truthy (f_cookie (q_filing q)))%bool then _ else b2).
  assert (H3 : goes cf b2 (T1 ++ tk :: T2) b3 (T1 ++ tk :: T2) ∧ reqs b3 = reqs b2 ∧ audit b3 = audit b2).
  { subst b3. destruct (tk_allowed tk) eqn:Hal; [|split; [apply goes_refl|done]]. cbn [andb].
    case_match; [|split; [apply goes_refl|done]]. destruct (respond_polkit_same b2 (q_filing q)) as (? & _ & ?).
    split; [|done]. apply respond_polkit_goes. intros Hr. destruct (Hback Hr eq_refl) as [Hin Hdec].
    exists r. split; [by apply (qt_audit _ _ Q2)|]. split; [done|]. right. split; [done|].
    exists (tk_rid tk), q. by rewrite (qt_reqs _ _ Q2). }
  destruct H3 as (H3 & Hr3 & Ha3). eapply goes_trans; [exact H3|].
  apply (finish_stands_goes cf b3 T1 tk T2 q); try done.
  - by rewrite Hr3, (qt_reqs _ _ Q2).
  - intros Hr Hal. destruct (Hback Hr Hal) as [Hin Hdec]. exists r. rewrite Ha3.
    split; [by apply (qt_audit _ _ Q2)|]. unfold evidence. split_and!; [done..| |by left].
    left. cbn. by rewrite Hid.
Qed.

(** ** Polkit sessions and the reaper *)

Lemma prune_marks_quiet b now : quiet b (prune_marks b now).
Proof. apply with_marks_quiet. Qed.

Lemma note_cancelled_quiet b now c sd : quiet b (note_polkit_cancelled b now c sd).1.
Proof.
  unfold note_polkit_cancelled. case_match; [done|]. case_match; [case_match|case_match]; cbn [fst];
    etrans; try apply prune_marks_quiet; auto with qd; reflexivity.
Qed.

Lemma announce_quiet b ag now c sd : quiet b (announce_polkit_auth b ag now c sd).1.
Proof.
  unfold announce_polkit_auth. do 2 (case_match; [done|]). case_match; [apply prune_marks_quiet|].
  destruct (match od_get (cancelled (prune_marks b now)) c with Some mark => _ | None => _ end) as [b1 dead] eqn:Hm.
  assert (quiet (prune_marks b now) b1) by (case_match; simplify_eq; auto with qd; reflexivity).
  repeat (case_match; cbn [fst]); (etrans; [apply prune_marks_quiet|]); try done.
  all: etrans; [done|]; auto with qd.
Qed.

(** The queue: objects of its ids, each once *)
Lemma queued_elem cf b T q :
  binv cf b T → q ∈ omap (λ rid, reqs b !! rid) (pending b) → reqs b !! f_id (q_filing q) = Some q.
Proof.
  intros I (rid & _ & Hq)%list_elem_of_omap. destruct (bi_ids _ _ _ I _ _ Hq) as [-> _]. done.
Qed.

Lemma queued_NoDup cf b T P `{∀ q, Decision (P q)} :
  binv cf b T →
  NoDup ((λ q, f_id (q_filing q)) <$> filter P (omap (λ rid, reqs b !! rid) (pending b))).
Proof.
  intros I. eapply sublist_NoDup; [|apply fmap_sublist, sublist_filter].
  assert (Hsub : ∀ l, l ⊆ pending b → (λ q, f_id (q_filing q)) <$> omap (λ rid, reqs b !! rid) l = l).
  { induction l as [|rid l IH]; intros Hl; [done|]. cbn.
    destruct (bi_pending _ _ _ I rid ltac:(set_solver)) as [q Hq]. rewrite Hq. cbn.
    destruct (bi_ids _ _ _ I _ _ Hq) as [-> _]. f_equal. apply IH. set_solver. }
  rewrite Hsub by done. apply I.
Qed.

(** A local verification is audited before polkit is answered. *)
Lemma local_auth_goes cf b T aok now e u c i :
  en_decision e = true → en_source e = AS_polkit_local_auth → en_context e = Some (cf_cookie_ref cf c) →
  (negb aok && cf_audit_required cf)%bool = false →
  goes cf b T (emit (audit_log b aok now e) [E_polkit u c i]) T ∧
  (cf_audit_required cf = true → row_of (next_row_id (audit b)) now e ∈ audit (audit_log b aok now e)).
Proof.
  intros Hd Hs Hc Hok.
  assert (Hrow : cf_audit_required cf = true → row_of (next_row_id (audit b)) now e ∈ audit (audit_log b aok now e)).
  { intros Hr. rewrite Hr, andb_true_r in Hok. apply negb_false_iff in Hok as ->. apply log_elem. by right. }
  split; [|done]. eapply goes_trans; [apply quiet_goes, audit_log_quiet|].
  apply emit_goes. intros _. apply Forall_singleton. split; [done|]. intros Hr u' c' i' [= <- <- <-].
  eexists. split; [by apply Hrow|]. split; [done|]. by left.
Qed.

Lemma cookie_request_queued cf b T c q :
  binv cf b T → cookie_request b c = Some q → reqs b !! f_id (q_filing q) = Some q.
Proof.
  intros I Hq. eapply queued_elem; [exact I|]. apply find_some in Hq as [Hq _]. by apply list_elem_of_In.
Qed.

Lemma respond_polkit_auth_goes cf b T ag now c sd ids aok cok :
  goes cf b T (respond_polkit_auth cf b ag now c sd ids aok cok).1 T.
Proof.
  intros I. unfold respond_polkit_auth. destruct ag as [su|]; [|by apply goes_refl].
  pose proof (λ q, cookie_request_queued cf b T c q I) as Hreq. revert I.
  destruct (match od_get (cancelled b) c with Some (s, _) => bool_decide (sd ∈ s) | None => false end);
    [apply goes_refl|].
  match goal with |- context [if negb ?o then _ else _] => destruct (negb o) end; [apply goes_refl|].
  match goal with |- context [if ?o then (b, Ok tt) else _] => destruct o end; [apply goes_refl|].
  destruct (pick_polkit_identity ids (su_uid su)) as [i|]; [|apply goes_refl].
  match goal with |- context [audit_log b ?ok ?now ?e] => set (en := e) end.
  pose proof (audit_log_quiet b aok now en) as Q1.
  destruct (negb aok && cf_audit_required cf)%bool eqn:Hok; [by apply quiet_goes|].
  destruct (negb cok); [by apply quiet_goes|].
  destruct (local_auth_goes cf b T aok now en (su_uid su) c i) as [Hg Hrow]; [done..|].
  eapply goes_trans; [exact Hg|]. clear Hg.
  destruct (cookie_request b c) as [q|]; [|apply goes_refl].
  case_bool_decide as Hd; [|apply goes_refl]. specialize (Hreq q eq_refl). cbn [fst].
  assert (Hq : reqs (audit_log b aok now en) !! f_id (q_filing q) = Some q) by by rewrite (qt_reqs _ _ Q1).
  eapply (settle_goes _ _ _ _ _ q (set_waiters [] (set_decision true false q)) true); try done.
  - by apply decision_changed.
  - intros _ Hr _. eexists. unfold update_req. cbn [reqs emit]. rewrite Hq. split; [by apply Hrow|].
    unfold evidence. split_and!; [done..| |by right]. by left.
  - apply replies_decided.
Qed.

(** Denials taken together *)
Lemma deny_all_goes cf T f qs b :
  (∀ q, q_filing (f q) = q_filing q ∧ q_decision (f q) = q_decision q ∧ q_finalizing (f q) = q_finalizing q) →
  NoDup ((λ q, f_id (q_filing q)) <$> qs) →
  Forall (λ q, reqs b !! f_id (q_filing q) = Some q ∧ q_decision q = None) qs →
  goes cf b T (deny_all f b qs) T ∧
  Forall (λ q, ∃ q', reqs (deny_all f b qs) !! f_id (q_filing q) = Some q' ∧ final q' false) qs.
Proof.
  intros Hf. unfold deny_all. revert b. induction qs as [|q qs IH]; intros b Hnd Hqs; [by split; [apply goes_refl|]|].
  rewrite fmap_cons in Hnd. apply NoDup_cons in Hnd as [Hni Hnd]. apply Forall_cons in Hqs as [[Hq Hd] Hqs].
  cbn [fold_left]. set (g := λ q, set_waiters [] (f (set_decision false false q))).
  pose proof (update_changed b _ q g Hq) as Hc. destruct (Hf (set_decision false false q)) as (F1 & F2 & F3).
  assert (G1 : q_filing (g q) = q_filing q) by exact F1.
  assert (G2 : final (g q) false) by (split; [exact F2|exact F3]).
  assert (Hother : ∀ q0, q0 ∈ qs → f_id (q_filing q0) ≠ f_id (q_filing q)).
  { intros q0 Hin He. apply Hni. rewrite <- He. by apply (list_elem_of_fmap_2 (λ q, f_id (q_filing q))). }
  destruct (IH (update_req b (f_id (q_filing q)) g) Hnd) as [Hg Hfin].
  { rewrite Forall_forall in *. intros q0 Hin. rewrite (ch_reqs _ _ _ _ Hc), lookup_insert_ne by (symmetry; auto). auto. }
  split.
  - eapply goes_trans; [|exact Hg]. by eapply decide_goes; [exact Hc|exact Hq|..].
  - apply Forall_cons_2; [|done]. clear IH Hg Hfin. exists (g q). split; [|done].
    assert (Hk : reqs (update_req b (f_id (q_filing q)) g) !! f_id (q_filing q) = Some (g q))
      by (rewrite (ch_reqs _ _ _ _ Hc); apply lookup_insert_eq).
    clear Hc Hqs Hnd Hni. revert Hk Hother. generalize (update_req b (f_id (q_filing q)) g) as b1.
    induction qs as [|q1 qs IH]; intros b1 Hk Hother; [done|]. cbn [fold_left]. apply IH; [|set_solver].
    unfold update_req. case_match; [|done]. cbn. rewrite lookup_insert_ne; [done|]. apply Hother. set_solver.
Qed.

Lemma relay_fold_goes cf ok now src T qs b :
  Forall (λ q, ∃ q', reqs b !! f_id (q_filing q) = Some q' ∧ final q' false) qs →
  goes cf b T (fold_left (relay_deny cf ok now src) qs b) T.
Proof.
  revert b. induction qs as [|q qs IH]; intros b Hqs; [apply goes_refl|]. cbn [fold_left].
  apply Forall_cons in Hqs as [(q' & Hq' & Hf) Hqs].
  assert (Q : quiet b (audit_polkit_deny cf b ok now (q_filing q) src)) by apply audit_log_quiet.
  eapply goes_trans; [|apply IH].
  - unfold relay_deny. eapply goes_trans; [apply quiet_goes, Q|]. apply emit_goes. intros _.
    eapply verdict_sayable; [by rewrite (qt_reqs _ _ Q)|by left|apply replies_decided].
  - eapply Forall_impl; [exact Hqs|]. unfold relay_deny. cbn. by rewrite (qt_reqs _ _ Q).
Qed.

Lemma cancel_polkit_auth_goes cf b T ag now c sd aok : goes cf b T (cancel_polkit_auth cf b ag now c sd aok).1 T.
Proof.
  unfold cancel_polkit_auth. destruct ag as [su|]; [|apply goes_refl].
  pose proof (note_cancelled_quiet b now c sd) as Q1. destruct (note_polkit_cancelled b now c sd) as [b1 r].
  cbn [fst] in Q1. destruct r as [[]|e]; [|by apply quiet_goes].
  set (was := match od_get (announced b1) c with Some (owner, _) => _ | None => _ end).
  set (b2 := if was then _ else b1). cbv zeta.
  assert (Q2 : quiet b b2) by (etrans; [done|]; subst b2; case_match; auto with qd; reflexivity).
  eapply goes_trans; [apply quiet_goes, Q2|].
  match goal with |- context [filter ?P (omap ?g (pending b2))] => set (hits := filter P (omap g (pending b2))) end.
  assert (Hh : binv cf b2 T → NoDup ((λ q, f_id (q_filing q)) <$> hits) ∧
    Forall (λ q, reqs b2 !! f_id (q_filing q) = Some q ∧ q_decision q = None) hits).
  { intros I. split; [by eapply queued_NoDup|]. apply Forall_forall. intros q Hin.
    apply list_elem_of_filter in Hin as [(_ & _ & Hd & _) Hin]. split; [by eapply queued_elem|done]. }
  clearbody hits. destruct hits as [|q qs]; [destruct was; apply quiet_goes; [apply audit_log_quiet|done]|].
  cbn [fst]. intros I. destruct (Hh I) as [Hnd Hqs]. revert I.
  destruct (deny_all_goes cf T id (q :: qs) b2) as [Hg Hfin]; [done..|].
  eapply goes_trans; [exact Hg|]. by apply relay_fold_goes.
Qed.

Lemma stamp_goes cf b T rid now : goes cf b T (update_req b rid (set_decided_at now)) T.
Proof.
  destruct (reqs b !! rid) as [q|] eqn:Hq.
  - by eapply benign_goes; [by apply (update_changed _ _ q (set_decided_at now))|..].
  - unfold update_req. rewrite Hq. apply goes_refl.
Qed.

Lemma stamp_fold_goes cf T now qs b :
  goes cf b T (fold_left (λ b q, update_req b (f_id (q_filing q)) (set_decided_at now)) qs b) T.
Proof.
  revert b. induction qs as [|q qs IH]; intros b; [apply goes_refl|]. cbn [fold_left].
  eapply goes_trans; [apply stamp_goes|apply IH].
Qed.

Lemma shrink_goes cf b T P `{∀ rid : Z, Decision (P rid)} : goes cf b T (with_pending b (filter P (pending b))) T.
Proof.
  intros [I1 I2 I3 I4 I5 I6 I7 I8 I9 I10]. split; [|by apply stable_same]. split; try done.
  - intros rid [_ Hr]%list_elem_of_filter. auto.
  - by apply NoDup_filter.
  - intros e rid v He Hs. destruct (I9 _ _ _ He Hs) as (q & Hq & Hh). exists q. split; [done|].
    destruct Hh as [?|(-> & ? & Hn & ?)]; [by left|right]. split_and!; try done.
    cbn. rewrite list_elem_of_filter. tauto.
Qed.

Lemma reap_pending_goes cf b T now aok : goes cf b T (reap_pending cf b now aok).1 T.
Proof.
  unfold reap_pending. cbn [fst].
  match goal with |- context [deny_all _ b ?l] => set (denied := l) end.
  intros I. assert (Hnd : NoDup ((λ q, f_id (q_filing q)) <$> denied)) by by eapply queued_NoDup.
  assert (Hqs : Forall (λ q, reqs b !! f_id (q_filing q) = Some q ∧ q_decision q = None) denied).
  { apply Forall_forall. intros q Hin. apply list_elem_of_filter in Hin as [Hd Hin].
    split; [by eapply queued_elem|]. unfold reap_one in Hd. repeat case_match; done. }
  destruct (deny_all_goes cf T (set_decided_at now) denied b) as [Hg Hfin]; [done..|].
  destruct (Hg I) as [I1 S1].
  match goal with |- context [fold_left (λ b q, update_req b _ _) ?st ?b1] =>
    destruct (stamp_fold_goes cf T now st b1 I1) as [I2 S2]; set (b2 := fold_left _ st b1) in * end.
  match goal with |- context [with_pending b2 ?p] =>
    assert (H3 : goes cf b2 T (with_pending b2 p) T) by apply shrink_goes; set (b3 := with_pending b2 p) in * end.
  assert (Hf3 : Forall (λ q, ∃ q', reqs b3 !! f_id (q_filing q) = Some q' ∧ final q' false) denied).
  { eapply Forall_impl; [exact Hfin|]. intros q (q' & Hq' & Hf'). destruct (S2 _ _ Hq') as (q2 & ? & _ & Hk). eauto. }
  destruct (goes_trans _ _ _ _ _ _ _ H3 (relay_fold_goes cf aok now AS_polkit_stale_reap T denied b3 Hf3) I2) as [I4 S4].
  split; [done|]. etrans; [exact S1|]. by etrans.
Qed.

(** ** Administration touches no request *)

Lemma with_rules_quiet b x : quiet b (with_rules b x).
Proof. split; auto; done. Qed.

Lemma revoked_quiet ok now a rs b : quiet b (fold_left (revoked ok now a) rs b).
Proof.
  revert b. induction rs as [|r rs IH]; intros b; [reflexivity|]. cbn [fold_left].
  etrans; [|apply IH]. etrans; [apply audit_log_quiet|]. apply emit_quiet. by apply Forall_singleton.
Qed.

Lemma revoke_approval_quiet b admin id ok now : quiet b (revoke_approval b admin id ok now).1.
Proof.
  unfold revoke_approval. repeat (case_match; try done); cbn [fst].
  match goal with |- quiet _ (revoked ok now ?a ?b1 ?r) => pose proof (revoked_quiet ok now a [r] b1) as Q end.
  etrans; [apply with_cache_quiet|exact Q].
Qed.

Lemma revoke_all_quiet b admin uid ok now : quiet b (revoke_all_for_uid b admin uid ok now).1.
Proof.
  unfold revoke_all_for_uid. destruct admin; [|done]. destruct (C.delete_by_uid _ _) as [d rs]. cbn [fst].
  etrans; [apply with_cache_quiet|apply revoked_quiet].
Qed.

Lemma run_cache_gc_quiet b admin ok now : quiet b (run_cache_gc b admin ok now).1.
Proof. unfold run_cache_gc. repeat (case_match; try done); apply with_cache_quiet. Qed.

Lemma record_notification_quiet b su app sm bd u c ok now : quiet b (record_notification b su app sm bd u c ok now).
Proof.
  unfold record_notification. case_match. case_match; [apply with_ratelimit_quiet|].
  etrans; [apply with_ratelimit_quiet|apply audit_log_quiet].
Qed.

Lemma reload_rules_quiet b y l : quiet b (reload_rules_from_disk b y l).1.
Proof.
  unfold reload_rules_from_disk. case_match. cbn [fst]. case_match; [apply with_rules_quiet|].
  etrans; [apply with_rules_quiet|]. apply emit_quiet. by apply Forall_singleton.
Qed.

Lemma gc_tick_goes cf b T g a now : goes cf b T (gc_tick cf b g a now) T.
Proof.
  unfold gc_tick. eapply goes_trans; [|apply reap_pending_goes]. apply quiet_goes. case_match; [apply with_cache_quiet|reflexivity].
Qed.

(** ** Every interleaving *)

(** The first half of a [DecideRequest] leaves a ticket when it does not answer at once. *)
Definition begin_step (b : Broker) (T : list ticket) (admin : option Z) (rid : Z)
    (decision scope : string) (start : Z) (ok : bool) (now : Z) : Broker * list ticket :=
  match decide_begin b admin rid decision scope start ok now with
  | (b', Ok (inr tk)) => (b', tk :: T)
  | (b', _) => (b', T)
  end.

(** One operation of the broker, at any answers of the world. The system is the broker and
    the tickets of the [DecideRequest] calls that have released the lock. A hook is only
    asked about a request that is not one-shot. The retention of the audit log, which
    deletes rows by age, is not a step. *)
Inductive bstep (cf : config) : Broker * list ticket → Broker * list ticket → Prop :=
| S_check b T w su d : bstep cf (b, T) ((check_permission cf b w su d).1, T)
| S_check_client b T w fe c d : bstep cf (b, T) ((check_permission_for_client cf b w fe c d).1, T)
| S_enqueue b T w a : filed a → bstep cf (b, T) ((enqueue cf b w a).1, T)
| S_enqueue_client b T w fe c d : bstep cf (b, T) ((request_permission_for_client cf b w fe c d).1, T)
| S_relay b T w su st tg sv kd pl wt :
    bstep cf (b, T) ((relay_message cf b w su st tg sv kd pl wt).1, T)
| S_hook b T w rid :
    (∀ q, lookup_pending b rid = Some q → f_one_shot (q_filing q) = false) →
    bstep cf (b, T) (apply_hook cf b w rid, T)
| S_layered b T rid l : bstep cf (b, T) (apply_layered_identity b rid l, T)
| S_wait b T rid u wt : bstep cf (b, T) (wait_for_decision cf b rid u wt, T)
| S_begin b T admin rid decision scope start ok now :
    bstep cf (b, T) (begin_step b T admin rid decision scope start ok now)
| S_finish b T1 tk T2 w : bstep cf (b, T1 ++ tk :: T2) ((decide_finish cf b w tk).1, T1 ++ T2)
| S_announce b T ag now c sd : bstep cf (b, T) ((announce_polkit_auth b ag now c sd).1, T)
| S_respond b T ag now c sd ids aok cok :
    bstep cf (b, T) ((respond_polkit_auth cf b ag now c sd ids aok cok).1, T)
| S_cancel b T ag now c sd aok : bstep cf (b, T) ((cancel_polkit_auth cf b ag now c sd aok).1, T)
| S_reap b T g aok now : bstep cf (b, T) (gc_tick cf b g aok now, T)
| S_revoke b T admin id ok now : bstep cf (b, T) ((revoke_approval b admin id ok now).1, T)
| S_revoke_all b T admin uid ok now : bstep cf (b, T) ((revoke_all_for_uid b admin uid ok now).1, T)
| S_cache_gc b T admin ok now : bstep cf (b, T) ((run_cache_gc b admin ok now).1, T)
| S_notify b T su app sm bd u c ok now : bstep cf (b, T) (record_notification b su app sm bd u c ok now, T)
| S_rules b T y l : bstep cf (b, T) ((reload_rules_from_disk b y l).1, T).

(** A broker that has just started *)
Definition fresh (b : Broker) : Prop := reqs b = ∅ ∧ pending b = [] ∧ sent b = [].

Definition breach (cf : config) (b : Broker) (T : list ticket) : Prop :=
  ∃ b0, fresh b0 ∧ rtc (bstep cf) (b0, []) (b, T).

Lemma start_inv cf b : fresh b → binv cf b [].
Proof.
  intros (H1 & H2 & H3). split; rewrite ?H1, ?H2, ?H3; try apply NoDup_nil_2; intros *;
    rewrite ?lookup_empty; try done; intros; set_solver.
Qed.

Lemma bstep_goes cf s s' : bstep cf s s' → goes cf s.1 s.2 s'.1 s'.2.
Proof.
  destruct 1; cbn [fst snd].
  - apply quiet_goes, check_permission_quiet.
  - apply quiet_goes, check_for_client_quiet.
  - by apply enqueue_goes.
  - apply client_enqueue_goes.
  - apply relay_goes.
  - by apply apply_hook_goes.
  - apply apply_layered_goes.
  - apply wait_goes.
  - match goal with |- context [begin_step ?b _ ?a ?r ?d ?s ?st ?o ?n] =>
      pose proof (decide_begin_goes cf b T a r d s st o n) as Hg end.
    unfold begin_step. by repeat case_match.
  - apply decide_finish_goes.
  - apply quiet_goes, announce_quiet.
  - apply respond_polkit_auth_goes.
  - apply cancel_polkit_auth_goes.
  - apply gc_tick_goes.
  - apply quiet_goes, revoke_approval_quiet.
  - apply quiet_goes, revoke_all_quiet.
  - apply quiet_goes, run_cache_gc_quiet.
  - apply quiet_goes, record_notification_quiet.
  - apply quiet_goes, reload_rules_quiet.
Qed.

Lemma bsteps_goes cf s s' : rtc (bstep cf) s s' → goes cf s.1 s.2 s'.1 s'.2.
Proof.
  induction 1 as [s|s1 s2 s3 H12 _ IH]; [apply goes_refl|].
  eapply goes_trans; [by apply bstep_goes|done].
Qed.

Lemma breach_inv cf b T : breach cf b T → binv cf b T.
Proof. intros (b0 & Hb0 & Hs). by apply (bsteps_goes _ _ _ Hs), start_inv. Qed.

(** ** A run *)

(** A client asks, waits, and the admin allows it once. *)
Definition demo_config : config := {| cf_audit_required := true; cf_lineage_enforce := true;
  cf_admin_uid := 1000; cf_retention := 600; cf_require_silo_active := true; cf_launcher_gated := true; cf_cookie_ref := id |}.
Definition demo_start : Broker := {| ratelimit := {| L.limit := 20; L.window_s := 10; L.max_keys := 4096; L.buckets := [] |};
  rules := {| R.eng_dir := "/etc/qdistro/rules.d"; R.eng_rules := []; R.eng_errors := [] |};
  cache := {| C.rows := []; C.has_scope := true; C.has_argv := true; C.approval_migrations := ∅ |}; audit := []; reqs := ∅; pending := []; next_id := 1; cancelled := [];
  announced := []; sent := [] |}.
Definition demo_subject : subject :=
  {| su_uid := 3001; su_pid := 4242; su_exe := "/usr/bin/qsu"; su_action := "qdistro.sudo" |}.
Definition demo_live : V.Subject := {| V.sj_uid := 3001; V.sj_exe := "/usr/bin/qsu"; V.sj_silo := "";
  V.sj_sandbox_engine := ""; V.sj_app_id := ""; V.sj_selinux_label := ""; V.sj_cgroup := "";
  V.sj_verified := false; V.sj_record_id := ""; V.sj_reason := V.SR_no_record |}.
Definition demo_lookup : lookup_world := {| lw_clock := 5; lw_now := 100; lw_subject := demo_live;
  lw_cache_subject := Some demo_live; lw_lineage_ok := true; lw_audit_ok := true |}.
Definition demo_filed : Broker :=
  (enqueue demo_config demo_start {| ew_lookup := demo_lookup; ew_time := 100; ew_io_pool := Pool_takes;
     ew_hook_starts := false |} (request_permission demo_subject 77 [("argv[00]", "id")])).1.
Definition demo_waiting : Broker := wait_for_decision demo_config demo_filed 1 3001 9.
Definition demo_begun : Broker * list ticket :=
  begin_step demo_waiting [] (Some 1000%Z) 1 "allow" "once" 77 true 101.
Definition demo_ticket : ticket := {| tk_rid := 1; tk_allowed := true; tk_scope := "once"; tk_admin := 1000;
  tk_waiters := [9%Z]; tk_argv := Some ["id"] |}.
Definition demo_done : Broker :=
  (decide_finish demo_config demo_begun.1 {| fw_now := 101; fw_audit_ok := true; fw_cache_ok := true |} demo_ticket).1.

Lemma demo_begun_ticket : demo_begun = (demo_begun.1, [] ++ demo_ticket :: []).
Proof. rewrite (surjective_pairing demo_begun) at 1. apply (f_equal (pair _)). vm_compute. reflexivity. Qed.

Lemma demo_sent : sent demo_done = [E_pending 1; E_reply 1 9 true; E_decided 1 true].
Proof. vm_compute. reflexivity. Qed.

Lemma demo_steps :
  bstep demo_config (demo_start, []) (demo_filed, []) ∧
  bstep demo_config (demo_filed, []) (demo_waiting, []) ∧
  bstep demo_config (demo_waiting, []) demo_begun ∧
  bstep demo_config (demo_begun.1, [] ++ demo_ticket :: []) (demo_done, [] ++ []).
Proof.
  split_and!; [apply S_enqueue, F_request|apply S_wait|apply S_begin|apply S_finish].
Qed.

Lemma demo_reach : breach demo_config demo_done [].
Proof.
  destruct demo_steps as (S1 & S2 & S3 & S4). rewrite <- demo_begun_ticket in S4.
  exists demo_start. split; [done|].
  eapply rtc_l; [exact S1|]. eapply rtc_l; [exact S2|]. eapply rtc_l; [exact S3|].
  eapply rtc_l; [exact S4|]. apply rtc_refl.
Qed.

(** ** The theorems *)

(** C1: Fail-closed auditing. When the audit is required and no row is dropped by retention,
    every allow sent as the verdict of a filed request (a reply to a waiter or the decided
    signal) has a row in the log that records an allow of that action under that request, or
    by a rule or remembered approval for the same process; for a one-shot request only the
    admin's prompt or the local polkit verification counts. Polkit is only answered after
    such a row. And every allow CheckPermission returns at once, for the caller itself or
    for the client a frontend names, has such a row of a rule or a remembered approval for
    that process when it returns. The forwarding of a message within one silo is not covered:
    it asks for no decision, and its audit row is written when the database takes it. *)
Theorem no_allow_without_record cf b T :
  breach cf b T → cf_audit_required cf = true →
  (∀ e rid, e ∈ sent b → says e rid true → ∃ q, reqs b !! rid = Some q ∧
     ∃ r, r ∈ audit b ∧ evidence (q_filing q) r) ∧
  (∀ u c i, E_polkit u c i ∈ sent b → ∃ r, r ∈ audit b ∧ au_decision r = true ∧
     (au_source r = AS_prompt ∨ au_source r = AS_polkit_local_auth)) ∧
  (∀ w su d b', check_permission cf b w su d = (b', Ok (Some true)) ∨
     (∃ fe, check_permission_for_client cf b w fe (Some su) d = (b', Ok (Some true))) →
     ∃ r, r ∈ audit b' ∧ au_decision r = true ∧ names su r ∧ (au_source r = AS_rule ∨ au_source r = AS_cache)).
Proof.
  intros I%breach_inv Hr. split_and!.
  - intros e rid He Hs. destruct (bi_said _ _ _ I _ _ _ He Hs) as (q & Hq & [Hf|[? _]]); [|done].
    exists q. split; [done|]. by eapply bi_backed.
  - intros u c i He. destruct (bi_polkit _ _ _ I Hr _ _ _ He) as (r & ? & ? & [[? _]|[? _]]); exists r; auto.
  - intros w su d b' [H|[fe H]]; [by eapply check_permission_evidence|].
    unfold check_permission_for_client in H. destruct fe; [|done]. cbn [negb] in H. by eapply check_permission_evidence.
Qed.

Lemma no_allow_without_record_witness :
  sent demo_done = [E_pending 1; E_reply 1 9 true; E_decided 1 true] ∧
  ∃ q, reqs demo_done !! 1%Z = Some q ∧ ∃ r, r ∈ audit demo_done ∧ evidence (q_filing q) r.
Proof.
  split; [exact demo_sent|].
  destruct (no_allow_without_record demo_config demo_done [] demo_reach eq_refl) as (H & _ & _).
  apply (H (E_decided 1 true) 1%Z); [|split; reflexivity].
  rewrite demo_sent. right. right. left.
Defined.

(** C2: Decisions are final and consistent. Every verdict the broker sends about a request (a
    reply to a waiter while the request is queued, or the decided signal) is the same one,
    whatever the admin, hooks, cancels, reaper and failing databases do in between; a
    decision that is not provisional never changes, keeps its request, and is the verdict
    that was sent. The plain False WaitForDecision answers for an id that is not queued, or
    no longer, is no verdict and is not covered: it is sent whatever the decision was, also
    after an allow. *)
Theorem decisions_are_final cf b T :
  breach cf b T →
  (∀ e1 e2 rid v1 v2, e1 ∈ sent b → e2 ∈ sent b → says e1 rid v1 → says e2 rid v2 → v1 = v2) ∧
  (∀ e rid q v v', e ∈ sent b → says e rid v → reqs b !! rid = Some q → final q v' → v = v') ∧
  (∀ b' T' rid q v, rtc (bstep cf) (b, T) (b', T') → reqs b !! rid = Some q → final q v →
     ∃ q', reqs b' !! rid = Some q' ∧ q_filing q' = q_filing q ∧ final q' v).
Proof.
  intros I%breach_inv. unfold final. split_and!.
  - intros e1 e2 rid v1 v2 H1 H2 S1 S2.
    destruct (bi_said _ _ _ I _ _ _ H1 S1) as (q1 & Hq1 & C1).
    destruct (bi_said _ _ _ I _ _ _ H2 S2) as (q2 & Hq2 & C2). unfold heard, final in *. naive_solver congruence.
  - intros e rid q v v' He Hs Hq [Hd Hz]. destruct (bi_said _ _ _ I _ _ _ He Hs) as (q1 & Hq1 & C1).
    unfold heard, final in *. naive_solver congruence.
  - intros b' T' rid q v Hs Hq Hf. destruct (bsteps_goes _ _ _ Hs I) as [_ St].
    destruct (St _ _ Hq) as (q' & ? & ? & Hk). destruct (Hk v Hf). exists q'. by split_and!.
Qed.

Lemma decisions_are_final_witness :
  (∃ e, e ∈ sent demo_done ∧ says e 1 true) ∧
  ∀ e2 v2, e2 ∈ sent demo_done → says e2 1 v2 → true = v2.
Proof.
  assert (H1 : E_decided 1 true ∈ sent demo_done) by (rewrite demo_sent; right; right; left).
  split; [exists (E_decided 1 true); split; [exact H1|split; reflexivity]|].
  intros e2 v2 H2 S2. destruct (decisions_are_final demo_config demo_done [] demo_reach) as [H _].
  apply (H (E_decided 1 true) e2 1%Z); [exact H1|exact H2|split; reflexivity|exact S2].
Defined.

End Decisions.
