(* ===== verification/BrokerStanding.v ===== *)
(** * Where remembered approvals come from

    The broker answers a check from the approval cache without asking anyone. Over every
    interleaving of [Decisions.bstep], a row joins the cache only when the admin allowed a
    request of that caller and action, with the scope and the approver of the audited
    prompt, never for a one-shot request, and for a delegated one only tied to an argv. *)

From S2P Require Import Prelude Resolver Rules Cache AuditTrail Broker BrokerDecisions.
Import AuditTrail Broker Decisions.

Module Standing.

(** ** What most operations leave alone: rows leave the cache, join the log, and nothing
    that was sent is forgotten *)

Definition light (b b' : Broker) : Prop :=
  audit b ⊆ audit b' ∧ C.rows (cache b') ⊆ C.rows (cache b) ∧ sent b ⊆ sent b'.

#[export] Instance light_preorder : PreOrder light.
Proof. split; [intros b; split_and!; done|]. intros b1 b2 b3 (? & ? & ?) (? & ? & ?). split_and!; set_solver. Qed.

Create HintDb light discriminated.

Section Primitives.
Context (b0 : Broker).

Lemma light_self : light b0 b0.
Proof. reflexivity. Qed.
Lemma light_ratelimit b x : light b0 b → light b0 (with_ratelimit b x).
Proof. done. Qed.
Lemma light_rules b x : light b0 b → light b0 (with_rules b x).
Proof. done. Qed.
Lemma light_marks b x y : light b0 b → light b0 (with_marks b x y).
Proof. done. Qed.
Lemma light_pending b x : light b0 b → light b0 (with_pending b x).
Proof. done. Qed.
Lemma light_emit b es : light b0 b → light b0 (emit b es).
Proof. intros (? & ? & ?). split_and!; [done..|]. cbn. set_solver. Qed.
Lemma light_update b rid f : light b0 b → light b0 (update_req b rid f).
Proof. unfold update_req. by case_match. Qed.
Lemma light_add b q : light b0 b → light b0 (add_request b q).
Proof. done. Qed.
Lemma light_audit b ok now e : light b0 b → light b0 (audit_log b ok now e).
Proof.
  intros (Ha & Hc & He). unfold audit_log. case_match; [|done]. split_and!; try done.
  intros r Hr. apply log_elem. left. auto.
Qed.
Lemma light_cache b d : light b0 b → C.rows d ⊆ C.rows (cache b) → light b0 (with_cache b d).
Proof. intros (? & ? & ?) ?. split_and!; cbn; set_solver. Qed.
End Primitives.

#[export] Hint Resolve light_self light_ratelimit light_rules light_marks light_pending light_emit
  light_update light_add light_audit : light.

(** Unfold the operation, take every branch, apply the primitives. *)
Ltac lighten := repeat (case_match; simplify_eq); cbn [fst snd] in *; eauto 12 with light.

Section Operations.
Context (cf : config) (b0 : Broker).

Lemma light_record b ok now su al d src sc rp ap ri gr b' x :
  record_check cf b ok now su al d src sc rp ap ri gr = (b', x) → light b0 b → light b0 b'.
Proof. unfold record_check. intros [= <- _]. auto with light. Qed.

Lemma light_lineage b w su ce ca b' x :
  lineage_selectors cf b w su ce ca = (b', x) → light b0 b → light b0 b'.
Proof. unfold lineage_selectors. intros [= <- _] ?. lighten. Qed.
#[local] Hint Resolve light_record light_lineage : light.

Lemma light_decide_check b w su d app engine b' x :
  decide_check cf b w su d app engine = (b', x) → light b0 b → light b0 b'.
Proof. unfold decide_check. intros He ?. lighten. Qed.

Lemma light_cancel_mark b c by_ b' x : cancel_mark b c by_ = (x, b') → light b0 b → light b0 b'.
Proof. unfold cancel_mark. intros He ?. lighten. Qed.

Lemma light_rate b w su b' x : enqueue_rate b w su = (b', x) → light b0 b → light b0 b'.
Proof. unfold enqueue_rate. intros He ?. lighten. Qed.
#[local] Hint Resolve light_decide_check light_cancel_mark light_rate : light.

Lemma light_consult b w a b' x : enqueue_consult cf b w a = (b', x) → light b0 b → light b0 b'.
Proof. unfold enqueue_consult. intros He ?. lighten. Qed.

Lemma light_respond b f : light b0 b → light b0 (respond_polkit b f).
Proof. intros ?. unfold respond_polkit. lighten. Qed.

Lemma light_hook b w f v why b' x : hook_verdict cf b w f v why = (b', x) → light b0 b → light b0 b'.
Proof. unfold hook_verdict. intros He ?. lighten. Qed.
#[local] Hint Resolve light_consult light_respond light_hook : light.

Lemma light_check_permission b w su d : light b0 b → light b0 (check_permission cf b w su d).1.
Proof. intros ?. unfold check_permission. lighten. Qed.

Lemma light_enqueue b w a : light b0 b → light b0 (enqueue cf b w a).1.
Proof. intros ?. unfold enqueue. lighten. Qed.

Lemma light_apply_hook b w rid : light b0 b → light b0 (apply_hook cf b w rid).
Proof. intros ?. unfold apply_hook. lighten. Qed.

Lemma light_wait b rid u wt : light b0 b → light b0 (wait_for_decision cf b rid u wt).
Proof. intros ?. unfold wait_for_decision, park. lighten. Qed.

Lemma light_park b rid q wt : light b0 b → light b0 (park b rid q wt).
Proof. intros ?. unfold park. lighten. Qed.

Lemma light_enqueue_client b w fe c d : light b0 b → light b0 (request_permission_for_client cf b w fe c d).1.
Proof. intros ?. unfold request_permission_for_client. repeat case_match; try done; by apply light_enqueue. Qed.

Lemma light_relay_message b w su st tg sv kd pl wt :
  light b0 b → light b0 (relay_message cf b w su st tg sv kd pl wt).1.
Proof.
  intros Hb. unfold relay_message. do 2 (case_match; [done|]). cbv zeta.
  case_match; [case_match; cbn [fst]; auto with light|]. case_match; [done|].
  match goal with |- context [enqueue cf b ?ew ?a] =>
    pose proof (light_enqueue b ew a Hb) as Hg; destruct (enqueue cf b ew a) as [b1 r] end.
  destruct r as [rid|e]; [|done]. destruct (lookup_pending b1 rid) as [q|]; [|done]. by apply light_park.
Qed.

Lemma light_begin b T ad rid dn sc st ok now : light b0 b → light b0 (begin_step b T ad rid dn sc st ok now).1.
Proof. intros ?. unfold begin_step, decide_begin. lighten. Qed.

Lemma light_check_client b w fe c d : light b0 b → light b0 (check_permission_for_client cf b w fe c d).1.
Proof. intros ?. unfold check_permission_for_client. repeat case_match; try done. by apply light_check_permission. Qed.

Lemma light_layered b rid l : light b0 b → light b0 (apply_layered_identity b rid l).
Proof. intros ?. unfold apply_layered_identity. lighten. Qed.

Lemma light_fold {A} (f : Broker → A → Broker) l b :
  (∀ b x, light b0 b → light b0 (f b x)) → light b0 b → light b0 (fold_left f l b).
Proof. intros Hf. revert b. induction l as [|x l IH]; intros b Hb; [done|]. apply IH. auto. Qed.

Lemma light_deny_all f b qs : light b0 b → light b0 (deny_all f b qs).
Proof. intros ?. apply light_fold; auto with light. Qed.

Lemma light_relay b ok now src qs : light b0 b → light b0 (fold_left (relay_deny cf ok now src) qs b).
Proof. intros ?. apply light_fold; [|done]. intros. unfold relay_deny, audit_polkit_deny. auto with light. Qed.

Lemma light_prune b now : light b0 b → light b0 (prune_marks b now).
Proof. auto with light. Qed.
#[local] Hint Resolve light_deny_all light_relay light_prune : light.

Lemma light_note b now c sd b' x : note_polkit_cancelled b now c sd = (b', x) → light b0 b → light b0 b'.
Proof. unfold note_polkit_cancelled. intros He ?. lighten. Qed.
#[local] Hint Resolve light_note : light.

Lemma light_announce b ag now c sd : light b0 b → light b0 (announce_polkit_auth b ag now c sd).1.
Proof. intros ?. unfold announce_polkit_auth. lighten. Qed.

Lemma light_respond_auth b ag now c sd ids aok cok :
  light b0 b → light b0 (respond_polkit_auth cf b ag now c sd ids aok cok).1.
Proof.
  intros ?. unfold respond_polkit_auth. destruct ag as [su|]; [|done]. cbv zeta.
  repeat match goal with
  | |- light _ (if ?x then _ else _).1 => destruct x
  | |- light _ (match pick_polkit_identity ?a ?b with _ => _ end).1 => destruct (pick_polkit_identity a b)
  | |- light _ (match cookie_request ?a ?b with _ => _ end).1 => destruct (cookie_request a b)
  end; cbn [fst]; auto 8 with light.
Qed.

Lemma light_cancel b ag now c sd aok : light b0 b → light b0 (cancel_polkit_auth cf b ag now c sd aok).1.
Proof.
  intros ?. unfold cancel_polkit_auth. destruct ag as [su|]; [|done].
  destruct (note_polkit_cancelled b now c sd) as [b1 r] eqn:Hn. destruct r; [|eauto with light].
  cbv zeta. match goal with |- context [match filter ?P ?l with _ => _ end] => generalize (filter P l) as hits end.
  assert (light b0 b1) by eauto with light. intros [|q qs]; cbn [fst].
  - repeat match goal with |- light _ (if ?x then _ else _) => destruct x end; auto with light.
  - apply light_relay, light_deny_all. match goal with |- light _ (if ?x then _ else _) => destruct x end; auto with light.
Qed.

Lemma light_reap b now aok : light b0 b → light b0 (reap_pending cf b now aok).1.
Proof.
  intros ?. unfold reap_pending. cbn [fst]. apply light_relay, light_pending, light_fold; auto with light.
Qed.

Lemma gc_rows_subset d now : C.rows (C.gc d now).1 ⊆ C.rows d.
Proof. intros r. cbn. by intros [_ ?]%list_elem_of_filter. Qed.

Lemma light_gc_tick b g a now : light b0 b → light b0 (gc_tick cf b g a now).
Proof.
  intros ?. unfold gc_tick. apply light_reap. case_match; [|done]. apply light_cache, gc_rows_subset. done.
Qed.

Lemma light_revoked b ok now a rs : light b0 b → light b0 (fold_left (revoked ok now a) rs b).
Proof. intros ?. apply light_fold; [|done]. intros. unfold revoked, audit_revoke. auto with light. Qed.

Lemma light_revoke b ad id ok now : light b0 b → light b0 (revoke_approval b ad id ok now).1.
Proof.
  intros ?. unfold revoke_approval, C.delete_by_id. repeat (case_match; simplify_eq; try done); cbn [fst].
  match goal with |- light _ (revoked ?ok ?n ?a ?b1 ?r) => apply (light_revoked b1 ok n a [r]) end.
  apply light_cache; [done|]. intros r'. cbn. by intros [_ ?]%list_elem_of_filter.
Qed.

Lemma light_revoke_all b ad uid ok now : light b0 b → light b0 (revoke_all_for_uid b ad uid ok now).1.
Proof.
  intros ?. unfold revoke_all_for_uid, C.delete_by_uid. destruct ad; [|done].
  match goal with |- context [match filter ?P ?l with _ => _ end] => destruct (filter P l) end; cbn [fst].
  - by apply light_cache.
  - apply light_revoked, light_cache; [done|]. intros r'. cbn. by intros [_ ?]%list_elem_of_filter.
Qed.

Lemma light_cache_gc b ad ok now : light b0 b → light b0 (run_cache_gc b ad ok now).1.
Proof.
  intros ?. unfold run_cache_gc. destruct ad; [|done]. destruct ok; [|done]. cbn [fst C.gc].
  apply light_cache, gc_rows_subset. done.
Qed.

Lemma light_notify b su app sm bd u c ok now : light b0 b → light b0 (record_notification b su app sm bd u c ok now).
Proof. intros ?. unfold record_notification. lighten. Qed.

Lemma light_reload b y l : light b0 b → light b0 (reload_rules_from_disk b y l).1.
Proof. intros ?. unfold reload_rules_from_disk. lighten. Qed.

End Operations.
(** ** The grants behind the rows *)

(** The grant of an allowed request *)
Definition granted (f : filing) (scope : string) (admin : Z) : C.grant :=
  {| C.g_uid := f_uid f; C.g_action := f_action f; C.g_exe := f_exe f; C.g_scope := scope;
     C.g_decision := true; C.g_approver := admin; C.g_argv := default [] (argv_from_details (f_details f)) |}.

(** The prompt's row in the log: the admin allowed the request with that scope. *)
Definition prompted (b : Broker) (rid : Z) (scope : string) (admin : Z) : Prop :=
  ∃ r, r ∈ audit b ∧ au_decision r = true ∧ au_source r = AS_prompt ∧ au_request_id r = Some rid ∧
    au_approver r = Some admin ∧ au_scope r = Some scope.

(** A row the broker wrote: the request it remembers, and the grant *)
Definition minted (cf : config) (b : Broker) (r : C.row) : Prop :=
  ∃ rid q scope admin t p id,
    reqs b !! rid = Some q ∧ final q true ∧ f_one_shot (q_filing q) = false ∧
    (f_delegated (q_filing q) = true → C.pinned (granted (q_filing q) scope admin)) ∧
    (cf_audit_required cf = true → prompted b rid scope admin) ∧
    C.plan_row (granted (q_filing q) scope admin) = Some p ∧
    r = C.make_row id t (granted (q_filing q) scope admin) p.

(** An open ticket carries what its request is filed with. *)
Definition issued (b : Broker) (tk : ticket) : Prop :=
  ∃ q, reqs b !! tk_rid tk = Some q ∧ isin (tk_scope tk) VALID_SCOPES = true ∧
    scope_permitted (q_filing q) (tk_allowed tk) (tk_scope tk) = true ∧
    tk_argv tk = argv_from_details (f_details (q_filing q)).

Definition cinv (cf : config) (base : list C.row) (b : Broker) (T : list ticket) : Prop :=
  (∀ r, r ∈ C.rows (cache b) → r ∈ base ∨ minted cf b r) ∧ Forall (issued b) T.

Lemma minted_mono cf b b' r : stable b b' → audit b ⊆ audit b' → minted cf b r → minted cf b' r.
Proof.
  intros Hs Ha (rid & q & scope & admin & t & p & id & Hq & Hf & Hos & Hdel & Hpr & Hp & ->).
  destruct (Hs _ _ Hq) as (q' & Hq' & Hfil & Hk). exists rid, q', scope, admin, t, p, id.
  rewrite !Hfil. split_and!; auto. intros Hr. destruct (Hpr Hr) as (row & Hin & ?). exists row. auto.
Qed.

Lemma issued_mono b b' tk : stable b b' → issued b tk → issued b' tk.
Proof.
  intros Hs (q & Hq & ? & ? & ?). destruct (Hs _ _ Hq) as (q' & Hq' & Hfil & _).
  exists q'. by rewrite Hfil.
Qed.

Lemma light_cinv cf base b b' T : stable b b' → light b b' → cinv cf base b T → cinv cf base b' T.
Proof.
  intros Hs (Ha & Hc & _) [H1 H2]. split.
  - intros r Hr%Hc. destruct (H1 _ Hr); [by left|right]. by eapply minted_mono.
  - eapply Forall_impl; [exact H2|]. intros tk. by apply issued_mono.
Qed.

Lemma begin_issued b T ad rid dn sc st ok now :
  (begin_step b T ad rid dn sc st ok now).2 = T ∨
  ∃ tk, (begin_step b T ad rid dn sc st ok now).2 = tk :: T ∧ issued b tk.
Proof.
  unfold begin_step, decide_begin. destruct ad as [adm|]; [|by left].
  destruct (isin dn _); cbn [negb]; [|by left]. destruct (isin sc VALID_SCOPES) eqn:Hsc; cbn [negb]; [|by left].
  destruct (lookup_pending b rid) as [q|] eqn:Hq; [|by left]. apply lookup_pending_Some in Hq as [_ Hq].
  destruct (q_decision q); [by left|].
  destruct (scope_permitted _ _ _) eqn:Hsp; cbn [negb]; [|by left]. destruct (recycled _ _); [by left|].
  right. eexists. split; [done|]. by exists q.
Qed.

(** A scope a delegated allow may carry ties the row to an argv. *)
Lemma permitted_pinned f scope admin p :
  f_delegated f = true → isin scope VALID_SCOPES = true → scope_permitted f true scope = true →
  C.plan_row (granted f scope admin) = Some p → C.pinned (granted f scope admin).
Proof.
  intros Hd Hv Hsp Hp. unfold scope_permitted in Hsp. rewrite Hd in Hsp. cbn [andb] in Hsp.
  apply andb_true_iff in Hsp as [[Hsp1 _]%andb_true_iff Hsp2]. apply negb_true_iff in Hsp1, Hsp2.
  unfold isin in *. apply bool_decide_eq_true in Hv. apply bool_decide_eq_false in Hsp1.
  assert (Hin : scope ∈ "once" :: ARGV_REQUIRED_SCOPES) by (unfold VALID_SCOPES, DELEGATED_FORBIDDEN_SCOPES, ARGV_REQUIRED_SCOPES in *; set_solver).
  apply elem_of_cons in Hin as [->|Hin].
  { apply C.plan_row_cases in Hp. cbn in Hp. naive_solver congruence. }
  rewrite (bool_decide_true _ Hin) in Hsp2. cbn [andb] in Hsp2. apply bool_decide_eq_false in Hsp2.
  destruct (argv_from_details (f_details f)) as [l|] eqn:Hl; [|done].
  split; cbn; [|repeat (apply elem_of_cons in Hin as [->|Hin]; [C.is_in|]); by apply not_elem_of_nil in Hin].
  rewrite Hl. cbn.
  intros ->. revert Hl. unfold argv_from_details. case_match; [done|]. intros [= Hl].
  apply fmap_nil_inv in Hl. apply orb_false_iff in H as [H _]. apply bool_decide_eq_false in H.
  destruct (indexed_argv (f_details f)) as [|x l]; [done|]. cbn in Hl.
  destruct (foldr insert_indexed [] l); cbn in Hl; [done|]. by case_match.
Qed.

(** A finished decision stores at most the grant of its own request. *)
Lemma finish_rows cf b w tk r :
  r ∈ C.rows (cache (decide_finish cf b w tk).1) →
  r ∈ C.rows (cache b) ∨
  ∃ q p id, reqs b !! tk_rid tk = Some q ∧ tk_allowed tk = true ∧ f_one_shot (q_filing q) = false ∧
    (negb (fw_audit_ok w) && cf_audit_required cf)%bool = false ∧
    C.plan_row (ticket_grant (q_filing q) tk) = Some p ∧
    r = C.make_row id (fw_now w) (ticket_grant (q_filing q) tk) p.
Proof.
  unfold decide_finish. destruct (reqs b !! tk_rid tk) as [q|] eqn:Hq; [|by left].
  match goal with |- context [audit_log b ?ok ?n ?e] => set (b1 := audit_log b ok n e) end.
  assert (Hc1 : cache b1 = cache b) by (unfold b1, audit_log; by case_match).
  assert (Hupd : ∀ b rid f, cache (update_req b rid f) = cache b) by (intros; unfold update_req; by case_match).
  assert (Hresp : ∀ b f, cache (respond_polkit b f) = cache b) by (intros; unfold respond_polkit; by repeat case_match).
  destruct (negb (fw_audit_ok w) && cf_audit_required cf)%bool eqn:Hok; cbn [fst].
  { cbn [emit cache]. rewrite Hupd, Hc1. by left. }
  cbn [emit cache]. rewrite Hupd.
  match goal with |- context [cache (if ?c then respond_polkit ?b2 ?f else ?b2)] =>
    replace (cache (if c then respond_polkit b2 f else b2)) with (cache b2) by (destruct c; by rewrite ?Hresp) end.
  destruct (tk_allowed tk) eqn:Hal; cbn [andb]; [|rewrite Hc1; by left].
  destruct (f_one_shot (q_filing q)) eqn:Hos; cbn [negb andb]; [rewrite Hc1; by left|].
  destruct (fw_cache_ok w); [|rewrite Hc1; by left]. cbn [with_cache cache]. rewrite Hc1.
  unfold C.store. destruct (C.plan_row (ticket_grant (q_filing q) tk)) as [p|] eqn:Hp; cbn [fst]; [|by left].
  cbn. intros [?| ->%list_elem_of_singleton]%elem_of_app; [by left|right]. eauto 10.
Qed.

(** When the audit took it, the decision stands and its row is in the log. *)
Lemma finish_stands cf b w tk q :
  reqs b !! tk_rid tk = Some q → f_id (q_filing q) = tk_rid tk →
  (negb (fw_audit_ok w) && cf_audit_required cf)%bool = false →
  let b' := (decide_finish cf b w tk).1 in
  (∃ q', reqs b' !! tk_rid tk = Some q' ∧ q_filing q' = q_filing q ∧ q_decision q' = q_decision q ∧
     q_finalizing q' = false) ∧
  (cf_audit_required cf = true → tk_allowed tk = true → prompted b' (tk_rid tk) (tk_scope tk) (tk_admin tk)).
Proof.
  intros Hq Hid Hok. cbv zeta. unfold decide_finish. rewrite Hq, Hok. cbn [fst].
  match goal with |- context [audit_log b ?ok ?n ?e] => set (b1 := audit_log b ok n e); set (en := e) in b1 end.
  match goal with |- context [emit (update_req ?b3 _ ?f) _] => set (b2 := b3); set (g := f) end.
  assert (Hb2 : reqs b2 = reqs b ∧ audit b2 = audit b1).
  { assert (Hr1 : reqs b1 = reqs b) by (unfold b1, audit_log; by case_match). unfold b2. clearbody b1. clear b2.
    match goal with |- context [respond_polkit ?b ?f] => destruct (respond_polkit_same b f) as (Hr & _ & Ha) end.
    repeat match goal with |- context [if ?c then _ else _] => destruct c end; rewrite ?Hr, ?Ha; done. }
  destruct Hb2 as [Hr2 Ha2]. unfold prompted, update_req. rewrite Hr2, Hq. cbn [emit reqs audit with_reqs].
  split; [exists (g q); by rewrite lookup_insert_eq|].
  intros Hr Hal. exists (row_of (next_row_id (audit b)) (fw_now w) en). rewrite Ha2.
  split; [|by split_and!]. rewrite Hr, andb_true_r in Hok. apply negb_false_iff in Hok.
  unfold b1, audit_log. rewrite Hok. apply log_elem. by right.
Qed.

Lemma finish_audit cf b w tk : audit b ⊆ audit (decide_finish cf b w tk).1.
Proof.
  unfold decide_finish. case_match; [|done].
  assert (Hupd : ∀ b rid f, audit (update_req b rid f) = audit b) by (intros; unfold update_req; by case_match).
  assert (Hresp : ∀ b f, audit (respond_polkit b f) = audit b) by (intros; by apply respond_polkit_same).
  match goal with |- context [audit_log b ?ok ?n ?e] =>
    assert (Ha1 : audit b ⊆ audit (audit_log b ok n e)) by apply light_audit, light_self;
    revert Ha1; generalize (audit_log b ok n e) as b1; intros b1 Ha1 end.
  repeat match goal with |- context [if ?c then _ else _] => destruct c end; cbn [fst emit audit];
    rewrite Hupd, ?Hresp; done.
Qed.

Lemma finish_cinv cf base b T1 tk T2 w :
  binv cf b (T1 ++ tk :: T2) → cinv cf base b (T1 ++ tk :: T2) →
  cinv cf base (decide_finish cf b w tk).1 (T1 ++ T2).
Proof.
  intros I [H1 H2]. destruct (decide_finish_goes cf b T1 tk T2 w I) as [I' Hs].
  destruct (bi_ticket _ _ _ I tk ltac:(set_solver)) as (q & Hq & Hd & Hz).
  destruct (bi_ids _ _ _ I _ _ Hq) as [Hid _].
  pose proof (finish_audit cf b w tk) as Ha. apply Forall_app in H2 as [H2 [Htk H3]%Forall_cons].
  split; [|apply Forall_app; split; (eapply Forall_impl; [eassumption|]); intros ?; by apply issued_mono].
  intros r [Hr|(q0 & p & id & Hq0 & Hal & Hos & Hok & Hp & ->)]%finish_rows.
  { destruct (H1 _ Hr); [by left|right]. by eapply minted_mono. }
  replace q0 with q in * by congruence. right.
  destruct Htk as (q1 & Hq1 & Hv & Hsp & Hargv). replace q1 with q in * by congruence.
  assert (Hg : ticket_grant (q_filing q) tk = granted (q_filing q) (tk_scope tk) (tk_admin tk))
    by (unfold ticket_grant, granted; by rewrite Hal, Hargv).
  rewrite Hg in *. rewrite Hal in *.
  destruct (finish_stands cf b w tk q Hq Hid Hok) as [(q' & Hq' & Hfil & Hd' & Hz') Hpr].
  exists (tk_rid tk), q', (tk_scope tk), (tk_admin tk), (fw_now w), p, id. rewrite !Hfil.
  split_and!; auto; [split; congruence|]. intros Hdel. by eapply permitted_pinned.
Qed.

Lemma bstep_cinv cf base s s' :
  bstep cf s s' → binv cf s.1 s.2 → cinv cf base s.1 s.2 → cinv cf base s'.1 s'.2.
Proof.
  intros Hstep I Hc. destruct (bstep_goes _ _ _ Hstep I) as [_ Hs].
  assert (Hlight : light s.1 s'.1 → s'.2 = s.2 → cinv cf base s'.1 s'.2)
    by (intros ? ->; by eapply light_cinv).
  destruct Hstep; cbn [fst snd] in *; try (apply Hlight; [|done]).
  - apply light_check_permission, light_self.
  - apply light_check_client, light_self.
  - apply light_enqueue, light_self.
  - apply light_enqueue_client, light_self.
  - apply light_relay_message, light_self.
  - apply light_apply_hook, light_self.
  - apply light_layered, light_self.
  - apply light_wait, light_self.
  - match goal with |- context [begin_step b T ?a ?r ?d ?s ?st ?o ?n] =>
      pose proof (light_begin b b T a r d s st o n (light_self b)) as Hl;
      destruct (begin_issued b T a r d s st o n) as [Ht|(tk & Ht & Hi)];
      destruct (begin_step b T a r d s st o n) as [b' T']; cbn [fst snd] in * end; subst T'.
    + by apply Hlight.
    + destruct (light_cinv cf base b b' T Hs Hl Hc) as [? ?]. split; [done|].
      apply Forall_cons_2; [by eapply issued_mono|done].
  - by apply finish_cinv.
  - apply light_announce, light_self.
  - apply light_respond_auth, light_self.
  - apply light_cancel, light_self.
  - apply light_gc_tick, light_self.
  - apply light_revoke, light_self.
  - apply light_revoke_all, light_self.
  - apply light_cache_gc, light_self.
  - apply light_notify, light_self.
  - apply light_reload, light_self.
Qed.

Lemma bsteps_cinv cf base s s' :
  rtc (bstep cf) s s' → binv cf s.1 s.2 → cinv cf base s.1 s.2 → cinv cf base s'.1 s'.2.
Proof.
  induction 1 as [s|s1 s2 s3 H12 _ IH]; intros I Hc; [done|].
  apply IH; [by apply (bstep_goes _ _ _ H12)|by eapply bstep_cinv].
Qed.

(** ** The theorem *)

(** What a remembered approval promises the process that asks now *)
Definition remembered (cf : config) (b : Broker) (now : Z) (su : subject) (argv : list string)
    (sandboxed : bool) : Prop :=
  ∃ rid q scope admin t,
    let g := granted (q_filing q) scope admin in
    reqs b !! rid = Some q ∧ final q true ∧ f_one_shot (q_filing q) = false ∧
    f_uid (q_filing q) = su_uid su ∧ f_action (q_filing q) = su_action su ∧
    C.covers g (su_exe su) argv ∧ C.live_at t g now ∧
    (f_delegated (q_filing q) = true ∨ sandboxed = true → C.pinned g) ∧
    (cf_audit_required cf = true → prompted b rid scope admin).

(** C4: No silent allow without a ground. In every state the broker reaches, a check that is
    answered "allow" without asking is answered by the first matching rule, an allow rule; or
    the action is no tier launch, no rule matches, and the row that answers was already in
    the database at the start, is an allow and is eligible now (for this caller and action,
    not expired, matching the executable and the argv), its history before the start being
    unknown; or it remembers a request of the same caller and action that the admin
    finally allowed, not one-shot, whose grant covers the executable and argv and is still
    live, tied to an argv when the request was delegated or the caller is sandboxed, and,
    only where the configuration requires the audit, whose prompt with that scope and
    approver is in the audit log. *)
Theorem silent_allow_justified cf b0 b T w su d app engine :
  fresh b0 → rtc (bstep cf) (b0, []) (b, T) → (decide_check cf b w su d app engine).2 = Some true →
  let d' := with_lineage d app engine in
  let rule := R.match_ (rules b) (rule_request su d' app engine) None in
  (∃ r, rule = Some r ∧ R.rl_decision r = "allow") ∨
  (rule = None ∧ tier_launch (su_action su) = false ∧
   ((∃ r, r ∈ C.rows (cache b0) ∧ r ∈ C.rows (cache b) ∧ C.decision r = true ∧
       C.eligible (lw_now w) (cache_query su d' false (cache_sandboxed w)) r) ∨
    remembered cf b (lw_now w) su (default [] (argv_from_details d')) (cache_sandboxed w))).
Proof.
  intros Hf Hs. pose proof (start_inv cf b0 Hf) as I0.
  assert (Hc : cinv cf (C.rows (cache b0)) b T).
  { apply (bsteps_cinv _ _ _ _ Hs); [done|]. split; [auto|constructor]. }
  unfold decide_check, record_check. cbv zeta. destruct (R.match_ _ _ _) as [r|] eqn:Hm.
  { cbn [snd]. intros [= Ha]. left. exists r. split; [done|].
    case_match; [done|]. by apply bool_decide_eq_true in Ha. }
  destruct (tier_launch (su_action su)) eqn:Ht; [done|].
  set (qy := cache_query su (with_lineage d app engine) false (cache_sandboxed w)).
  pose proof (C.lookup_rows_spec (lw_now w) qy (C.rows (cache b))) as Hl. unfold C.lookup_detail.
  destruct (C.lookup_rows (lw_now w) qy (C.rows (cache b))) as [row|]; [|done].
  cbn [snd]. intros [= Ha]. right. split; [done|]. split; [done|].
  destruct Hl as (Hin & Hel & _). pose proof Hel as [Hsel Hhit].
  assert (Hdec : C.decision row = true) by by case_match.
  destruct Hc as [Hc _]. destruct (Hc _ Hin) as [Hbase|Hmint]; [left; by eauto 10|right].
  destruct Hmint as (rid & q & scope & admin & t & p & id & Hq & Hfin & Hos & Hdel & Hpr & Hp & ->).
  apply (C.selected_make _ _ _ _ _ _ Hp) in Hsel as (Hu & Hact & Hlive).
  apply (C.row_hits_make _ _ _ _ _ Hp) in Hhit as [Hcov Hpin].
  exists rid, q, scope, admin, t. cbv zeta. split_and!; try done. intros [?|?]; [auto|].
  apply Hpin. cbn. done.
Qed.

(** The demo's request allowed for an hour, and the same process asking again *)
Definition demo_hour : Broker * list ticket :=
  begin_step demo_filed [] (Some 1000%Z) 1 "allow" "1h" 77 true 101.
Definition demo_hour_ticket : ticket := {| tk_rid := 1; tk_allowed := true; tk_scope := "1h";
  tk_admin := 1000; tk_waiters := []; tk_argv := Some ["id"] |}.
Definition demo_kept : Broker :=
  (decide_finish demo_config demo_hour.1 {| fw_now := 101; fw_audit_ok := true; fw_cache_ok := true |}
     demo_hour_ticket).1.

Lemma demo_hour_pair : demo_hour = (demo_hour.1, [] ++ demo_hour_ticket :: []).
Proof. rewrite (surjective_pairing demo_hour) at 1. apply (f_equal (pair _)). vm_compute. reflexivity. Qed.

Lemma demo_kept_steps :
  bstep demo_config (demo_filed, []) demo_hour ∧
  bstep demo_config (demo_hour.1, [] ++ demo_hour_ticket :: []) (demo_kept, [] ++ []).
Proof. split; [apply S_begin|apply S_finish]. Qed.

Lemma demo_kept_reach : rtc (bstep demo_config) (demo_start, []) (demo_kept, []).
Proof.
  destruct demo_steps as (S1 & _). destruct demo_kept_steps as [S2 S3]. rewrite <- demo_hour_pair in S3.
  eapply rtc_l; [exact S1|]. eapply rtc_l; [exact S2|]. apply rtc_once. exact S3.
Qed.

Lemma silent_allow_justified_witness :
  (decide_check demo_config demo_kept demo_lookup demo_subject [("argv[00]", "id")] "" "").2 = Some true ∧
  remembered demo_config demo_kept 100 demo_subject ["id"] false.
Proof.
  assert (Ha : (decide_check demo_config demo_kept demo_lookup demo_subject [("argv[00]", "id")] "" "").2
               = Some true) by (vm_compute; reflexivity).
  split; [exact Ha|].
  destruct (silent_allow_justified demo_config demo_start demo_kept [] demo_lookup demo_subject
    [("argv[00]", "id")] "" "") as [(r & Hr & _)|(_ & _ & [(r & Hr & _)|H])].
  - split; [|split]; reflexivity.
  - exact demo_kept_reach.
  - exact Ha.
  - exfalso. revert Hr. vm_compute. discriminate.
  - exfalso. by apply not_elem_of_nil in Hr.
  - exact H.
Defined.

End Standing.
