(* ===== verification/BrokerWaiters.v ===== *)
(** * Every waiter is answered

    A client that waits for a decision is parked in the request object or in the ticket of
    the [DecideRequest] that is finishing it. Over every interleaving of [Decisions.bstep]
    no waiter is lost: as soon as the decision of its request is final it has been told. *)

From S2P Require Import Prelude Resolver Rules Cache AuditTrail Broker BrokerDecisions BrokerStanding.
Import AuditTrail Broker Decisions Standing.

Module Waiters.

(** Where a waiter may be parked *)
Definition waiting (b : Broker) (T : list ticket) (rid w : Z) : Prop :=
  (∃ q, reqs b !! rid = Some q ∧ w ∈ q_waiters q) ∨ (∃ tk, tk ∈ T ∧ tk_rid tk = rid ∧ w ∈ tk_waiters tk).

Definition told (b : Broker) (rid w : Z) : Prop := ∃ v, E_reply rid w v ∈ sent b.

(** A final request keeps nobody waiting. *)
Definition settled (b : Broker) : Prop :=
  ∀ rid q v, reqs b !! rid = Some q → final q v → q_waiters q = [].

(** A transition that loses no waiter *)
Definition serves (b : Broker) (T : list ticket) (b' : Broker) (T' : list ticket) : Prop :=
  (settled b → settled b') ∧ sent b ⊆ sent b' ∧
  ∀ rid w, waiting b T rid w → waiting b' T' rid w ∨ told b' rid w.

Lemma serves_refl b T : serves b T b T.
Proof. split_and!; auto; done. Qed.

Lemma serves_trans b1 T1 b2 T2 b3 T3 : serves b1 T1 b2 T2 → serves b2 T2 b3 T3 → serves b1 T1 b3 T3.
Proof.
  intros (A1 & A2 & A3) (B1 & B2 & B3). split_and!; [auto|set_solver|].
  intros rid w [Hw|[v Hv]]%A3; [by apply B3|]. right. exists v. auto.
Qed.

(** Nothing happens to the objects. *)
Lemma same_serves b b' T : reqs b' = reqs b → light b b' → serves b T b' T.
Proof.
  intros Hr (_ & _ & Hs). split_and!; [|done|].
  - unfold settled. by rewrite Hr.
  - intros rid w Hw. left. unfold waiting in *. by rewrite Hr.
Qed.

Lemma quiet_serves b b' T : quiet b b' → light b b' → serves b T b' T.
Proof. intros Q. apply same_serves, Q. Qed.

(** One object changes: its waiters stay, move to a new ticket, or are told. *)
Lemma change_serves b b' T T' rid q q' :
  reqs b' = <[rid := q']> (reqs b) → reqs b !! rid = Some q → light b b' → T ⊆ T' →
  (settled b → ∀ v, final q' v → q_waiters q' = []) →
  (∀ w, w ∈ q_waiters q → waiting b' T' rid w ∨ told b' rid w) →
  serves b T b' T'.
Proof.
  intros Hr Hq (_ & _ & Hs) HT Hfin Hw. split_and!; [|done|].
  - intros Hset rid' q0 v. rewrite Hr. intros [[<- <-]|[_ Hl]]%lookup_insert_Some; [by apply Hfin|by intros; eapply Hset].
  - intros rid' w [(q0 & Hl & Hin)|(tk & Ht & Hk & Hin)].
    + destruct (decide (rid = rid')) as [<-|Hne]; [apply Hw; congruence|].
      left. left. exists q0. by rewrite Hr, lookup_insert_ne.
    + left. right. exists tk. auto.
Qed.

Lemma replies_told rid ws v w : w ∈ ws → E_reply rid w v ∈ replies rid ws v.
Proof. apply (list_elem_of_fmap_2 (λ w, E_reply rid w v)). Qed.

(** An object is decided, its waiters are taken and told. *)
Lemma settle_serves b b1 T rid q q' v es :
  reqs b1 = <[rid := q']> (reqs b) → reqs b !! rid = Some q → light b b1 → q_waiters q' = [] →
  replies rid (q_waiters q) v ⊆ es → serves b T (emit b1 es) T.
Proof.
  intros Hr Hq Hl Hw Hes. eapply change_serves; [exact Hr|exact Hq|by apply light_emit|done|done|].
  intros w Hin. right. exists v. cbn. apply elem_of_app. right. by apply Hes, replies_told.
Qed.

(** A new object keeps nobody. *)
Lemma add_serves b b' T q :
  reqs b' = <[next_id b := q]> (reqs b) → reqs b !! next_id b = None → light b b' → q_waiters q = [] →
  serves b T b' T.
Proof.
  intros Hr Hn (_ & _ & Hs) Hw. split_and!; [|done|].
  - intros Hset rid' q0 v. rewrite Hr. intros [[<- <-]|[_ Hl]]%lookup_insert_Some; [done|by intros; eapply Hset].
  - intros rid w [(q0 & Hl & Hin)|Ht]; left; [left|by right].
    exists q0. rewrite Hr, lookup_insert_ne; [done|]. intros <-. congruence.
Qed.

(** ** The operations *)

Section Operations.
Context (cf : config) (b : Broker) (T : list ticket) (I : binv cf b T).

Lemma fresh_id : reqs b !! next_id b = None.
Proof. destruct (reqs b !! next_id b) as [q|] eqn:Hq; [|done]. destruct (bi_ids _ _ _ I _ _ Hq). lia. Qed.


Lemma layered_serves rid l : serves b T (apply_layered_identity b rid l) T.
Proof.
  pose proof (light_layered b b rid l (light_self b)) as Hl. revert Hl. unfold apply_layered_identity.
  destruct (lookup_pending b rid) as [q|] eqn:Hq; [|intros; apply serves_refl].
  apply lookup_pending_Some in Hq as [_ Hq]. intros Hl.
  eapply (change_serves _ _ _ _ _ q (set_layered l q)); [|exact Hq|exact Hl|done| |].
  - unfold update_req. by rewrite Hq.
  - intros Hset v Hv. by apply (Hset _ _ v Hq).
  - intros w Hw. left. left. exists (set_layered l q). unfold update_req. rewrite Hq. cbn.
    by rewrite lookup_insert_eq.
Qed.

Lemma park_serves rid q wt : reqs b !! rid = Some q → serves b T (park b rid q wt) T.
Proof.
  intros Hq. pose proof (light_park b b rid q wt (light_self b)) as Hl. revert Hl. unfold park.
  assert (Happ : (∀ v, ¬ final q v) → light b (update_req b rid (set_waiters (q_waiters q ++ [wt]))) →
    serves b T (update_req b rid (set_waiters (q_waiters q ++ [wt]))) T).
  { intros Hnf Hl. eapply (change_serves _ _ _ _ _ q (set_waiters (q_waiters q ++ [wt]) q)); [|exact Hq|exact Hl|done| |].
    - unfold update_req. by rewrite Hq.
    - intros _ v Hv. by destruct (Hnf v).
    - intros w Hw. left. left. exists (set_waiters (q_waiters q ++ [wt]) q). unfold update_req. rewrite Hq. cbn.
      rewrite lookup_insert_eq. split; [done|]. apply elem_of_app. by left. }
  destruct (q_decision q) as [d|] eqn:Hd; [destruct (q_finalizing q) eqn:Hf|].
  - apply Happ. intros v [_ ?]. congruence.
  - by intros; apply same_serves.
  - apply Happ. intros v [? _]. congruence.
Qed.

(** A waiter that was let in is parked or told. *)
Lemma park_parks rid wt q :
  reqs b !! rid = Some q → waiting (park b rid q wt) T rid wt ∨ told (park b rid q wt) rid wt.
Proof.
  intros Hq. unfold park.
  assert (Hin : waiting (update_req b rid (set_waiters (q_waiters q ++ [wt]))) T rid wt).
  { left. exists (set_waiters (q_waiters q ++ [wt]) q). unfold update_req. rewrite Hq. cbn.
    rewrite lookup_insert_eq. split; [done|]. apply elem_of_app. right. by left. }
  destruct (q_decision q) as [d|]; [destruct (q_finalizing q)|]; [by left| |by left].
  right. exists d. cbn. apply elem_of_app. right. by left.
Qed.

Lemma wait_serves rid u wt : serves b T (wait_for_decision cf b rid u wt) T.
Proof.
  unfold wait_for_decision. destruct (lookup_pending b rid) as [q|] eqn:Hq;
    [|apply same_serves; [done|apply light_emit, light_self]].
  apply lookup_pending_Some in Hq as [_ Hq].
  case_match; [apply same_serves; [done|apply light_emit, light_self]|by apply park_serves].
Qed.

Lemma wait_parks rid u wt q :
  lookup_pending b rid = Some q → u ∈ [0; cf_admin_uid cf; f_uid (q_filing q)]%Z →
  waiting (wait_for_decision cf b rid u wt) T rid wt ∨ told (wait_for_decision cf b rid u wt) rid wt.
Proof.
  intros Hq Hu. unfold wait_for_decision. rewrite Hq. apply lookup_pending_Some in Hq as [_ Hq].
  rewrite bool_decide_true by done. by apply park_parks.
Qed.

Lemma hook_serves w rid : serves b T (apply_hook cf b w rid) T.
Proof.
  pose proof (light_apply_hook cf b b w rid (light_self b)) as Hl. revert Hl. unfold apply_hook.
  destruct (lookup_pending b rid) as [q|] eqn:Hq; [|intros; apply serves_refl].
  apply lookup_pending_Some in Hq as [_ Hq]. case_bool_decide; [intros; apply serves_refl|].
  destruct (hw_response w) as [[verdict why]|]; [|by intros; apply same_serves].
  destruct (isin verdict _); [|by intros; apply same_serves].
  destruct (hook_verdict_spec cf b w (q_filing q) verdict why) as [Q _].
  pose proof (λ b' x, light_hook cf b b w (q_filing q) verdict why b' x) as Hlh.
  destruct (hook_verdict _ _ _ _ _ _) as [b1 r]. cbn [fst] in Q. specialize (Hlh _ _ eq_refl (light_self b)).
  intros _. assert (Hq1 : reqs b1 !! rid = Some q) by by rewrite (qt_reqs _ _ Q).
  set (b2 := update_req b1 rid _).
  assert (H2 : reqs b2 = <[rid := set_waiters [] (set_decision r false q)]> (reqs b) ∧ light b b2).
  { subst b2. split; [|by apply light_update]. unfold update_req. rewrite Hq1. cbn. by rewrite (qt_reqs _ _ Q). }
  destruct H2 as [Hr2 Hl2]. eapply (settle_serves _ _ _ _ _ (set_waiters [] (set_decision r false q)) r); [|exact Hq| |done|].
  - destruct (r && _)%bool; [|exact Hr2]. destruct (respond_polkit_same b2 (q_filing q)) as [-> _]. exact Hr2.
  - destruct (r && _)%bool; [by apply light_respond|done].
  - set_solver.
Qed.

Lemma enqueue_serves w a : filed a → serves b T (enqueue cf b w a).1 T.
Proof.
  intros Hf. pose proof (light_enqueue cf b b w a (light_self b)) as Hl. revert Hl. unfold enqueue.
  pose proof (enqueue_rate_quiet b (ew_lookup w) (fa_subject a)) as Q1.
  destruct (enqueue_rate b (ew_lookup w) (fa_subject a)) as [b1 ok]. cbn [fst] in Q1.
  destruct ok; cbn [negb]; [|by apply quiet_serves].
  pose proof (enqueue_consult_quiet cf b1 (ew_lookup w) a) as Q2.
  destruct (enqueue_consult cf b1 (ew_lookup w) a) as [b2 [[[dead rule] row] clean]]. cbn [fst] in Q2.
  assert (Q : quiet b b2) by by etrans. clear Q1 Q2.
  destruct (match fa_polkit a with Some (c, _) => cookie_taken b2 c (fa_filed_by a) | None => false end);
    [by apply quiet_serves|].
  set (f := new_filing a (next_id b2) clean (ew_time w)). intros Hl.
  match type of Hl with light b ?b'.1 => set (res := b') in * end.
  assert (Hq : ∃ q, reqs res.1 = <[next_id b := q]> (reqs b) ∧ q_waiters q = []).
  { subst res. clear Hl. rewrite <- (qt_next _ _ Q), <- (qt_reqs _ _ Q).
    assert (Hrec : ∀ q0 ok now su al d src sc rp ap ri gr (x : result broker_error Z), q_waiters q0 = [] →
      ∃ q, reqs (let '(b3, r) := record_check cf (add_request b2 q0) ok now su al d src sc rp ap ri gr in
                 (update_req b3 (next_id b2) (set_decision r false), x)).1 = <[next_id b2 := q]> (reqs b2) ∧
        q_waiters q = []).
    { intros q0 ok now su al d src sc rp ap ri gr x Hw.
      pose proof (record_check_quiet cf (add_request b2 q0) ok now su al d src sc rp ap ri gr) as Q3.
      destruct (record_check _ _ _ _ _ _ _ _ _ _ _ _ _) as [b3 r]. cbn [fst] in *.
      exists (set_decision r false q0). split; [|done].
      unfold update_req. rewrite (qt_reqs _ _ Q3). cbn. rewrite lookup_insert_eq. cbn.
      by rewrite insert_insert_eq. }
    destruct dead; [|destruct rule as [ru|]; [|destruct row as [ro|]]]; cbv zeta.
    - eexists. split; [|shelve]. unfold audit_polkit_deny, audit_log. cbn [fst]. by case_match.
      Unshelve. done.
    - by apply Hrec.
    - by apply Hrec.
    - eexists. split; [|shelve]. cbn [fst]. by case_match. Unshelve. done. }
  destruct Hq as (q & Hr & Hw). eapply add_serves; [exact Hr|apply fresh_id|exact Hl|exact Hw].
Qed.

Lemma begin_serves ad rid dn sc st ok now :
  serves b T (begin_step b T ad rid dn sc st ok now).1 (begin_step b T ad rid dn sc st ok now).2.
Proof.
  pose proof (light_begin b b T ad rid dn sc st ok now (light_self b)) as Hl. revert Hl.
  unfold begin_step, decide_begin. destruct ad as [adm|]; [|intros; apply serves_refl].
  destruct (negb (isin dn _)); [intros; apply serves_refl|].
  destruct (negb (isin sc _)); [intros; apply serves_refl|].
  destruct (lookup_pending b rid) as [q|] eqn:Hq; [|intros; apply serves_refl].
  apply lookup_pending_Some in Hq as [_ Hq].
  destruct (q_decision q) as [d|] eqn:Hd; [intros; apply serves_refl|].
  destruct (negb (scope_permitted _ _ _)); [intros; apply serves_refl|].
  destruct (recycled _ _); cbn [fst snd]; intros Hl.
  - match goal with |- serves b T (emit ?b1 _) T => set (b2 := b1) end.
    eapply (settle_serves _ _ _ _ q (set_waiters [] (set_decision false false q)) false); [|exact Hq| |done|set_solver].
    + subst b2. unfold audit_log, update_req. rewrite Hq. by case_match.
    + subst b2. apply light_audit, light_update, light_self.
  - set (q' := set_waiters [] (set_decision (bool_decide (dn = "allow")) true q)).
    eapply (change_serves _ _ _ _ rid q q'); [|exact Hq|exact Hl|set_solver| |].
    + unfold update_req. by rewrite Hq.
    + intros _ v [_ ?]. done.
    + intros w Hw. left. right. eexists. split; [by left|]. done.
Qed.

Lemma respond_auth_serves ag now c sd ids aok cok :
  serves b T (respond_polkit_auth cf b ag now c sd ids aok cok).1 T.
Proof.
  pose proof (light_respond_auth cf b b ag now c sd ids aok cok (light_self b)) as Hl. revert Hl.
  unfold respond_polkit_auth. destruct ag as [su|]; [|intros; apply serves_refl].
  pose proof (λ q, cookie_request_queued cf b T c q I) as Hreq.
  destruct (match od_get (cancelled b) c with Some (s, _) => bool_decide (sd ∈ s) | None => false end);
    [intros; apply serves_refl|].
  match goal with |- context [if negb ?o then _ else _] => destruct (negb o) end; [intros; apply serves_refl|].
  match goal with |- context [if ?o then (b, Ok tt) else _] => destruct o end; [intros; apply serves_refl|].
  destruct (pick_polkit_identity ids (su_uid su)) as [i|]; [|intros; apply serves_refl].
  match goal with |- context [audit_log b ?ok ?now ?e] =>
    pose proof (audit_log_quiet b ok now e) as Q1; pose proof (light_audit b b ok now e (light_self b)) as L1;
    generalize dependent (audit_log b ok now e) end.
  intros b1 Q1 L1. destruct (negb aok && cf_audit_required cf)%bool; [by apply quiet_serves|].
  destruct (negb cok); [by apply quiet_serves|].
  assert (Hr1 : reqs (emit b1 [E_polkit (su_uid su) c i]) = reqs b) by apply (qt_reqs _ _ Q1).
  destruct (cookie_request b c) as [q|]; [|by apply same_serves].
  case_bool_decide; [|by apply same_serves]. specialize (Hreq q eq_refl). cbn [fst]. intros _.
  eapply (settle_serves _ _ _ _ q (set_waiters [] (set_decision true false q)) true); [|exact Hreq| |done|set_solver].
  - unfold update_req. rewrite Hr1, Hreq. done.
  - by apply light_update, light_emit.
Qed.

(** Denials taken together: who waited is still parked, or is in the list that is told. *)
Lemma deny_all_parks f qs b1 T1 :
  NoDup ((λ q, f_id (q_filing q)) <$> qs) →
  Forall (λ q, reqs b1 !! f_id (q_filing q) = Some q) qs →
  (settled b1 → settled (deny_all f b1 qs)) ∧
  ∀ rid w, waiting b1 T1 rid w →
    waiting (deny_all f b1 qs) T1 rid w ∨ ∃ q, q ∈ qs ∧ f_id (q_filing q) = rid ∧ w ∈ q_waiters q.
Proof.
  unfold deny_all. revert b1. induction qs as [|q qs IH]; intros b1 Hnd Hqs; [by split; auto|].
  rewrite fmap_cons in Hnd. apply NoDup_cons in Hnd as [Hni Hnd]. apply Forall_cons in Hqs as [Hq Hqs].
  cbn [fold_left]. set (g := λ q, set_waiters [] (f (set_decision false false q))).
  set (b2 := update_req b1 (f_id (q_filing q)) g).
  assert (Hr : reqs b2 = <[f_id (q_filing q) := g q]> (reqs b1)) by (subst b2; unfold update_req; by rewrite Hq).
  destruct (IH b2 Hnd) as [Hset Hw].
  { rewrite Forall_forall in *. intros q0 Hin. rewrite Hr, lookup_insert_ne; [auto|]. intros He. apply Hni.
    rewrite He. by apply (list_elem_of_fmap_2 (λ q, f_id (q_filing q))). }
  split.
  - intros Hs. apply Hset. intros rid q0 v. rewrite Hr.
    intros [[<- <-]|[_ Hl]]%lookup_insert_Some; [done|by intros; eapply Hs].
  - intros rid w Hwait. assert (waiting b2 T1 rid w ∨ (rid = f_id (q_filing q) ∧ w ∈ q_waiters q)) as [H2|[-> Hin]].
    { destruct Hwait as [(q0 & Hl & Hin)|Ht]; [|left; by right].
      destruct (decide (rid = f_id (q_filing q))) as [->|Hne]; [right; split; [done|congruence]|].
      left. left. exists q0. by rewrite Hr, lookup_insert_ne. }
    + destruct (Hw _ _ H2) as [?|(q0 & ? & ? & ?)]; [by left|right]. exists q0. split; [by right|done].
    + right. exists q. split; [by left|done].
Qed.

Lemma relay_fold_tells ok now src qs b1 q w :
  q ∈ qs → w ∈ q_waiters q → told (fold_left (relay_deny cf ok now src) qs b1) (f_id (q_filing q)) w.
Proof.
  revert b1. induction qs as [|q0 qs IH]; intros b1 Hin Hw; [by apply not_elem_of_nil in Hin|].
  cbn [fold_left]. apply elem_of_cons in Hin as [<-|Hin]; [|by apply IH].
  exists false. destruct (light_relay cf (relay_deny cf ok now src b1 q) (relay_deny cf ok now src b1 q) ok now src qs
    (light_self _)) as (_ & _ & Hs). apply Hs. unfold relay_deny. cbn. apply elem_of_app. right.
  apply elem_of_app. left. by apply replies_told.
Qed.

Lemma relay_fold_same ok now src qs b1 : reqs (fold_left (relay_deny cf ok now src) qs b1) = reqs b1.
Proof.
  revert b1. induction qs as [|q qs IH]; intros b1; [done|]. cbn [fold_left]. rewrite IH.
  unfold relay_deny, audit_polkit_deny, audit_log. by case_match.
Qed.

(** Deny a list of queued requests, let the objects change without moving waiters, tell. *)
Lemma deny_relay_serves f ok now src qs b1 T1 (k : Broker → Broker) :
  NoDup ((λ q, f_id (q_filing q)) <$> qs) →
  Forall (λ q, reqs b1 !! f_id (q_filing q) = Some q) qs →
  (∀ b0 b', light b0 b' → light b0 (k b')) →
  (∀ b', settled b' → settled (k b')) →
  (∀ b' rid w, waiting b' T1 rid w → waiting (k b') T1 rid w) →
  serves b1 T1 (fold_left (relay_deny cf ok now src) qs (k (deny_all f b1 qs))) T1.
Proof.
  intros Hnd Hqs Kl Ks Kw. destruct (deny_all_parks f qs b1 T1 Hnd Hqs) as [Hset Hw].
  pose proof (relay_fold_same ok now src qs (k (deny_all f b1 qs))) as Hr.
  split_and!.
  - intros H1. specialize (Ks _ (Hset H1)). unfold settled in *. by rewrite Hr.
  - by apply light_relay, Kl, light_deny_all, light_self.
  - intros rid w [Hp|(q & Hin & <- & Hq)]%Hw.
    + left. apply Kw in Hp. unfold waiting in *. by rewrite Hr.
    + right. by apply relay_fold_tells.
Qed.

Lemma cancel_serves ag now c sd aok : serves b T (cancel_polkit_auth cf b ag now c sd aok).1 T.
Proof.
  unfold cancel_polkit_auth. destruct ag as [su|]; [|apply serves_refl].
  pose proof (note_cancelled_quiet b now c sd) as Q1. pose proof (λ b' x, light_note b b now c sd b' x) as L1.
  destruct (note_polkit_cancelled b now c sd) as [b1 r]. specialize (L1 _ _ eq_refl (light_self b)).
  cbn [fst] in Q1. destruct r as [[]|e]; [|by apply quiet_serves].
  set (was := match od_get (announced b1) c with Some (owner, _) => _ | None => _ end).
  set (b2 := if was then _ else b1). cbv zeta.
  assert (Q2 : quiet b b2) by (etrans; [done|]; subst b2; destruct was; [apply with_marks_quiet|reflexivity]).
  assert (L2 : light b b2) by (subst b2; destruct was; [by apply light_marks|done]).
  eapply serves_trans; [by apply quiet_serves|].
  pose proof (quiet_goes cf _ _ T Q2 I) as [I2 _]. clearbody b2. clear Q1 L1 Q2 L2.
  match goal with |- context [filter ?P (omap ?g (pending b2))] => set (hits := filter P (omap g (pending b2))) end.
  assert (Hh : NoDup ((λ q, f_id (q_filing q)) <$> hits) ∧
    Forall (λ q, reqs b2 !! f_id (q_filing q) = Some q) hits).
  { split; [by eapply queued_NoDup|]. apply Forall_forall. intros q Hin.
    apply list_elem_of_filter in Hin as [_ Hin]. by eapply queued_elem. }
  destruct Hh as [Hnd Hqs]. clearbody hits. destruct hits as [|q qs].
  - cbn [fst]. destruct was; [|apply serves_refl]. apply quiet_serves; [apply audit_log_quiet|apply light_audit, light_self].
  - cbn [fst]. by apply (deny_relay_serves id aok now AS_polkit_cancel (q :: qs) b2 T (λ b, b)).
Qed.

(** The reaper's stamps move no waiter. *)
Lemma stamp_parks b1 T1 rid now :
  (settled b1 → settled (update_req b1 rid (set_decided_at now))) ∧
  ∀ rid' w, waiting b1 T1 rid' w → waiting (update_req b1 rid (set_decided_at now)) T1 rid' w.
Proof.
  unfold update_req. destruct (reqs b1 !! rid) as [q|] eqn:Hq; [|auto]. split.
  - intros Hs rid' q0 v. cbn. intros [[<- <-]|[_ Hl]]%lookup_insert_Some; [|by intros; eapply Hs].
    intros Hv. by apply (Hs _ _ v Hq).
  - intros rid' w [(q0 & Hl & Hin)|Ht]; [left|by right]. cbn.
    destruct (decide (rid = rid')) as [<-|Hne]; [|exists q0; by rewrite lookup_insert_ne].
    exists (set_decided_at now q). rewrite lookup_insert_eq. split; [done|]. cbn. congruence.
Qed.

Definition stamp_all (now : Z) (qs : list Request) (b1 : Broker) : Broker :=
  fold_left (λ b q, update_req b (f_id (q_filing q)) (set_decided_at now)) qs b1.

Lemma stamps_park now qs b1 T1 :
  (settled b1 → settled (stamp_all now qs b1)) ∧
  ∀ rid w, waiting b1 T1 rid w → waiting (stamp_all now qs b1) T1 rid w.
Proof.
  unfold stamp_all. revert b1. induction qs as [|q qs IH]; intros b1; [done|]. cbn [fold_left].
  destruct (stamp_parks b1 T1 (f_id (q_filing q)) now) as [J1 J2].
  destruct (IH (update_req b1 (f_id (q_filing q)) (set_decided_at now))) as [I1 I2]. auto.
Qed.

Lemma reap_serves now aok : serves b T (reap_pending cf b now aok).1 T.
Proof.
  unfold reap_pending. cbn [fst].
  match goal with |- context [deny_all _ b ?l] => set (denied := l) end.
  match goal with |- context [fold_left (λ b q, update_req b _ _) ?l _] => set (stamped := l) end.
  match goal with |- context [filter (λ rid, rid ∉ ?l) _] => set (drop := l) end.
  assert (Hnd : NoDup ((λ q, f_id (q_filing q)) <$> denied)) by by eapply queued_NoDup.
  assert (Hqs : Forall (λ q, reqs b !! f_id (q_filing q) = Some q) denied).
  { apply Forall_forall. intros q Hin. apply list_elem_of_filter in Hin as [_ Hin]. by eapply queued_elem. }
  apply (deny_relay_serves (set_decided_at now) aok now AS_polkit_stale_reap denied b T
    (λ b1, let b2 := stamp_all now stamped b1 in
           with_pending b2 (filter (λ rid, rid ∉ drop) (pending b2)))); try done; cbv beta zeta.
  - intros b0 b' Hl. apply light_pending, light_fold; [|done]. intros. by apply light_update.
  - intros b' Hs. apply (stamps_park now stamped b' T), Hs.
  - intros b' rid w. apply (stamps_park now stamped b' T).
Qed.

End Operations.

Lemma relay_serves cf b T w su st tg sv kd pl wt :
  binv cf b T → serves b T (relay_message cf b w su st tg sv kd pl wt).1 T.
Proof.
  intros I. unfold relay_message. do 2 (case_match; [apply serves_refl|]). cbv zeta.
  case_match; [case_match; [apply serves_refl|]|].
  { apply quiet_serves; [apply audit_log_quiet|apply light_audit, light_self]. }
  case_match; [apply serves_refl|].
  match goal with |- context [enqueue cf b ?ew ?a] =>
    pose proof (enqueue_serves cf b T I ew a ltac:(constructor)) as Hg; destruct (enqueue cf b ew a) as [b1 r] end.
  cbn [fst] in Hg. destruct r as [rid|e]; [|done].
  destruct (lookup_pending b1 rid) as [q|] eqn:Hq; [|done]. apply lookup_pending_Some in Hq as [_ Hq].
  eapply serves_trans; [exact Hg|]. by apply park_serves.
Qed.

(** A ticket comes back: its waiters and those of its object are told. *)
Lemma finish_serves cf b T1 tk T2 w :
  binv cf b (T1 ++ tk :: T2) → serves b (T1 ++ tk :: T2) (decide_finish cf b w tk).1 (T1 ++ T2).
Proof.
  intros I. destruct (bi_ticket _ _ _ I tk ltac:(set_solver)) as (q & Hq & _).
  assert (Hr : ∃ q' v b1, reqs b1 = <[tk_rid tk := q']> (reqs b) ∧ q_waiters q' = [] ∧ sent b ⊆ sent b1 ∧
    (decide_finish cf b w tk).1 = emit b1 (replies (tk_rid tk) (tk_waiters tk ++ q_waiters q) v
                                           ++ [E_decided (tk_rid tk) v])).
  { unfold decide_finish. rewrite Hq.
    assert (Hupd : ∀ b1 f, reqs b1 = reqs b → sent b ⊆ sent b1 → ∃ b2, update_req b1 (tk_rid tk) f = b2 ∧
      reqs b2 = <[tk_rid tk := f q]> (reqs b) ∧ sent b ⊆ sent b2).
    { intros b1 f Hb Hsb. eexists. split; [done|]. unfold update_req. rewrite Hb, Hq. by cbn. }
    match goal with |- context [audit_log b ?ok ?n ?e] =>
      pose proof (qt_reqs _ _ (audit_log_quiet b ok n e)) as H1;
      pose proof (proj2 (proj2 (light_audit b b ok n e (light_self b)))) as H2;
      generalize dependent (audit_log b ok n e) end.
    intros b1 H1 H2. destruct (negb (fw_audit_ok w) && cf_audit_required cf)%bool; cbn [fst].
    - match goal with |- context [update_req b1 _ ?f] => destruct (Hupd b1 f H1 H2) as (b2 & -> & ? & ?); exists (f q) end.
      exists false, b2. done.
    - match goal with |- context [update_req ?b3 _ ?f] =>
        assert (reqs b3 = reqs b ∧ sent b ⊆ sent b3) as [H3 H4]; [|destruct (Hupd b3 f H3 H4) as (b4 & -> & ? & ?); exists (f q)] end.
      + match goal with |- context [if ?c then respond_polkit ?b2 ?f else ?b2] =>
          destruct (respond_polkit_same b2 f) as (H5 & _);
          pose proof (proj2 (proj2 (light_respond b2 b2 f (light_self b2)))) as H6 end.
        repeat match goal with |- context [if ?c then _ else _] => destruct c end; cbn in *;
          rewrite ?H5; split; done || set_solver.
      + exists (tk_allowed tk), b4. done. }
  destruct Hr as (q' & v & b1 & Hr & Hw & Hsent & ->). split_and!.
  - intros Hset rid q0 v0. cbn. rewrite Hr. intros [[<- <-]|[_ Hl]]%lookup_insert_Some; [done|by intros; eapply Hset].
  - cbn. set_solver.
  - assert (Htold : ∀ x, x ∈ tk_waiters tk ++ q_waiters q → told (emit b1 (replies (tk_rid tk)
      (tk_waiters tk ++ q_waiters q) v ++ [E_decided (tk_rid tk) v])) (tk_rid tk) x).
    { intros x Hx. exists v. cbn. apply elem_of_app. right. apply elem_of_app. left. by apply replies_told. }
    intros rid x [(q0 & Hl & Hin)|(tk' & Ht & <- & Hin)].
    + destruct (decide (rid = tk_rid tk)) as [->|Hne].
      * right. apply Htold, elem_of_app. right. congruence.
      * left. left. exists q0. cbn. by rewrite Hr, lookup_insert_ne.
    + apply elem_of_app in Ht as [Ht|[->|Ht]%elem_of_cons].
      * left. right. exists tk'. set_solver.
      * right. apply Htold, elem_of_app. by left.
      * left. right. exists tk'. set_solver.
Qed.

Lemma bstep_serves cf s s' : bstep cf s s' → binv cf s.1 s.2 → serves s.1 s.2 s'.1 s'.2.
Proof.
  intros Hstep I. destruct Hstep; cbn [fst snd] in *.
  - apply quiet_serves; [apply check_permission_quiet|apply light_check_permission, light_self].
  - apply quiet_serves; [apply check_for_client_quiet|apply light_check_client, light_self].
  - by eapply enqueue_serves.
  - unfold request_permission_for_client. destruct fe; [|apply serves_refl].
    destruct c as [[su st]|]; [|apply serves_refl]. eapply enqueue_serves; [done|constructor].
  - by eapply relay_serves.
  - by eapply hook_serves.
  - by eapply layered_serves.
  - by eapply wait_serves.
  - by eapply begin_serves.
  - by eapply finish_serves.
  - apply quiet_serves; [apply announce_quiet|apply light_announce, light_self].
  - by eapply respond_auth_serves.
  - by eapply cancel_serves.
  - unfold gc_tick. set (b1 := if g then _ else b).
    assert (Q : quiet b b1) by (subst b1; destruct g; [apply with_cache_quiet|reflexivity]).
    eapply serves_trans; [apply (quiet_serves b b1); [done|]|].
    + subst b1. destruct g; [apply light_cache; [apply light_self|apply gc_rows_subset]|done].
    + apply (reap_serves cf). by apply (quiet_goes cf _ _ T Q I).
  - apply quiet_serves; [apply revoke_approval_quiet|apply light_revoke, light_self].
  - apply quiet_serves; [apply revoke_all_quiet|apply light_revoke_all, light_self].
  - apply quiet_serves; [apply run_cache_gc_quiet|apply light_cache_gc, light_self].
  - apply quiet_serves; [apply record_notification_quiet|apply light_notify, light_self].
  - apply quiet_serves; [apply reload_rules_quiet|apply light_reload, light_self].
Qed.

Lemma bsteps_serves cf s s' : rtc (bstep cf) s s' → binv cf s.1 s.2 → serves s.1 s.2 s'.1 s'.2.
Proof.
  induction 1 as [s|s1 s2 s3 H12 _ IH]; intros I; [apply serves_refl|].
  eapply serves_trans; [by eapply bstep_serves|]. apply IH. by apply (bstep_goes _ _ _ H12).
Qed.

(** C3: Every waiter is answered. A client let in to wait for a queued request, in any
    reachable state, is at every later moment still parked in the request or in the ticket
    that finishes it, or has been sent its reply; once the decision is final, provided by the
    admin, a hook, a polkit verification, a cancel, the reaper or a failed audit, it has been
    sent its reply, and every reply it was sent carries that decision. *)
Theorem waiters_are_answered cf b T rid u wt q b' T' :
  breach cf b T → lookup_pending b rid = Some q → u ∈ [0; cf_admin_uid cf; f_uid (q_filing q)]%Z →
  rtc (bstep cf) (wait_for_decision cf b rid u wt, T) (b', T') →
  (waiting b' T' rid wt ∨ told b' rid wt) ∧
  (∀ q' v, reqs b' !! rid = Some q' → final q' v →
     E_reply rid wt v ∈ sent b' ∧ ∀ v', E_reply rid wt v' ∈ sent b' → v' = v).
Proof.
  intros Hb Hq Hu Hs. destruct Hb as (b0 & Hb0 & Hsteps). pose proof (start_inv cf b0 Hb0) as I0.
  assert (Hall : rtc (bstep cf) (b0, []) (b', T')).
  { etrans; [exact Hsteps|]. eapply rtc_l; [apply S_wait|exact Hs]. }
  assert (H0 : settled b0) by (intros r q0 v; destruct Hb0 as [-> _]; by rewrite lookup_empty).
  destruct (bsteps_goes _ _ _ Hall I0) as [I' _]. cbn in I'.
  destruct (bsteps_serves _ _ _ Hall I0) as [Hset _]. specialize (Hset H0). cbn in Hset.
  destruct (bsteps_goes _ _ _ Hsteps I0) as [I _]. cbn in I.
  destruct (wait_goes cf b T rid u wt I) as [Iw _].
  destruct (bsteps_serves _ _ _ Hs Iw) as (_ & Hsent & Hserve). cbn in Hsent, Hserve.
  assert (Hnow : waiting b' T' rid wt ∨ told b' rid wt).
  { destruct (wait_parks cf b T rid u wt q Hq Hu) as [Hw|[v Hv]]; [auto|]. right. exists v. auto. }
  split; [done|]. intros q' v Hq' Hf.
  assert (Hagree : ∀ v', E_reply rid wt v' ∈ sent b' → v' = v).
  { intros v' Hv'. destruct (bi_said _ _ _ I' _ rid v' Hv') as (q1 & Hq1 & Hh); [done|].
    unfold heard, final in *. naive_solver congruence. }
  split; [|done]. destruct Hnow as [[(q1 & Hq1 & Hin)|(tk & Ht & Hk & _)]|[v' Hv']].
  - replace q1 with q' in * by congruence. rewrite (Hset _ _ _ Hq' Hf) in Hin. by apply not_elem_of_nil in Hin.
  - destruct (bi_ticket _ _ _ I' _ Ht) as (q1 & Hq1 & _ & Hz). rewrite Hk in Hq1. destruct Hf. congruence.
  - by rewrite (Hagree _ Hv') in Hv'.
Qed.

Lemma waiters_are_answered_witness :
  E_reply 1 9 true ∈ sent demo_done ∧ ∀ v', E_reply 1 9 v' ∈ sent demo_done → v' = true.
Proof.
  destruct demo_steps as (S1 & S2 & S3 & S4). rewrite <- demo_begun_ticket in S4.
  assert (Hq : ∃ q, lookup_pending demo_filed 1 = Some q ∧ f_uid (q_filing q) = 3001%Z).
  { eexists. split; [vm_compute; reflexivity|reflexivity]. }
  destruct Hq as (q & Hq & Hu).
  assert (Hd : ∃ q', reqs demo_done !! 1%Z = Some q' ∧ final q' true).
  { eexists. split; [vm_compute; reflexivity|split; reflexivity]. }
  destruct Hd as (q' & Hq' & Hf).
  destruct (waiters_are_answered demo_config demo_filed [] 1 3001 9 q demo_done []) as [_ H].
  - exists demo_start. split; [split; [|split]; reflexivity|]. apply rtc_once. exact S1.
  - exact Hq.
  - rewrite Hu. right. right. left.
  - eapply rtc_l; [exact S3|]. apply rtc_once. exact S4.
  - exact (H q' true Hq' Hf).
Defined.

End Waiters.
