(* ===== verification/BrokerRequests.v ===== *)
(** * What a caller and the admin can make the broker answer

    Two results about single calls: the identity a caller claims in its details has no
    influence on the answer when lineage is enforced, and [DecideRequest] on every branch. *)

From S2P Require Import Prelude Resolver Rules RateLimit Cache AuditTrail Broker BrokerDecisions.
Import AuditTrail Broker Decisions.

Module Requests.

(** ** Claims *)

Lemma indexed_argv_set d k v : argv_index k = None → indexed_argv (od_set d k v) = indexed_argv d.
Proof.
  intros Hk. unfold indexed_argv. induction d as [|[k' v'] d IH]; cbn.
  - by rewrite Hk.
  - case_match; cbn; [|by rewrite IH]. apply bool_decide_eq_true in H as ->. by rewrite Hk.
Qed.

Lemma argv_with_lineage d app engine : argv_from_details (with_lineage d app engine) = argv_from_details d.
Proof. unfold argv_from_details, with_lineage. by rewrite !indexed_argv_set. Qed.

Lemma mime_with_lineage d app engine :
  selector_from_details (with_lineage d app engine) "mime_type" = selector_from_details d "mime_type".
Proof. unfold selector_from_details, with_lineage. by rewrite !od_get_set_ne. Qed.

Lemma rule_request_lineage su d app engine app' engine' :
  rule_request su (with_lineage d app engine) app' engine' = rule_request su d app' engine'.
Proof. unfold rule_request. by rewrite mime_with_lineage, argv_with_lineage. Qed.

Lemma cache_query_lineage su d app engine dl sb :
  cache_query su (with_lineage d app engine) dl sb = cache_query su d dl sb.
Proof. unfold cache_query. by rewrite argv_with_lineage. Qed.

(** The answer depends on the rules, the cache and the process, not on the details' claims. *)
Lemma decide_check_answer cf b1 b2 w su d a e app engine :
  rules b1 = rules b2 → cache b1 = cache b2 →
  (decide_check cf b1 w su (with_lineage d a e) app engine).2 = (decide_check cf b2 w su d app engine).2.
Proof.
  intros Hr Hc. unfold decide_check. rewrite !rule_request_lineage, !cache_query_lineage, Hr, Hc.
  destruct (R.match_ _ _ _) as [r|]; [done|]. destruct (tier_launch _); [done|].
  by destruct (C.lookup_detail _ _ _).
Qed.

Lemma lineage_selectors_enforced cf b w su ce ca :
  cf_lineage_enforce cf = true →
  let p := lineage_selectors cf b w su ce ca in
  rules p.1 = rules b ∧ cache p.1 = cache b ∧ cancelled p.1 = cancelled b ∧ announced p.1 = announced b ∧
  p.2 = (if V.sj_verified (lw_subject w)
         then (V.sj_sandbox_engine (lw_subject w), V.sj_app_id (lw_subject w)) else ("", "")).
Proof.
  intros He. cbv zeta. unfold lineage_selectors. rewrite He. cbn [fst snd].
  split_and!; unfold audit_log; by repeat case_match.
Qed.

(** C5: With lineage enforcement on, the [app_id] and [sandbox_engine] a caller claims in its
    details cannot change what it is answered: a check answers the same whatever claims are
    added or overwritten, and the rule and the remembered approval a filed request is decided
    by are the same too, with the stored details carrying the verified identity instead of
    the claim. *)
Theorem claims_are_ignored cf b w su d app engine :
  cf_lineage_enforce cf = true →
  (check_permission cf b w su (with_lineage d app engine)).2 = (check_permission cf b w su d).2 ∧
  (∀ start,
     let file d := (enqueue_consult cf b w (request_permission su start d)).2 in
     (file (with_lineage d app engine)).1 = (file d).1 ∧
     od_get (file d).2 "app_id" =
       Some (if V.sj_verified (lw_subject w) then V.sj_app_id (lw_subject w) else "") ∧
     od_get (file d).2 "sandbox_engine" =
       Some (if V.sj_verified (lw_subject w) then V.sj_sandbox_engine (lw_subject w) else "")).
Proof.
  intros He. split.
  - unfold check_permission. destruct (L.check _ _ _ _) as [rl ok]. destruct ok; [|done]. cbn [negb].
    match goal with |- context [lineage_selectors cf ?b0 w su ?x ?y] =>
      destruct (lineage_selectors_enforced cf b0 w su x y He) as (R1 & C1 & _ & _ & P1);
      destruct (lineage_selectors cf b0 w su x y) as [b1 [e1 a1]] end.
    match goal with |- context [lineage_selectors cf ?b0 w su ?x ?y] =>
      destruct (lineage_selectors_enforced cf b0 w su x y He) as (R2 & C2 & _ & _ & P2);
      destruct (lineage_selectors cf b0 w su x y) as [b2 [e2 a2]] end.
    cbn [fst snd] in *. rewrite <- P1 in P2. injection P2 as -> ->.
    pose proof (decide_check_answer cf b1 b2 w su d app engine a1 e1 ltac:(congruence) ltac:(congruence)) as Hd.
    destruct (decide_check cf b1 _ _ _ _ _), (decide_check cf b2 _ _ _ _ _). cbn [snd] in *. by rewrite Hd.
  - intros start. cbv zeta. unfold enqueue_consult. cbn -[lineage_selectors consult with_lineage sanitize_details].
    match goal with |- context [lineage_selectors cf ?b0 w su ?x ?y] =>
      destruct (lineage_selectors_enforced cf b0 w su x y He) as (R1 & C1 & _ & _ & P1);
      destruct (lineage_selectors cf b0 w su x y) as [b1 [e1 a1]] end.
    match goal with |- context [lineage_selectors cf ?b0 w su ?x ?y] =>
      destruct (lineage_selectors_enforced cf b0 w su x y He) as (R2 & C2 & _ & _ & P2);
      destruct (lineage_selectors cf b0 w su x y) as [b2 [e2 a2]] end.
    cbn [fst snd] in *. pose proof P2 as P3. rewrite <- P1 in P3. injection P3 as -> ->.
    assert (Hc : consult b1 w su (with_lineage d app engine) a1 e1 false false = consult b2 w su d a1 e1 false false).
    { unfold consult. by rewrite rule_request_lineage, cache_query_lineage, R1, R2, C1, C2. }
    rewrite Hc. destruct (consult b2 w su d a1 e1 false false). cbn [fst snd]. split; [done|].
    unfold with_lineage. rewrite od_get_set_ne, !od_get_set_eq by done.
    destruct (V.sj_verified (lw_subject w)); by injection P2 as -> ->.
Qed.

Lemma claims_are_ignored_witness :
  let w := {| lw_clock := 5; lw_now := 100; lw_subject :=
      {| V.sj_uid := 3001; V.sj_exe := "/usr/bin/qsu"; V.sj_silo := "work";
         V.sj_sandbox_engine := "flatpak"; V.sj_app_id := "org.mail"; V.sj_selinux_label := "";
         V.sj_cgroup := ""; V.sj_verified := true; V.sj_record_id := "r1"; V.sj_reason := V.SR_ok |};
    lw_cache_subject := None; lw_lineage_ok := true; lw_audit_ok := true |} in
  (check_permission demo_config demo_start w demo_subject (with_lineage [] "org.bank" "none")).2
  = (check_permission demo_config demo_start w demo_subject []).2 ∧
  od_get (enqueue_consult demo_config demo_start w
    (request_permission demo_subject 7 (with_lineage [] "org.bank" "none"))).2.2 "app_id" = Some "org.mail".
Proof.
  cbv zeta. match goal with |- context [check_permission _ _ ?w _ _] => set (w0 := w) end. split.
  - apply (claims_are_ignored demo_config demo_start w0 demo_subject [] "org.bank" "none"). reflexivity.
  - apply (claims_are_ignored demo_config demo_start w0 demo_subject
      (with_lineage [] "org.bank" "none") "" ""). reflexivity.
Defined.

(** ** The admin's decision, branch by branch *)

(** A finished decision: the object, the cache and the answer *)
Lemma decide_finish_outcome cf b w tk q :
  reqs b !! tk_rid tk = Some q → q_finalizing q = true → q_decision q = Some (tk_allowed tk) →
  tk_rid tk ∈ pending b →
  let p := decide_finish cf b w tk in
  let failed := (negb (fw_audit_ok w) && cf_audit_required cf)%bool in
  let v := (negb failed && tk_allowed tk)%bool in
  let store := (tk_allowed tk && negb (f_one_shot (q_filing q)))%bool in
  (∃ q', reqs p.1 = <[tk_rid tk := q']> (reqs b) ∧ q_filing q' = q_filing q ∧ final q' v ∧ q_waiters q' = []) ∧
  (∀ x, x ∈ tk_waiters tk ++ q_waiters q → E_reply (tk_rid tk) x v ∈ sent p.1) ∧
  cache p.1 = (if negb failed && store && fw_cache_ok w
               then (C.store (cache b) (fw_now w) (ticket_grant (q_filing q) tk)).1 else cache b) ∧
  p.2 = (if failed then Err BE_audit_unavailable
         else Ok (if store && negb (fw_cache_ok w) then DA_applied_uncached else DA_applied)).
Proof.
  intros Hq Hz Hd Hp. cbv zeta. unfold decide_finish. rewrite Hq.
  match goal with |- context [audit_log b ?ok ?n ?e] =>
    assert (reqs (audit_log b ok n e) = reqs b ∧ cache (audit_log b ok n e) = cache b ∧
      pending (audit_log b ok n e) = pending b) as (R1 & C1 & P1) by (unfold audit_log; by destruct ok);
    generalize dependent (audit_log b ok n e) end.
  intros b1 R1 C1 P1. destruct (negb (fw_audit_ok w) && cf_audit_required cf)%bool; cbn [fst snd negb andb].
  - unfold update_req. rewrite R1, Hq, P1, bool_decide_true by done. cbn. split_and!; try done.
    + eexists. split; [done|]. by split_and!.
    + intros x Hx. apply elem_of_app. right. apply elem_of_app. left.
      by apply (list_elem_of_fmap_2 (λ w, E_reply _ w false)).
  - match goal with |- context [if ?c then respond_polkit ?b2 ?f else ?b2] =>
      assert (reqs b2 = reqs b) as R2 by (by repeat match goal with |- context [if ?c then _ else _] => destruct c end);
      assert (cache b2 = (if (tk_allowed tk && negb (f_one_shot f) && fw_cache_ok w)%bool
        then (C.store (cache b) (fw_now w) (ticket_grant f tk)).1 else cache b)) as C2
        by (rewrite <- C1; by repeat match goal with |- context [if ?c then _ else _] => destruct c end);
      assert (reqs (if c then respond_polkit b2 f else b2) = reqs b2 ∧
              cache (if c then respond_polkit b2 f else b2) = cache b2) as [R3 C3]
        by (unfold respond_polkit; by repeat case_match);
      generalize dependent (if c then respond_polkit b2 f else b2); generalize dependent b2 end.
    intros b2 R2 C2 b3 R3 C3. unfold update_req. rewrite R3, R2, Hq. cbn. split_and!; try done.
    + eexists. split; [done|]. by split_and!.
    + intros x Hx. apply elem_of_app. right. apply elem_of_app. left.
      by apply (list_elem_of_fmap_2 (λ w, E_reply _ w (tk_allowed tk))).
    + by rewrite C3, C2.
Qed.

(** The grant a decision stores *)
Definition decided_grant (f : filing) (allowed : bool) (scope : string) (admin : Z) : C.grant :=
  {| C.g_uid := f_uid f; C.g_action := f_action f; C.g_exe := f_exe f; C.g_scope := scope;
     C.g_decision := allowed; C.g_approver := admin; C.g_argv := default [] (argv_from_details (f_details f)) |}.

(** C6: [DecideRequest] on an undecided queued request, every branch: a scope the request may
    not have is refused and nothing changes; a recycled pid is denied; a failed required audit
    turns the decision into a denial; otherwise the decision is final as the admin made it and
    an allow that is not one-shot is remembered when the cache takes it. In each decided case
    every waiter hears the final verdict, no other request changes and no one is left waiting.
    A pid is only recycled when both start times are known: a request filed with start time 0,
    or whose process is gone, is decided as the admin says. *)
Theorem decide_request_spec cf b adm rid dn sc st ok w q :
  lookup_pending b rid = Some q → q_decision q = None → isin dn ["allow"; "deny"] = true →
  isin sc VALID_SCOPES = true →
  let f := q_filing q in
  let allowed := bool_decide (dn = "allow") in
  let failed := (negb (fw_audit_ok w) && cf_audit_required cf)%bool in
  let v := (negb (recycled f st) && negb failed && allowed)%bool in
  let store := (allowed && negb (f_one_shot f))%bool in
  let p := decide_request cf b (Some adm) rid dn sc st ok w in
  (f_start f = 0%Z ∨ st = 0%Z → recycled f st = false) ∧
  (scope_permitted f allowed sc = false → p = (b, Err BE_scope_not_permitted)) ∧
  (scope_permitted f allowed sc = true →
   (∃ q', reqs p.1 = <[rid := q']> (reqs b) ∧ q_filing q' = f ∧ final q' v ∧ q_waiters q' = []) ∧
   (∀ x, x ∈ q_waiters q → E_reply rid x v ∈ sent p.1) ∧
   cache p.1 = (if negb (recycled f st) && negb failed && store && fw_cache_ok w
                then (C.store (cache b) (fw_now w) (decided_grant f allowed sc adm)).1 else cache b) ∧
   p.2 = (if recycled f st then Err BE_caller_gone else if failed then Err BE_audit_unavailable
          else Ok (if store && negb (fw_cache_ok w) then DA_applied_uncached else DA_applied))).
Proof.
  intros Hl Hd Hdn Hsc. cbv zeta. pose proof (proj1 (lookup_pending_Some _ _ _) Hl) as [Hp Hq].
  split; [unfold recycled; by intros [->| ->]; rewrite ?andb_false_r|].
  unfold decide_request, decide_begin. rewrite Hdn, Hsc, Hl, Hd. cbn [negb].
  destruct (scope_permitted (q_filing q) (bool_decide (dn = "allow")) sc); [|done]. cbn [negb].
  split; [done|]. intros _. destruct (recycled (q_filing q) st); cbn [negb andb fst snd].
  - assert (Hb : ∀ e, reqs (audit_log b ok (fw_now w) e) = reqs b ∧ cache (audit_log b ok (fw_now w) e) = cache b)
      by (intros; unfold audit_log; by destruct ok).
    unfold update_req. rewrite Hq. split_and!.
    + exists (set_waiters [] (set_decision false false q)). split; [|by split_and!]. cbn. unfold audit_log. by destruct ok.
    + intros x Hx. cbn. apply elem_of_app. right. right. by apply (list_elem_of_fmap_2 (λ w, E_reply _ w false)).
    + cbn. unfold audit_log. by destruct ok.
    + done.
  - set (allowed := bool_decide (dn = "allow")).
    set (q' := set_waiters [] (set_decision allowed true q)).
    set (b1 := update_req b rid _).
    assert (Hb1 : reqs b1 = <[rid := q']> (reqs b) ∧ cache b1 = cache b ∧ pending b1 = pending b)
      by (subst b1; unfold update_req; by rewrite Hq).
    destruct Hb1 as (R1 & C1 & P1). clearbody b1.
    match goal with |- context [decide_finish cf b1 w ?t] => set (tk := t) end.
    destruct (decide_finish_outcome cf b1 w tk q') as ((q2 & Hr2 & Hf2 & Hv2 & Hw2) & Hsay & Hc & Ha);
      [by rewrite R1, lookup_insert_eq|done|done|by rewrite P1|].
    split_and!; [|intros x Hx; apply Hsay; by rewrite app_nil_r|by rewrite Hc, C1|exact Ha].
    exists q2. split_and!; try done. by rewrite Hr2, R1, insert_insert_eq.
Qed.

Lemma decide_request_spec_witness :
  let w := {| fw_now := 101; fw_audit_ok := true; fw_cache_ok := true |} in
  (∃ q, lookup_pending demo_filed 1 = Some q ∧ f_start (q_filing q) = 77%Z) ∧
  (decide_request demo_config demo_filed (Some 1000%Z) 1 "allow" "once" 78 true w).2 = Err BE_caller_gone ∧
  (decide_request demo_config demo_filed (Some 1000%Z) 1 "allow" "once" 0 true w).2 = Ok DA_applied.
Proof.
  cbv zeta. assert (Hq : ∃ q, lookup_pending demo_filed 1 = Some q ∧ q_decision q = None ∧
    f_start (q_filing q) = 77%Z ∧ f_delegated (q_filing q) = false ∧ f_one_shot (q_filing q) = false ∧
    f_pid (q_filing q) = 4242%Z).
  { eexists. split; [vm_compute; reflexivity|]. split_and!; reflexivity. }
  destruct Hq as (q & Hl & Hd & Hs & Hdel & Hos & Hpid).
  assert (Hsp : scope_permitted (q_filing q) true "once" = true).
  { unfold scope_permitted. rewrite Hdel, Hos. reflexivity. }
  split; [exists q; split; [exact Hl|exact Hs]|].
  split.
  - destruct (decide_request_spec demo_config demo_filed 1000 1 "allow" "once" 78 true
      {| fw_now := 101; fw_audit_ok := true; fw_cache_ok := true |} q Hl Hd eq_refl eq_refl) as (_ & _ & H).
    destruct (H Hsp) as (_ & _ & _ & Ha). rewrite Ha. unfold recycled. rewrite Hdel, Hs, Hpid. reflexivity.
  - destruct (decide_request_spec demo_config demo_filed 1000 1 "allow" "once" 0 true
      {| fw_now := 101; fw_audit_ok := true; fw_cache_ok := true |} q Hl Hd eq_refl eq_refl) as (Hr & _ & H).
    destruct (H Hsp) as (_ & _ & _ & Ha). rewrite Ha, Hr by (right; reflexivity). rewrite Hos. reflexivity.
Defined.

End Requests.
