(* ===== verification/Gates.v ===== *)
(** * The gates between silos

    [src/broker/qdistro_admin_broker.py]: the registration of launched processes, the
    identity check of the shell, and the synchronous gates on the clipboard, on window
    activation and on the browser's share-to. A gate resolves the process whose data moves
    against the launch records, asks the rules, and records an allowed paste in the lineage
    store.

    /proc is read again at each look a gate takes: [gw_live i] and [gw_now i] are what it
    says and the time at the [i]-th look, in the order of the code. A peer that passes the
    identity gate of a method is an argument. *)

From S2P Require Import Prelude Json RateLimit Guards LaunchRecord Resolver SiloSecurity Rules LineageStore Chokepoint AuditTrail Broker.
Import Json AuditTrail Broker.

Module Gates.
Module V := Resolve.
Module G := GuardRegistry.
Module R := AdminRules.
Module L := RateLimit.
Module K := Chokepoints.
Abbreviation Records := LaunchRecords.LaunchRecordStore.
Abbreviation Store := Lineage.LineageStore.
#[local] Existing Instance SiloSec.Toml_authority.

(** The broker with the two stores its gates use; the lineage store is [None] when it
    could not be opened, which [_get_lineage_store] remembers. *)
Record state := { broker : Broker; records : Records; lineage : option Store }.

Definition with_broker (g : state) x := {| broker := x; records := records g; lineage := lineage g |}.
Definition with_records (g : state) x := {| broker := broker g; records := x; lineage := lineage g |}.
Definition with_lineage_store (g : state) x := {| broker := broker g; records := records g; lineage := x |}.

(** The authenticated caller of a method *)
Record peer := { pe_uid : Z; pe_pid : Z; pe_exe : string }.

(** What the world answers one call *)
Record gate_world := {
  gw_live : nat → Z → V.live_proc;
  gw_now : nat → Z;
  gw_silos : nat → SiloSec.TomlAuthority;   (* the registry file, for the source and the destination *)
  gw_clock : Z;                             (* the rate limiter's clock *)
  gw_audit_ok : bool;
  gw_time : Z;                              (* the time of the audit row *)
  gw_hash : string → string;                (* the digest of the lineage chain *)
  gw_entity_now : Z;                        (* the times and the identifiers of the lineage rows *)
  gw_ts : Z;
  gw_clk : nat → Z;
  gw_aid : string;
  gw_eid : string;
}.

(** The row of a decided call *)
Definition gate_entry (p : peer) (action : string) (decision : bool) (src : audit_source)
    (rule_path : option string) : entry :=
  {| en_uid := pe_uid p; en_pid := pe_pid p; en_exe := pe_exe p; en_action := action;
     en_decision := decision; en_scope := None; en_source := src; en_approver := None;
     en_rule_path := rule_path; en_request_id := None; en_argv := None; en_selinux := None;
     en_context := None |}.

(** [self.audit.log(...)] of a decided call; a failed write is only printed. *)
Definition gate_log (g : state) (w : gate_world) (p : peer) (action : string) (decision : bool)
    (src : audit_source) (rule_path : option string) : state :=
  with_broker g (audit_log (broker g) (gw_audit_ok w) (gw_time w)
    (gate_entry p action decision src rule_path)).

(** [_resolve_subject] at the [i]-th look *)
Definition resolve_source (g : state) (w : gate_world) (i : nat) (pid : Z) : state * V.Subject :=
  let '(sj, st) := V.resolve_subject (gw_live w i) (gw_now w i) (Some pid) (Some (records g)) in
  (match st with Some r => with_records g r | None => g end, sj).

(** [sstart and (not live_start or int(live_start) != sstart)] *)
Definition drifted (live relayed : Z) : bool :=
  negb (relayed =? 0)%Z && ((live =? 0)%Z || negb (live =? relayed)%Z).

(** ** The attested source *)

(** What the shell claims of the source process *)
Record claim := { cl_silo : string; cl_app : string; cl_engine : string; cl_pid : Z; cl_start : Z }.

(** [_audit_cross_silo_deny] *)
Definition audit_cross_silo_deny (g : state) (w : gate_world) (p : peer) (gate : string)
    (same_silo : bool) (fault : source_fault) (claimed_src : string) : state :=
  gate_log g w p ("qdistro.lineage.source_deny:" +:+ gate +:+ ":" +:+ claimed_src) false
    (AS_unattested same_silo fault) None.

(** [_cross_silo_source]: silo, app id, engine and whether the gate must deny *)
Definition cross_silo_source (cf : config) (g : state) (w : gate_world) (p : peer) (gate : string)
    (c : claim) : state * (string * string * string * bool) :=
  if negb (cf_lineage_enforce cf) then
    ((if (0 <? cl_pid c)%Z then (resolve_source g w 0 (cl_pid c)).1 else g),
     (cl_silo c, cl_app c, cl_engine c, false))
  else
    let refuse g fault := (audit_cross_silo_deny g w p gate false fault (cl_silo c),
                           (cl_silo c, "", "", true)) in
    if (cl_pid c <=? 0)%Z then refuse g SF_no_pid
    else
      let live := V.lv_starttime (gw_live w 0 (cl_pid c)) in
      if drifted live (cl_start c) then refuse g (SF_drift live (cl_start c))
      else
        let '(g, sj) := resolve_source g w 1 (cl_pid c) in
        if negb (V.sj_verified sj) then refuse g (SF_unverified (V.sj_reason sj))
        else (g, (V.sj_silo sj, V.sj_app_id sj, V.sj_sandbox_engine sj, false)).

(** [_same_silo_source_verified]: the note of a verified shortcut *)
Definition same_silo_source_verified (cf : config) (g : state) (w : gate_world) (p : peer)
    (gate : string) (c : claim) : state * option lineage_note :=
  if negb (cf_lineage_enforce cf) then (g, Some LN_shadow)
  else
    let refuse g fault := (audit_cross_silo_deny g w p gate true fault (cl_silo c), None) in
    if (cl_pid c <=? 0)%Z then refuse g SF_no_pid
    else
      let live := V.lv_starttime (gw_live w 0 (cl_pid c)) in
      if drifted live (cl_start c) then refuse g (SF_drift live (cl_start c))
      else
        let '(g, sj) := resolve_source g w 1 (cl_pid c) in
        if negb (V.sj_verified sj) then refuse g (SF_unverified (V.sj_reason sj))
        else if negb (bool_decide (V.sj_silo sj = cl_silo c)) then
          refuse g (SF_silo (cl_silo c) (V.sj_silo sj))
        else if truthy (cl_app c) && negb (bool_decide (V.sj_app_id sj = cl_app c)) then
          refuse g (SF_app (cl_app c) (V.sj_app_id sj))
        else if truthy (cl_engine c) && negb (bool_decide (V.sj_sandbox_engine sj = cl_engine c)) then
          refuse g (SF_engine (cl_engine c) (V.sj_sandbox_engine sj))
        else (g, Some LN_attested).

(** ** The lineage of a paste *)

(** A character the clipboard token keeps *)
Definition token_char (c : ascii) : bool :=
  word_char c || bool_decide (c ∈ ["."; ":"; "-"]%char).
(** [re.sub(r"[^A-Za-z0-9_.:-]+", "_", s)]; [run]: the last character was replaced. *)
Fixpoint token (run : bool) (s : string) : string :=
  match s with
  | "" => ""
  | String c s' => if token_char c then String c (token false s')
                   else if run then token true s' else String "_" (token true s')
  end.

Definition or_none (s : string) : string := if truthy s then s else "none".
Definition clipboard_eid (src : string) (pid start : Z) (mime : string) : string :=
  "clipboard-source:" +:+ token false (src +:+ ":" +:+ pretty pid +:+ ":" +:+ pretty start +:+ ":" +:+ or_none mime).

(** The offered payload *)
Definition clipboard_entity (src : string) (pid start : Z) (mime : string) (e : G.FlowEndpoint)
    : Lineage.Entity :=
  {| Lineage.eid := clipboard_eid src pid start mime; Lineage.e_kind := "payload";
     Lineage.e_digest := None;
     Lineage.e_locator := Some ("clipboard://" +:+ src +:+ "/" +:+ or_none mime);
     Lineage.e_guards := G.guards e; Lineage.e_compartments := G.compartments e;
     Lineage.e_conflict_classes := G.conflict_classes e; Lineage.e_integrity := None;
     Lineage.e_status := "active"; Lineage.e_facets := JObj []; Lineage.e_created_at := 0 |}.

(** The flow of the paste *)
Definition clipboard_flow (src dst : string) (pid start : Z) (mime : string) (es ed : G.FlowEndpoint)
    : K.chokepoint_args :=
  {| K.ca_chokepoint := "clipboard";
     K.ca_inputs := [{| K.in_eid := clipboard_eid src pid start mime; K.endpoint := es |}];
     K.ca_destination := Some ed;
     K.ca_processing := Some (K.report_processing_host "local" "none" false false);
     K.ca_output_eid := None; K.ca_output_kind := "payload"; K.ca_output_digest := None;
     K.ca_output_locator := Some ("clipboard-paste://" +:+ dst +:+ "/" +:+ or_none mime);
     K.ca_agent_gid := Some ("silo:" +:+ dst);
     K.ca_action_version := Some "clipboard-receive/v1"; K.ca_mapping := None |}.

(** The outcome of recording a paste: an exception, a refusal or a record *)
Inductive receive_outcome :=
| RO_raised
| RO_refused (n : lineage_note)
| RO_recorded (n : lineage_note).

(** The rows of a resolved paste *)
Definition record_paste (g : state) (w : gate_world) (pid start : Z) (src dst mime : string)
    (es ed : G.FlowEndpoint) : state * receive_outcome :=
  match lineage g with
  | None => (g, RO_raised)
  | Some s =>
      match Lineage.record_entity (gw_hash w) s (gw_entity_now w) (clipboard_entity src pid start mime es) with
      | Err _ => (g, RO_raised)
      | Ok (s, _) =>
          let g := with_lineage_store g (Some s) in
          match K.record_chokepoint (gw_hash w) (gw_clk w) s (gw_ts w) (gw_aid w) (gw_eid w)
                  (clipboard_flow src dst pid start mime es ed) with
          | Err _ => (g, RO_raised)
          | Ok (s, res) =>
              (with_lineage_store g (Some s),
               if K.denied res then RO_refused (LN_guard_denied (K.cr_reasons res))
               else RO_recorded (LN_recorded (K.cr_output res)))
          end
      end
  end.

(** [_clipboard_receive_lineage] *)
Definition clipboard_receive_lineage (cf : config) (g : state) (w : gate_world) (pid start : Z)
    (src dst mime : string) : state * receive_outcome :=
  if negb (cf_lineage_enforce cf) then (g, RO_recorded LN_shadow)
  else if (pid <=? 0)%Z then (g, RO_refused LN_no_pid)
  else
    let live := V.lv_starttime (gw_live w 2 pid) in
    if drifted live start then (g, RO_refused (LN_drift live start))
    else
      let snap := SiloSec.resolve_subject_silo_security (gw_live w 3) (gw_now w 3) (Some pid)
                    (Some (records g)) (gw_silos w 0) in
      let g := (resolve_source g w 3 pid).1 in
      match SiloSec.require_resolved snap with
      | Err e => (g, RO_refused (LN_unresolved e))
      | Ok es =>
          if negb (bool_decide (SiloSec.sn_silo snap = src)) then
            (g, RO_refused (LN_silo_mismatch (SiloSec.sn_silo snap) src))
          else
            match SiloSec.require_resolved (SiloSec.snapshot_for_silo (gw_silos w 1) dst) with
            | Err e => (g, RO_refused (LN_unresolved e))
            | Ok ed => record_paste g w pid start src dst mime es ed
            end
      end.

(** ** The gates *)

Definition or_unknown (s : string) : string := if truthy s then s else "(unknown)".
(** [str.strip()] *)
Definition py_strip (s : string) : string := Lineage.rstrip (Lineage.lstrip s).
Definition provenance (cf : config) : string :=
  if cf_launcher_gated cf then "launcher_gated" else "advisory".

(** The arguments the three gates share *)
Record gate_args := {
  ga_source : string;
  ga_dest : string;
  ga_app : string;
  ga_dest_app : string;
  ga_engine : string;
  ga_verified : bool;
  ga_pid : Z;
  ga_start : Z;
}.

(** The claim of a call, cleaned and cut *)
Definition gate_claim (a : gate_args) : claim :=
  {| cl_silo := py_strip (ga_source a); cl_app := str_take 128 (ga_app a);
     cl_engine := str_take 128 (ga_engine a); cl_pid := ga_pid a; cl_start := ga_start a |}.
Definition gate_dest (a : gate_args) : string := py_strip (ga_dest a).

(** The head of the three gates: the caller, the lengths and the rate *)
Definition gate_enter (g : state) (w : gate_world) (shell : option peer) (prefix : string) (a : gate_args)
    : state * result broker_error peer :=
  match shell with
  | None => (g, Err BE_access_denied)
  | Some p =>
      let src := py_strip (ga_source a) in
      let dst := py_strip (ga_dest a) in
      if (80 <? String.length src) || (80 <? String.length dst) then (g, Err BE_bad_argument)
      else
        let '(rl, ok) := L.check (ratelimit (broker g)) (gw_clock w) (pe_uid p)
                           (prefix +:+ src +:+ ":" +:+ dst) in
        let g := with_broker g (with_ratelimit (broker g) rl) in
        (g, if ok then Ok p else Err BE_rate_limited)
  end.

(** [src == dst and src and bool(identity_verified)] *)
Definition same_silo (a : gate_args) : bool :=
  let src := py_strip (ga_source a) in
  bool_decide (src = py_strip (ga_dest a)) && truthy src && ga_verified a.

Definition gate_request (p : peer) (action app engine mime : string) : R.request :=
  {| R.rq_uid := pe_uid p; R.rq_action := action; R.rq_exe := pe_exe p; R.rq_app_id := app;
     R.rq_sandbox_engine := engine; R.rq_mime_type := mime; R.rq_argv := None |}.

(** The rule's decision, its file and the label of the row; no rule is a deny. *)
Definition rule_verdict (g : state) (q : R.request) (by_rule by_default : string)
    : bool * option string * string :=
  match R.match_ (rules (broker g)) q None with
  | Some rule => (bool_decide (R.rl_decision rule = "allow"), Some (R.rl_source_path rule), by_rule)
  | None => (false, None, by_default)
  end.

(** The mime types of a transfer, as the row carries them *)
Definition joined_mimes (l : list string) : string :=
  String.concat "," (sorted_set (list_to_set (filter (λ m, truthy m = true) (str_take 128 <$> take 32 l)))).

(** [CheckClipboardTransfer]: whether the answer is "allow". The row names the app and the
    engine of the call, the decision is made on those of the source. *)
Definition check_clipboard_transfer (cf : config) (g : state) (w : gate_world) (shell : option peer)
    (a : gate_args) (mimes : list string) : state * result broker_error bool :=
  let act := "qdistro.clipboard.transfer:" in
  match gate_enter g w shell act a with
  | (g, Err e) => (g, Err e)
  | (g, Ok p) =>
      let c := gate_claim a in
      let dst := gate_dest a in
      let row label notes := AS_gate label notes (provenance cf) (Some (joined_mimes mimes))
        (or_unknown (cl_app c)) (or_unknown (str_take 128 (ga_dest_app a))) (or_unknown (cl_engine c)) in
      if same_silo a then
        match same_silo_source_verified cf g w p "clipboard.transfer" c with
        | (g, None) => (g, Ok false)
        | (g, Some why) =>
            (gate_log g w p (act +:+ cl_silo c +:+ ":" +:+ dst) true
               (row "clipboard_same_silo_verified" [why]) None, Ok true)
        end
      else
        let '(g, (src, app, engine, hard)) := cross_silo_source cf g w p "clipboard.transfer" c in
        if hard : bool then (g, Ok false)
        else
          let action := act +:+ src +:+ ":" +:+ dst in
          let '(allow, path, label) := rule_verdict g (gate_request p action app engine "")
            "clipboard_rule" "clipboard_default_deny" in
          (gate_log g w p action allow (row label []) path, Ok allow)
  end.

(** [CheckClipboardReceive] *)
Definition check_clipboard_receive (cf : config) (g : state) (w : gate_world) (shell : option peer)
    (a : gate_args) (mime : string) : state * result broker_error bool :=
  let act := "qdistro.clipboard.receive:" in
  match gate_enter g w shell act a with
  | (g, Err e) => (g, Err e)
  | (g, Ok p) =>
      let c := gate_claim a in
      let dst := gate_dest a in
      let mime := str_take 128 mime in
      let row label notes := AS_gate label notes (provenance cf)
        (Some (if truthy mime then mime else "(none)"))
        (or_unknown (cl_app c)) (or_unknown (str_take 128 (ga_dest_app a))) (or_unknown (cl_engine c)) in
      if same_silo a then
        let action := act +:+ cl_silo c +:+ ":" +:+ dst in
        match same_silo_source_verified cf g w p "clipboard.receive" c with
        | (g, None) => (g, Ok false)
        | (g, Some why) =>
            let '(g, out) := clipboard_receive_lineage cf g w (cl_pid c) (cl_start c) (cl_silo c) dst mime in
            match out with
            | RO_raised => (g, Err BE_lineage_unavailable)
            | RO_refused n =>
                (gate_log g w p action false (row "clipboard_receive_lineage_deny" [n]) None, Ok false)
            | RO_recorded n =>
                (gate_log g w p action true (row "clipboard_receive_same_silo_verified" [why; n]) None, Ok true)
            end
        end
      else
        let '(g, (src, app, engine, hard)) := cross_silo_source cf g w p "clipboard.receive" c in
        if hard : bool then (g, Ok false)
        else
          let action := act +:+ src +:+ ":" +:+ dst in
          let '(allow, path, label) := rule_verdict g (gate_request p action app engine mime)
            "clipboard_receive_rule" "clipboard_receive_default_deny" in
          if negb allow then (gate_log g w p action false (row label [LN_not_attempted]) path, Ok false)
          else
            let '(g, out) := clipboard_receive_lineage cf g w (cl_pid c) (cl_start c) src dst mime in
            match out with
            | RO_raised => (g, Err BE_lineage_unavailable)
            | RO_refused n =>
                (gate_log g w p action false (row "clipboard_receive_lineage_deny" [n]) path, Ok false)
            | RO_recorded n => (gate_log g w p action true (row label [n]) path, Ok true)
            end
  end.

(** [CheckHandoffActivation]: the row names the app and the engine decided on. *)
Definition check_handoff_activation (cf : config) (g : state) (w : gate_world) (shell : option peer)
    (a : gate_args) : state * result broker_error bool :=
  let act := "qdistro.handoff.activate:" in
  match gate_enter g w shell act a with
  | (g, Err e) => (g, Err e)
  | (g, Ok p) =>
      let c := gate_claim a in
      let dst := gate_dest a in
      let row label notes app engine := AS_gate label notes (provenance cf) None
        (or_unknown app) (or_unknown (str_take 128 (ga_dest_app a))) (or_unknown engine) in
      if same_silo a then
        match same_silo_source_verified cf g w p "handoff.activate" c with
        | (g, None) => (g, Ok false)
        | (g, Some why) =>
            (gate_log g w p (act +:+ cl_silo c +:+ ":" +:+ dst) true
               (row "handoff_same_silo_verified" [why] (cl_app c) (cl_engine c)) None, Ok true)
        end
      else
        let '(g, (src, app, engine, hard)) := cross_silo_source cf g w p "handoff.activate" c in
        if hard : bool then (g, Ok false)
        else
          let action := act +:+ src +:+ ":" +:+ dst in
          let '(allow, path, label) := rule_verdict g (gate_request p action app engine "")
            "handoff_rule" "handoff_default_deny" in
          (gate_log g w p action allow (row label [] app engine) path, Ok allow)
  end.

(** ** Registering a launch *)

(** [RegisterLaunch]: [root] is the trusted root launcher, [rid] the record id that is
    drawn; the answer is the record id. *)
Definition register_launch (g : state) (w : gate_world) (root : option peer) (rid : string)
    (silo engine app instance exe : string) (pid : Z) (namespace : string) (start : Z)
    : state * result broker_error string :=
  match root with
  | None => (g, Err BE_access_denied)
  | Some p =>
      if (pid <=? 0)%Z then (g, Err BE_bad_argument)
      else
        let live_exe := V.lv_exe (gw_live w 0 pid) in
        let live_start := V.lv_starttime (gw_live w 0 pid) in
        if (live_start =? 0)%Z then (g, Err BE_caller_gone)
        else if negb (start =? 0)%Z && negb (live_start =? start)%Z then (g, Err BE_identity_mismatch)
        else if negb (truthy live_exe) || bool_decide (live_exe = "?") then (g, Err BE_identity_mismatch)
        else if truthy exe && negb (bool_decide (exe = "?")) && negb (bool_decide (live_exe = exe))
        then (g, Err BE_identity_mismatch)
        else match V.lv_uid (gw_live w 1 pid) with
        | None => (g, Err BE_caller_gone)
        | Some live_uid =>
            let live_label := V.lv_label (gw_live w 2 pid) in
            let '(recs, rec) := LaunchRecords.register (records g) (gw_now w 0) rid
              {| LaunchRecords.rq_silo := str_take 80 silo; LaunchRecords.rq_uid := live_uid;
                 LaunchRecords.rq_pid := pid; LaunchRecords.rq_starttime := live_start;
                 LaunchRecords.rq_exe := str_take 4096 live_exe;
                 LaunchRecords.rq_selinux_label := str_take 512 live_label;
                 LaunchRecords.rq_cgroup := str_take 4096 (V.lv_cgroup (gw_live w 3 pid));
                 LaunchRecords.rq_sandbox_engine := str_take 128 engine;
                 LaunchRecords.rq_app_id := str_take 128 app;
                 LaunchRecords.rq_instance_id := str_take 128 instance;
                 LaunchRecords.rq_namespace := str_take 128 namespace;
                 LaunchRecords.rq_ttl_s := None |} in
            (gate_log (with_records g recs) w p
               ("qdistro.lineage.register:" +:+ LaunchRecords.silo rec) true
               (AS_launch (LaunchRecords.record_id rec) pid live_start live_uid
                  (LaunchRecords.sandbox_engine rec) (LaunchRecords.app_id rec) live_label) None,
             Ok (LaunchRecords.record_id rec))
        end
  end.

(** ** Verifying a client *)

(** What is wrong with a claimed process *)
Definition identity_faults (w : gate_world) (pid start uid : Z) (exe label : string)
    : list identity_fault :=
  let lv := gw_live w 0 pid in
  if (V.lv_starttime lv =? 0)%Z then [IF_proc_gone]
  else
    (if (V.lv_starttime lv =? start)%Z then [] else [IF_starttime (V.lv_starttime lv) start]) ++
    (if truthy exe && negb (bool_decide (exe = "?")) && truthy (V.lv_exe lv)
        && negb (bool_decide (V.lv_exe lv = "?")) && negb (bool_decide (V.lv_exe lv = exe))
     then [IF_exe (V.lv_exe lv) exe] else []) ++
    (match V.lv_uid (gw_live w 1 pid) with
     | Some u => if (u =? uid)%Z then [] else [IF_uid u uid]
     | None => [] end) ++
    (let live := V.lv_label (gw_live w 2 pid) in
     if truthy label && truthy live && negb (bool_decide (live = label)) then [IF_label live label] else []).

(** [VerifyClientIdentity] *)
Definition verify_client_identity (g : state) (w : gate_world) (shell : option peer)
    (pid start uid : Z) (exe label engine app instance : string) : state * result broker_error bool :=
  match shell with
  | None => (g, Err BE_access_denied)
  | Some p =>
      let exe := str_take 4096 exe in
      let label := str_take 512 label in
      let faults := identity_faults w pid start uid exe label in
      let ok := match faults with [] => true | _ => false end in
      (gate_log g w p
         ("qdistro.identity.verify:" +:+ str_take 128 engine +:+ ":" +:+ str_take 128 app +:+ ":"
          +:+ str_take 128 instance) ok
         (AS_identity pid start uid exe label faults) None, Ok ok)
  end.

(** ** Share-to *)

(** [repr] of a text: the quote, the escapes, and hexadecimal for what does not print *)
Definition hex_digit (n : N) : ascii := ascii_of_N (if (n <? 10)%N then 48 + n else 87 + n).
Definition repr_char (q c : ascii) : string :=
  let n := ord c in
  if bool_decide (c = q) || bool_decide (c = "\"%char) then String "\" (String c "")
  else if (n =? 9)%N then "\t" else if (n =? 10)%N then "\n" else if (n =? 13)%N then "\r"
  else if shown_char c then String c ""
  else "\x" +:+ String (hex_digit (n / 16)) (String (hex_digit (n mod 16)) "").
Fixpoint repr_chars (q : ascii) (s : string) : string :=
  match s with "" => "" | String c s' => repr_char q c +:+ repr_chars q s' end.
Definition repr_str (s : string) : string :=
  let q := if has_char "'" s && negb (has_char quote s) then quote else "'"%char in
  String q (repr_chars q s +:+ String q "").

Section share.
(** The shortest text of a float, from its literal, and the password database *)
Context (float_repr : string → string) (getpwuid : Z → option string).

(** [repr] of a decoded value *)
Fixpoint py_repr (v : json) : string :=
  match v with
  | JNull => "None"
  | JBool b => if b then "True" else "False"
  | JInt z => pretty z
  | JFloat x => float_repr x
  | JStr s => repr_str s
  | JArr l => "[" +:+ String.concat ", " (py_repr <$> l) +:+ "]"
  | JObj d => "{" +:+ String.concat ", " ((λ p, repr_str p.1 +:+ ": " +:+ py_repr p.2) <$> d) +:+ "}"
  end.
(** [str] *)
Definition py_str (v : json) : string := match v with JStr s => s | _ => py_repr v end.

(** [str(req.get(key) or fallback)] *)
Definition field_text (req : list (string * json)) (key fallback : string) : string :=
  match od_get req key with
  | Some v => if Lineage.json_truthy v then py_str v else fallback
  | None => fallback
  end.

(** [str.isdigit()]: the decimal digits and the superscripts one, two and three *)
Definition isdigit_char (c : ascii) : bool := is_digit c || bool_decide (ord c ∈ [178; 179; 185]%N).
Definition isdigit (s : string) : bool := truthy s && forall_char isdigit_char s.

(** [_username_for_uid] *)
Definition username_for_uid (uid : Z) : string := default ("uid:" +:+ pretty uid) (getpwuid uid).

(** The replies of [PageExtract], and what escapes it: the rate limit, the [ValueError] of
    [int], and a body with code points the modelled texts do not have *)
Inductive share_answer := SA_ok | SA_refused (error : string).
Inductive share_exn := SX_rate_limited | SX_value_error | SX_wide.

(** The normalized destination *)
Definition share_dest (dst : string) : result share_exn string :=
  if isdigit dst then
    match Lineage.py_int dst with Some n => Ok (username_for_uid n) | None => Err SX_value_error end
  else Ok dst.

(** The head of [PageExtract]: the body and its destination, or the refusal *)
Definition share_body (body : string) : result share_exn (share_answer + list (string * json) * string) :=
  match loads body with
  | Err JE_wide => Err SX_wide
  | Err _ => Ok (inl (SA_refused "malformed_body"))
  | Ok (JObj req) =>
      if negb match od_get req "url" with Some (JStr s) => truthy s | _ => false end then
        Ok (inl (SA_refused "missing_url"))
      else
        let dst := py_strip (field_text req "dest_uid" "") in
        if negb (truthy dst) then Ok (inl (SA_refused "missing_dest"))
        else if 80 <? String.length dst then Ok (inl (SA_refused "bad_dest"))
        else let* dst := share_dest dst in Ok (inr (req, dst))
  | Ok _ => Ok (inl (SA_refused "malformed_body"))
  end.

(** [PageExtract], for the authenticated caller *)
Definition page_extract (g : state) (w : gate_world) (p : peer) (body : string)
    : state * result share_exn share_answer :=
  match share_body body with
  | Err e => (g, Err e)
  | Ok (inl a) => (g, Ok a)
  | Ok (inr (req, dst)) =>
      let ctype := str_take 64 (field_text req "content_type" "url") in
      let src := username_for_uid (pe_uid p) in
      let action := "qdistro.share_to:" +:+ src +:+ ":" +:+ dst in
      let '(rl, ok) := L.check (ratelimit (broker g)) (gw_clock w) (pe_uid p) action in
      let g := with_broker g (with_ratelimit (broker g) rl) in
      if negb ok then (g, Err SX_rate_limited)
      else
        let row label := AS_share label ctype dst
          (or_unknown (str_take 128 (field_text req "extension_id" "")))
          (or_unknown (str_take 256 (field_text req "parent_exe" ""))) in
        if bool_decide (src = dst) then
          (gate_log g w p action true (row "share_to_same_user") None, Ok SA_ok)
        else
          let '(allow, path, label) := rule_verdict g (gate_request p action "" "" ctype)
            "share_to_rule" "share_to_default_deny" in
          (gate_log g w p action allow (row label) path,
           Ok (if allow then SA_ok else SA_refused "policy_denied"))
  end.
End share.

End Gates.
