(* ===== verification/GateProofs.v ===== *)
(** * What the gates let through

    Every answered call of a gate takes one of the paths of [gate_path]; the theorems read
    the properties of a call off its path. *)

From S2P Require Import Prelude Json RateLimit Guards LaunchRecord Resolver SiloSecurity Rules LineageStore Chokepoint AuditTrail Broker BrokerDecisions Gates.
Import Json AuditTrail Broker Gates.

Module GateProofs.
Module LR := LaunchRecords.
#[local] Existing Instances SiloSec.Toml_authority SiloSec.Toml_laws.

(** ** One call *)

Inductive gate_call :=
| GC_transfer (a : gate_args) (mimes : list string)
| GC_receive (a : gate_args) (mime : string)
| GC_handoff (a : gate_args).

Definition run_gate (cf : config) (g : state) (w : gate_world) (shell : option peer) (c : gate_call)
    : state * result broker_error bool :=
  match c with
  | GC_transfer a mimes => check_clipboard_transfer cf g w shell a mimes
  | GC_receive a mime => check_clipboard_receive cf g w shell a mime
  | GC_handoff a => check_handoff_activation cf g w shell a
  end.

Definition call_args (c : gate_call) : gate_args :=
  match c with GC_transfer a _ | GC_receive a _ | GC_handoff a => a end.
Definition call_name (c : gate_call) : string :=
  match c with
  | GC_transfer _ _ => "clipboard.transfer" | GC_receive _ _ => "clipboard.receive"
  | GC_handoff _ => "handoff.activate" end.
(** The synthetic action the rules see *)
Definition call_action (c : gate_call) (src : string) : string :=
  "qdistro." +:+ call_name c +:+ ":" +:+ src +:+ ":" +:+ gate_dest (call_args c).
(** and the mime type *)
Definition call_mime (c : gate_call) : string :=
  match c with GC_receive _ mime => str_take 128 mime | _ => "" end.

(** The lineage step of an allowed call: [None] when it raises *)
Definition call_lineage (cf : config) (g : state) (w : gate_world) (c : gate_call) (src : string)
    : state * option bool :=
  match c with
  | GC_receive a mime =>
      let '(g, out) := clipboard_receive_lineage cf g w (cl_pid (gate_claim a)) (cl_start (gate_claim a)) src
                         (gate_dest a) (str_take 128 mime) in
      (g, match out with RO_raised => None | RO_refused _ => Some false | RO_recorded _ => Some true end)
  | _ => (g, Some true)
  end.

(** The app and engine an audit row of the call names *)
Definition row_names (app engine : string) (src : audit_source) : Prop :=
  ∃ label notes prov mime dst, src = AS_gate label notes prov mime (or_unknown app) dst (or_unknown engine).

(** The rule that decides and its verdict *)
Definition call_rule (g : state) (p : peer) (c : gate_call) (src app engine : string) : option R.Rule :=
  R.match_ (rules (broker g)) (gate_request p (call_action c src) app engine (call_mime c)) None.
Definition allows (r : option R.Rule) : bool :=
  match r with Some rule => bool_decide (R.rl_decision rule = "allow") | None => false end.

(** The clipboard rows name what was claimed, the activation row what was decided on. *)
Definition cross_row (c : gate_call) (app engine : string) : audit_source → Prop :=
  match c with
  | GC_handoff _ => row_names app engine
  | _ => row_names (cl_app (gate_claim (call_args c))) (cl_engine (gate_claim (call_args c)))
  end.

(** The paths of a call past its head, with what it leaves and answers *)
Section path.
Context (cf : config) (w : gate_world) (p : peer) (c : gate_call) (g1 : state).
Abbreviation a := (call_args c).
Abbreviation cl := (gate_claim a).

(** The lineage step of a cross-silo call: only an allowed one takes it. *)
Definition cross_step (g : state) (s x e : string) : state * option bool :=
  if allows (call_rule g p c s x e) then call_lineage cf g w c s else (g, Some false).

Inductive gate_path : state → result broker_error bool → Prop :=
| P_same_refused g2 :
    same_silo a = true → same_silo_source_verified cf g1 w p (call_name c) cl = (g2, None) →
    gate_path g2 (Ok false)
| P_same_raised g2 g3 why :
    same_silo a = true → same_silo_source_verified cf g1 w p (call_name c) cl = (g2, Some why) →
    call_lineage cf g2 w c (cl_silo cl) = (g3, None) → gate_path g3 (Err BE_lineage_unavailable)
| P_same g2 g3 why ok src :
    same_silo a = true → same_silo_source_verified cf g1 w p (call_name c) cl = (g2, Some why) →
    call_lineage cf g2 w c (cl_silo cl) = (g3, Some ok) → row_names (cl_app cl) (cl_engine cl) src →
    gate_path (gate_log g3 w p (call_action c (cl_silo cl)) ok src None) (Ok ok)
| P_cross_refused g2 s x e :
    same_silo a = false → cross_silo_source cf g1 w p (call_name c) cl = (g2, (s, x, e, true)) →
    gate_path g2 (Ok false)
| P_cross_raised g2 g3 s x e :
    same_silo a = false → cross_silo_source cf g1 w p (call_name c) cl = (g2, (s, x, e, false)) →
    cross_step g2 s x e = (g3, None) → gate_path g3 (Err BE_lineage_unavailable)
| P_cross g2 g3 s x e ok src :
    same_silo a = false → cross_silo_source cf g1 w p (call_name c) cl = (g2, (s, x, e, false)) →
    cross_step g2 s x e = (g3, Some ok) → cross_row c x e src →
    gate_path (gate_log g3 w p (call_action c s) ok src (R.rl_source_path <$> call_rule g2 p c s x e)) (Ok ok).
End path.

Lemma rule_verdict_spec g q l1 l2 :
  rule_verdict g q l1 l2 =
  (allows (R.match_ (rules (broker g)) q None), R.rl_source_path <$> R.match_ (rules (broker g)) q None,
   match R.match_ (rules (broker g)) q None with Some _ => l1 | None => l2 end).
Proof. unfold rule_verdict. by destruct (R.match_ _ _ _). Qed.

Lemma row_names_gate label notes prov mime app dst engine :
  row_names app engine (AS_gate label notes prov mime (or_unknown app) dst (or_unknown engine)).
Proof. by repeat eexists. Qed.
#[local] Hint Resolve row_names_gate : core.

Lemma trivial_step (b : bool) (g : state) :
  (if b then (g, Some true) else (g, Some false)) = (g, Some b).
Proof. by destruct b. Qed.

Definition call_head (g : state) (w : gate_world) (shell : option peer) (c : gate_call) :=
  gate_enter g w shell ("qdistro." +:+ call_name c +:+ ":") (call_args c).

(** A call that is refused at its head is refused so. *)
Lemma run_gate_head cf g w shell c g1 e :
  call_head g w shell c = (g1, Err e) → run_gate cf g w shell c = (g1, Err e).
Proof.
  unfold call_head. destruct c; cbn [call_args]; intros He;
    [change (gate_enter g w shell "qdistro.clipboard.transfer:" a = (g1, Err e)) in He
    |change (gate_enter g w shell "qdistro.clipboard.receive:" a = (g1, Err e)) in He
    |change (gate_enter g w shell "qdistro.handoff.activate:" a = (g1, Err e)) in He];
    cbn [run_gate]; [unfold check_clipboard_transfer|unfold check_clipboard_receive
    |unfold check_handoff_activation]; by rewrite He.
Qed.

(** Every other call takes a path. *)
Lemma run_gate_path cf g w shell c g1 p g' r :
  call_head g w shell c = (g1, Ok p) → run_gate cf g w shell c = (g', r) → gate_path cf w p c g1 g' r.
Proof.
  unfold call_head. intros Hh.
  assert (∃ a, call_args c = a) as [a Ha] by eauto. revert Ha.
  destruct c as [? mimes|? mime|?]; intros Ha; cbn [call_args] in Ha, Hh; subst; cbn [run_gate];
    [unfold check_clipboard_transfer; change (gate_enter g w shell "qdistro.clipboard.transfer:" a = (g1, Ok p)) in Hh
    |unfold check_clipboard_receive; change (gate_enter g w shell "qdistro.clipboard.receive:" a = (g1, Ok p)) in Hh
    |unfold check_handoff_activation; change (gate_enter g w shell "qdistro.handoff.activate:" a = (g1, Ok p)) in Hh];
    rewrite Hh; intros Hr;
    destruct (same_silo a) eqn:Hs;
    first [destruct (same_silo_source_verified _ _ _ _ _ _) as [g2 [why|]] eqn:Hv; simplify_eq; [|by eapply P_same_refused]
          |destruct (cross_silo_source _ _ _ _ _ _) as [g2 [[[s x] e] h]] eqn:Hv;
           destruct h; simplify_eq; [by eapply P_cross_refused|]; rewrite rule_verdict_spec in Hr].
  - by eapply (P_same cf w p (GC_transfer a mimes) g1).
  - injection Hr as <- <-. eapply (P_cross cf w p (GC_transfer a mimes) g1); [done..|apply trivial_step|cbn; done].
  - destruct (clipboard_receive_lineage _ _ _ _ _ _ _ _) as [g3 [|n|n]] eqn:Hl; simplify_eq;
      first [eapply (P_same_raised cf w p (GC_receive a mime) g1 g2); [done..|]
            |eapply (P_same cf w p (GC_receive a mime) g1 g2 g3); [done..| |done]];
      cbn [call_lineage call_args]; by rewrite Hl.
  - change (R.match_ _ _ None) with (call_rule g2 p (GC_receive a mime) s x e) in Hr.
    destruct (allows _) eqn:Hal in Hr; cbn [negb] in Hr.
    + destruct (clipboard_receive_lineage _ _ _ _ _ _ _ _) as [g3 [|n|n]] eqn:Hl; simplify_eq;
        first [eapply (P_cross_raised cf w p (GC_receive a mime) g1 g2); [done..|]
              |eapply (P_cross cf w p (GC_receive a mime) g1 g2 g3); [done..| |cbn; done]];
        unfold cross_step; rewrite Hal; cbn [call_lineage call_args]; by rewrite Hl.
    + injection Hr as <- <-. eapply (P_cross cf w p (GC_receive a mime) g1); [done..| |cbn; done].
      unfold cross_step. by rewrite Hal.
  - by eapply (P_same cf w p (GC_handoff a) g1).
  - injection Hr as <- <-. eapply (P_cross cf w p (GC_handoff a) g1); [done..|apply trivial_step|cbn; done].
Qed.

(** ** What a gate leaves alone, and what it logs *)

(** The queue, the cache and the rules stay, and nothing is sent. *)
Definition still (g g' : state) : Prop :=
  let b := broker g in let b' := broker g' in
  rules b' = rules b ∧ cache b' = cache b ∧ reqs b' = reqs b ∧ pending b' = pending b ∧
  next_id b' = next_id b ∧ cancelled b' = cancelled b ∧ announced b' = announced b ∧ sent b' = sent b.

#[export] Instance still_preorder : PreOrder still.
Proof.
  split; [intros g; by split_and!|]. intros g1 g2 g3 (?&?&?&?&?&?&?&?) (?&?&?&?&?&?&?&?).
  split_and!; congruence.
Qed.

(** The log gains at most the given row, when the database takes it *)
Definition leaves (w : gate_world) (o : option entry) (g g' : state) : Prop :=
  still g g' ∧
  audit (broker g') = match o with
                      | Some e => if gw_audit_ok w then log (audit (broker g)) (gw_time w) e
                                  else audit (broker g)
                      | None => audit (broker g) end.

Section effects.
Context (cf : config) (w : gate_world).

Lemma leaves_refl g : leaves w None g g.
Proof. by split. Qed.

Lemma leaves_then o g1 g2 g3 : leaves w None g1 g2 → leaves w o g2 g3 → leaves w o g1 g3.
Proof.
  intros [H1 A1] [H2 A2]. split; [by transitivity g2|]. by rewrite A2, A1.
Qed.

Lemma leaves_log g p act d src path : leaves w (Some (gate_entry p act d src path)) g (gate_log g w p act d src path).
Proof. unfold gate_log, audit_log. split; [by destruct (gw_audit_ok w)|]. cbn. by destruct (gw_audit_ok w). Qed.

Lemma resolve_broker g i pid : broker (resolve_source g w i pid).1 = broker g.
Proof. unfold resolve_source. destruct (V.resolve_subject _ _ _ _) as [? [?|]]; done. Qed.
Lemma resolve_lineage g i pid : lineage (resolve_source g w i pid).1 = lineage g.
Proof. unfold resolve_source. destruct (V.resolve_subject _ _ _ _) as [? [?|]]; done. Qed.

Lemma same_broker g g' : broker g' = broker g → leaves w None g g'.
Proof. intros He. split; [|by rewrite He]. unfold still. by rewrite He. Qed.

Lemma leaves_resolve g i pid : leaves w None g (resolve_source g w i pid).1.
Proof. apply same_broker, resolve_broker. Qed.

Lemma enter_leaves g shell prefix a g1 r : gate_enter g w shell prefix a = (g1, r) →
  leaves w None g g1 ∧ records g1 = records g ∧ lineage g1 = lineage g ∧ ∀ p, r = Ok p → shell = Some p.
Proof.
  unfold gate_enter. destruct shell as [p|]; [|by intros [= <- <-]].
  case_match; [by intros [= <- <-]|]. destruct (L.check _ _ _ _) as [rl ok]. intros [= <- <-].
  split_and!; try done. intros p' Hp. destruct ok; by simplify_eq.
Qed.

Lemma receive_broker g pid start src dst mime :
  broker (clipboard_receive_lineage cf g w pid start src dst mime).1 = broker g.
Proof.
  unfold clipboard_receive_lineage, record_paste.
  repeat case_match; simplify_eq; cbn [fst broker with_lineage_store]; rewrite ?resolve_broker; done.
Qed.

Lemma lineage_leaves g c src g' o : call_lineage cf g w c src = (g', o) → leaves w None g g'.
Proof.
  destruct c as [a m|a m|a]; cbn [call_lineage]; try (intros [= <- _]; apply leaves_refl).
  pose proof (receive_broker g (cl_pid (gate_claim a)) (cl_start (gate_claim a)) src (gate_dest a) (str_take 128 m)) as Hb.
  destruct (clipboard_receive_lineage _ _ _ _ _ _ _ _) as [g2 out]. intros [= <- _]. by apply same_broker.
Qed.

(** A decided call leaves one row of its caller with its verdict. *)
Definition accounts (p : peer) (d : option bool) (g g' : state) : Prop :=
  match d with
  | None => leaves w None g g'
  | Some d => ∃ act src path, leaves w (Some (gate_entry p act d src path)) g g'
  end.

Lemma accounts_then p d g1 g2 g3 : leaves w None g1 g2 → accounts p d g2 g3 → accounts p d g1 g3.
Proof.
  destruct d as [d|]; [|apply leaves_then]. intros H1 (act & src & path & H2).
  exists act, src, path. by apply leaves_then with g2.
Qed.

Lemma accounts_still p d g g' : accounts p d g g' → still g g'.
Proof. destruct d; [|by intros [? _]]. by intros (? & ? & ? & ? & _). Qed.

Lemma accounts_log p g act d src path : accounts p (Some d) g (gate_log g w p act d src path).
Proof. exists act, src, path. apply leaves_log. Qed.

Lemma cross_accounts g p gate c g' s x e hard :
  cross_silo_source cf g w p gate c = (g', (s, x, e, hard)) →
  accounts p (if hard then Some false else None) g g'.
Proof.
  unfold cross_silo_source, audit_cross_silo_deny.
  pose proof (leaves_resolve g 0 (cl_pid c)) as H0. pose proof (leaves_resolve g 1 (cl_pid c)) as H1.
  destruct (resolve_source g w 1 (cl_pid c)) as [g2 sj]. cbn [fst] in H1.
  repeat case_match; intros Heq; simplify_eq; cbn [accounts];
    first [apply accounts_log|apply leaves_refl|assumption|by (apply (accounts_then p (Some false) g g2); [|apply accounts_log])].
Qed.

Lemma same_accounts g p gate c g' o :
  same_silo_source_verified cf g w p gate c = (g', o) →
  accounts p (match o with None => Some false | Some _ => None end) g g'.
Proof.
  unfold same_silo_source_verified, audit_cross_silo_deny.
  pose proof (leaves_resolve g 1 (cl_pid c)) as H1.
  destruct (resolve_source g w 1 (cl_pid c)) as [g2 sj]. cbn [fst] in H1.
  repeat case_match; intros Heq; simplify_eq; cbn [accounts];
    first [apply accounts_log|apply leaves_refl|assumption|by (apply (accounts_then p (Some false) g g2); [|apply accounts_log])].
Qed.

Lemma step_leaves p c g s x e g' o : cross_step cf w p c g s x e = (g', o) → leaves w None g g'.
Proof.
  unfold cross_step. destruct (allows _); [apply lineage_leaves|]. intros [= <- _]. apply leaves_refl.
Qed.

Lemma path_accounts p c g1 g' r :
  gate_path cf w p c g1 g' r → accounts p (match r with Ok ok => Some ok | Err _ => None end) g1 g'.
Proof.
  intros [g2 _ H|g2 g3 why _ H Hl|g2 g3 why ok src _ H Hl _|g2 s x e _ H|g2 g3 s x e _ H Hl|g2 g3 s x e ok src _ H Hl _].
  1, 2, 3: apply same_accounts in H. 4, 5, 6: apply cross_accounts in H. 1, 4: done.
  1, 2: apply lineage_leaves in Hl. 3, 4: apply step_leaves in Hl.
  all: (apply (accounts_then _ _ g1 g2); [exact H|]); try exact Hl.
  all: (apply (accounts_then _ _ g2 g3); [exact Hl|]); apply accounts_log.
Qed.
End effects.

(** ** The attested source *)

(** The record that attests the relayed process: its start time is the live one, and the
    live facts are the recorded ones. *)
Definition attested (w : gate_world) (g : state) (c : claim) (rec : LR.LaunchRecord) : Prop :=
  (cl_start c ≠ 0 → V.lv_starttime (gw_live w 0 (cl_pid c)) = cl_start c)%Z ∧
  V.attests (gw_live w 1) (gw_now w 1) (Some (cl_pid c)) (Some (records g)) rec.

Lemma drifted_false live relayed : drifted live relayed = false → (relayed ≠ 0 → live = relayed)%Z.
Proof. unfold drifted. destruct (Z.eqb_spec relayed 0), (Z.eqb_spec live 0), (Z.eqb_spec live relayed); cbn; congruence. Qed.

Section attested.
Context (cf : config) (w : gate_world).
Hypothesis Henforce : cf_lineage_enforce cf = true.

Lemma resolve_attested g i pid g' sj :
  LR.wf (records g) → resolve_source g w i pid = (g', sj) → V.sj_verified sj = true →
  ∃ rec, V.attests (gw_live w i) (gw_now w i) (Some pid) (Some (records g)) rec ∧
    V.sj_silo sj = LR.silo rec ∧ V.sj_sandbox_engine sj = LR.sandbox_engine rec ∧
    V.sj_app_id sj = LR.app_id rec.
Proof.
  intros Hwf. unfold resolve_source.
  pose proof (V.resolve_verified (gw_live w i) (gw_now w i) (Some pid) (Some (records g)) Hwf) as Hv.
  destruct (V.resolve_subject _ _ _ _) as [sj' st]. cbn [fst] in Hv. intros [= _ <-] Ht.
  destruct (Hv Ht) as (rec & ? & ? & ? & ? & _). by exists rec.
Qed.

Lemma cross_attested g p gate c g' s x e :
  LR.wf (records g) → cross_silo_source cf g w p gate c = (g', (s, x, e, false)) →
  ∃ rec, attested w g c rec ∧ s = LR.silo rec ∧ x = LR.app_id rec ∧ e = LR.sandbox_engine rec.
Proof.
  intros Hwf. unfold cross_silo_source. rewrite Henforce. cbn [negb].
  case_match; [done|]. destruct (drifted _ _) eqn:Hd; [done|].
  destruct (resolve_source g w 1 (cl_pid c)) as [g2 sj] eqn:Hr.
  destruct (V.sj_verified sj) eqn:Hv; cbn [negb]; [|done]. intros [= <- <- <- <-].
  destruct (resolve_attested _ _ _ _ _ Hwf Hr Hv) as (rec & ? & ? & ? & ?).
  exists rec. split_and!; try done. split; [by apply drifted_false|done].
Qed.

Lemma same_attested g p gate c g' why :
  LR.wf (records g) → same_silo_source_verified cf g w p gate c = (g', Some why) →
  ∃ rec, attested w g c rec ∧ LR.silo rec = cl_silo c ∧
    (cl_app c = "" ∨ LR.app_id rec = cl_app c) ∧
    (cl_engine c = "" ∨ LR.sandbox_engine rec = cl_engine c).
Proof.
  intros Hwf. unfold same_silo_source_verified. rewrite Henforce. cbn [negb].
  case_match; [done|]. destruct (drifted _ _) eqn:Hd; [done|].
  destruct (resolve_source g w 1 (cl_pid c)) as [g2 sj] eqn:Hr.
  destruct (V.sj_verified sj) eqn:Hv; cbn [negb]; [|done].
  destruct (bool_decide (_ = cl_silo c)) eqn:Hs; [|done]. cbn [negb].
  destruct (truthy (cl_app c) && _) eqn:Ha; [done|]. destruct (truthy (cl_engine c) && _) eqn:He; [done|].
  intros _. destruct (resolve_attested _ _ _ _ _ Hwf Hr Hv) as (rec & ? & Hsr & Her & Har).
  apply bool_decide_eq_true in Hs. exists rec. split; [split; [by apply drifted_false|done]|].
  rewrite <- Hsr, <- Har, <- Her. split; [done|].
  apply andb_false_iff in Ha, He. split; [destruct Ha as [Ha|Ha]|destruct He as [He|He]].
  1, 3: left; by apply truthy_false.
  1, 2: right; by apply negb_false_iff, bool_decide_eq_true in Ha || apply negb_false_iff, bool_decide_eq_true in He.
Qed.

Lemma step_allows p c g s x e g' : cross_step cf w p c g s x e = (g', Some true) →
  ∃ rule, call_rule g p c s x e = Some rule ∧ R.rl_decision rule = "allow".
Proof.
  unfold cross_step. destruct (call_rule g p c s x e) as [rule|]; cbn [allows]; [|done].
  case_bool_decide; [|done]. by exists rule.
Qed.
End attested.

Lemma call_rule_still g g' p c s x e : still g g' → call_rule g' p c s x e = call_rule g p c s x e.
Proof. intros (Hr & _). unfold call_rule. by rewrite Hr. Qed.

Lemma attested_records w g g' c rec : records g' = records g → attested w g' c rec → attested w g c rec.
Proof. unfold attested. by intros ->. Qed.

(** C21: under enforcement a gate allows only a process that a launch record attests, at
    the start time the shell relayed when it relayed one that is not zero: either
    within one silo, which the record names and whose app and engine the claim does not contradict, or because the first rule that
    matches the silo, the app and the engine of the record is an allow rule. *)
Theorem gate_allow_attested cf g w shell c g' :
  cf_lineage_enforce cf = true → LR.wf (records g) → run_gate cf g w shell c = (g', Ok true) →
  let cl := gate_claim (call_args c) in
  ∃ p rec, shell = Some p ∧ attested w g cl rec ∧
    ((same_silo (call_args c) = true ∧ LR.silo rec = cl_silo cl ∧
      (cl_app cl = "" ∨ LR.app_id rec = cl_app cl) ∧
      (cl_engine cl = "" ∨ LR.sandbox_engine rec = cl_engine cl)) ∨
     ∃ rule, call_rule g p c (LR.silo rec) (LR.app_id rec) (LR.sandbox_engine rec) = Some rule ∧
       R.rl_decision rule = "allow").
Proof.
  intros Hf Hwf Hr cl. destruct (call_head g w shell c) as [g1 [p|e]] eqn:Hh;
    [|rewrite (run_gate_head _ _ _ _ _ _ _ Hh) in Hr; discriminate Hr].
  apply (run_gate_path _ _ _ _ _ _ _ _ _ Hh) in Hr. apply enter_leaves in Hh as ([Hst _] & Hrec & _ & Hs).
  rewrite <- Hrec in Hwf. specialize (Hs p eq_refl). exists p. inversion Hr as [| |? g3 why ok src Hss Hv Hl _| | |g2 g3 s x e ok src Hss Hv Hl _]; subst.
  - destruct (same_attested cf w Hf _ _ _ _ _ _ Hwf Hv) as (rec & Ha & ?).
    exists rec. split; [done|]. split; [by apply (attested_records w g g1)|]. by left.
  - destruct (cross_attested cf w Hf _ _ _ _ _ _ _ _ Hwf Hv) as (rec & Ha & -> & -> & ->).
    exists rec. split; [done|]. split; [by apply (attested_records w g g1)|]. right.
    apply step_allows in Hl. rewrite (call_rule_still g) in Hl; [done|].
    apply cross_accounts in Hv as [? _]. by transitivity g1.
Qed.

(** A gate leaves the queue, the approvals and the rules alone and sends nothing; an
    answered call is one of the authenticated shell and leaves exactly one row, of that
    caller and with the answer as its decision, when the database takes it; a call that
    raises leaves none. *)
Theorem gate_accounts cf g w shell c g' r :
  run_gate cf g w shell c = (g', r) →
  still g g' ∧
  match r with
  | Err _ => audit (broker g') = audit (broker g)
  | Ok ok => ∃ p act src path, shell = Some p ∧
      audit (broker g') =
        if gw_audit_ok w then log (audit (broker g)) (gw_time w) (gate_entry p act ok src path)
        else audit (broker g)
  end.
Proof.
  intros Hr. destruct (call_head g w shell c) as [g1 [p|e]] eqn:Hh.
  - pose proof (run_gate_path _ _ _ _ _ _ _ _ _ Hh Hr) as Hp%path_accounts.
    apply enter_leaves in Hh as (He & _ & _ & Hs). apply (accounts_then _ _ _ _ _ _ He) in Hp.
    destruct r as [ok|e]; [|exact Hp]. destruct Hp as (act & src & path & [H1 H2]).
    split; [exact H1|]. by exists p, act, src, path; split; [apply Hs|].
  - pose proof (run_gate_head cf g w shell c g1 e Hh) as Hr'. rewrite Hr in Hr'. simplify_eq.
    by apply enter_leaves in Hh as (? & _).
Qed.

(** ** What a paste leaves in the lineage store *)

(** The paste of a payload from [src] whose snapshot is [es]: an active entity carries the
    snapshot, is derived from the offered payload and is the destination silo's. *)
Definition pasted (s' : Store) (pid start : Z) (src dst mime : string) (es : G.FlowEndpoint)
    (out : string) : Prop :=
  (∃ e, Lineage.get_entity s' out = Some e ∧ Lineage.e_guards e = G.guards es ∧
     Lineage.e_compartments e = G.compartments es ∧
     Lineage.e_conflict_classes e = G.conflict_classes es ∧ Lineage.e_status e = "active") ∧
  Lineage.feeds s' (clipboard_eid src pid start mime) out ∧
  ("wasAttributedTo", out, "silo:" +:+ dst) ∈ K.edge_set s'.

(** The flow the guards judge *)
Definition paste_flow (es ed : G.FlowEndpoint) : G.FlowContext :=
  {| G.source := es; G.chokepoint := "clipboard"; G.destination := ed;
     G.processing := {| G.host_class := "local"; G.network_egress := "none";
                        G.payload_submitted := false; G.telemetry_submitted := false |} |}.

Section paste.
Context (cf : config) (w : gate_world).

Lemma paste_verdict src dst pid start mime es ed :
  let a := clipboard_flow src dst pid start mime es ed in
  G.verdict_allowed (K.evaluate_inputs a).1.1 = G.fv_allowed (G.evaluate_flow (paste_flow es ed)) ∧
  (K.evaluate_inputs a).2 = G.guards es.
Proof.
  intros a. destruct (K.evaluate_inputs_fold a (K.ca_inputs a) (G.ALLOW, [], ∅)) as [Ha Hp].
  unfold K.evaluate_inputs. rewrite Ha, Hp. split; [|cbn; set_solver].
  cbn [forallb K.ca_inputs a clipboard_flow fst]. by rewrite andb_true_l, andb_true_r.
Qed.

(** What the chokepoint of a paste answers and records *)
Lemma paste_chokepoint s src dst pid start mime es ed s' res :
  K.record_chokepoint (gw_hash w) (gw_clk w) s (gw_ts w) (gw_aid w) (gw_eid w)
    (clipboard_flow src dst pid start mime es ed) = Ok (s', res) →
  K.cr_allowed res = G.fv_allowed (G.evaluate_flow (paste_flow es ed)) ∧
  (K.cr_allowed res = true → K.cr_output res = Some (gw_eid w) ∧ pasted s' pid start src dst mime es (gw_eid w)) ∧
  (K.cr_allowed res = false → ∀ x, Lineage.get_entity s' x = Lineage.get_entity s x).
Proof.
  set (a := clipboard_flow src dst pid start mime es ed).
  destruct (paste_verdict src dst pid start mime es ed) as [Hv Hp]. fold a in Hv, Hp.
  unfold K.record_chokepoint. destruct (K.evaluate_inputs a) as [[worst reasons] prop]. cbn [fst snd] in Hv, Hp.
  destruct (K.output_snapshot a prop) as [[[gs cs] ks] ig] eqn:Hsnap.
  intros (_ & _ & Hr)%result_bind_ok. apply result_bind_ok in Hr as (s3 & [Hent _]%K.record_use_frame & Hr).
  rewrite <- Hv. destruct (G.verdict_allowed worst) eqn:Hw; cbn [andb] in Hr.
  - change (Lineage.isin (K.ca_chokepoint a) K.DERIVING_CHOKEPOINTS) with true in Hr. cbn [andb] in Hr.
    apply result_bind_ok in Hr as (s7 & [[(e & He & Hg & Hc & Hk & _ & Hst & _) _] Hes]%K.record_output_spec & Hr).
    injection Hr as <- <-. cbn [K.cr_allowed K.cr_output]. split; [done|]. split; [|done]. intros _. split; [done|].
    injection Hsnap as Hgs Hcs Hks _. rewrite Hp in Hgs. cbn in Hgs, Hcs, Hks.
    split; [exists e; split_and!; [exact He|rewrite Hg; set_solver|rewrite Hc; set_solver|rewrite Hk; set_solver|done]|].
    split.
    + apply K.feeds_edge_set. rewrite Hes. unfold K.output_edges, K.input_triples. cbn. set_solver.
    + rewrite Hes. unfold K.output_edges. cbn. set_solver.
  - injection Hr as <- <-. cbn [K.cr_allowed]. split; [done|]. split; [done|].
    intros _ x. by apply K.get_entity_frame.
Qed.

(** Recording a paste never fails on an open store. *)
Lemma paste_chokepoint_total s src dst pid start mime es ed :
  ∃ s' res, K.record_chokepoint (gw_hash w) (gw_clk w) s (gw_ts w) (gw_aid w) (gw_eid w)
    (clipboard_flow src dst pid start mime es ed) = Ok (s', res).
Proof.
  unfold K.record_chokepoint. cbn [K.ca_inputs K.ca_chokepoint clipboard_flow].
  rewrite bool_decide_false by done. cbn [negb andb guard_else result_bind].
  destruct (K.evaluate_inputs _) as [[worst reasons] prop].
  destruct (K.output_snapshot _ prop) as [[[gs cs] ks] ig] eqn:Hsnap.
  unfold K.record_use. cbn [K.ca_processing K.ca_chokepoint K.ca_action_version K.ca_agent_gid K.ca_inputs
    clipboard_flow default].
  edestruct K.record_activity_total as (s1 & n1 & ->); [vm_compute; reflexivity..|].
  cbn [K.lift result_bind fst K.agent_edge K.input_edges K.ca_agent_gid K.ca_inputs clipboard_flow].
  edestruct K.edge_total as (s2 & -> & _); [vm_compute; reflexivity|]. cbn [result_bind].
  edestruct K.edge_total as (s3 & -> & _); [vm_compute; reflexivity|]. cbn [result_bind].
  case_match; [|by eexists _, _]. unfold K.record_output.
  edestruct K.record_entity_total as (s4 & n4 & ->); [vm_compute; reflexivity| |].
  { injection Hsnap as _ _ _ <-. cbn [Lineage.e_integrity]. case_match; auto. }
  cbn [K.lift result_bind fst K.input_edges K.agent_edge K.ca_inputs K.ca_agent_gid clipboard_flow].
  do 3 (edestruct K.edge_total as (? & -> & _); [vm_compute; reflexivity|]; cbn [result_bind]).
  by eexists _, _.
Qed.

Lemma record_paste_spec g pid start src dst mime es ed g' out :
  record_paste g w pid start src dst mime es ed = (g', out) →
  match out with
  | RO_raised => lineage g = None
  | RO_refused n => (∃ rs, n = LN_guard_denied rs) ∧ G.fv_allowed (G.evaluate_flow (paste_flow es ed)) = false
  | RO_recorded _ => G.fv_allowed (G.evaluate_flow (paste_flow es ed)) = true ∧
      ∃ s', lineage g' = Some s' ∧ pasted s' pid start src dst mime es (gw_eid w)
  end.
Proof.
  unfold record_paste. destruct (lineage g) as [s|]; [|by intros [= _ <-]].
  edestruct K.record_entity_total as (s1 & n1 & ->); [vm_compute; reflexivity|by left|].
  destruct (paste_chokepoint_total s1 src dst pid start mime es ed) as (s2 & res & Hc). rewrite Hc.
  apply paste_chokepoint in Hc as (Ha & Hy & Hn). intros [= <- <-]. unfold K.denied.
  destruct (K.cr_allowed res); cbn [negb]; rewrite <- Ha; [|split; [by eexists|done]].
  split; [done|]. exists s2. split; [done|]. by apply Hy.
Qed.

Lemma receive_spec g pid start src dst mime g' out :
  cf_lineage_enforce cf = true →
  clipboard_receive_lineage cf g w pid start src dst mime = (g', out) →
  match out with
  | RO_raised => lineage g = None
  | RO_refused _ => True
  | RO_recorded _ => ∃ es ed s',
      SiloSec.require_resolved (SiloSec.snapshot_for_silo (gw_silos w 0) src) = Ok es ∧
      SiloSec.require_resolved (SiloSec.snapshot_for_silo (gw_silos w 1) dst) = Ok ed ∧
      G.fv_allowed (G.evaluate_flow (paste_flow es ed)) = true ∧
      lineage g' = Some s' ∧ pasted s' pid start src dst mime es (gw_eid w)
  end.
Proof.
  intros Hf. unfold clipboard_receive_lineage. rewrite Hf. cbn [negb].
  case_match; [by intros [= <- <-]|]. case_match; [by intros [= <- <-]|].
  set (snap := SiloSec.resolve_subject_silo_security _ _ _ _ _).
  destruct (SiloSec.require_resolved snap) as [es|e] eqn:Hes; [|by intros [= <- <-]].
  destruct (bool_decide (SiloSec.sn_silo snap = src)) eqn:Hs; cbn [negb]; [|by intros [= <- <-]].
  destruct (SiloSec.require_resolved (SiloSec.snapshot_for_silo (gw_silos w 1) dst)) as [ed|e] eqn:Hed; [|by intros [= <- <-]].
  intros Hr%record_paste_spec. rewrite resolve_lineage in Hr. destruct out as [|n|n]; [done..|].
  destruct Hr as (Ha & s' & Hl & Hp). exists es, ed, s'. split_and!; try done.
  rewrite <- Hes. f_equal. apply bool_decide_eq_true in Hs. subst src. unfold snap in *. clear snap.
  unfold SiloSec.resolve_subject_silo_security in *.
  destruct (negb (V.sj_verified _)); [done|]. destruct (_ || _); [done|]. by rewrite SiloSec.law_silo.
Qed.
End paste.

Lemma cross_lineage cf w g p gate c : lineage (cross_silo_source cf g w p gate c).1 = lineage g.
Proof.
  unfold cross_silo_source. pose proof (resolve_lineage w g 0 (cl_pid c)). pose proof (resolve_lineage w g 1 (cl_pid c)).
  destruct (resolve_source g w 1 (cl_pid c)). by repeat case_match.
Qed.
Lemma same_lineage cf w g p gate c : lineage (same_silo_source_verified cf g w p gate c).1 = lineage g.
Proof.
  unfold same_silo_source_verified. pose proof (resolve_lineage w g 1 (cl_pid c)).
  destruct (resolve_source g w 1 (cl_pid c)). by repeat case_match.
Qed.

(** The lineage step of a paste that was decided for the silo [src] *)
Lemma paste_step cf w g a mime src g' o :
  cf_lineage_enforce cf = true → call_lineage cf g w (GC_receive a mime) src = (g', o) →
  (o = None → lineage g = None) ∧
  (o = Some true → ∃ es ed s',
      SiloSec.require_resolved (SiloSec.snapshot_for_silo (gw_silos w 0) src) = Ok es ∧
      SiloSec.require_resolved (SiloSec.snapshot_for_silo (gw_silos w 1) (gate_dest a)) = Ok ed ∧
      G.fv_allowed (G.evaluate_flow (paste_flow es ed)) = true ∧
      lineage g' = Some s' ∧ pasted s' (ga_pid a) (ga_start a) src (gate_dest a) (str_take 128 mime) es (gw_eid w)).
Proof.
  intros Hf. cbn [call_lineage]. destruct (clipboard_receive_lineage _ _ _ _ _ _ _ _) as [g2 out] eqn:Hr.
  apply (receive_spec cf w _ _ _ _ _ _ _ _ Hf) in Hr. intros [= <- <-]. by destruct out.
Qed.

(** C22: under enforcement a paste is allowed only when a launch record attests its source,
    the registry resolves the silo of the record and the destination, and the guards allow
    the flow from the one to the other; the payload that arrives is then recorded with the
    source's guards, compartments and conflict classes, as derived from the offered one and
    attributed to the destination. The call raises for its lineage only when the store
    could not be opened. *)
Theorem paste_recorded cf g w shell a mime g' r :
  cf_lineage_enforce cf = true → LR.wf (records g) →
  check_clipboard_receive cf g w shell a mime = (g', r) →
  (r = Err BE_lineage_unavailable → lineage g = None) ∧
  (r = Ok true → ∃ rec es ed s',
    attested w g (gate_claim a) rec ∧
    SiloSec.require_resolved (SiloSec.snapshot_for_silo (gw_silos w 0) (LR.silo rec)) = Ok es ∧
    SiloSec.require_resolved (SiloSec.snapshot_for_silo (gw_silos w 1) (gate_dest a)) = Ok ed ∧
    G.fv_allowed (G.evaluate_flow (paste_flow es ed)) = true ∧
    lineage g' = Some s' ∧
    pasted s' (ga_pid a) (ga_start a) (LR.silo rec) (gate_dest a) (str_take 128 mime) es (gw_eid w)).
Proof.
  intros Hf Hwf Hr. change (run_gate cf g w shell (GC_receive a mime) = (g', r)) in Hr.
  destruct (call_head g w shell (GC_receive a mime)) as [g1 [p|e]] eqn:Hh.
  2: { rewrite (run_gate_head _ _ _ _ _ _ _ Hh) in Hr. injection Hr as _ <-. split; [|done].
       unfold call_head, gate_enter in Hh. by repeat case_match; simplify_eq. }
  apply (run_gate_path _ _ _ _ _ _ _ _ _ Hh) in Hr. apply enter_leaves in Hh as (_ & Hrec & Hlin & _).
  rewrite <- Hrec in Hwf. rewrite <- Hlin.
  destruct Hr as [|g2 g3 why _ Hv Hl|g2 g3 why ok src _ Hv Hl _| |g2 g3 s x e _ Hv Hl|g2 g3 s x e ok src _ Hv Hl _]; try done.
  1, 2: pose proof (same_lineage cf w g1 p (call_name (GC_receive a mime))
    (gate_claim (call_args (GC_receive a mime)))) as Hk.
  3, 4: pose proof (cross_lineage cf w g1 p (call_name (GC_receive a mime))
    (gate_claim (call_args (GC_receive a mime)))) as Hk.
  all: rewrite Hv in Hk; cbn [fst] in Hk; rewrite <- Hk.
  3, 4: unfold cross_step in Hl; destruct (allows _); [|simplify_eq; done].
  all: apply (paste_step _ _ _ _ _ _ _ _ Hf) in Hl as [Hn Hy].
  - split; [by intros _; apply Hn|done].
  - split; [done|]. intros [= ->]. destruct (Hy eq_refl) as (es & ed & s' & He & Hrest).
    destruct (same_attested cf w Hf _ _ _ _ _ _ Hwf Hv) as (rec & Ha & Hs & _). exists rec, es, ed, s'.
    rewrite Hs. split; [by apply (attested_records w g g1)|]. done.
  - split; [by intros _; apply Hn|done].
  - split; [done|]. intros [= ->]. destruct (Hy eq_refl) as (es & ed & s' & He & Hrest).
    destruct (cross_attested cf w Hf _ _ _ _ _ _ _ _ Hwf Hv) as (rec & Ha & -> & _). exists rec, es, ed, s'.
    split; [by apply (attested_records w g g1)|]. done.
Qed.

(** ** Claims *)

(** The call with other claims about its source *)
Definition reclaim_args (source app engine : string) (a : gate_args) : gate_args :=
  {| ga_source := source; ga_dest := ga_dest a; ga_app := app; ga_dest_app := ga_dest_app a;
     ga_engine := engine; ga_verified := ga_verified a; ga_pid := ga_pid a; ga_start := ga_start a |}.
Definition reclaim (source app engine : string) (c : gate_call) : gate_call :=
  match c with
  | GC_transfer a mimes => GC_transfer (reclaim_args source app engine a) mimes
  | GC_receive a mime => GC_receive (reclaim_args source app engine a) mime
  | GC_handoff a => GC_handoff (reclaim_args source app engine a)
  end.

Section congruence.
Context (cf : config) (w : gate_world).
Hypothesis Henforce : cf_lineage_enforce cf = true.

(** The same stores and rules *)
Definition alike (g g' : state) : Prop :=
  records g = records g' ∧ lineage g = lineage g' ∧ rules (broker g) = rules (broker g').

Lemma resolve_alike g g' i pid : alike g g' →
  alike (resolve_source g w i pid).1 (resolve_source g' w i pid).1 ∧
  (resolve_source g w i pid).2 = (resolve_source g' w i pid).2.
Proof.
  intros (Hr & Hl & Hu). unfold resolve_source. rewrite Hr.
  destruct (V.resolve_subject _ _ _ _) as [sj [st|]]; by split.
Qed.

Lemma cross_alike g g' p gate c c' h h' s x e s' x' e' hard hard' :
  alike g g' → cl_pid c = cl_pid c' → cl_start c = cl_start c' →
  cross_silo_source cf g w p gate c = (h, (s, x, e, hard)) →
  cross_silo_source cf g' w p gate c' = (h', (s', x', e', hard')) →
  hard = hard' ∧ (hard = false → s = s' ∧ x = x' ∧ e = e' ∧ alike h h').
Proof.
  intros Ha Hp Hs. unfold cross_silo_source. rewrite Henforce, Hp, Hs. cbn [negb].
  destruct (resolve_alike g g' 1 (cl_pid c') Ha) as [Hg Hj].
  destruct (resolve_source g w 1 (cl_pid c')) as [g2 sj], (resolve_source g' w 1 (cl_pid c')) as [g2' sj'].
  cbn [fst snd] in Hg, Hj. subst sj'. repeat case_match; intros; by simplify_eq.
Qed.

Lemma receive_alike g g' pid start src dst mime : alike g g' →
  (clipboard_receive_lineage cf g w pid start src dst mime).2 =
  (clipboard_receive_lineage cf g' w pid start src dst mime).2.
Proof.
  intros Ha. destruct (resolve_alike g g' 3 pid Ha) as [(_ & Hl & _) _].
  unfold clipboard_receive_lineage, record_paste. destruct Ha as (-> & _ & _). rewrite Hl.
  repeat (case_match; try done).
Qed.

Lemma step_alike source app engine p c g g' s x e : alike g g' →
  (cross_step cf w p c g s x e).2 = (cross_step cf w p (reclaim source app engine c) g' s x e).2.
Proof.
  intros Ha. unfold cross_step.
  replace (call_rule g' p (reclaim source app engine c) s x e) with (call_rule g p c s x e)
    by (unfold call_rule; destruct Ha as (_ & _ & ->); by destruct c).
  destruct (allows _); [|done]. destruct c as [a m|a m|a]; cbn [reclaim call_lineage]; [done| |done].
  pose proof (receive_alike g g' (ga_pid a) (ga_start a) s (gate_dest a) (str_take 128 m) Ha) as Hr.
  unfold gate_dest in *. cbn [gate_claim cl_pid cl_start ga_dest ga_pid ga_start reclaim_args].
  destruct (clipboard_receive_lineage cf g _ _ _ _ _ _) as [h o], (clipboard_receive_lineage cf g' _ _ _ _ _ _) as [h' o'].
  cbn [snd] in *. by rewrite Hr.
Qed.
End congruence.

Lemma cross_path cf w p c g1 g' r :
  gate_path cf w p c g1 g' r → same_silo (call_args c) = false →
  ∃ g2 s x e hard, cross_silo_source cf g1 w p (call_name c) (gate_claim (call_args c)) = (g2, (s, x, e, hard)) ∧
    r = if hard : bool then Ok false
        else match (cross_step cf w p c g2 s x e).2 with
             | Some ok => Ok ok | None => Err BE_lineage_unavailable end.
Proof.
  intros Hp Hs. destruct Hp as [? Hs'|? ? ? Hs'|? ? ? ? ? Hs'|g2 s x e _ Hv|g2 g3 s x e _ Hv Hl|g2 g3 s x e ok src _ Hv Hl _];
    try congruence; exists g2, s, x, e; [exists true|exists false..]; (split; [done|]); by rewrite ?Hl.
Qed.

(** Under enforcement what the shell claims of the source (its silo, its app and its
    engine) has no influence on a cross-silo answer: two calls past their heads that relay
    the same process and destination are answered alike, exceptions included. *)
Theorem gate_claims_ignored cf g w shell p c g1 source app engine g1' :
  cf_lineage_enforce cf = true →
  let c' := reclaim source app engine c in
  call_head g w shell c = (g1, Ok p) → call_head g w shell c' = (g1', Ok p) →
  same_silo (call_args c) = false → same_silo (call_args c') = false →
  (run_gate cf g w shell c).2 = (run_gate cf g w shell c').2.
Proof.
  intros Hf c' Hh Hh' Hs Hs'.
  destruct (run_gate cf g w shell c) as [g' r] eqn:Hr, (run_gate cf g w shell c') as [g2' r'] eqn:Hr'.
  pose proof (run_gate_path _ _ _ _ _ _ _ _ _ Hh Hr) as Hp. pose proof (run_gate_path _ _ _ _ _ _ _ _ _ Hh' Hr') as Hp'.
  apply enter_leaves in Hh as ([(Hu & _) _] & Hrec & Hlin & _). apply enter_leaves in Hh' as ([(Hu' & _) _] & Hrec' & Hlin' & _).
  assert (alike g1 g1') as Ha by (split_and!; congruence).
  destruct (cross_path _ _ _ _ _ _ _ Hp Hs) as (h & s & x & e & hard & Hc & ->).
  destruct (cross_path _ _ _ _ _ _ _ Hp' Hs') as (h' & s' & x' & e' & hard' & Hc' & ->). cbn [snd].
  replace (call_name c') with (call_name c) in Hc' by (by destruct c).
  assert (hard = hard' ∧ (hard = false → s = s' ∧ x = x' ∧ e = e' ∧ alike h h')) as [-> Hsame]
    by (eapply (cross_alike cf w Hf); [exact Ha| | |exact Hc|exact Hc']; by destruct c).
  destruct hard'; [done|]. destruct (Hsame eq_refl) as (-> & -> & -> & Ha2).
  by rewrite (step_alike cf w source app engine p c h h' s' x' e' Ha2).
Qed.

(** ** A run *)

(** The shell asks for the registered editor of the silo [work], with a forged claim. *)
Definition demo_shell : peer := {| pe_uid := 1000; pe_pid := 700; pe_exe := "/usr/bin/qdshell" |}.
Definition demo_silos : SiloSec.TomlAuthority := {| SiloSec.ta_euid := 0; SiloSec.ta_file :=
  Some {| SiloSec.rf_stat := SiloSec.rf_stat SiloSec.sample_file;
          SiloSec.rf_toml := Some [(PStr "silo", PDict
            [(PStr "work", PDict [(PStr "guards", PList [PStr "local-only"])]); (PStr "home", PDict [])])] |} |}.
Definition demo_world : gate_world := {| gw_live := λ _, V.sample_live; gw_now := λ _, 101%Z;
  gw_silos := λ _, demo_silos; gw_clock := 5; gw_audit_ok := true; gw_time := 101;
  gw_hash := Lineage.toy_digest; gw_entity_now := 101; gw_ts := 101; gw_clk := λ _, 101%Z;
  gw_aid := "a1"; gw_eid := "e1" |}.
Definition demo_state : state := {|
  broker := with_rules Decisions.demo_start
    {| R.eng_dir := "/etc/qdistro/rules.d"; R.eng_rules := [R.empty_rule]; R.eng_errors := [] |};
  records := LR.sample_store; lineage := Some Lineage.empty_store |}.
Definition demo_args : gate_args := {| ga_source := " forged "; ga_dest := "home"; ga_app := "forged";
  ga_dest_app := ""; ga_engine := ""; ga_verified := false; ga_pid := 42; ga_start := 900 |}.
Definition demo_receive : gate_call := GC_receive demo_args "text/plain".

Lemma demo_wf : LR.wf (records demo_state).
Proof.
  apply (LR.reachable_wf LR.DEFAULT_TTL_S 8); [lia|]. apply rtc_once, LR.step_register. reflexivity.
Qed.

Lemma gate_accounts_witness :
  length (audit (broker (run_gate Decisions.demo_config demo_state demo_world (Some demo_shell) demo_receive).1)) = 1.
Proof.
  destruct (run_gate Decisions.demo_config demo_state demo_world (Some demo_shell) demo_receive) as [g' r] eqn:Hr.
  assert (r = Ok true) as -> by (rewrite <- (f_equal snd Hr : _ = r); vm_compute; reflexivity).
  destruct (gate_accounts Decisions.demo_config demo_state demo_world (Some demo_shell) demo_receive g' (Ok true) Hr)
    as (_ & p & act & src & path & _ & H). cbn [fst]. rewrite H. reflexivity.
Defined.

Lemma gate_allow_attested_witness :
  ∃ p rec, Some demo_shell = Some p ∧ attested demo_world demo_state (gate_claim demo_args) rec.
Proof.
  destruct (run_gate Decisions.demo_config demo_state demo_world (Some demo_shell) demo_receive) as [g' r] eqn:Hr.
  assert (r = Ok true) as -> by (rewrite <- (f_equal snd Hr : _ = r); vm_compute; reflexivity).
  destruct (gate_allow_attested Decisions.demo_config demo_state demo_world (Some demo_shell) demo_receive g'
    eq_refl demo_wf Hr) as (p & rec & Hp & Ha & _). exists p, rec. split; [exact Hp|exact Ha].
Defined.

Lemma paste_recorded_witness :
  ∃ es s', pasted s' 42 900 "work" "home" "text/plain" es "e1".
Proof.
  destruct (check_clipboard_receive Decisions.demo_config demo_state demo_world (Some demo_shell) demo_args "text/plain")
    as [g' r] eqn:Hr.
  assert (r = Ok true) as -> by (rewrite <- (f_equal snd Hr : _ = r); vm_compute; reflexivity).
  destruct (paste_recorded Decisions.demo_config demo_state demo_world (Some demo_shell) demo_args "text/plain" g' (Ok true)
    eq_refl demo_wf Hr) as (_ & H). destruct (H eq_refl) as (rec & es & ed & s' & (_ & Ha) & _ & _ & _ & _ & Hp).
  exists es, s'. destruct Ha as (q & st & [= <-] & _ & _ & [= <-] & Hg & Hq & _).
  cbn in Hg. case_bool_decide; [|discriminate Hg]. injection Hg as <-. exact Hp.
Defined.

Lemma gate_claims_ignored_witness :
  (run_gate Decisions.demo_config demo_state demo_world (Some demo_shell) (reclaim "work" "" "qdistro.tier2" demo_receive)).2
  = Ok true.
Proof.
  rewrite <- (gate_claims_ignored Decisions.demo_config demo_state demo_world (Some demo_shell) demo_shell demo_receive
    (call_head demo_state demo_world (Some demo_shell) demo_receive).1 "work" "" "qdistro.tier2"
    (call_head demo_state demo_world (Some demo_shell) (reclaim "work" "" "qdistro.tier2" demo_receive)).1
    eq_refl eq_refl eq_refl eq_refl eq_refl). vm_compute. reflexivity.
Defined.

End GateProofs.
