(* ===== verification/GateClients.v ===== *)
(** * Launches, clients and shares

    What a registered launch is worth to the gates, and what the share-to gate lets
    through. *)

From S2P Require Import Prelude Json RateLimit Guards LaunchRecord Resolver SiloSecurity Rules LineageStore LineageChain Chokepoint AuditTrail Broker Gates GateProofs.
Import Json AuditTrail Broker Gates GateProofs.

Module GateClients.

(** ** Texts that are cut *)

Lemma str_take_whole n s : str_take n s = s ↔ String.length s ≤ n.
Proof.
  revert n. induction s as [|a s IH]; intros [|n]; cbn; try (split; [done || (intros; lia)|done || (intros; lia)]).
  - rewrite <- Nat.succ_le_mono, <- IH. split; [by intros [= ?]|by intros ->].
Qed.

Lemma str_take_empty n s : 0 < n → str_take n s = "" ↔ s = "".
Proof. destruct n; [lia|]. by destruct s. Qed.

Lemma str_take_single n s c : 1 < n → str_take n s = String c "" ↔ s = String c "".
Proof.
  destruct n as [|[|n]]; [lia..|]. destruct s as [|a [|b s]]; cbn; [done..|]. split; intros; simplify_eq.
Qed.

(** A recorded fact that was cut agrees with the live one exactly when nothing was lost. *)
Lemma cut_agrees n s : 0 < n → (str_take n s ≠ "" → s = str_take n s) ↔ String.length s ≤ n.
Proof.
  intros Hn. rewrite <- str_take_whole, str_take_empty by done. destruct (decide (s = "")) as [->|]; [by destruct n|].
  split; [intros H; symmetry; by apply H|by intros ->].
Qed.

(** ** A registered launch *)

(** The process presents at the later look what was read when it was registered. *)
Definition unchanged (w : gate_world) (live : Z → V.live_proc) (pid : Z) : Prop :=
  V.lv_exe (live pid) = V.lv_exe (gw_live w 0 pid) ∧
  V.lv_starttime (live pid) = V.lv_starttime (gw_live w 0 pid) ∧
  V.lv_uid (live pid) = V.lv_uid (gw_live w 1 pid) ∧
  V.lv_label (live pid) = V.lv_label (gw_live w 2 pid) ∧
  V.lv_cgroup (live pid) = V.lv_cgroup (gw_live w 3 pid).

(** Its facts fit the columns of a record. *)
Definition fits_in (w : gate_world) (pid : Z) (exe label cgroup : nat) : Prop :=
  String.length (V.lv_exe (gw_live w 0 pid)) ≤ exe ∧
  String.length (V.lv_label (gw_live w 2 pid)) ≤ label ∧
  String.length (V.lv_cgroup (gw_live w 3 pid)) ≤ cgroup.
Definition fits (w : gate_world) (pid : Z) : Prop := fits_in w pid 4096 512 4096.

(** The request [RegisterLaunch] files for a process it has read *)
Definition launch_of (w : gate_world) (silo engine app instance : string) (pid : Z) (namespace : string)
    (uid : Z) : LR.launch_request :=
  {| LR.rq_silo := str_take 80 silo; LR.rq_uid := uid; LR.rq_pid := pid;
     LR.rq_starttime := V.lv_starttime (gw_live w 0 pid);
     LR.rq_exe := str_take 4096 (V.lv_exe (gw_live w 0 pid));
     LR.rq_selinux_label := str_take 512 (V.lv_label (gw_live w 2 pid));
     LR.rq_cgroup := str_take 4096 (V.lv_cgroup (gw_live w 3 pid));
     LR.rq_sandbox_engine := str_take 128 engine; LR.rq_app_id := str_take 128 app;
     LR.rq_instance_id := str_take 128 instance; LR.rq_namespace := str_take 128 namespace;
     LR.rq_ttl_s := None |}.

Lemma register_launch_ok g w root rid silo engine app inst exe pid ns start g' id :
  register_launch g w root rid silo engine app inst exe pid ns start = (g', Ok id) →
  ∃ uid, (0 < pid)%Z ∧ V.lv_starttime (gw_live w 0 pid) ≠ 0%Z ∧ V.lv_exe (gw_live w 0 pid) ≠ "" ∧
    V.lv_exe (gw_live w 0 pid) ≠ "?" ∧ V.lv_uid (gw_live w 1 pid) = Some uid ∧ id = rid ∧
    records g' = (LR.register (records g) (gw_now w 0) rid (launch_of w silo engine app inst pid ns uid)).1.
Proof.
  unfold register_launch. destruct root as [p|]; [|done]. destruct (Z.leb_spec pid 0); [done|].
  destruct (Z.eqb_spec (V.lv_starttime (gw_live w 0 pid)) 0); [done|]. case_match; [done|].
  destruct (negb _ || _) eqn:He; [done|]. case_match; [done|].
  destruct (V.lv_uid (gw_live w 1 pid)) as [uid|]; [|done]. fold (launch_of w silo engine app inst pid ns uid).
  apply orb_false_iff in He as [He1%negb_false_iff%truthy_true He2%bool_decide_eq_false].
  exists uid. destruct (LR.register _ _ _ _) as [recs rec] eqn:Hr. simplify_eq.
  split_and!; try done. unfold LR.register in Hr. by simplify_eq.
Qed.

(** The record agrees with the unchanged process exactly when its facts fitted. *)
Lemma launch_agrees w live pid uid rec ne nl nc :
  1 < ne → 0 < nl → 0 < nc →
  unchanged w live pid → V.lv_exe (gw_live w 0 pid) ≠ "" → V.lv_exe (gw_live w 0 pid) ≠ "?" →
  V.lv_uid (gw_live w 1 pid) = Some uid → LR.uid rec = uid →
  LR.exe rec = str_take ne (V.lv_exe (gw_live w 0 pid)) →
  LR.selinux_label rec = str_take nl (V.lv_label (gw_live w 2 pid)) →
  LR.cgroup rec = str_take nc (V.lv_cgroup (gw_live w 3 pid)) →
  V.facts_agree rec (live pid) ↔ fits_in w pid ne nl nc.
Proof.
  intros Hn1 Hn2 Hn3. unfold V.facts_agree, fits_in. intros (-> & _ & Hu & -> & ->) Hne Hq Hu' <- -> -> ->.
  rewrite Hu, Hu', <- !cut_agrees by lia. split; [|naive_solver].
  intros (_ & He & Hl & Hc). split_and!; try done. intros Hx. apply He; [done|].
  intros Hs. apply Hq. by apply (str_take_single ne).
Qed.

(** a process the launcher registered is verified by the resolver, for as long as its
    record lives and the process presents the same facts, exactly when these fitted the
    columns of the record; the silo, the app and the engine are then the registered ones,
    cut to their columns. *)
Theorem registered_launch_resolves g w root rid silo engine app inst exe pid ns start g' id live t :
  LR.wf (records g) → od_get (LR.by_id (records g)) rid = None → (0 ≤ gw_now w 0)%Z →
  register_launch g w root rid silo engine app inst exe pid ns start = (g', Ok id) →
  unchanged w live pid → (LR.ttl_s (records g) ≤ 0 ∨ t < gw_now w 0 + LR.ttl_s (records g))%Z →
  let sj := (V.resolve_subject live t (Some pid) (Some (records g'))).1 in
  (V.sj_verified sj = true ↔ fits w pid) ∧
  (V.sj_verified sj = true → V.sj_record_id sj = id ∧ V.sj_silo sj = str_take 80 silo ∧
     V.sj_app_id sj = str_take 128 app ∧ V.sj_sandbox_engine sj = str_take 128 engine).
Proof.
  intros Hwf Hfresh Hnow (uid & Hpos & Hst & Hne & Hq & Huid & -> & Hrec)%register_launch_ok Hun Ht sj.
  pose proof (LR.register_wf (records g) (gw_now w 0) rid (launch_of w silo engine app inst pid ns uid) Hwf Hfresh) as Hreg.
  destruct (LR.register _ _ _ _) as [recs rec]. destruct Hreg as (Hwf' & Hmk & Hproc & Hget & _).
  cbn [fst] in Hrec. subst recs. assert (V.store_wf (Some (records g'))) as Hsw by exact Hwf'.
  assert (∀ rec', V.attests live t (Some pid) (Some (records g')) rec' → rec' = rec) as Huniq.
  { intros rec' (p & st & [= <-] & _ & _ & [= <-] & Hg & Hp & Hs & _).
    destruct (LR.wf_id_rec _ _ Hwf' _ _ Hg) as (_ & Hk & _). destruct Hun as (_ & Hst' & _).
    unfold LR.proc_key in Hk, Hproc. rewrite Hp, Hs, Hst' in Hk. subst rec. cbn in Hproc.
    rewrite Hproc in Hk. injection Hk as Hk. rewrite <- Hk in Hg. congruence. }
  assert (V.attests live t (Some pid) (Some (records g')) rec ↔ fits w pid) as Hatt.
  { unfold fits. rewrite <- (launch_agrees w live pid uid rec)
      by ((apply Nat.ltb_lt; vm_compute; reflexivity) || done || by subst rec). split.
    - by intros (p & st & [= <-] & _ & _ & _ & _ & _ & _ & _ & Hf).
    - intros Hf. destruct Hun as (_ & Hst' & _). exists pid, (records g').
      assert (LR.record_id rec = rid) as Hid by (by subst rec). rewrite Hid.
      split_and!; try (done || (by rewrite Hst') || (by subst rec) || (by rewrite Hst'; subst rec)).
      subst rec. unfold LR.is_expired, LR.make_record. cbn. destruct (Z.ltb_spec 0 (LR.ttl_s (records g))); [|done].
      destruct (Z.eqb_spec (gw_now w 0 + LR.ttl_s (records g)) 0); [lia|]. cbn. lia. }
  split.
  - split; [|intros Hf%Hatt; by apply (V.resolve_complete live t (Some pid) (Some (records g')) rec)].
    intros Hv. destruct (V.resolve_verified _ _ _ _ Hsw Hv) as (rec' & Ha & _). apply Hatt.
    by rewrite <- (Huniq rec').
  - intros Hv. destruct (V.resolve_verified _ _ _ _ Hsw Hv) as (rec' & Ha & Hs & He & Hap & Hid).
    rewrite (Huniq _ Ha) in Hs, He, Hap, Hid. unfold sj. rewrite Hid, Hs, Hap, He. by subst rec.
Qed.

(** ** Share-to *)

Lemma isdigit_plain c : isdigit_char c = true →
  negb (Lineage.py_space c) = true ∧ c ≠ "-"%char ∧ c ≠ "+"%char ∧ c ≠ "_"%char.
Proof. by destruct c as [[] [] [] [] [] [] [] []]. Qed.

Lemma int_digits_superscript s after acc n :
  forall_char isdigit_char s = true → forall_char is_digit s = false →
  Lineage.int_digits after acc n s = None.
Proof.
  revert after acc n. induction s as [|c s IH]; [done|]. cbn [forall_char Lineage.int_digits].
  intros after acc n [Hc Hs]%andb_true_iff. destruct (is_digit c); cbn [andb]; [by intros; apply IH|].
  intros _. apply isdigit_plain in Hc as (_ & _ & _ & Hu). by rewrite bool_decide_false.
Qed.

Lemma py_int_isdigit s :
  isdigit s = true → String.length s ≤ 80 →
  Lineage.py_int s = if forall_char is_digit s then Some (Z.of_N (digits_val 0 s)) else None.
Proof.
  intros [Ht Hd]%andb_true_iff Hlen. unfold Lineage.py_int.
  assert (forall_char (λ c, negb (Lineage.py_space c)) s = true) as Hns
    by (apply (Chain.forall_char_impl isdigit_char); [intros c Hc; apply (isdigit_plain c Hc)|done]).
  assert (Lineage.lstrip s = s) as ->
    by (destruct s as [|c s']; [done|]; cbn in *; apply andb_true_iff in Hns as [Hc%negb_true_iff _]; by rewrite Hc).
  rewrite Chain.rstrip_plain by done. destruct s as [|c s']; [done|]. cbn [forall_char] in Hd.
  pose proof Hd as [(_ & Hm & Hp & _)%isdigit_plain _]%andb_true_iff.
  rewrite (bool_decide_false (c = "-"%char)), (bool_decide_false (c = "+"%char)) by done.
  destruct (forall_char is_digit (String c s')) eqn:Hall.
  - rewrite Chain.int_digits_run by done. rewrite (proj2 (Nat.ltb_ge _ _)); [done|].
    unfold MAX_INT_DIGITS. lia.
  - by rewrite int_digits_superscript.
Qed.

Section share.
Context (float_repr : string → string) (getpwuid : Z → option string).

(** The rule that decides a share *)
Definition share_rule (g : state) (p : peer) (req : list (string * json)) (dst : string) : option R.Rule :=
  R.match_ (rules (broker g))
    (gate_request p ("qdistro.share_to:" +:+ username_for_uid getpwuid (pe_uid p) +:+ ":" +:+ dst) "" ""
       (str_take 64 (field_text float_repr req "content_type" "url"))) None.

(** A share leaves the queue, the approvals and the rules alone, and is allowed only for
    a well-formed body: when the destination it names is the user of the authenticated
    caller, whatever else the body says, or when the first rule that matches that user, the
    destination and the content type is an allow rule. An allow or a refusal by policy
    leaves one row with the verdict, anything else none. *)
Theorem share_allow_justified g w p body g' r :
  page_extract float_repr getpwuid g w p body = (g', r) →
  still g g' ∧
  match r with
  | Ok SA_ok => ∃ req dst, share_body float_repr getpwuid body = Ok (inr (req, dst)) ∧
      (username_for_uid getpwuid (pe_uid p) = dst ∨ allows (share_rule g p req dst) = true) ∧
      accounts w p (Some true) g g'
  | Ok (SA_refused e) =>
      (share_body float_repr getpwuid body = Ok (inl (SA_refused e)) ∧ g' = g) ∨
      e = "policy_denied" ∧ ∃ req dst, share_body float_repr getpwuid body = Ok (inr (req, dst)) ∧
        username_for_uid getpwuid (pe_uid p) ≠ dst ∧ allows (share_rule g p req dst) = false ∧
        accounts w p (Some false) g g'
  | Err _ => audit (broker g') = audit (broker g)
  end.
Proof.
  unfold page_extract. destruct (share_body float_repr getpwuid body) as [[a|[req dst]]|e] eqn:Hb.
  - intros [= <- <-]. split; [done|]. unfold share_body in Hb.
    repeat case_match; simplify_eq; try by left. all: by inv_ok.
  - destruct (L.check _ _ _ _) as [rl ok]. set (g1 := with_broker g _).
    assert (leaves w None g g1) as H1 by done. destruct ok; cbn [negb]; [|by intros [= <- <-]].
    assert (∀ act d src path, accounts w p (Some d) g (gate_log g1 w p act d src path)) as Hacc
      by (intros; eapply accounts_then; [exact H1|apply accounts_log]).
    case_bool_decide as Hs.
    + intros [= <- <-]. split; [by eapply accounts_still|]. exists req, dst. split_and!; [done|by left|apply Hacc].
    + rewrite rule_verdict_spec. change (R.match_ _ _ None) with (share_rule g p req dst).
      intros [= <- <-]. split; [by eapply accounts_still|]. destruct (allows (share_rule g p req dst)) eqn:Ha.
      * exists req, dst. split_and!; [done|by right|apply Hacc].
      * right. split; [done|]. exists req, dst. split_and!; [done..|apply Hacc].
  - intros [= <- <-]. by split.
Qed.

(** A well-formed share whose destination is made of digits with a superscript among
    them is not answered: the [ValueError] of [int] escapes, because [isdigit] accepts
    superscripts that [int] does not read. No other destination of a well-formed body does
    that. *)
Theorem share_dest_raises g w p body req url :
  let dst := py_strip (field_text float_repr req "dest_uid" "") in
  loads body = Ok (JObj req) → od_get req "url" = Some (JStr url) → url ≠ "" →
  dst ≠ "" → String.length dst ≤ 80 →
  (page_extract float_repr getpwuid g w p body).2 = Err SX_value_error ↔
  isdigit dst = true ∧ forall_char is_digit dst = false.
Proof.
  intros dst Hl Hu Hne Hd Hlen.
  assert (share_body float_repr getpwuid body = let* d := share_dest getpwuid dst in Ok (inr (req, d))) as Hb.
  { unfold share_body. rewrite Hl, Hu, (proj2 (truthy_true url)) by done. cbn [negb]. fold dst.
    rewrite (proj2 (truthy_true dst)), (proj2 (Nat.ltb_ge _ _)) by done. done. }
  unfold page_extract. rewrite Hb. unfold share_dest. destruct (isdigit dst) eqn:Hi.
  - rewrite py_int_isdigit by done. destruct (forall_char is_digit dst); cbn [result_bind].
    + destruct (L.check _ _ _ _) as [rl []]; cbn [negb]; [|split; [done|by intros [_ ?]]].
      rewrite rule_verdict_spec. case_bool_decide; split; (done || by intros [_ ?]).
    + done.
  - cbn [result_bind]. destruct (L.check _ _ _ _) as [rl []]; cbn [negb]; [|split; [done|by intros [? _]]].
    rewrite rule_verdict_spec. case_bool_decide; split; (done || by intros [? _]).
Qed.
End share.

(** ** Concrete instances *)

Lemma registered_launch_resolves_witness :
  V.sj_silo (V.resolve_subject V.sample_live 200 (Some 42%Z)
    (Some (records (register_launch demo_state demo_world (Some demo_shell) "r9" "play" "qdistro.tier1" "game" "" ""
       42 "" 900).1))).1 = "play".
Proof.
  destruct (register_launch demo_state demo_world (Some demo_shell) "r9" "play" "qdistro.tier1" "game" "" "" 42 "" 900)
    as [g' r] eqn:Hr.
  assert (r = Ok "r9") as -> by (rewrite <- (f_equal snd Hr : _ = r); vm_compute; reflexivity).
  destruct (registered_launch_resolves demo_state demo_world (Some demo_shell) "r9" "play" "qdistro.tier1" "game" "" ""
    42 "" 900 g' "r9" V.sample_live 200 demo_wf eq_refl ltac:(done) Hr ltac:(by split_and!) ltac:(right; reflexivity))
    as [[_ Hfit] Hcols].
  apply Hcols, Hfit. split_and!; apply Nat.leb_le; vm_compute; reflexivity.
Defined.

Definition demo_share (dest : string) : string :=
  dumps (spaced false) (JObj [("url", JStr "https://example.org"); ("dest_uid", JStr dest)]).

Lemma share_allow_justified_witness :
  (page_extract id (λ _, None) demo_state demo_world demo_shell (demo_share "home")).2 = Ok (SA_refused "policy_denied") ∧
  accounts demo_world demo_shell (Some false) demo_state
    (page_extract id (λ _, None) demo_state demo_world demo_shell (demo_share "home")).1.
Proof.
  destruct (page_extract id (λ _, None) demo_state demo_world demo_shell (demo_share "home")) as [g' r] eqn:Hr.
  assert (r = Ok (SA_refused "policy_denied")) as -> by (rewrite <- (f_equal snd Hr : _ = r); vm_compute; reflexivity).
  split; [reflexivity|].
  destruct (share_allow_justified id (λ _, None) demo_state demo_world demo_shell (demo_share "home") g' _ Hr)
    as [_ [[Hb _]|(_ & req & dst & _ & _ & _ & H)]]; [vm_compute in Hb; discriminate Hb|exact H].
Defined.

Lemma share_dest_raises_witness :
  (page_extract id (λ _, None) demo_state demo_world demo_shell (demo_share (String (ascii_of_N 178) ""))).2
  = Err SX_value_error.
Proof.
  apply (share_dest_raises id (λ _, None) demo_state demo_world demo_shell (demo_share (String (ascii_of_N 178) ""))
    [("url", JStr "https://example.org"); ("dest_uid", JStr (String (ascii_of_N 178) ""))] "https://example.org").
  - vm_compute. reflexivity.
  - reflexivity.
  - discriminate.
  - discriminate.
  - apply Nat.leb_le. vm_compute. reflexivity.
  - split; vm_compute; reflexivity.
Defined.

End GateClients.
