(* ===== verification/PyText.v ===== *)
(** * Text helpers of Python

    The string methods and conversions the workflow sources use, on strings of code points
    below 256: [split], [partition], [strip], [isdigit], [repr] and [str] of plain values. *)

From S2P Require Import Prelude Json LineageStore.
Import Json.

Module PyText.

Abbreviation py_space := Lineage.py_space.
Abbreviation py_int := Lineage.py_int.

(** [str.strip()] *)
Definition py_strip (s : string) : string := Lineage.rstrip (Lineage.lstrip s).

(** [s.split(c)] for a single character *)
Fixpoint split_char (c : ascii) (s : string) : list string :=
  match s with
  | "" => [""]
  | String d s' =>
      if bool_decide (d = c) then "" :: split_char c s'
      else match split_char c s' with w :: ws => String d w :: ws | [] => [String d ""] end
  end.

(** [s.partition(c)], without the separator: the text before it, and after it when it occurs *)
Fixpoint partition_char (c : ascii) (s : string) : string * option string :=
  match s with
  | "" => ("", None)
  | String d s' =>
      if bool_decide (d = c) then ("", Some s')
      else let '(a, b) := partition_char c s' in (String d a, b)
  end.

(** [s.split()]: the words between runs of white space *)
Fixpoint words_go (cur : string) (s : string) : list string :=
  match s with
  | "" => if truthy cur then [cur] else []
  | String c s' =>
      if py_space c then (if truthy cur then cur :: words_go "" s' else words_go "" s')
      else words_go (cur +:+ String c "") s'
  end.
Definition words (s : string) : list string := words_go "" s.

(** [str.lower()] of the letters below 256 *)
Definition lower_char (c : ascii) : ascii :=
  let n := ord c in
  if ((65 <=? n) && (n <=? 90) || ((192 <=? n) && (n <=? 222) && negb (n =? 215)))%N then ascii_of_N (n + 32) else c.
Fixpoint py_lower (s : string) : string :=
  match s with "" => "" | String c s' => String (lower_char c) (py_lower s') end.

(** [str.isdigit()]: the decimal digits and the three superscripts below 256 *)
Definition digit_like (c : ascii) : bool := is_digit c || bool_decide (ord c ∈ [178; 179; 185]%N).
Definition py_isdigit (s : string) : bool := truthy s && forall_char digit_like s.

(** [repr] of a string *)
Definition printable_char (c : ascii) : bool :=
  let n := ord c in ((32 <=? n) && (n <=? 126) || (161 <=? n) && negb (n =? 173))%N.
Definition repr_char (q c : ascii) : string :=
  let n := ord c in
  if bool_decide (c = q) || bool_decide (c = backslash) then String backslash (String c "")
  else if (n =? 10)%N then String backslash "n"
  else if (n =? 13)%N then String backslash "r"
  else if (n =? 9)%N then String backslash "t"
  else if printable_char c then String c ""
  else String backslash (String "x" (String (hex_digit (n / 16)) (String (hex_digit (n mod 16)) ""))).
Fixpoint repr_chars (q : ascii) (s : string) : string :=
  match s with "" => "" | String c s' => repr_char q c +:+ repr_chars q s' end.
Definition apostrophe : ascii := "'".
Definition repr_str (s : string) : string :=
  let q := if has_char apostrophe s && negb (has_char quote s) then quote else apostrophe in
  String q (repr_chars q s +:+ String q "").

(** [repr] and [str] of a plain value; a float is written with the text it was read from *)
Fixpoint py_repr (v : pyval) : string :=
  match v with
  | PNone => "None"
  | PBool b => if b then "True" else "False"
  | PInt z => pretty z
  | PFloat x => x
  | PStr s => repr_str s
  | PList l => "[" +:+ join ", " (py_repr <$> l) +:+ "]"
  | PDict d => "{" +:+ join ", " ((λ '(k, x), py_repr k +:+ ": " +:+ py_repr x) <$> d) +:+ "}"
  end.
Definition py_str (v : pyval) : string := match v with PStr s => s | _ => py_repr v end.

(** ** Facts *)

Lemma split_char_nonempty c s : split_char c s ≠ [].
Proof. destruct s as [|d s]; simpl; [done|]. case_bool_decide; [done|]. by destruct (split_char c s). Qed.

(** Text without the separator is one piece *)
Lemma split_char_none c s : has_char c s = false → split_char c s = [s].
Proof.
  induction s as [|d s IH]; simpl; [done|]. case_bool_decide as Hd; [done|]. intros H. by rewrite IH.
Qed.
Lemma split_char_app c s t : has_char c s = false → split_char c (s +:+ String c t) = s :: split_char c t.
Proof.
  induction s as [|d s IH].
  - intros _. rewrite str_app_nil_l. simpl. by rewrite bool_decide_true.
  - rewrite str_app_cons. simpl. case_bool_decide as Hd; [done|]. intros H. by rewrite IH.
Qed.
Lemma partition_char_none c s : has_char c s = false → partition_char c s = (s, None).
Proof.
  induction s as [|d s IH]; simpl; [done|]. case_bool_decide as Hd; [done|]. intros H. by rewrite IH.
Qed.
Lemma partition_char_app c s t : has_char c s = false → partition_char c (s +:+ String c t) = (s, Some t).
Proof.
  induction s as [|d s IH].
  - intros _. rewrite str_app_nil_l. simpl. by rewrite bool_decide_true.
  - rewrite str_app_cons. simpl. case_bool_decide as Hd; [done|]. intros H. by rewrite IH.
Qed.

Lemma has_char_app c s t : has_char c (s +:+ t) = has_char c s || has_char c t.
Proof. induction s as [|d s IH]; simpl; [done|]. rewrite IH. by rewrite orb_assoc. Qed.

(** Text without white space is its own strip *)
Lemma lstrip_plain s : forall_char (λ c, negb (py_space c)) s = true → Lineage.lstrip s = s.
Proof. destruct s as [|c s]; [done|]. simpl. intros [Hc _]%andb_true_iff. by destruct (py_space c). Qed.
Lemma rstrip_no_space s : forall_char (λ c, negb (py_space c)) s = true → Lineage.rstrip s = s.
Proof.
  induction s as [|c s IH]; [done|]. simpl. intros [Hc Hs]%andb_true_iff. rewrite IH by done.
  destruct s; [|done]. by destruct (py_space c).
Qed.
Lemma py_strip_plain s : forall_char (λ c, negb (py_space c)) s = true → py_strip s = s.
Proof. intros H. unfold py_strip. by rewrite lstrip_plain, rstrip_no_space. Qed.

End PyText.
