(* ===== verification/WfCron.v ===== *)
(** * Cron schedules (cron_parser.py, and the schedule of a CronTrigger)

    The five-field parser, the matcher and the forward search for the next fire time, over
    the calendar of Python's [datetime]. The calendar is the proleptic Gregorian one the
    Standard Library computes with, from year 1 to year 9999. *)

From S2P Require Import Prelude Json LineageStore LineageChain PyText.
From Stdlib Require Import ZArith Lia.

Module Cron.
Import Json PyText.
Open Scope Z_scope.

(** ** The calendar of [datetime] *)

Record datetime := DT {
  year : Z; month : Z; day : Z; hour : Z; minute : Z; second : Z; microsecond : Z;
}.
#[export] Instance datetime_eq_dec : EqDecision datetime.
Proof. solve_decision. Defined.

Definition is_leap (y : Z) : bool :=
  (y mod 4 =? 0) && (negb (y mod 100 =? 0) || (y mod 400 =? 0)).
Definition days_before_year (y : Z) : Z :=
  let y := y - 1 in y * 365 + y / 4 - y / 100 + y / 400.
Definition month_days (m : Z) : Z :=
  match m with
  | 2 => 28
  | 4 | 6 | 9 | 11 => 30
  | _ => 31
  end.
Definition month_start (m : Z) : Z :=
  match m with
  | 1 => 0 | 2 => 31 | 3 => 59 | 4 => 90 | 5 => 120 | 6 => 151
  | 7 => 181 | 8 => 212 | 9 => 243 | 10 => 273 | 11 => 304 | _ => 334
  end.
Definition days_in_month (y m : Z) : Z :=
  if (m =? 2) && is_leap y then 29 else month_days m.
Definition days_before_month (leap : bool) (m : Z) : Z :=
  month_start m + (if (2 <? m) && leap then 1 else 0).
Definition ymd2ord (y m d : Z) : Z :=
  days_before_year y + days_before_month (is_leap y) m + d.

(** The month and day of the [n]-th day of a year, from 0 *)
Definition month_of_day (leap : bool) (n : Z) : Z * Z :=
  let m := Z.shiftr (n + 50) 5 in
  let preceding := days_before_month leap m in
  if n <? preceding then
    let m := m - 1 in
    let preceding := preceding - (month_days m + (if (m =? 2) && leap then 1 else 0)) in
    (m, n - preceding + 1)
  else (m, n - preceding + 1).

Definition ord2ymd (n : Z) : Z * Z * Z :=
  let n := n - 1 in
  let n400 := n / 146097 in let n := n mod 146097 in
  let n100 := n / 36524 in let n := n mod 36524 in
  let n4 := n / 1461 in let n := n mod 1461 in
  let n1 := n / 365 in let n := n mod 365 in
  let y := n400 * 400 + 1 + n100 * 100 + n4 * 4 + n1 in
  if (n1 =? 4) || (n100 =? 4) then (y - 1, 12, 31)
  else
    let leap := (n1 =? 3) && (negb (n4 =? 24) || (n100 =? 3)) in
    let '(m, d) := month_of_day leap n in (y, m, d).

Definition toordinal (t : datetime) : Z := ymd2ord (year t) (month t) (day t).
Definition weekday (t : datetime) : Z := (toordinal t + 6) mod 7.
Definition MAXORDINAL : Z := 3652059.

Definition valid_dt (t : datetime) : Prop :=
  (1 <= year t <= 9999) /\ (1 <= month t <= 12) /\ (1 <= day t <= days_in_month (year t) (month t)) /\
  (0 <= hour t < 24) /\ (0 <= minute t < 60) /\ (0 <= second t < 60) /\ (0 <= microsecond t < 1000000).

(** ** Exceptions *)

Inductive cron_error :=
| CE_empty_term (spec : string)
| CE_bad_step (part : string)
| CE_step_positive (part : string)
| CE_bad_range (base : string)
| CE_bad_value (base : string)
| CE_start_end (base : string)
| CE_bounds (lo hi : Z) (part : string)
| CE_fields (n : nat)
| CE_no_match.
Inductive exn := CronParseError (e : cron_error) | OverflowError.

(** [t + timedelta(minutes=1)] *)
Definition add_minute (t : datetime) : result exn datetime :=
  let secs := hour t * 3600 + minute t * 60 + second t + 60 in
  let n := toordinal t + secs / 86400 in
  let s := secs mod 86400 in
  if (0 <? n) && (n <=? MAXORDINAL) then
    let '(y, m, d) := ord2ymd n in
    Ok (DT y m d (s / 3600) (s mod 3600 / 60) (s mod 60) (microsecond t))
  else Err OverflowError.

(** [t.replace(second=0, microsecond=0)] *)
Definition on_the_minute (t : datetime) : datetime :=
  DT (year t) (month t) (day t) (hour t) (minute t) 0 0.

(** ** Parsing *)

Definition FIELD_BOUNDS : list (Z * Z) := [(0, 59); (0, 23); (1, 31); (1, 12); (0, 6)].

(** [range(start, stop, step)] of a positive step *)
Definition py_range (start stop step : Z) : list Z :=
  (λ i, start + i * step) <$> seqZ 0 (if start <? stop then (stop - start - 1) / step + 1 else 0).

Definition int_or (e : cron_error) (s : string) : result cron_error Z :=
  match py_int s with Some z => Ok z | None => Err e end.

Definition slash : ascii := "/".
Definition dash : ascii := "-".
Definition comma : ascii := ",".

(** The base of a term and its step *)
Definition parse_step (part : string) : result cron_error (string * Z) :=
  match partition_char slash part with
  | (base, Some step_s) =>
      let* step := int_or (CE_bad_step part) step_s in
      if step <=? 0 then Err (CE_step_positive part) else Ok (base, step)
  | (base, None) => Ok (base, 1)
  end.

(** The bounds a base names *)
Definition parse_base (lo hi : Z) (base : string) : result cron_error (Z * Z) :=
  if bool_decide (base = "*") then Ok (lo, hi)
  else match partition_char dash base with
       | (a, Some b) =>
           let* s := int_or (CE_bad_range base) a in
           let* e := int_or (CE_bad_range base) b in
           Ok (s, e)
       | (_, None) => let* v := int_or (CE_bad_value base) base in Ok (v, v)
       end.

(** One term of [_parse_field] *)
Definition parse_term (spec : string) (lo hi : Z) (is_dow : bool) (part : string) : result cron_error (list Z) :=
  let part := py_strip part in
  let parse_hi := if is_dow then 7 else hi in
  if negb (truthy part) then Err (CE_empty_term spec)
  else
    let* bs := parse_step part in
    let '(base, step) := bs in
    let* se := parse_base lo hi base in
    let '(s, e) := se in
    if e <? s then Err (CE_start_end base)
    else if (s <? lo) || (parse_hi <? e) then Err (CE_bounds lo parse_hi part)
    else Ok ((λ v, if is_dow && (v =? 7) then 0 else v) <$> py_range s (e + 1) step).

Fixpoint parse_terms (spec : string) (lo hi : Z) (is_dow : bool) (parts : list string) (values : gset Z) : result cron_error (gset Z) :=
  match parts with
  | [] => Ok values
  | p :: ps => let* vs := parse_term spec lo hi is_dow p in parse_terms spec lo hi is_dow ps (values ∪ list_to_set vs)
  end.

(** [_parse_field] *)
Definition parse_field (spec : string) (lo hi : Z) (is_dow : bool) : result cron_error (gset Z) :=
  parse_terms spec lo hi is_dow (split_char comma spec) ∅.

Record CronExpr := {
  minutes : gset Z;
  hours : gset Z;
  doms : gset Z;
  months : gset Z;
  dows : gset Z;
  dom_restricted : bool;
  dow_restricted : bool;
}.

(** [CronExpr.__init__] *)
Definition parse_cron (expr : string) : result cron_error CronExpr :=
  match words expr with
  | [f0; f1; f2; f3; f4] =>
      let* minutes := parse_field f0 0 59 false in
      let* hours := parse_field f1 0 23 false in
      let* doms := parse_field f2 1 31 false in
      let* months := parse_field f3 1 12 false in
      let* dows := parse_field f4 0 6 true in
      Ok {| minutes := minutes; hours := hours; doms := doms; months := months; dows := dows;
            dom_restricted := negb (bool_decide (py_strip f2 = "*"));
            dow_restricted := negb (bool_decide (py_strip f4 = "*")) |}
  | fields => Err (CE_fields (length fields))
  end.

(** ** Matching and searching *)

(** [CronExpr.matches] *)
Definition matches (c : CronExpr) (t : datetime) : bool :=
  if negb (bool_decide (minute t ∈ minutes c)) then false
  else if negb (bool_decide (hour t ∈ hours c)) then false
  else if negb (bool_decide (month t ∈ months c)) then false
  else
    let dom_ok := bool_decide (day t ∈ doms c) in
    let dow_ok := bool_decide ((weekday t + 1) mod 7 ∈ dows c) in
    if dom_restricted c && dow_restricted c then dom_ok || dow_ok else dom_ok && dow_ok.

Definition MAX_SEARCH_MINUTES : nat := Z.to_nat (4 * 366 * 24 * 60).

(** The loop of [next_after] *)
Fixpoint search (c : CronExpr) (n : nat) (t : datetime) : result exn datetime :=
  match n with
  | O => Err (CronParseError CE_no_match)
  | S n' =>
      if matches c t then Ok t
      else match add_minute t with Ok t' => search c n' t' | Err e => Err e end
  end.

(** [CronExpr.next_after] *)
Definition next_after (c : CronExpr) (after : datetime) : result exn datetime :=
  match add_minute after with
  | Ok t => search c MAX_SEARCH_MINUTES (on_the_minute t)
  | Err e => Err e
  end.

(** The cron of a [CronTrigger], probed once at its construction; without one the trigger
    fires every [interval_seconds]. An overflow is not caught. *)
Definition trigger_cron (schedule : string) (now : datetime) : result exn (option CronExpr) :=
  let schedule := py_strip schedule in
  if negb (truthy schedule) then Ok None
  else match parse_cron schedule with
       | Err _ => Ok None
       | Ok c => match next_after c now with
                 | Ok _ => Ok (Some c)
                 | Err (CronParseError _) => Ok None
                 | Err OverflowError => Err OverflowError
                 end
       end.

(** ** The calendar is a bijection between days and ordinals *)

Definition year_days (leap : bool) : Z := if leap then 366 else 365.
Definition mdays (leap : bool) (m : Z) : Z := month_days m + (if (m =? 2) && leap then 1 else 0).

Definition day_ok (leap : bool) (n : Z) : bool :=
  let '(m, d) := month_of_day leap n in
  (1 <=? m) && (m <=? 12) && (1 <=? d) && (d <=? mdays leap m) && (days_before_month leap m + d =? n + 1).
Lemma days_ok_common : forallb (day_ok false) (seqZ 0 365) = true.
Proof. by vm_compute. Qed.
Lemma days_ok_leap : forallb (day_ok true) (seqZ 0 366) = true.
Proof. by vm_compute. Qed.
Lemma month_of_day_ok leap n : 0 <= n < year_days leap → day_ok leap n = true.
Proof.
  intros Hn. assert (forallb (day_ok leap) (seqZ 0 (year_days leap)) = true) as Hall.
  { destruct leap; [exact days_ok_leap|exact days_ok_common]. }
  rewrite forallb_forall in Hall. apply Hall, list_elem_of_In, elem_of_seqZ. lia.
Qed.

(** The first day of a month *)
Definition month_ok (leap : bool) (m : Z) : bool :=
  forallb (λ d, bool_decide (month_of_day leap (days_before_month leap m + d - 1) = (m, d)) &&
    (0 <=? days_before_month leap m) && (days_before_month leap m + d <=? year_days leap)) (seqZ 1 (mdays leap m)).
Lemma months_ok leap : forallb (month_ok leap) (seqZ 1 12) = true.
Proof. destruct leap; by vm_compute. Qed.
Lemma month_of_day_inv leap m d :
  1 <= m <= 12 → 1 <= d <= mdays leap m →
  month_of_day leap (days_before_month leap m + d - 1) = (m, d) /\
  0 <= days_before_month leap m + d - 1 < year_days leap.
Proof.
  intros Hm Hd. pose proof (months_ok leap) as Hall. rewrite forallb_forall in Hall.
  specialize (Hall m). rewrite <- list_elem_of_In, elem_of_seqZ in Hall. specialize (Hall ltac:(lia)).
  unfold month_ok in Hall. rewrite forallb_forall in Hall. specialize (Hall d).
  rewrite <- list_elem_of_In, elem_of_seqZ in Hall. specialize (Hall ltac:(lia)).
  apply andb_true_iff in Hall as [[H1%bool_decide_eq_true H2]%andb_true_iff H3]. split; [done|lia].
Qed.

Lemma days_in_month_mdays y m : days_in_month y m = mdays (is_leap y) m.
Proof.
  unfold days_in_month, mdays. destruct (Z.eqb_spec m 2) as [->|]; simpl; [|lia]. by destruct (is_leap y).
Qed.

(** A year in the digits of the 400, 100, 4 and 1 year cycles *)
Definition of_digits (a b c e : Z) : Z := 400 * a + 100 * b + 4 * c + e + 1.
Lemma digits_before a b c e :
  0 <= b <= 3 → 0 <= c <= 24 → 0 <= e <= 3 →
  days_before_year (of_digits a b c e) = 146097 * a + 36524 * b + 1461 * c + 365 * e.
Proof. intros. unfold days_before_year, of_digits. cbv zeta. Z.to_euclidean_division_equations. lia. Qed.
Lemma digits_leap a b c e :
  0 <= b <= 3 → 0 <= c <= 24 → 0 <= e <= 3 →
  is_leap (of_digits a b c e) = (e =? 3) && (negb (c =? 24) || (b =? 3)).
Proof.
  intros Hb Hc He. unfold is_leap, of_digits.
  assert ((400 * a + 100 * b + 4 * c + e + 1) mod 4 = (e + 1) mod 4) as -> by (Z.to_euclidean_division_equations; lia).
  assert ((400 * a + 100 * b + 4 * c + e + 1) mod 100 = (4 * c + e + 1) mod 100) as -> by (Z.to_euclidean_division_equations; lia).
  assert ((400 * a + 100 * b + 4 * c + e + 1) mod 400 = (100 * b + 4 * c + e + 1) mod 400) as -> by (Z.to_euclidean_division_equations; lia).
  destruct (Z.eqb_spec e 3) as [->|He3]; cbn [andb].
  - destruct (Z.eqb_spec c 24) as [->|Hc3]; cbn [negb orb].
    + destruct (Z.eqb_spec b 3) as [->|Hb3]; [done|]. change ((4 * 24 + 3 + 1) mod 100) with 0. simpl.
      apply Z.eqb_neq. Z.to_euclidean_division_equations; lia.
    + replace ((4 * c + 3 + 1) mod 100) with (4 * c + 4) by (Z.to_euclidean_division_equations; lia).
      rewrite (proj2 (Z.eqb_neq (4 * c + 4) 0)) by lia. done.
  - rewrite (proj2 (Z.eqb_neq ((e + 1) mod 4) 0)); [done|]. Z.to_euclidean_division_equations; lia.
Qed.
Lemma year_digits y : exists a b c e, 0 <= b <= 3 /\ 0 <= c <= 24 /\ 0 <= e <= 3 /\ y = of_digits a b c e.
Proof.
  exists ((y - 1) / 400), ((y - 1) mod 400 / 100), ((y - 1) mod 100 / 4), ((y - 1) mod 4).
  unfold of_digits. Z.to_euclidean_division_equations. lia.
Qed.

(** Division of a number written as quotient and remainder *)
Lemma div_digit q a r : 0 <= r < q → (q * a + r) / q = a /\ (q * a + r) mod q = r.
Proof. intros Hr. split; symmetry; [apply (Z.div_unique _ _ _ r)|apply (Z.mod_unique _ _ a)]; lia. Qed.

Lemma ord2ymd_digits a b c e n :
  0 <= b <= 3 → 0 <= c <= 24 → 0 <= e <= 3 →
  let y := of_digits a b c e in
  0 <= n < year_days (is_leap y) →
  ord2ymd (days_before_year y + n + 1) = let '(m, d) := month_of_day (is_leap y) n in (y, m, d).
Proof.
  intros Hb Hc He y Hn. subst y. rewrite digits_before by done. rewrite digits_leap in * by done. unfold year_days in Hn.
  unfold ord2ymd. cbv zeta.
  replace (146097 * a + 36524 * b + 1461 * c + 365 * e + n + 1 - 1) with
    (146097 * a + (36524 * b + (1461 * c + (365 * e + n)))) by lia.
  set (leap := (e =? 3) && (negb (c =? 24) || (b =? 3))) in *.
  assert (leap = true ↔ e = 3 /\ (c <> 24 \/ b = 3)) as Hleap by (subst leap; lia).
  destruct (decide (n = 365)) as [->|Hn365].
  { destruct leap; [|lia]. clear Hn. destruct (proj1 Hleap eq_refl) as [-> Hcb].
    destruct (div_digit 146097 a (36524 * b + (1461 * c + (365 * 3 + 365)))) as [-> ->]; [lia|].
    destruct (decide (c = 24)) as [->|Hc24].
    - assert (b = 3) as -> by lia. change (36524 * 3 + (1461 * 24 + (365 * 3 + 365))) with 146096.
      change (146096 / 36524) with 4. change (146096 mod 36524) with 0. change (0 / 1461 * 4) with 0. change (0 mod 1461 / 365) with 0.
      rewrite orb_true_r. f_equal. f_equal. unfold of_digits. lia.
    - destruct (div_digit 36524 b (1461 * c + (365 * 3 + 365))) as [-> ->]; [lia|].
      destruct (div_digit 1461 c (365 * 3 + 365)) as [-> ->]; [lia|].
      change ((365 * 3 + 365) / 365) with 4. change (4 =? 4) with true. cbn [orb]. f_equal. f_equal. unfold of_digits. lia. }
  assert (0 <= n < 365) by (destruct leap; lia).
  assert (365 * e + n < 1461) by lia.
  assert (1461 * c + (365 * e + n) < 36524) by (destruct leap; lia).
  destruct (div_digit 146097 a (36524 * b + (1461 * c + (365 * e + n)))) as [-> ->]; [lia|].
  destruct (div_digit 36524 b (1461 * c + (365 * e + n))) as [-> ->]; [lia|].
  destruct (div_digit 1461 c (365 * e + n)) as [-> ->]; [lia|].
  destruct (div_digit 365 e n) as [-> ->]; [lia|].
  rewrite (proj2 (Z.eqb_neq e 4)), (proj2 (Z.eqb_neq b 4)) by lia. cbn [orb]. fold leap.
  destruct (month_of_day leap n). f_equal. f_equal. unfold of_digits. lia.
Qed.

Lemma ord2ymd_ymd2ord y m d :
  1 <= m <= 12 → 1 <= d <= days_in_month y m → ord2ymd (ymd2ord y m d) = (y, m, d).
Proof.
  intros Hm Hd. rewrite days_in_month_mdays in Hd. destruct (month_of_day_inv _ _ _ Hm Hd) as [Hmd Hr].
  destruct (year_digits y) as (a & b & c & e & Hb & Hc & He & ->).
  pose proof (ord2ymd_digits a b c e _ Hb Hc He Hr) as Ho. rewrite Hmd in Ho. rewrite <- Ho. f_equal. unfold ymd2ord. lia.
Qed.

Lemma year_length y : days_before_year (y + 1) = days_before_year y + year_days (is_leap y).
Proof.
  destruct (year_digits y) as (a & b & c & e & Hb & Hc & He & ->). rewrite digits_leap by done.
  unfold days_before_year, of_digits, year_days. cbv zeta.
  destruct (Z.eqb_spec e 3), (Z.eqb_spec c 24), (Z.eqb_spec b 3); subst; cbn [andb orb negb]; Z.to_euclidean_division_equations; lia.
Qed.

(** Every ordinal is the ordinal of a date *)
Lemma ordinal_date n : exists y m d,
  1 <= m <= 12 /\ 1 <= d <= days_in_month y m /\ ymd2ord y m d = n.
Proof.
  set (k := n - 1). assert (exists y, days_before_year y <= k < days_before_year (y + 1)) as [y Hy].
  { set (g := 400 * k / 146097 + 1). assert (days_before_year (g - 1) <= k < days_before_year (g + 2)) as Hg.
    { subst g. unfold days_before_year. cbv zeta. Z.to_euclidean_division_equations. lia. }
    destruct (decide (k < days_before_year g)); [exists (g - 1); replace (g - 1 + 1) with g by lia; lia|].
    destruct (decide (k < days_before_year (g + 1))); [exists g; lia|]. exists (g + 1). replace (g + 1 + 1) with (g + 2) by lia. lia. }
  pose proof (year_length y) as Hnext.
  pose proof (month_of_day_ok (is_leap y) (k - days_before_year y) ltac:(lia)) as Hok. unfold day_ok in Hok.
  destruct (month_of_day _ _) as [m d]. exists y, m, d. rewrite days_in_month_mdays. unfold ymd2ord. lia.
Qed.

Lemma days_before_mono y y' : y <= y' → days_before_year y <= days_before_year y'.
Proof. intros H. unfold days_before_year. cbv zeta. Z.to_euclidean_division_equations. lia. Qed.

Lemma ymd2ord_year y m d :
  1 <= m <= 12 → 1 <= d <= days_in_month y m → days_before_year y < ymd2ord y m d <= days_before_year (y + 1).
Proof.
  intros Hm Hd. rewrite days_in_month_mdays in Hd. destruct (month_of_day_inv _ _ _ Hm Hd) as [_ Hr].
  assert (days_before_year (y + 1) = days_before_year y + year_days (is_leap y)) as -> by apply year_length.
  unfold ymd2ord. lia.
Qed.
Lemma ordinal_range y m d :
  1 <= m <= 12 → 1 <= d <= days_in_month y m → (1 <= y <= 9999 <-> 1 <= ymd2ord y m d <= MAXORDINAL).
Proof.
  intros Hm Hd. pose proof (ymd2ord_year y m d Hm Hd) as Hr.
  assert (days_before_year 1 = 0) as H1 by done. assert (days_before_year 10000 = MAXORDINAL) as H2 by done. split; intros Hy.
  - pose proof (days_before_mono 1 y ltac:(lia)). pose proof (days_before_mono (y + 1) 10000 ltac:(lia)). lia.
  - destruct (decide (y < 1)); [pose proof (days_before_mono (y + 1) 1 ltac:(lia)); lia|].
    destruct (decide (9999 < y)); [pose proof (days_before_mono 10000 y ltac:(lia)); lia|]. lia.
Qed.

(** ** Minutes *)

(** The number of the minute a moment lies in *)
Definition stamp (t : datetime) : Z := toordinal t * 1440 + hour t * 60 + minute t.
(** The number of the microsecond, which orders moments *)
Definition instant (t : datetime) : Z := (stamp t * 60 + second t) * 1000000 + microsecond t.
Definition whole (t : datetime) : Prop := second t = 0 /\ microsecond t = 0.
Definition last_minute : Z := MAXORDINAL * 1440 + 1439.

Lemma valid_ordinal t : valid_dt t → 1 <= toordinal t <= MAXORDINAL.
Proof. intros (Hy & Hm & Hd & _). by apply ordinal_range. Qed.
Lemma stamp_range t : valid_dt t → 1440 <= stamp t <= last_minute.
Proof. intros Hv. pose proof (valid_ordinal t Hv). destruct Hv as (_ & _ & _ & Hh & Hmi & _). unfold stamp, last_minute. lia. Qed.

Lemma stamp_inj t u : valid_dt t → valid_dt u → whole t → whole u → stamp t = stamp u → t = u.
Proof.
  intros (Hy & Hm & Hd & Hh & Hmi & _) (Hy' & Hm' & Hd' & Hh' & Hmi' & _) [Hs Hu] [Hs' Hu'] He. unfold stamp in He.
  assert (toordinal t = toordinal u /\ hour t = hour u /\ minute t = minute u) as (Ho & Hhe & Hme) by lia.
  unfold toordinal in Ho. pose proof (ord2ymd_ymd2ord _ _ _ Hm Hd) as H1. rewrite Ho, ord2ymd_ymd2ord in H1 by done.
  destruct t, u; simpl in *. congruence.
Qed.

Lemma add_minute_ok t t' :
  valid_dt t → add_minute t = Ok t' →
  valid_dt t' /\ stamp t' = stamp t + 1 /\ second t' = second t /\ microsecond t' = microsecond t.
Proof.
  intros Hv H. unfold add_minute in H. cbv zeta in H. set (n := toordinal t + _) in H.
  case_match eqn:Hn; [|done]. apply andb_true_iff in Hn as [Hn1 Hn2].
  destruct (ordinal_date n) as (y & m & d & Hm & Hd & Ho). rewrite <- Ho, ord2ymd_ymd2ord in H by done. injection H as <-.
  assert (1 <= y <= 9999) as Hy by (apply (ordinal_range y m d); lia).
  destruct Hv as (_ & _ & _ & Hh & Hmi & Hs & Hu). unfold valid_dt, stamp, toordinal. cbn [year month day hour minute second microsecond].
  rewrite Ho. subst n. fold (toordinal t). clear Hn1 Hn2 Ho. repeat split; try lia.
  all: Z.to_euclidean_division_equations; lia.
Qed.

Lemma add_minute_err t e : valid_dt t → add_minute t = Err e → e = OverflowError /\ stamp t = last_minute.
Proof.
  intros Hv H. unfold add_minute in H. cbv zeta in H. set (n := toordinal t + _) in H.
  case_match eqn:Hn; [by destruct (ord2ymd n) as [[??]?]|]. injection H as <-. split; [done|].
  pose proof (valid_ordinal t Hv). destruct Hv as (_ & _ & _ & Hh & Hmi & Hs & Hu).
  apply andb_false_iff in Hn. unfold stamp, last_minute. subst n. Z.to_euclidean_division_equations. lia.
Qed.

Lemma on_the_minute_ok t : valid_dt t → valid_dt (on_the_minute t) /\ stamp (on_the_minute t) = stamp t /\ whole (on_the_minute t).
Proof.
  intros (Hy & Hm & Hd & Hh & Hmi & _). repeat split; simpl; try lia; try apply Hd.
Qed.

(** ** The search *)

(** What the search of [n] minutes from [t] on answers *)
Lemma search_spec c n t :
  valid_dt t → whole t →
  match search c n t with
  | Ok u => valid_dt u /\ whole u /\ matches c u = true /\ stamp t <= stamp u < stamp t + Z.of_nat n /\
            ∀ v, valid_dt v → whole v → stamp t <= stamp v < stamp u → matches c v = false
  | Err (CronParseError e) => e = CE_no_match /\
            ∀ v, valid_dt v → whole v → stamp t <= stamp v < stamp t + Z.of_nat n → matches c v = false
  | Err OverflowError => ∀ v, valid_dt v → whole v → stamp t <= stamp v → matches c v = false
  end.
Proof.
  revert t. induction n as [|n IH]; intros t Hv Hw; cbn [search].
  { split; [done|]. intros v _ _ H. lia. }
  destruct (matches c t) eqn:Hm.
  { split; [done|]. split; [done|]. split; [done|]. split; [lia|]. intros v _ _ H. lia. }
  assert (∀ v, valid_dt v → whole v → stamp v = stamp t → matches c v = false) as Hhere.
  { intros v Hvv Hvw He. by rewrite (stamp_inj v t). }
  destruct (add_minute t) as [t'|e] eqn:Ha.
  - apply add_minute_ok in Ha as (Hv' & Hst & Hs & Hu); [|done]. assert (whole t') as Hw' by (unfold whole in *; lia).
    specialize (IH t' Hv' Hw'). destruct (search c n t') as [u|[e|]].
    + destruct IH as (? & ? & ? & Hr & Hn). split; [done|]. split; [done|]. split; [done|]. split; [lia|].
      intros v Hvv Hvw Hvr. destruct (decide (stamp v = stamp t)); [by apply Hhere|]. apply Hn; [done..|lia].
    + destruct IH as [-> Hn]. split; [done|]. intros v Hvv Hvw Hvr.
      destruct (decide (stamp v = stamp t)); [by apply Hhere|]. apply Hn; [done..|lia].
    + intros v Hvv Hvw Hvr. destruct (decide (stamp v = stamp t)); [by apply Hhere|]. apply IH; [done..|lia].
  - apply add_minute_err in Ha as [-> Hl]; [|done]. intros v Hvv Hvw Hvr. apply Hhere; [done..|].
    pose proof (stamp_range v Hvv). lia.
Qed.

Lemma instant_stamp t u : valid_dt t → valid_dt u → whole u → (instant t < instant u <-> stamp t < stamp u).
Proof.
  intros (_ & _ & _ & _ & _ & Hs & Hu) _ [Hs' Hu']. unfold instant. rewrite Hs', Hu'. lia.
Qed.

Lemma next_after_first c after :
  valid_dt after →
  match next_after c after with
  | Ok t => valid_dt t /\ whole t /\ matches c t = true /\ instant after < instant t /\
            stamp t <= stamp after + 1464 * 1440 /\
            ∀ u, valid_dt u → whole u → instant after < instant u < instant t → matches c u = false
  | Err (CronParseError e) => e = CE_no_match /\
            ∀ u, valid_dt u → whole u → stamp after < stamp u <= stamp after + 1464 * 1440 → matches c u = false
  | Err OverflowError => ∀ u, valid_dt u → whole u → instant after < instant u → matches c u = false
  end.
Proof.
  intros Hv. unfold next_after. destruct (add_minute after) as [t|e] eqn:Ha.
  - apply add_minute_ok in Ha as (Hvt & Hst & _ & _); [|done]. destruct (on_the_minute_ok t Hvt) as (Hv1 & Hs1 & Hw1).
    pose proof (search_spec c MAX_SEARCH_MINUTES (on_the_minute t) Hv1 Hw1) as Hs. rewrite Hs1, Hst in Hs.
    assert (Z.of_nat MAX_SEARCH_MINUTES = 1464 * 1440) as Hmax by (unfold MAX_SEARCH_MINUTES; lia). rewrite Hmax in Hs.
    destruct (search _ _ _) as [u|[e|]].
    + destruct Hs as (Hvu & Hwu & Hmu & Hr & Hn). split; [done|]. split; [done|]. split; [done|]. split; [apply instant_stamp; [done..|lia]|]. split; [lia|].
      intros v Hvv Hvw [H1%instant_stamp H2%instant_stamp]; [|done..]. apply Hn; [done..|lia].
    + destruct Hs as [-> Hn]. split; [done|]. intros v Hvv Hvw Hvr. apply Hn; [done..|lia].
    + intros v Hvv Hvw H1%instant_stamp; [|done..]. apply Hs; [done..|lia].
  - apply add_minute_err in Ha as [-> Hl]; [|done]. intros v Hvv Hvw H1%instant_stamp; [|done..].
    pose proof (stamp_range v Hvv). lia.
Qed.

(** C39: The next fire time is exact. [next_after] answers the first whole minute strictly
    after the given moment that the expression matches: it matches, it lies in the next 1464
    days, and no whole minute in between matches. It raises CronParseError only when no whole minute of the next 1464 days
    matches, and OverflowError only when none matches up to the end of the calendar. *)
Theorem next_after_spec c after :
  valid_dt after →
  match next_after c after with
  | Ok t => valid_dt t /\ whole t /\ matches c t = true /\ instant after < instant t /\
            stamp t <= stamp after + 1464 * 1440 /\
            ∀ u, valid_dt u → whole u → instant after < instant u < instant t → matches c u = false
  | Err (CronParseError e) => e = CE_no_match /\
            ∀ u, valid_dt u → whole u → stamp after < stamp u <= stamp after + 1464 * 1440 → matches c u = false
  | Err OverflowError => ∀ u, valid_dt u → whole u → instant after < instant u → matches c u = false
  end.
Proof. apply next_after_first. Qed.

(** ** What is found, and what is not *)

(** A date that exists in every year and fits the day fields *)
Definition recurring (c : CronExpr) (m d : Z) : Prop :=
  1 <= m <= 12 /\ 1 <= d <= month_days m /\ m ∈ months c /\ d ∈ doms c /\
  (dom_restricted c && dow_restricted c = true \/ ∀ w, 0 <= w < 7 → w ∈ dows c).

Lemma recurring_matches c y m d h mi :
  recurring c m d → h ∈ hours c → mi ∈ minutes c → matches c (DT y m d h mi 0 0) = true.
Proof.
  intros (_ & _ & Hm & Hd & Hw) Hh Hmi. unfold matches. cbn [minute hour month day].
  rewrite !bool_decide_true by done. cbn [negb]. destruct (dom_restricted c && dow_restricted c) eqn:Hr; [done|]. cbn [andb].
  destruct Hw as [?|Hw]; [done|]. apply bool_decide_eq_true, Hw. apply Z.mod_pos_bound. lia.
Qed.

(** A schedule with a date that comes every year is always found: whatever the moment
    before year 9998, [next_after] returns. *)
Theorem next_after_finds c after m d h mi :
  valid_dt after → year after <= 9997 → recurring c m d →
  0 <= h < 24 → h ∈ hours c → 0 <= mi < 60 → mi ∈ minutes c →
  exists t, next_after c after = Ok t.
Proof.
  intros Hv Hy Hr Hh Hhc Hmi Hmc. set (u := DT (year after + 1) m d h mi 0 0).
  pose proof (recurring_matches c (year after + 1) m d h mi Hr Hhc Hmc : matches c u = true) as Hu. destruct Hr as (Hm & Hd & _).
  assert (d <= days_in_month (year after + 1) m) as Hd'.
  { unfold days_in_month. destruct (Z.eqb_spec m 2) as [->|]; cbn [andb]; [|lia]. destruct (is_leap _); simpl in Hd |- *; lia. }
  assert (valid_dt u) as Hvu by (subst u; destruct Hv as (? & _); unfold valid_dt; cbn; lia).
  assert (whole u) as Hwu by done.
  assert (stamp after < stamp u <= stamp after + 1464 * 1440) as Hs.
  { destruct Hv as (Hya & Hma & Hda & Hha & Hmia & _). pose proof (ymd2ord_year _ _ _ Hma Hda) as H1.
    pose proof (ymd2ord_year (year after + 1) m d Hm ltac:(lia)) as H2.
    pose proof (year_length (year after)) as H3. pose proof (year_length (year after + 1)) as H4.
    unfold stamp, toordinal. subst u. cbn [year month day hour minute]. unfold year_days in *. repeat case_match; lia. }
  pose proof (next_after_first c after Hv) as Hspec. destruct (next_after c after) as [t|[e|]]; [by eauto|exfalso..].
  - destruct Hspec as [_ Hn]. specialize (Hn u Hvu Hwu Hs). congruence.
  - specialize (Hspec u Hvu Hwu). rewrite Hspec in Hu; [done|]. apply instant_stamp; [done..|lia].
Qed.

Definition weekly : CronExpr :=
  {| minutes := {[30]}; hours := {[9; 17]}; doms := {[1; 15]}; months := {[3]}; dows := {[1]}; dom_restricted := true; dow_restricted := true |}.
Lemma weekly_recurring : recurring weekly 3 15 /\ 17 ∈ hours weekly /\ 30 ∈ minutes weekly.
Proof.
  unfold recurring, weekly. cbn [months doms hours minutes dom_restricted dow_restricted].
  repeat split; try (simpl; lia); try set_solver.
Qed.
Lemma next_after_finds_witness : exists t, next_after weekly (DT 2024 2 29 23 59 59 0) = Ok t.
Proof.
  apply (next_after_finds weekly (DT 2024 2 29 23 59 59 0) 3 15 17 30); try lia; try apply weekly_recurring.
  vm_compute; intuition discriminate.
Defined.
Lemma weekly_next : next_after weekly (DT 2024 3 15 17 28 59 0) = Ok (DT 2024 3 15 17 30 0 0).
Proof. by vm_compute. Qed.
Lemma next_after_spec_witness :
  next_after weekly (DT 2024 3 15 17 28 59 0) = Ok (DT 2024 3 15 17 30 0 0) /\ matches weekly (DT 2024 3 15 17 30 0 0) = true /\
  ∀ u, valid_dt u → whole u →
    instant (DT 2024 3 15 17 28 59 0) < instant u < instant (DT 2024 3 15 17 30 0 0) → matches weekly u = false.
Proof.
  assert (valid_dt (DT 2024 3 15 17 28 59 0)) as Hv by (vm_compute; intuition discriminate).
  pose proof (next_after_spec weekly (DT 2024 3 15 17 28 59 0) Hv) as H. rewrite weekly_next in H.
  destruct H as (_ & _ & Hm & _ & _ & H). split; [exact weekly_next|]. split; [exact Hm|exact H].
Defined.

(** The day part of a match with the day of the week left open *)
Definition date_fits (c : CronExpr) (n : Z) : bool :=
  let '(_, m, d) := ord2ymd n in bool_decide (m ∈ months c) && bool_decide (d ∈ doms c).
Lemma matches_date c t :
  valid_dt t → dow_restricted c = false → matches c t = true → date_fits c (toordinal t) = true.
Proof.
  intros (_ & Hm & Hd & _) Hr. unfold matches, date_fits, toordinal. rewrite ord2ymd_ymd2ord by done. rewrite Hr, andb_false_r.
  do 2 (case_match; [done|]). case_match eqn:E; [done|]. apply negb_false_iff in E. rewrite E. cbn [andb].
  by intros [? _]%andb_true_iff.
Qed.

Definition leap_day : string := "0 0 29 2 *".
Definition leap_expr : CronExpr :=
  {| minutes := {[0]}; hours := {[0]}; doms := {[29]}; months := {[2]}; dows := list_to_set (seqZ 0 7);
     dom_restricted := true; dow_restricted := false |}.
Lemma parse_leap_day : parse_cron leap_day = Ok leap_expr.
Proof. by vm_compute. Qed.
Lemma leap_2104 : matches leap_expr (DT 2104 2 29 0 0 0 0) = true.
Proof. by vm_compute. Qed.
Lemma no_leap_day :
  forallb (λ n, negb (date_fits leap_expr n)) (seqZ (ymd2ord 2096 3 1) 1466) = true.
Proof. by vm_compute. Qed.

(** A schedule can be satisfiable and still be given up. For the 29th of February, asked
    on the first of March 2096, the window of 1464 days ends before the next such day, in
    2104: [next_after] raises although a later minute matches, and the trigger drops the
    schedule and fires by its interval instead. *)
Theorem leap_schedule_lost :
  let now := DT 2096 3 1 12 0 0 0 in
  parse_cron leap_day = Ok leap_expr /\ matches leap_expr (DT 2104 2 29 0 0 0 0) = true /\
  next_after leap_expr now = Err (CronParseError CE_no_match) /\ trigger_cron leap_day now = Ok None.
Proof.
  set (now := DT 2096 3 1 12 0 0 0). cbv zeta. assert (valid_dt now) as Hv by (vm_compute; intuition discriminate).
  assert (next_after leap_expr now = Err (CronParseError CE_no_match)) as Hn.
  { pose proof (next_after_first leap_expr now Hv) as H. pose proof no_leap_day as Hd. rewrite forallb_forall in Hd.
    destruct (next_after leap_expr now) as [t|[e|]]; [exfalso|by destruct H as [-> _]|exfalso].
    - destruct H as (Ht & Hw & Hm & Hlt & Hle & _). apply instant_stamp in Hlt; [|done..].
      apply matches_date in Hm; [|done..]. specialize (Hd (toordinal t)). rewrite Hm in Hd.
      assert (toordinal t ∈ seqZ (ymd2ord 2096 3 1) 1466) as Hin%list_elem_of_In; [|by apply Hd in Hin].
      apply elem_of_seqZ. destruct Ht as (_ & _ & _ & Hh & Hmi & _). unfold stamp in *.
      change (toordinal now) with (ymd2ord 2096 3 1) in *. change (hour now) with 12 in *. change (minute now) with 0 in *. lia.
    - specialize (H (DT 2104 2 29 0 0 0 0)). rewrite leap_2104 in H. assert (true = false); [apply H|done].
      + vm_compute; intuition discriminate.
      + done.
      + by vm_compute. }
  split; [exact parse_leap_day|]. split; [exact leap_2104|]. split; [exact Hn|].
  unfold trigger_cron. change (py_strip leap_day) with leap_day. cbn [truthy negb]. rewrite parse_leap_day, Hn. done.
Qed.

(** ** The grammar *)

Inductive base := B_star | B_value (a : Z) | B_range (a b : Z).
Record term := { t_base : base; t_step : option Z }.
#[export] Instance base_eq_dec : EqDecision base.
Proof. solve_decision. Defined.
#[export] Instance term_eq_dec : EqDecision term.
Proof. solve_decision. Defined.

Definition print_base (b : base) : string :=
  match b with B_star => "*" | B_value a => pretty a | B_range a b => pretty a +:+ String dash (pretty b) end.
Definition print_term (t : term) : string :=
  print_base (t_base t) +:+ match t_step t with Some k => String slash (pretty k) | None => "" end.
Definition print_field (ts : list term) : string := join "," (print_term <$> ts).

Definition base_bounds (lo hi : Z) (b : base) : Z * Z :=
  match b with B_star => (lo, hi) | B_value a => (a, a) | B_range a b => (a, b) end.

(** The values a term stands for: every [k]-th one between its bounds; 7 is Sunday too *)
Definition denotes (lo hi : Z) (is_dow : bool) (t : term) (v : Z) : Prop :=
  let '(s, e) := base_bounds lo hi (t_base t) in
  let k := default 1 (t_step t) in
  exists i, 0 <= i /\ s + i * k <= e /\ v = if is_dow && (s + i * k =? 7) then 0 else s + i * k.

Definition term_ok (lo hi : Z) (is_dow : bool) (t : term) : Prop :=
  let '(s, e) := base_bounds lo hi (t_base t) in
  lo <= s <= e /\ e <= (if is_dow then 7 else hi) /\
  match t_step t with Some k => 0 < k /\ int_ok k | None => True end.

(** Decimal text *)
Lemma pretty_digits z : 0 <= z → forall_char is_digit (pretty z) = true /\ truthy (pretty z) = true.
Proof.
  intros Hz. pose proof (dump_int_eq z) as He. unfold dump_int in He. rewrite He, (proj2 (Z.ltb_ge z 0)) by lia.
  destruct (pretty_N_facts (Z.abs_N z)) as (Hd & _ & Ht & _). by split.
Qed.
Lemma py_int_nat z : 0 <= z → int_ok z → py_int (pretty z) = Some z.
Proof.
  intros Hz Hk. pose proof (dump_int_eq z) as He. unfold dump_int in He. rewrite He, (proj2 (Z.ltb_ge z 0)) by lia.
  rewrite Chain.py_int_pretty by done. f_equal. lia.
Qed.
Lemma small_int_ok z : 0 <= z <= 59 → int_ok z.
Proof.
  intros Hz. assert (forallb (λ z, bool_decide (int_ok z)) (seqZ 0 60) = true) as Hall by (by vm_compute).
  rewrite forallb_forall in Hall. apply (bool_decide_unpack (int_ok z)), Is_true_true, Hall, list_elem_of_In, elem_of_seqZ. lia.
Qed.

(** Text made of the characters of a term *)
Definition term_char (c : ascii) : bool := is_digit c || bool_decide (c = slash) || bool_decide (c = dash) || bool_decide (c = "*"%char).
Lemma forall_char_has f c s : f c = false → forall_char f s = true → has_char c s = false.
Proof.
  intros Hc. induction s as [|d s IH]; [done|]. cbn [forall_char has_char]. intros [Hd Hs]%andb_true_iff.
  rewrite IH by done. rewrite bool_decide_false by (intros ->; congruence). done.
Qed.
Lemma digits_term s : forall_char is_digit s = true → forall_char term_char s = true.
Proof. apply Chain.forall_char_impl. intros c Hc. unfold term_char. by rewrite Hc. Qed.
Lemma term_char_space c : term_char c = true → negb (py_space c) = true.
Proof. by destruct c as [[] [] [] [] [] [] [] []]. Qed.

Lemma py_range_elem s e k v : 0 < k → v ∈ py_range s (e + 1) k ↔ exists i, 0 <= i /\ s + i * k <= e /\ v = s + i * k.
Proof.
  intros Hk. unfold py_range. rewrite list_elem_of_fmap. setoid_rewrite elem_of_seqZ. case_match eqn:Hse.
  - apply Z.ltb_lt in Hse. assert (∀ i, i < 0 + ((e + 1 - s - 1) / k + 1) ↔ s + i * k <= e) as Hi.
    { intros i. replace (e + 1 - s - 1) with (e - s) by lia. pose proof (Z.mul_div_le (e - s) k Hk). pose proof (Z.mul_succ_div_gt (e - s) k Hk). nia. }
    split; [intros (i & -> & H1 & H2%Hi); by eauto|intros (i & H1 & H2%Hi & ->); eauto].
  - apply Z.ltb_ge in Hse. split; [intros (i & _ & H1 & H2); lia|intros (i & H1 & H2 & _); nia].
Qed.

Section field.
Context (lo hi : Z) (is_dow : bool).
Hypothesis Hlo : 0 <= lo.
Hypothesis Hhi : hi <= 59.

Lemma base_bounds_small t : term_ok lo hi is_dow t →
  let '(s, e) := base_bounds lo hi (t_base t) in 0 <= s <= 59 /\ 0 <= e <= 59.
Proof using Hlo Hhi. unfold term_ok. destruct (base_bounds lo hi (t_base t)) as [s e]. intros (H1 & H2 & _). destruct is_dow; lia. Qed.

Lemma print_base_chars t : term_ok lo hi is_dow t →
  forall_char term_char (print_base (t_base t)) = true /\ has_char slash (print_base (t_base t)) = false /\ truthy (print_base (t_base t)) = true.
Proof using Hlo Hhi.
  intros Hs%base_bounds_small. destruct (t_base t) as [|a|a b]; cbn in Hs; [done|..].
  - destruct (pretty_digits a) as [Hd Ht]; [lia|]. split; [by apply digits_term|]. split; [by apply (forall_char_has is_digit)|done].
  - destruct (pretty_digits a) as [Ha Ht]; [lia|]. destruct (pretty_digits b) as [Hb _]; [lia|]. cbn [print_base].
    rewrite forall_char_app, has_char_app. cbn [forall_char has_char].
    rewrite !digits_term, !(forall_char_has is_digit slash) by done. split; [done|]. split; [done|]. by destruct (pretty a).
Qed.

Lemma print_term_chars t : term_ok lo hi is_dow t → forall_char term_char (print_term t) = true /\ truthy (print_term t) = true.
Proof using Hlo Hhi.
  intros Hok. destruct (print_base_chars t Hok) as (Hc & _ & Ht). unfold print_term. rewrite forall_char_app, Hc.
  split; [|by destruct (print_base (t_base t))]. cbn [andb]. unfold term_ok in Hok. destruct (base_bounds lo hi (t_base t)).
  destruct (t_step t) as [k|]; [|done]. cbn [forall_char]. rewrite digits_term; [done|]. apply pretty_digits. lia.
Qed.

Lemma parse_step_print t : term_ok lo hi is_dow t → parse_step (print_term t) = Ok (print_base (t_base t), default 1 (t_step t)).
Proof using Hlo Hhi.
  intros Hok. destruct (print_base_chars t Hok) as (_ & Hn & _). unfold parse_step, print_term, term_ok in *.
  destruct (base_bounds lo hi (t_base t)). destruct Hok as (_ & _ & Hk). destruct (t_step t) as [k|].
  - rewrite partition_char_app by done. unfold int_or. rewrite py_int_nat by (lia || apply Hk). cbn [result_bind default].
    by rewrite (proj2 (Z.leb_gt k 0)) by lia.
  - rewrite str_app_nil_r. by rewrite partition_char_none.
Qed.

Lemma parse_base_print t : term_ok lo hi is_dow t → parse_base lo hi (print_base (t_base t)) = Ok (base_bounds lo hi (t_base t)).
Proof using Hlo Hhi.
  intros Hs%base_bounds_small. unfold parse_base, int_or. destruct (t_base t) as [|a|a b]; cbn in Hs; [done|..].
  - destruct (pretty_digits a) as [Hd Ht]; [lia|]. rewrite bool_decide_false; [|intros He; cbn [print_base] in He; by rewrite He in Hd].
    cbn [print_base]. rewrite partition_char_none by (by apply (forall_char_has is_digit)). by rewrite py_int_nat by (lia || apply small_int_ok; lia).
  - destruct (pretty_digits a) as [Hd Ht]; [lia|]. cbn [print_base]. rewrite bool_decide_false.
    + rewrite partition_char_app by (by apply (forall_char_has is_digit)). by rewrite !py_int_nat by (lia || apply small_int_ok; lia).
    + intros He. assert (has_char dash "*" = true) as Hx; [|done]. rewrite <- He, has_char_app. cbn [has_char]. by rewrite orb_true_r.
Qed.

Lemma parse_term_print spec t : term_ok lo hi is_dow t →
  exists vs, parse_term spec lo hi is_dow (print_term t) = Ok vs /\ ∀ v, v ∈ vs ↔ denotes lo hi is_dow t v.
Proof using Hlo Hhi.
  intros Hok. destruct (print_term_chars t Hok) as [Hc Ht]. unfold parse_term.
  rewrite py_strip_plain by (by apply (Chain.forall_char_impl term_char), Hc; apply term_char_space). rewrite Ht. cbn [negb].
  rewrite parse_step_print by done. cbn [result_bind]. rewrite parse_base_print by done. cbn [result_bind].
  unfold term_ok, denotes in *. destruct (base_bounds lo hi (t_base t)) as [s e]. destruct Hok as (H1 & H2 & H3).
  rewrite (proj2 (Z.ltb_ge e s)), (proj2 (Z.ltb_ge s lo)), (proj2 (Z.ltb_ge _ e)) by lia. cbn [orb].
  eexists. split; [done|]. intros v. rewrite list_elem_of_fmap. assert (0 < default 1 (t_step t)) by (destruct (t_step t); simpl; lia).
  setoid_rewrite py_range_elem; [|done]. split.
  - intros (x & -> & i & Hi0 & Hi1 & ->). exists i. by split_and!.
  - intros (i & Hi0 & Hi1 & ->). exists (s + i * default 1 (t_step t)). split; [done|]. by exists i.
Qed.

Lemma parse_terms_print spec ts acc : Forall (term_ok lo hi is_dow) ts →
  exists vs, parse_terms spec lo hi is_dow (print_term <$> ts) acc = Ok vs /\ ∀ v, v ∈ vs ↔ v ∈ acc \/ Exists (λ t, denotes lo hi is_dow t v) ts.
Proof using Hlo Hhi.
  intros Hts. revert acc. induction Hts as [|t ts Ht _ IH]; intros acc; cbn [parse_terms fmap list_fmap].
  { exists acc. split; [done|]. intros v. rewrite Exists_nil. tauto. }
  destruct (parse_term_print spec t Ht) as (vs & -> & Hvs). cbn [result_bind]. destruct (IH (acc ∪ list_to_set vs)) as (ws & Hws & Hw).
  exists ws. split; [exact Hws|]. intros v. rewrite Hw, Exists_cons, elem_of_union, elem_of_list_to_set, Hvs. tauto.
Qed.

Lemma split_print t ts : Forall (term_ok lo hi is_dow) (t :: ts) → split_char comma (print_field (t :: ts)) = print_term <$> (t :: ts).
Proof using Hlo Hhi.
  revert t. induction ts as [|t' ts IH]; intros t Hts; apply Forall_cons in Hts as [Ht Hts]; destruct (print_term_chars t Ht) as [Hc _].
  - apply split_char_none. by apply (forall_char_has term_char).
  - change (print_field (t :: t' :: ts)) with (print_term t +:+ String comma (print_field (t' :: ts))).
    rewrite split_char_app by (by apply (forall_char_has term_char)). by rewrite IH.
Qed.

Lemma parse_field_print ts : ts ≠ [] → Forall (term_ok lo hi is_dow) ts →
  exists vs, parse_field (print_field ts) lo hi is_dow = Ok vs /\ ∀ v, v ∈ vs ↔ Exists (λ t, denotes lo hi is_dow t v) ts.
Proof using Hlo Hhi.
  intros Hne Hts. destruct ts as [|t ts]; [done|]. unfold parse_field. rewrite split_print by done.
  destruct (parse_terms_print (print_field (t :: ts)) _ ∅ Hts) as (vs & Hvs & Hv). exists vs. split; [exact Hvs|]. intros v. rewrite Hv. set_solver.
Qed.
End field.

(** Words of a line of fields *)
Lemma words_go_plain cur w rest :
  forall_char (λ c, negb (py_space c)) w = true → words_go cur (w +:+ rest) = words_go (cur +:+ w) rest.
Proof.
  revert cur. induction w as [|c w IH]; intros cur; cbn [forall_char].
  - intros _. by rewrite str_app_nil_l, str_app_nil_r.
  - intros [Hc Hw]%andb_true_iff. rewrite str_app_cons. cbn [words_go]. destruct (py_space c); [done|].
    rewrite IH by done. f_equal. by rewrite str_app_assoc.
Qed.
Lemma words_cons w rest :
  forall_char (λ c, negb (py_space c)) w = true → truthy w = true → words (w +:+ String " " rest) = w :: words rest.
Proof. intros Hw Ht. unfold words. rewrite words_go_plain by done. rewrite str_app_nil_l. cbn [words_go]. by rewrite Ht. Qed.
Lemma words_last w :
  forall_char (λ c, negb (py_space c)) w = true → truthy w = true → words w = [w].
Proof.
  intros Hw Ht. unfold words. rewrite <- (str_app_nil_r w), words_go_plain by done. rewrite str_app_nil_l, str_app_nil_r. cbn [words_go]. by rewrite Ht.
Qed.

Lemma print_field_plain lo hi dow ts : 0 <= lo → hi <= 59 → ts ≠ [] → Forall (term_ok lo hi dow) ts →
  forall_char (λ c, negb (py_space c)) (print_field ts) = true /\ truthy (print_field ts) = true.
Proof.
  intros Hlo Hhi Hne Hts. destruct ts as [|t ts]; [done|]. clear Hne. revert t Hts. induction ts as [|t' ts IH]; intros t Hts;
    apply Forall_cons in Hts as [Ht Hts]; destruct (print_term_chars lo hi dow Hlo Hhi t Ht) as [Hc Htr];
    pose proof (Chain.forall_char_impl _ _ _ term_char_space Hc) as Hp; [done|].
  change (print_field (t :: t' :: ts)) with (print_term t +:+ String comma (print_field (t' :: ts))).
  destruct (IH t' Hts) as [Hf _]. rewrite forall_char_app, Hp. cbn [forall_char]. rewrite Hf. split; [done|]. by destruct (print_term t).
Qed.

(** An expression as the lists of its terms *)
Record spec := { s_minute : list term; s_hour : list term; s_dom : list term; s_month : list term; s_dow : list term }.
Definition print_spec (x : spec) : string :=
  print_field (s_minute x) +:+ String " " (print_field (s_hour x) +:+ String " " (print_field (s_dom x) +:+
    String " " (print_field (s_month x) +:+ String " " (print_field (s_dow x))))).
Definition field_ok (lo hi : Z) (dow : bool) (ts : list term) : Prop := ts ≠ [] /\ Forall (term_ok lo hi dow) ts.
Definition spec_ok (x : spec) : Prop :=
  field_ok 0 59 false (s_minute x) /\ field_ok 0 23 false (s_hour x) /\ field_ok 1 31 false (s_dom x) /\
  field_ok 1 12 false (s_month x) /\ field_ok 0 6 true (s_dow x).
Definition in_field (lo hi : Z) (dow : bool) (ts : list term) (v : Z) : Prop := Exists (λ t, denotes lo hi dow t v) ts.
Definition starred (ts : list term) : Prop := print_field ts = "*".

(** The days an expression asks for: with both day fields restricted either is enough *)
Definition spec_matches (x : spec) (t : datetime) : Prop :=
  in_field 0 59 false (s_minute x) (minute t) /\ in_field 0 23 false (s_hour x) (hour t) /\
  in_field 1 12 false (s_month x) (month t) /\
  let dom := in_field 1 31 false (s_dom x) (day t) in
  let dow := in_field 0 6 true (s_dow x) ((weekday t + 1) mod 7) in
  (dom /\ dow \/ ¬ starred (s_dom x) /\ ¬ starred (s_dow x) /\ (dom \/ dow)).

Lemma field_reads lo hi dow ts : field_ok lo hi dow ts → 0 <= lo → hi <= 59 →
  (forall_char (λ c, negb (py_space c)) (print_field ts) = true /\ truthy (print_field ts) = true) /\
  exists vs, parse_field (print_field ts) lo hi dow = Ok vs /\ ∀ v, v ∈ vs ↔ in_field lo hi dow ts v.
Proof. intros [Hne Hts] Hlo Hhi. split; [by apply (print_field_plain lo hi dow)|by apply parse_field_print]. Qed.

(** C40: The parser reads exactly the cron grammar. For every expression written from lists
    of [*], values, ranges and steps within the bounds of their fields, the parser accepts
    its text, and the result matches a moment exactly when the expression does: each field
    stands for every step-th value of its ranges, 7 is Sunday also inside a range, and when
    both day fields are restricted either of them is enough. *)
Theorem cron_grammar x :
  spec_ok x → exists c, parse_cron (print_spec x) = Ok c /\ ∀ t, matches c t = true ↔ spec_matches x t.
Proof.
  intros (H1 & H2 & H3 & H4 & H5). unfold parse_cron, print_spec.
  apply field_reads in H1 as [[P1 T1] (v1 & R1 & E1)]; [|lia..]. apply field_reads in H2 as [[P2 T2] (v2 & R2 & E2)]; [|lia..].
  apply field_reads in H3 as [[P3 T3] (v3 & R3 & E3)]; [|lia..]. apply field_reads in H4 as [[P4 T4] (v4 & R4 & E4)]; [|lia..].
  apply field_reads in H5 as [[P5 T5] (v5 & R5 & E5)]; [|lia..].
  rewrite !words_cons, words_last by done. rewrite R1, R2, R3, R4, R5. cbn [result_bind].
  eexists. split; [done|]. intros t. unfold matches, spec_matches, starred. cbn [minutes hours doms months dows dom_restricted dow_restricted].
  rewrite !py_strip_plain by done. rewrite <- !E1, <- !E2, <- !E3, <- !E4, <- !E5.
  case_bool_decide; cbn [negb]; [|naive_solver]. case_bool_decide; cbn [negb]; [|naive_solver]. case_bool_decide; cbn [negb]; [|naive_solver].
  repeat case_bool_decide; cbn [negb andb orb]; intuition discriminate.
Qed.

(** ** Bounds *)

Lemma parse_term_bounds sp lo hi dow p vs :
  (dow = true → lo = 0 /\ hi = 6) → parse_term sp lo hi dow p = Ok vs → vs ≠ [] /\ Forall (λ v, lo <= v <= hi) vs.
Proof.
  intros Hdow H. unfold parse_term in H. destruct (negb _); [done|]. destruct (parse_step _) as [[b k]|] eqn:Hst; [|done]. cbn [result_bind] in H.
  destruct (parse_base _ _ _) as [[s e]|]; [|done]. cbn [result_bind] in H.
  destruct (e <? s) eqn:Hse; [done|]. destruct (_ || _) eqn:Hb; [done|].
  apply Z.ltb_ge in Hse. apply orb_false_iff in Hb as [Hb1%Z.ltb_ge Hb2%Z.ltb_ge]. injection H as <-.
  assert (0 < k) as Hk.
  { unfold parse_step in Hst. destruct (partition_char _ _) as [? [st|]]; [|by injection Hst as _ <-].
    destruct (int_or _ st) as [z|]; [|done]. cbn [result_bind] in Hst. destruct (z <=? 0) eqn:Hz; [done|]. injection Hst as _ <-. by apply Z.leb_gt in Hz. }
  split.
  - intros He%fmap_nil_inv. assert (s ∈ py_range s (e + 1) k) as Hin by (rewrite py_range_elem by done; exists 0; lia). rewrite He in Hin. by apply elem_of_nil in Hin.
  - apply Forall_forall. intros v (x & -> & (i & Hi0 & Hi1 & ->)%py_range_elem)%list_elem_of_fmap; [|done].
    destruct dow; cbn [andb]; [|nia]. destruct (Hdow eq_refl) as [-> ->]. case_match eqn:H7; [lia|]. apply Z.eqb_neq in H7. nia.
Qed.

Lemma parse_terms_bounds sp lo hi dow ps acc vs :
  (dow = true → lo = 0 /\ hi = 6) → parse_terms sp lo hi dow ps acc = Ok vs → set_Forall (λ v, lo <= v <= hi) acc →
  set_Forall (λ v, lo <= v <= hi) vs /\ acc ⊆ vs /\ (ps ≠ [] → vs ≠ ∅).
Proof.
  intros Hdow. revert acc. induction ps as [|p ps IH]; intros acc; cbn [parse_terms]; [by intros [= <-]|].
  destruct (parse_term _ _ _ _ p) as [ws|] eqn:Hp; [|done]. cbn [result_bind]. intros H Hacc.
  apply parse_term_bounds in Hp as [Hne Hb]; [|done]. rewrite Forall_forall in Hb. destruct (IH _ H) as (H1 & H2 & _).
  { apply set_Forall_union; [done|]. intros v Hv%elem_of_list_to_set. by apply Hb. }
  split; [done|]. split; [set_solver|]. intros _ ->. destruct ws; [done|set_solver].
Qed.
Lemma parse_field_bounds sp lo hi dow vs :
  (dow = true → lo = 0 /\ hi = 6) → parse_field sp lo hi dow = Ok vs → set_Forall (λ v, lo <= v <= hi) vs /\ vs ≠ ∅.
Proof.
  intros Hdow H. apply parse_terms_bounds in H as (H1 & _ & H2); [|done|done]. split; [done|]. apply H2, split_char_nonempty.
Qed.

(** Whatever the text, a parsed expression has no empty field, and every value of every
    field lies in its bounds: minutes 0 to 59, hours 0 to 23, days 1 to 31, months 1 to 12,
    days of the week 0 to 6. *)
Theorem cron_bounds text c :
  parse_cron text = Ok c →
  Forall (λ '(vs, (lo, hi)), vs ≠ ∅ /\ set_Forall (λ v, lo <= v <= hi) vs)
    (zip [minutes c; hours c; doms c; months c; dows c] FIELD_BOUNDS).
Proof.
  intros H. unfold parse_cron in H. destruct (words text) as [|f0 [|f1 [|f2 [|f3 [|f4 [|]]]]]]; try done.
  destruct (parse_field f0 _ _ _) as [v0|] eqn:E0; [|done]. destruct (parse_field f1 _ _ _) as [v1|] eqn:E1; [|done].
  destruct (parse_field f2 _ _ _) as [v2|] eqn:E2; [|done]. destruct (parse_field f3 _ _ _) as [v3|] eqn:E3; [|done].
  destruct (parse_field f4 _ _ _) as [v4|] eqn:E4; [|done]. injection H as <-.
  apply parse_field_bounds in E0, E1, E2, E3, E4; try done. cbn. rewrite !Forall_cons, Forall_nil. tauto.
Qed.

Definition sample : spec :=
  {| s_minute := [{| t_base := B_star; t_step := Some 15 |}]; s_hour := [{| t_base := B_range 9 17; t_step := None |}];
     s_dom := [{| t_base := B_value 1; t_step := None |}; {| t_base := B_range 10 30; t_step := Some 10 |}];
     s_month := [{| t_base := B_star; t_step := None |}]; s_dow := [{| t_base := B_range 5 7; t_step := None |}] |}.
Lemma sample_ok : spec_ok sample.
Proof.
  unfold spec_ok, field_ok, sample. cbn. rewrite !Forall_cons, !Forall_nil. unfold term_ok. cbn.
  split_and!; try done; try lia; try (apply small_int_ok; lia). 
Qed.
Lemma sample_text : print_spec sample = "*/15 9-17 1,10-30/10 * 5-7".
Proof. by vm_compute. Qed.
Lemma cron_grammar_witness :
  exists c, parse_cron "*/15 9-17 1,10-30/10 * 5-7" = Ok c /\ ∀ t, matches c t = true ↔ spec_matches sample t.
Proof. rewrite <- sample_text. exact (cron_grammar sample sample_ok). Defined.
Lemma cron_bounds_witness : set_Forall (λ v, 1 <= v <= 31) (doms leap_expr).
Proof.
  pose proof (cron_bounds leap_day leap_expr parse_leap_day) as H. rewrite Forall_forall in H.
  apply (H (doms leap_expr, (1, 31))). right. right. left.
Defined.

End Cron.
