(* ===== verification/WfConditions.v ===== *)
(** * The conditions of a workflow (condition_eval.py)

    The fail-closed gate between a trigger and the secrets of a workflow: every declared
    key is matched against the process that fired it. What /proc, the passwd and the group
    database say is a record of functions, [proc_world]. *)

From S2P Require Import Prelude Fnmatch Json LineageStore PyText.

Module Conditions.
Import PyText.

Inductive exn := ValueError | TypeError | OverflowError.

(** What [read_identity] answers *)
Record identity := { id_uid : Z; id_gid : Z; id_argv0 : string; id_exe : string; id_comm : string }.

(** The answers of [_pi.read_starttime], which is 0 when unreadable, of [_pi.read_identity],
    of [pwd.getpwnam] and [grp.getgrnam], which answer [None] for an unknown name, and of
    [int] on a float *)
Record proc_world := {
  pw_starttime : Z → Z;
  pw_identity : Z → option identity;
  pw_passwd : string → result exn (option Z);
  pw_group : string → result exn (option Z);
  pw_float_int : string → result exn Z;
}.

Definition context := gmap string pyval.

(** [int(v)] *)
Definition int_value (pw : proc_world) (v : pyval) : result exn Z :=
  match v with
  | PInt z => Ok z
  | PBool b => Ok (if b then 1 else 0)%Z
  | PFloat x => pw_float_int pw x
  | PStr s => match py_int s with Some z => Ok z | None => Err ValueError end
  | PNone | PList _ | PDict _ => Err TypeError
  end.

(** [resolve_uid_name] and [resolve_gid_name] over their database *)
Definition resolve_name (db : string → result exn (option Z)) (v : pyval) : result exn (option Z) :=
  match v with
  | PBool _ => Ok None
  | PInt z => Ok (Some z)
  | _ =>
      let s := py_strip (py_str v) in
      if py_isdigit s then match py_int s with Some z => Ok (Some z) | None => Err ValueError end else db s
  end.

(** [_proc_starttime] *)
Definition proc_starttime (pw : proc_world) (pid : Z) : option Z :=
  let st := pw_starttime pw pid in if (st =? 0)%Z then None else Some st.

Definition as_list (v : pyval) : list pyval := match v with PList l => l | _ => [v] end.

(** [_match_uid] and [_match_gid] *)
Fixpoint match_id (db : string → result exn (option Z)) (actual : Z) (wants : list pyval) : result exn bool :=
  match wants with
  | [] => Ok false
  | v :: vs => let* r := resolve_name db v in if bool_decide (r = Some actual) then Ok true else match_id db actual vs
  end.
(** [_match_glob] *)
Definition match_glob (actual : string) (want : pyval) : bool :=
  existsb (λ v, Glob.fnmatchcase actual (py_str v)) (as_list want).
(** [_match_argv0] *)
Definition match_argv0 (actual : string) (want : pyval) : bool :=
  existsb (λ v, Glob.fnmatchcase actual (py_str v) || Glob.fnmatchcase (basename actual) (py_str v)) (as_list want).

Definition PROCESS_KEYS : gset string := {["uid"; "gid"; "exe"; "argv0"; "argv[0]"; "comm"]}.
Definition CONTEXT_KEYS : gset string := {["cgroup"]}.
Definition KNOWN_KEYS : gset string := PROCESS_KEYS ∪ CONTEXT_KEYS.

Inductive reason :=
| R_none
| R_not_mapping
| R_unknown_key (key : string)
| R_no_pid
| R_invalid_pid (pid : Z)
| R_gone (pid : Z)
| R_recycled (pid now : Z)
| R_unreadable (pid : Z)
| R_mismatch (key : string)
| R_exception.

(** The (key, want) pairs of the entries, or the reason to refuse *)
Fixpoint entry_pairs (d : list (pyval * pyval)) : reason + list (string * pyval) :=
  match d with
  | [] => inr []
  | (k, v) :: d' =>
      let key := py_str k in
      if negb (bool_decide (key ∈ KNOWN_KEYS)) then inl (R_unknown_key key)
      else match entry_pairs d' with inr ps => inr ((key, v) :: ps) | inl r => inl r end
  end.
Fixpoint all_pairs (conditions : list pyval) : reason + list (string * pyval) :=
  match conditions with
  | [] => inr []
  | PDict d :: es =>
      match entry_pairs d with
      | inl r => inl r
      | inr ps => match all_pairs es with inr qs => inr (ps ++ qs) | inl r => inl r end
      end
  | _ :: _ => inl R_not_mapping
  end.

(** The process the trigger captured, when it is still that process *)
Definition firing_process (pw : proc_world) (ctx : context) : result exn (reason + identity) :=
  match int_value pw (default PNone (ctx !! "pid")) with
  | Err OverflowError => Err OverflowError
  | Err _ => Ok (inl R_no_pid)
  | Ok pid =>
      if (pid <=? 0)%Z then Ok (inl (R_invalid_pid pid))
      else
        let* anchor :=
          (match default PNone (ctx !! "pid_starttime") with
           | PNone => Ok None
           | expected =>
               match proc_starttime pw pid with
               | None => Ok (Some (R_gone pid))
               | Some now =>
                   let* e := int_value pw expected in
                   Ok (if bool_decide (now = e) then None else Some (R_recycled pid now))
               end
           end) in
        match anchor with
        | Some r => Ok (inl r)
        | None => Ok (match pw_identity pw pid with Some id => inr id | None => inl (R_unreadable pid) end)
        end
  end.

(** One pair of the loop; the identity is read for process keys only *)
Definition meets (pw : proc_world) (ctx : context) (id : identity) (key : string) (want : pyval) : result exn bool :=
  if bool_decide (key = "uid") then match_id (pw_passwd pw) (id_uid id) (as_list want)
  else if bool_decide (key = "gid") then match_id (pw_group pw) (id_gid id) (as_list want)
  else if bool_decide (key = "argv0") || bool_decide (key = "argv[0]") then Ok (match_argv0 (id_argv0 id) want)
  else if bool_decide (key = "exe") then Ok (match_glob (id_exe id) want)
  else if bool_decide (key = "comm") then Ok (match_glob (id_comm id) want)
  else Ok (match_glob (py_str (default (PStr "") (ctx !! "cgroup"))) want).
Fixpoint check_pairs (pw : proc_world) (ctx : context) (id : identity) (pairs : list (string * pyval)) : result exn (bool * reason) :=
  match pairs with
  | [] => Ok (true, R_none)
  | (key, want) :: ps =>
      let* ok := meets pw ctx id key want in
      if ok then check_pairs pw ctx id ps else Ok (false, R_mismatch key)
  end.

(** The identity the loop starts with when no pair needs one; no pair reads it then *)
Definition no_identity : identity := {| id_uid := 0; id_gid := 0; id_argv0 := ""; id_exe := ""; id_comm := "" |}.
Definition needs_proc (pairs : list (string * pyval)) : bool := existsb (λ p, bool_decide (p.1 ∈ PROCESS_KEYS)) pairs.

(** [evaluate] *)
Definition evaluate (pw : proc_world) (conditions : list pyval) (ctx : context) : result exn (bool * reason) :=
  match all_pairs conditions with
  | inl r => Ok (false, r)
  | inr pairs =>
      if needs_proc pairs then
        let* id := firing_process pw ctx in
        match id with
        | inl r => Ok (false, r)
        | inr id => check_pairs pw ctx id pairs
        end
      else check_pairs pw ctx no_identity pairs
  end.

(** [derive_invoker_conditions] *)
Definition has_uid (c : pyval) : bool :=
  match c with PDict d => existsb (λ p, match p.1 with PStr k => bool_decide (k = "uid") | _ => false end) d | _ => false end.
Definition derive_invoker_conditions (invokers : list string) (conditions : list pyval) : list pyval :=
  match invokers with
  | [] => conditions
  | _ => if existsb has_uid conditions then conditions
         else conditions ++ [PDict [(PStr "uid", PList (PStr <$> invokers))]]
  end.

(** [WorkflowEngine._conditions_satisfied] *)
Definition conditions_satisfied (pw : proc_world) (invokers : list string) (conditions : list pyval) (ctx : context) : bool * reason :=
  match evaluate pw (derive_invoker_conditions invokers conditions) ctx with
  | Ok r => r
  | Err _ => (false, R_exception)
  end.

(** ** What an admitted process satisfies *)

(** [key: want] is declared by the conditions *)
Definition requires (conditions : list pyval) (key : string) (want : pyval) : Prop :=
  ∃ d k, PDict d ∈ conditions ∧ (k, want) ∈ d ∧ py_str k = key.

(** The process with this identity is the one the trigger captured *)
Definition live_process (pw : proc_world) (ctx : context) (id : identity) : Prop :=
  ∃ pid, int_value pw (default PNone (ctx !! "pid")) = Ok pid ∧ (0 < pid)%Z ∧ pw_identity pw pid = Some id ∧
    (default PNone (ctx !! "pid_starttime") = PNone ∨
     ∃ now, int_value pw (default PNone (ctx !! "pid_starttime")) = Ok now ∧ proc_starttime pw pid = Some now).

Lemma entry_pairs_ok d ps :
  entry_pairs d = inr ps →
  (∀ k v, (k, v) ∈ d → py_str k ∈ KNOWN_KEYS) ∧ ∀ key v, (key, v) ∈ ps ↔ ∃ k, (k, v) ∈ d ∧ py_str k = key.
Proof.
  revert ps. induction d as [|[k v] d IH]; intros ps; cbn [entry_pairs].
  { intros [= <-]. split; [set_solver|]. set_solver. }
  case_bool_decide as Hk; [|done]. cbn [negb]. destruct (entry_pairs d) as [|qs]; [done|]. intros [= <-].
  destruct (IH qs eq_refl) as [H1 H2]. split.
  - intros k' v' [[= -> ->]|Hin]%elem_of_cons; [done|by eapply H1].
  - intros key v'. rewrite elem_of_cons, H2. setoid_rewrite elem_of_cons. naive_solver.
Qed.
Lemma entry_pairs_total d : (∀ k v, (k, v) ∈ d → py_str k ∈ KNOWN_KEYS) → ∃ ps, entry_pairs d = inr ps.
Proof.
  induction d as [|[k v] d IH]; intros Hd; cbn [entry_pairs]; [by eexists|].
  rewrite bool_decide_true by (apply (Hd k v); left). cbn [negb]. destruct IH as [ps ->]; [|by eexists].
  intros k' v' Hin. apply (Hd k' v'). by right.
Qed.

Lemma all_pairs_ok es ps :
  all_pairs es = inr ps →
  (∀ e, e ∈ es → ∃ d, e = PDict d) ∧ (∀ key v, requires es key v → key ∈ KNOWN_KEYS) ∧ ∀ key v, (key, v) ∈ ps ↔ requires es key v.
Proof.
  revert ps. induction es as [|e es IH]; intros ps; cbn [all_pairs].
  { intros [= <-]. unfold requires. split; [set_solver|]. split; [set_solver|]. set_solver. }
  destruct e as [| | | | | |d]; try done. destruct (entry_pairs d) as [|qs] eqn:Hd; [done|].
  destruct (all_pairs es) as [|rs]; [done|]. intros [= <-]. apply entry_pairs_ok in Hd as [H1 H2]. destruct (IH rs eq_refl) as (I1 & I2 & I3).
  assert (∀ key v, requires (PDict d :: es) key v ↔ (∃ k, (k, v) ∈ d ∧ py_str k = key) ∨ requires es key v) as Hr.
  { intros key v. unfold requires. setoid_rewrite elem_of_cons. naive_solver. }
  split; [intros e [->|He]%elem_of_cons; [by eexists|by apply I1]|]. split.
  - intros key v [(k & Hk & <-)|Hv]%Hr; [by eapply H1|by eapply I2].
  - intros key v. rewrite elem_of_app, Hr, H2, I3. done.
Qed.
Lemma all_pairs_total es :
  (∀ e, e ∈ es → ∃ d, e = PDict d) → (∀ key v, requires es key v → key ∈ KNOWN_KEYS) → ∃ ps, all_pairs es = inr ps.
Proof.
  induction es as [|e es IH]; intros Hd Hk; cbn [all_pairs]; [by eexists|].
  destruct (Hd e) as [d ->]; [left|]. destruct (entry_pairs_total d) as [ps ->].
  { intros k v Hin. apply (Hk _ v). exists d, k. split; [left|done]. }
  destruct IH as [qs ->]; [| |by eexists].
  - intros e He. apply Hd. by right.
  - intros key v (d' & k & Hd' & Hin). apply (Hk key v). exists d', k. split; [by right|done].
Qed.

Lemma firing_process_ok pw ctx id : firing_process pw ctx = Ok (inr id) ↔ live_process pw ctx id.
Proof.
  unfold firing_process, live_process. destruct (int_value pw (default PNone (ctx !! "pid"))) as [pid|[]]; [|naive_solver..].
  destruct (Z.leb_spec pid 0) as [Hle|Hgt]; [split; [done|]; intros (p & [= <-] & ? & _); lia|].
  destruct (default PNone (ctx !! "pid_starttime")) as [| | | | | |] eqn:He; cbn [result_bind].
  1: { destruct (pw_identity pw pid) eqn:Hid; [|naive_solver]. split; [|naive_solver]. intros [= <-]. exists pid. naive_solver. }
  all: destruct (proc_starttime pw pid) as [now|] eqn:Hst; cbn [result_bind];
    [|split; [done|]; intros (p & [= <-] & _ & _ & [?|(n & _ & ?)]); congruence].
  all: match goal with |- context [result_bind (int_value ?pw ?v)] => destruct (int_value pw v) as [e|] eqn:Hiv end; cbn [result_bind];
    [|split; [done|]; intros (p & [= <-] & _ & _ & [?|(n & ? & _)]); congruence].
  all: case_bool_decide as Hne; cbn [result_bind];
    [|split; [done|]; intros (p & [= <-] & _ & _ & [?|(n & ? & ?)]); congruence].
  all: destruct (pw_identity pw pid) eqn:Hid; [|naive_solver].
  all: split; [intros [= <-]; exists pid; subst now; by eauto 10|intros (p & [= <-] & _ & ? & _); congruence].
Qed.

Lemma check_pairs_ok pw ctx id ps r :
  check_pairs pw ctx id ps = Ok (true, r) ↔ r = R_none ∧ ∀ key want, (key, want) ∈ ps → meets pw ctx id key want = Ok true.
Proof.
  induction ps as [|[key want] ps IH]; cbn [check_pairs].
  { split; [intros [= <-]; set_solver|intros [-> _]; done]. }
  destruct (meets pw ctx id key want) as [[]|] eqn:Hm; cbn [result_bind].
  - rewrite IH. setoid_rewrite elem_of_cons. naive_solver.
  - split; [done|]. intros [_ Hall]. specialize (Hall key want). rewrite Hm in Hall. naive_solver set_solver.
  - split; [done|]. intros [_ Hall]. specialize (Hall key want). rewrite Hm in Hall. naive_solver set_solver.
Qed.

(** Keys of the context are answered without an identity *)
Lemma meets_context pw ctx id id' key want : key ∉ PROCESS_KEYS → meets pw ctx id key want = meets pw ctx id' key want.
Proof.
  intros Hk. unfold meets, PROCESS_KEYS in *. rewrite !(bool_decide_false (key = _)) by set_solver. done.
Qed.
Lemma needs_proc_true ps : needs_proc ps = true ↔ ∃ key want, (key, want) ∈ ps ∧ key ∈ PROCESS_KEYS.
Proof.
  unfold needs_proc. rewrite existsb_exists. split.
  - intros ([key want] & Hin%list_elem_of_In & Hk%bool_decide_eq_true). by eauto.
  - intros (key & want & Hin%list_elem_of_In & Hk). exists (key, want). split; [done|by apply bool_decide_eq_true].
Qed.

Lemma evaluate_iff pw conditions ctx r :
  evaluate pw conditions ctx = Ok (true, r) ↔
  r = R_none ∧ (∀ e, e ∈ conditions → ∃ d, e = PDict d) ∧
  (∀ key want, requires conditions key want → key ∈ KNOWN_KEYS) ∧
  ∃ id, (∀ key want, requires conditions key want → meets pw ctx id key want = Ok true) ∧
    ((∃ key want, requires conditions key want ∧ key ∈ PROCESS_KEYS) → live_process pw ctx id).
Proof.
  unfold evaluate. destruct (all_pairs conditions) as [r'|ps] eqn:Hp.
  { split; [done|]. intros (_ & H1 & H2 & _). destruct (all_pairs_total _ H1 H2) as [ps ?]. congruence. }
  apply all_pairs_ok in Hp as (H1 & H2 & H3). destruct (needs_proc ps) eqn:Hn.
  - apply needs_proc_true in Hn as (key & want & Hin & Hk). apply H3 in Hin.
    destruct (firing_process pw ctx) as [[r'|id]|e] eqn:Hf; cbn [result_bind].
    + split; [done|]. intros (_ & _ & _ & id & _ & Hl). apply firing_process_ok in Hl; [congruence|by eauto].
    + rewrite check_pairs_ok. apply firing_process_ok in Hf as Hl. setoid_rewrite H3. split.
      * intros [-> Hall]. split; [done|]. split; [done|]. split; [done|]. by exists id.
      * intros (-> & _ & _ & id' & Hall & Hl'). split; [done|]. apply firing_process_ok in Hl'; [|by eauto].
        rewrite Hf in Hl'. by injection Hl' as <-.
    + split; [done|]. intros (_ & _ & _ & id & _ & Hl). apply firing_process_ok in Hl; [congruence|by eauto].
  - assert (∀ key want, requires conditions key want → key ∉ PROCESS_KEYS) as Hc.
    { intros key want Hr%H3 Hk. assert (needs_proc ps = true) by (apply needs_proc_true; by eauto). congruence. }
    rewrite check_pairs_ok. setoid_rewrite H3. split.
    + intros [-> Hall]. split; [done|]. split; [done|]. split; [done|]. exists no_identity. split; [done|].
      intros (key & want & Hr & Hk). by apply Hc in Hr.
    + intros (-> & _ & _ & id & Hall & _). split; [done|]. intros key want Hr. rewrite (meets_context _ _ _ id) by (by eapply Hc). by apply Hall.
Qed.

(** C36: The condition gate is exact and fails closed. [evaluate] admits a trigger exactly
    when every entry is a mapping, every key is known, and every declared key holds, for
    one identity: when any key asks about the process, that of the live process with the
    captured pid, whose start time is the captured one if one was captured. An unreadable
    process, a recycled pid, an unknown key or an unmatched value is never admitted. *)
Theorem evaluate_exact pw conditions ctx r :
  evaluate pw conditions ctx = Ok (true, r) ↔
  r = R_none ∧ (∀ e, e ∈ conditions → ∃ d, e = PDict d) ∧
  (∀ key want, requires conditions key want → key ∈ KNOWN_KEYS) ∧
  ∃ id, (∀ key want, requires conditions key want → meets pw ctx id key want = Ok true) ∧
    ((∃ key want, requires conditions key want ∧ key ∈ PROCESS_KEYS) → live_process pw ctx id).
Proof. apply evaluate_iff. Qed.

Lemma match_id_true db actual wants :
  match_id db actual wants = Ok true → ∃ v, v ∈ wants ∧ resolve_name db v = Ok (Some actual).
Proof.
  induction wants as [|v vs IH]; cbn [match_id]; [done|]. destruct (resolve_name db v) as [r|] eqn:Hr; [|done]. cbn [result_bind].
  case_bool_decide as Ha; [subst r; intros _; exists v; split; [left|done]|]. intros (v' & Hin & H)%IH. exists v'. split; [by right|done].
Qed.
Lemma has_uid_requires conds : existsb has_uid conds = true → ∃ want, requires conds "uid" want.
Proof.
  intros (c & Hc%list_elem_of_In & Hu)%existsb_exists. destruct c as [| | | | | |d]; try done. cbn [has_uid] in Hu.
  apply existsb_exists in Hu as ([k want] & Hin%list_elem_of_In & Hk). destruct k; try done. apply bool_decide_eq_true in Hk as ->.
  exists want, d, (PStr "uid"). done.
Qed.

(** C37: The invoker role is enforced. When the workflow names invokers, a run is admitted
    only for a live process whose real uid is one the conditions ask for, or, when they
    name no uid, the uid of one of the invokers. *)
Theorem invoker_enforced pw invokers conds ctx r :
  invokers ≠ [] → conditions_satisfied pw invokers conds ctx = (true, r) →
  ∃ id, live_process pw ctx id ∧
    ((∃ want v, requires conds "uid" want ∧ v ∈ as_list want ∧ resolve_name (pw_passwd pw) v = Ok (Some (id_uid id))) ∨
     ((∀ d want, PDict d ∈ conds → (PStr "uid", want) ∉ d) ∧ ∃ name, name ∈ invokers ∧ resolve_name (pw_passwd pw) (PStr name) = Ok (Some (id_uid id)))).
Proof.
  intros Hne H. unfold conditions_satisfied in H. destruct (evaluate _ _ _) as [x|] eqn:He; [|done]. subst x.
  apply evaluate_iff in He as (-> & _ & _ & id & Hall & Hlive). unfold derive_invoker_conditions in *. destruct invokers as [|i others]; [done|].
  assert (∀ es want, requires es "uid" want → ∃ key want, requires es key want ∧ key ∈ PROCESS_KEYS) as Hp.
  { intros es want Hr. exists "uid", want. split; [done|]. unfold PROCESS_KEYS. set_solver. }
  destruct (existsb has_uid conds) eqn:Hu.
  - apply has_uid_requires in Hu as [want Hr]. exists id. split; [apply Hlive; by eapply Hp|]. left.
    apply Hall in Hr as Hm. apply match_id_true in Hm as (v & Hv & Hres). by eauto 10.
  - assert (requires (conds ++ [PDict [(PStr "uid", PList (PStr <$> i :: others))]]) "uid" (PList (PStr <$> i :: others))) as Hr.
    { eexists _, (PStr "uid"). split; [apply elem_of_app; right; left|]. split; [left|done]. }
    exists id. split; [apply Hlive; by eapply Hp|]. right. split.
    + intros d want Hd Hin. assert (existsb has_uid conds = true) as Hx; [|congruence].
      apply existsb_exists. exists (PDict d). split; [by apply list_elem_of_In|]. cbn [has_uid]. apply existsb_exists. exists (PStr "uid", want).
      split; [by apply list_elem_of_In|]. by apply bool_decide_eq_true.
    + apply Hall in Hr as Hm. apply match_id_true in Hm as (v & Hv & Hres). cbn [as_list] in Hv.
      apply list_elem_of_fmap in Hv as (name & -> & Hname). by eauto.
Qed.

(** The documented git-signing workflow, fired by a live git of uid 1000 *)
Definition git_world : proc_world :=
  {| pw_starttime := λ pid, if (pid =? 42)%Z then 777%Z else 0%Z;
     pw_identity := λ pid, if (pid =? 42)%Z then
       Some {| id_uid := 1000%Z; id_gid := 1000%Z; id_argv0 := "/usr/bin/git"; id_exe := "/usr/bin/git"; id_comm := "git" |} else None;
     pw_passwd := λ n, Ok (if bool_decide (n = "dev") then Some 1000%Z else None);
     pw_group := λ _, Ok None; pw_float_int := λ _, Err ValueError |}.
Definition git_context : context := {["pid" := PInt 42; "pid_starttime" := PInt 777; "cgroup" := PStr "user.slice/dev"]}.
Definition git_conditions : list pyval := [PDict [(PStr "argv0", PStr "git")]].
Lemma git_admitted : conditions_satisfied git_world ["dev"] git_conditions git_context = (true, R_none).
Proof. by vm_compute. Qed.
Lemma invoker_enforced_witness :
  ∃ id, live_process git_world git_context id ∧
    ((∃ want v, requires git_conditions "uid" want ∧ v ∈ as_list want ∧ resolve_name (pw_passwd git_world) v = Ok (Some (id_uid id))) ∨
     ((∀ d want, PDict d ∈ git_conditions → (PStr "uid", want) ∉ d) ∧
      ∃ name, name ∈ ["dev"] ∧ resolve_name (pw_passwd git_world) (PStr name) = Ok (Some (id_uid id)))).
Proof. exact (invoker_enforced git_world ["dev"] git_conditions git_context R_none ltac:(done) git_admitted). Defined.

End Conditions.
