(* ===== verification/WfSchema.v ===== *)
(** * Workflow definitions (workflow_schema.py, workflow_loader.py)

    Reading a definition out of what YAML parsed, loading the two directories, and the plan
    a run is bound to: the canonical JSON text of the definition, and the definition decoded
    from it again. *)

From S2P Require Import Prelude Json LineageStore PyText.

Module Schema.
Import Json PyText.

(** ** Types *)

Inductive TriggerType := PROCESS_SPAWN | CRON | DBUS_SIGNAL | QBUS_EVENT.
Inductive StepType := DELIVER_SECRET | WAIT_FOR_PROCESS | RUN_HOOK | CALL_DBUS | CALL_BROKER.
Inductive RunState := PENDING | RUNNING | FAILED | COMPLETED | INTERRUPTED | EXPIRED.
#[export] Instance RunState_eq_dec : EqDecision RunState.
Proof. solve_decision. Defined.
#[export] Instance StepType_eq_dec : EqDecision StepType.
Proof. solve_decision. Defined.

Definition trigger_text (t : TriggerType) : string :=
  match t with PROCESS_SPAWN => "process_spawn" | CRON => "cron" | DBUS_SIGNAL => "dbus_signal" | QBUS_EVENT => "qbus_event" end.
Definition step_text (t : StepType) : string :=
  match t with
  | DELIVER_SECRET => "deliver_secret" | WAIT_FOR_PROCESS => "wait_for_process" | RUN_HOOK => "run_hook"
  | CALL_DBUS => "call_dbus" | CALL_BROKER => "call_broker"
  end.
(** [TriggerType(text)] and [StepType(text)] *)
Definition trigger_of_text (s : string) : option TriggerType :=
  List.find (λ t, bool_decide (trigger_text t = s)) [PROCESS_SPAWN; CRON; DBUS_SIGNAL; QBUS_EVENT].
Definition step_of_text (s : string) : option StepType :=
  List.find (λ t, bool_decide (step_text t = s)) [DELIVER_SECRET; WAIT_FOR_PROCESS; RUN_HOOK; CALL_DBUS; CALL_BROKER].

Abbreviation dict := (list (pyval * pyval)).
Record TriggerDef := { td_type : TriggerType; td_config : dict }.
Record StepDef := { sd_type : StepType; sd_name : string; sd_config : dict }.
Record WorkflowDef := {
  wf_name : string;
  wf_trigger : TriggerDef;
  wf_steps : list StepDef;
  wf_conditions : list pyval;
  wf_needs : list string;
  wf_roles : list (string * string);
  wf_auto_run : bool;
  wf_source_path : string;
  wf_description : string;
}.

(** [ValueError] with what it says; a [TypeError] comes from the interpreter *)
Inductive why :=
| W_not_mapping | W_no_type | W_bad_type (raw : string) | W_name | W_no_trigger | W_no_steps | W_step_keys
| W_condition | W_needs | W_need | W_roles | W_auto_run | W_unknown_keys | W_key | W_not_finite | W_digits.
Inductive exn := ValueError (w : why) | TypeError.

(** ** Reading *)

(** [key in d], with the value *)
Fixpoint dict_lookup (d : dict) (key : string) : option pyval :=
  match d with
  | [] => None
  | (PStr k, v) :: d' => if bool_decide (k = key) then Some v else dict_lookup d' key
  | _ :: d' => dict_lookup d' key
  end.
Definition dget (d : dict) (key : string) : pyval := default PNone (dict_lookup d key).
Definition is_key (key : string) (k : pyval) : bool := match k with PStr s => bool_decide (s = key) | _ => false end.
Definition is_str (v : pyval) : bool := match v with PStr _ => true | _ => false end.
Definition is_num (v : pyval) : bool := match v with PBool _ | PInt _ | PFloat _ => true | _ => false end.
Definition is_dict (v : pyval) : bool := match v with PDict _ => true | _ => false end.

(** Whether [sorted(l)] finds every pair of [l] comparable *)
Definition sortable (l : list pyval) : bool := (length l <=? 1) || forallb is_str l || forallb is_num l.

(** [TriggerDef.from_dict] *)
Definition trigger_from (v : pyval) : result exn TriggerDef :=
  match v with
  | PDict data =>
      match dget data "type" with
      | PNone => Err (ValueError W_no_type)
      | raw =>
          match trigger_of_text (py_str raw) with
          | None => Err (ValueError (W_bad_type (py_str raw)))
          | Some t => Ok {| td_type := t; td_config := filter (λ p, is_key "type" p.1 = false) data |}
          end
      end
  | _ => Err (ValueError W_not_mapping)
  end.

(** The shorthand [{step_type: config}] *)
Fixpoint shorthand (data : dict) : option (string * dict) :=
  match data with
  | [] => None
  | (PStr k, v) :: data' =>
      if bool_decide (k = "name") then shorthand data'
      else match step_of_text k with
           | Some _ => Some (k, match v with PDict d => d | _ => [(PStr "value", v)] end)
           | None => shorthand data'
           end
  | _ :: data' => shorthand data'
  end.

(** [StepDef.from_dict] *)
Definition step_from (v : pyval) : result exn StepDef :=
  match v with
  | PDict data =>
      let name := py_str (default (PStr "") (dict_lookup data "name")) in
      let* tc :=
        (match dget data "type" with
         | PNone =>
             match shorthand data with
             | Some (k, config) => Ok (k, config)
             | None => if sortable data.*1 then Err (ValueError W_step_keys) else Err TypeError
             end
         | raw => Ok (py_str raw, filter (λ p, is_key "type" p.1 = false ∧ is_key "name" p.1 = false) data)
         end) in
      match step_of_text tc.1 with
      | None => Err (ValueError (W_bad_type tc.1))
      | Some t => Ok {| sd_type := t; sd_name := name; sd_config := tc.2 |}
      end
  | _ => Err (ValueError W_not_mapping)
  end.

Fixpoint map_result {A B} (f : A → result exn B) (l : list A) : result exn (list B) :=
  match l with
  | [] => Ok []
  | x :: l' => let* y := f x in let* ys := map_result f l' in Ok (y :: ys)
  end.

(** [list(v)] of the value of [conditions] *)
Fixpoint chars_of (s : string) : list pyval := match s with "" => [] | String c s' => PStr (String c "") :: chars_of s' end.
Definition py_list (v : pyval) : result exn (list pyval) :=
  match v with
  | PList l => Ok l
  | PDict d => Ok d.*1
  | PStr s => Ok (chars_of s)
  | PNone | PBool _ | PInt _ | PFloat _ => Err TypeError
  end.

(** [{str(k): str(v) for ...}] folded into [roles] *)
Definition role_items (roles : list (string * string)) (d : dict) : list (string * string) :=
  foldl (λ r p, od_set r (py_str p.1) (py_str p.2)) roles d.

Definition conditions_from (data : dict) : result exn (list pyval) :=
  let raw := dget data "conditions" in
  let* l := if pytruthy raw then py_list raw else Ok [] in
  if forallb is_dict l then Ok l else Err (ValueError W_condition).
Definition needs_from (data : dict) : result exn (list string) :=
  let raw := dget data "needs" in
  match (if pytruthy raw then raw else PList []) with
  | PStr s => Ok [s]
  | PList l => map_result (λ v, match v with PStr s => Ok s | _ => Err (ValueError W_need) end) l
  | _ => Err (ValueError W_needs)
  end.
Definition roles_from (data : dict) : result exn (list (string * string)) :=
  let raw := dget data "roles" in
  match (if pytruthy raw then raw else PDict []) with
  | PList l => Ok (foldl (λ r v, match v with PDict d => role_items r d | _ => r end) [] l)
  | PDict d => Ok (role_items [] d)
  | _ => Err (ValueError W_roles)
  end.
Definition TOP_KEYS : list string := ["name"; "trigger"; "steps"; "conditions"; "needs"; "roles"; "auto_run"; "description"].
Definition unknown_key (k : pyval) : bool := negb (existsb (λ t, is_key t k) TOP_KEYS).

(** [WorkflowDef.from_dict] *)
Definition from_dict (v : pyval) (source_path : string) : result exn WorkflowDef :=
  match v with
  | PDict data =>
      match dget data "name" with
      | PStr name =>
          if negb (truthy name) then Err (ValueError W_name)
          else
            let* trigger := (match dget data "trigger" with PNone => Err (ValueError W_no_trigger) | raw => trigger_from raw end) in
            let* steps := (match dget data "steps" with
                           | PList (s :: ss) => map_result step_from (s :: ss)
                           | _ => Err (ValueError W_no_steps)
                           end) in
            let* conditions := conditions_from data in
            let* needs := needs_from data in
            let* roles := roles_from data in
            let* auto_run := (match default (PBool false) (dict_lookup data "auto_run") with
                              | PBool b => Ok b
                              | _ => Err (ValueError W_auto_run)
                              end) in
            let unknown := filter (λ k, unknown_key k = true) data.*1 in
            if negb (bool_decide (length unknown = 0)) then
              (if sortable unknown then Err (ValueError W_unknown_keys) else Err TypeError)
            else
              let raw := dget data "description" in
              Ok {| wf_name := name; wf_trigger := trigger; wf_steps := steps; wf_conditions := conditions; wf_needs := needs;
                    wf_roles := roles; wf_auto_run := auto_run; wf_source_path := source_path;
                    wf_description := if pytruthy raw then py_str raw else "" |}
      | _ => Err (ValueError W_name)
      end
  | _ => Err (ValueError W_not_mapping)
  end.

(** [invoker_identities] and [approver_identities] *)
Definition with_role (role : string) (wf : WorkflowDef) : list string :=
  (filter (λ p, py_lower (py_strip p.2) = role) (wf_roles wf)).*1.
Definition invoker_identities : WorkflowDef → list string := with_role "invoker".
Definition approver_identities : WorkflowDef → list string := with_role "approver".

(** ** Plans *)

Definition finite_float (lexeme : string) : bool := negb (bool_decide (lexeme ∈ ["inf"; "-inf"; "nan"])).

(** [validate] and the value [json.dumps] writes; an integer too long to write raises *)
Fixpoint to_json (v : pyval) : result exn json :=
  match v with
  | PNone => Ok JNull
  | PBool b => Ok (JBool b)
  | PInt z => if bool_decide (int_ok z) then Ok (JInt z) else Err (ValueError W_digits)
  | PFloat x => if finite_float x then Ok (JFloat x) else Err (ValueError W_not_finite)
  | PStr s => Ok (JStr s)
  | PList l =>
      let* js := (fix go l := match l with [] => Ok [] | x :: l' => let* j := to_json x in let* js := go l' in Ok (j :: js) end) l in
      Ok (JArr js)
  | PDict d =>
      let* es := (fix go d := match d with
                              | [] => Ok []
                              | (PStr k, x) :: d' => let* j := to_json x in let* es := go d' in Ok ((k, j) :: es)
                              | _ :: _ => Err (ValueError W_key)
                              end) d in
      Ok (JObj es)
  end.

(** The [data] of [WorkflowPlan.capture] *)
Definition plan_step (s : StepDef) : pyval :=
  PDict [(PStr "type", PStr (step_text (sd_type s))); (PStr "name", PStr (sd_name s)); (PStr "config", PDict (sd_config s))].
Definition plan_value (wf : WorkflowDef) : pyval :=
  PDict [(PStr "name", PStr (wf_name wf));
         (PStr "trigger", PDict [(PStr "type", PStr (trigger_text (td_type (wf_trigger wf)))); (PStr "config", PDict (td_config (wf_trigger wf)))]);
         (PStr "steps", PList (plan_step <$> wf_steps wf));
         (PStr "conditions", PList (wf_conditions wf));
         (PStr "needs", PList (PStr <$> wf_needs wf));
         (PStr "roles", PDict ((λ p, (PStr p.1, PStr p.2)) <$> wf_roles wf));
         (PStr "auto_run", PBool (wf_auto_run wf))].

(** [WorkflowPlan.capture]: the [definition_json] *)
Definition capture (wf : WorkflowDef) : result exn string :=
  let* v := to_json (plan_value wf) in Ok (dumps compact v).

Fixpoint of_json (v : json) : pyval :=
  match v with
  | JNull => PNone
  | JBool b => PBool b
  | JInt z => PInt z
  | JFloat x => PFloat x
  | JStr s => PStr s
  | JArr l => PList (of_json <$> l)
  | JObj d => PDict ((λ '(k, x), (PStr k, of_json x)) <$> d)
  end.

(** Reading the fields of a decoded plan; [None] is a [KeyError] or a wrong type *)
Definition str_field (d : list (string * json)) (key : string) : option string :=
  match od_get d key with Some (JStr s) => Some s | _ => None end.
Definition dict_field (d : list (string * json)) (key : string) : option dict :=
  match od_get d key with Some (JObj e) => Some ((λ '(k, x), (PStr k, of_json x)) <$> e) | _ => None end.
Definition arr_field (d : list (string * json)) (key : string) : option (list json) :=
  match od_get d key with Some (JArr l) => Some l | _ => None end.
Definition decode_step (v : json) : option StepDef :=
  match v with
  | JObj d =>
      text ← str_field d "type"; t ← step_of_text text; name ← str_field d "name"; config ← dict_field d "config";
      Some {| sd_type := t; sd_name := name; sd_config := config |}
  | _ => None
  end.
Definition as_jstr (v : json) : option string := match v with JStr s => Some s | _ => None end.
Definition decode_role (p : string * json) : option (string * string) := s ← as_jstr p.2; Some (p.1, s).

Definition decode_roles (v : json) : option (list (string * string)) := match v with JObj r => mapM decode_role r | _ => None end.
Definition as_jbool (v : json) : option bool := match v with JBool b => Some b | _ => None end.
Definition decode_trigger (v : json) : option TriggerDef :=
  match v with
  | JObj t =>
      text ← str_field t "type"; ty ← trigger_of_text text; config ← dict_field t "config";
      Some {| td_type := ty; td_config := config |}
  | _ => None
  end.

(** [WorkflowPlan.definition] *)
Definition definition (text : string) : option WorkflowDef :=
  match loads text with
  | Ok (JObj d) =>
      name ← str_field d "name";
      trigger ← od_get d "trigger" ≫= decode_trigger;
      steps ← arr_field d "steps" ≫= mapM decode_step;
      conditions ← arr_field d "conditions";
      needs ← arr_field d "needs" ≫= mapM as_jstr;
      roles ← od_get d "roles" ≫= decode_roles;
      auto_run ← od_get d "auto_run" ≫= as_jbool;
      Some {| wf_name := name; wf_trigger := trigger; wf_steps := steps; wf_conditions := of_json <$> conditions;
              wf_needs := needs; wf_roles := roles; wf_auto_run := auto_run; wf_source_path := ""; wf_description := "" |}
  | _ => None
  end.

(** ** Loading *)

Definition MAX_FILE_BYTES : Z := 1048576.
Definition MAX_TOTAL_BYTES : Z := 8388608.

(** One file: its size, [None] when the stat fails, and what [yaml.safe_load] answers *)
Record file := { f_name : string; f_size : option Z; f_yaml : option pyval }.
Inductive load_error :=
| LE_stat (path : string) | LE_file_cap (path : string) | LE_total_cap (path : string)
| LE_parse (path : string) | LE_top_level (path : string) | LE_entry (path : string) (w : why).

Definition yaml_name (s : string) : bool := ends_with ".yaml" s || ends_with ".yml" s.

(** The entries of one file *)
Fixpoint load_entries (path : string) (es : list pyval) : result exn (list WorkflowDef * list load_error) :=
  match es with
  | [] => Ok ([], [])
  | e :: es' =>
      match (let* wf := from_dict e path in let* _ := capture wf in Ok wf) with
      | Err TypeError => Err TypeError
      | Err (ValueError w) => let* r := load_entries path es' in Ok (r.1, LE_entry path w :: r.2)
      | Ok wf => let* r := load_entries path es' in Ok (wf :: r.1, r.2)
      end
  end.
Definition load_file (path : string) (data : pyval) : result exn (list WorkflowDef * list load_error) :=
  match data with
  | PNone => Ok ([], [])
  | PDict _ => load_entries path [data]
  | PList l => load_entries path l
  | _ => Ok ([], [LE_top_level path])
  end.

(** The loop of [_load_dir] over the sorted names *)
Fixpoint load_files (total : Z) (files : list file) : result exn (list WorkflowDef * list load_error) :=
  match files with
  | [] => Ok ([], [])
  | f :: fs =>
      let path := f_name f in
      if negb (yaml_name path) then load_files total fs
      else match f_size f with
           | None => let* r := load_files total fs in Ok (r.1, LE_stat path :: r.2)
           | Some size =>
               if (MAX_FILE_BYTES <? size)%Z then let* r := load_files total fs in Ok (r.1, LE_file_cap path :: r.2)
               else if (MAX_TOTAL_BYTES <? total + size)%Z then Ok ([], [LE_total_cap path])
               else
                 let* h := (match f_yaml f with None => Ok ([], [LE_parse path]) | Some data => load_file path data end) in
                 let* r := load_files (total + size)%Z fs in
                 Ok (h.1 ++ r.1, h.2 ++ r.2)
           end
  end.
Definition file_le (a b : file) : Prop := String.le (f_name a) (f_name b).
#[export] Instance file_le_dec a b : Decision (file_le a b).
Proof. unfold file_le. apply _. Defined.
Definition load_dir (dir : option (list file)) : result exn (list WorkflowDef * list load_error) :=
  match dir with None => Ok ([], []) | Some files => load_files 0 (merge_sort file_le files) end.

(** [WorkflowLoader.load]: a user workflow replaces the system workflow of its name *)
Definition load (system user : option (list file)) : result exn (list WorkflowDef * list load_error) :=
  let* s := load_dir system in
  let* u := load_dir user in
  Ok ((foldl (λ m wf, od_set m (wf_name wf) wf) [] (s.1 ++ u.1)).*2, s.2 ++ u.2).

(** ** Equality of Python values: the order of a mapping does not count *)

Inductive pyeq : pyval → pyval → Prop :=
| pyeq_refl v : pyeq v v
| pyeq_list l l' : Forall2 pyeq l l' → pyeq (PList l) (PList l')
| pyeq_dict d e d' : d ≡ₚ e → Forall2 (λ p q, p.1 = q.1 ∧ pyeq p.2 q.2) e d' → pyeq (PDict d) (PDict d').

(** Values without floats whose mappings have distinct keys *)
Fixpoint pwf (v : pyval) : Prop :=
  match v with
  | PFloat _ => False
  | PList l => (fix go l := match l with [] => True | x :: l' => pwf x ∧ go l' end) l
  | PDict d => NoDup d.*1 ∧ (fix go d := match d with [] => True | (_, x) :: d' => pwf x ∧ go d' end) d
  | _ => True
  end.

Lemma pwf_list l : pwf (PList l) ↔ Forall pwf l.
Proof. induction l as [|x l IH]; [done|]. rewrite Forall_cons, <- IH. done. Qed.
Lemma pwf_dict d : pwf (PDict d) ↔ NoDup d.*1 ∧ Forall (λ p, pwf p.2) d.
Proof. cbn [pwf]. apply and_iff_compat_l. induction d as [|[k x] d IH]; [done|]. rewrite Forall_cons, <- IH. done. Qed.

Lemma to_json_list l : to_json (PList l) = let* js := map_result to_json l in Ok (JArr js).
Proof.
  cbn [to_json]. f_equal. induction l as [|x l IH]; [done|]. cbn [map_result]. destruct (to_json x); [|done]. cbn [result_bind]. by rewrite IH.
Qed.
Definition entry_json (p : pyval * pyval) : result exn (string * json) :=
  match p.1 with PStr k => let* j := to_json p.2 in Ok (k, j) | _ => Err (ValueError W_key) end.
Lemma to_json_dict d : to_json (PDict d) = let* es := map_result entry_json d in Ok (JObj es).
Proof.
  cbn [to_json]. f_equal. induction d as [|[k x] d IH]; [done|]. cbn [map_result]. unfold entry_json at 1. cbn [fst snd].
  destruct k; try done. destruct (to_json x); [|done]. cbn [result_bind]. by rewrite IH.
Qed.

Lemma map_result_ok {A B} (f : A → result exn B) l ys : map_result f l = Ok ys → Forall2 (λ x y, f x = Ok y) l ys.
Proof.
  revert ys. induction l as [|x l IH]; intros ys; cbn [map_result]; [intros [= <-]; constructor|].
  destruct (f x) as [y|] eqn:Hx; [|done]. cbn [result_bind]. destruct (map_result f l) as [zs|]; [|done]. intros [= <-]. constructor; [done|by apply IH].
Qed.

(** Induction through the nested lists *)
Section pyval_rect.
Context (P : pyval → Prop).
Hypothesis Hleaf : ∀ v, (∀ l, v ≠ PList l) → (∀ d, v ≠ PDict d) → P v.
Hypothesis Hlist : ∀ l, Forall P l → P (PList l).
Hypothesis Hdict : ∀ d, Forall (λ p, P p.2) d → P (PDict d).

Fixpoint pyval_ind' (v : pyval) : P v :=
  match v return P v with
  | PNone => Hleaf PNone ltac:(done) ltac:(done)
  | PBool b => Hleaf (PBool b) ltac:(done) ltac:(done)
  | PInt z => Hleaf (PInt z) ltac:(done) ltac:(done)
  | PFloat x => Hleaf (PFloat x) ltac:(done) ltac:(done)
  | PStr s => Hleaf (PStr s) ltac:(done) ltac:(done)
  | PList l => Hlist l ((fix go l := match l return Forall P l with
      | [] => Forall_nil_2 _ | v :: l' => Forall_cons_2 _ _ _ (pyval_ind' v) (go l') end) l)
  | PDict d => Hdict d ((fix go d := match d return Forall (λ p, P p.2) d with
      | [] => Forall_nil_2 _ | p :: d' => Forall_cons_2 _ _ _ (pyval_ind' p.2) (go d') end) d)
  end.
End pyval_rect.

(** The JSON value of a plain value is the value *)
Lemma of_to_json v : ∀ j, to_json v = Ok j → of_json j = v.
Proof.
  induction v as [v Hl Hd|l IH|d IH] using pyval_ind'; intros j.
  - destruct v; cbn [to_json]; try (by intros [= <-]); try (case_match; [by intros [= <-]|done]); naive_solver.
  - rewrite to_json_list. destruct (map_result to_json l) as [js|] eqn:Hm; [|done]. intros [= <-]. cbn [of_json]. f_equal.
    apply map_result_ok in Hm. induction Hm as [|x y l ys Hx _ IHm]; [done|]. apply Forall_cons in IH as [IH1 IH2]. cbn. by rewrite (IH1 y Hx), IHm.
  - rewrite to_json_dict. destruct (map_result entry_json d) as [js|] eqn:Hm; [|done]. intros [= <-]. cbn [of_json]. f_equal.
    apply map_result_ok in Hm. induction Hm as [|[k x] y d ys Hx _ IHm]; [done|]. apply Forall_cons in IH as [IH1 IH2]. cbn. rewrite IHm by done. f_equal.
    unfold entry_json in Hx. cbn [fst snd] in *. destruct k; try done. destruct (to_json x) as [j|] eqn:Hj; [|done]. injection Hx as <-. by rewrite (IH1 j eq_refl).
Qed.

Lemma to_json_wf v : pwf v → ∀ j, to_json v = Ok j → jwf j.
Proof.
  induction v as [v Hl Hd|l IH|d IH] using pyval_ind'; intros Hw j.
  - destruct v; cbn [to_json]; try (by intros [= <-]); try naive_solver. case_bool_decide; [|done]. by intros [= <-].
  - rewrite to_json_list. destruct (map_result to_json l) as [js|] eqn:Hm; [|done]. intros [= <-]. apply jwf_arr. apply pwf_list in Hw.
    apply map_result_ok in Hm. induction Hm as [|x y l ys Hx _ IHm]; [done|]. apply Forall_cons in IH as [IH1 IH2], Hw as [Hw1 Hw2]. constructor; by eauto.
  - rewrite to_json_dict. destruct (map_result entry_json d) as [js|] eqn:Hm; [|done]. intros [= <-]. apply jwf_obj. apply pwf_dict in Hw as [Hnd Hw].
    apply map_result_ok in Hm. assert (d.*1 = PStr <$> keys js) as Hk.
    { clear -Hm. unfold keys. induction Hm as [|[k x] y d ys Hx _ IHm]; [done|]. cbn. rewrite IHm. f_equal. unfold entry_json in Hx. cbn [fst snd] in *.
      destruct k; try done. destruct (to_json x); [|done]. by injection Hx as <-. }
    split; [rewrite Hk in Hnd; by apply NoDup_fmap_1 in Hnd|]. clear Hnd Hk.
    induction Hm as [|[k x] y d ys Hx _ IHm]; [done|]. apply Forall_cons in IH as [IH1 IH2], Hw as [Hw1 Hw2]. constructor; [|by apply IHm].
    unfold entry_json in Hx. cbn [fst snd] in *. destruct k; try done. destruct (to_json x) as [j|] eqn:Hj; [|done]. injection Hx as <-. by apply IH1.
Qed.

(** Sorting the keys gives an equal value *)
Lemma norm_pyeq j : pyeq (of_json (norm j)) (of_json j).
Proof.
  induction j as [| | | | |l IH|d IH] using json_ind'; try constructor.
  - cbn. rewrite Forall2_fmap_r, !Forall2_fmap_l. by apply Forall_Forall2_diag.
  - cbn [norm of_json]. eapply (pyeq_dict _ ((λ '(k, x), (PStr k, of_json x)) <$> ((λ '(k, x), (k, norm x)) <$> d))).
    + by rewrite sort_entries_perm.
    + rewrite <- list_fmap_compose, Forall2_fmap. apply Forall_Forall2_diag. eapply Forall_impl; [exact IH|]. intros [k x] Hx. by split.
Qed.

Lemma od_get_perm {A} (d d' : list (string * A)) k : d ≡ₚ d' → NoDup (keys d) → od_get d k = od_get d' k.
Proof.
  intros Hp Hnd. destruct (od_get d k) as [v|] eqn:Hv.
  - symmetry. apply od_elem_get; [by unfold keys in *; rewrite <- Hp|]. rewrite <- Hp. by apply od_get_elem.
  - symmetry. apply od_get_None. apply od_get_None in Hv. unfold keys in *. by rewrite <- Hp.
Qed.

Abbreviation normed d := (sort_entries ((λ '((k, x) : string * json), (k, norm x)) <$> d)).
Lemma keys_normed (d : list (string * json)) : keys ((λ '(k, x), (k, norm x)) <$> d) = keys d.
Proof. unfold keys. induction d as [|[k x] d IH]; [done|]. cbn. by rewrite IH. Qed.
Lemma get_normed (d : list (string * json)) k : NoDup (keys d) → od_get (normed d) k = norm <$> od_get d k.
Proof.
  intros Hnd. rewrite (od_get_perm _ ((λ '(k, x), (k, norm x)) <$> d)).
  - clear Hnd. induction d as [|[k' x] d IH]; [done|]. cbn. by case_bool_decide.
  - apply sort_entries_perm.
  - unfold keys. rewrite sort_entries_perm. fold (keys ((λ '(k, x), (k, norm x)) <$> d)). by rewrite keys_normed.
Qed.

(** Two definitions that agree on everything a plan holds *)
Definition same_dict (d d' : dict) : Prop := pyeq (PDict d) (PDict d').
Definition same_step (s s' : StepDef) : Prop :=
  sd_type s = sd_type s' ∧ sd_name s = sd_name s' ∧ same_dict (sd_config s') (sd_config s).
Definition same_plan (w w' : WorkflowDef) : Prop :=
  wf_name w = wf_name w' ∧ td_type (wf_trigger w) = td_type (wf_trigger w') ∧
  same_dict (td_config (wf_trigger w')) (td_config (wf_trigger w)) ∧ Forall2 same_step (wf_steps w) (wf_steps w') ∧
  Forall2 (λ v v', pyeq v' v) (wf_conditions w) (wf_conditions w') ∧ wf_needs w = wf_needs w' ∧
  wf_roles w ≡ₚ wf_roles w' ∧ wf_auto_run w = wf_auto_run w'.

Lemma of_json_dict j d : of_json j = PDict d → ∃ e, j = JObj e ∧ d = (λ '(k, x), (PStr k, of_json x)) <$> e.
Proof. destruct j; try done. cbn. intros [= <-]. by eauto. Qed.
Lemma of_json_list j l : of_json j = PList l → ∃ e, j = JArr e ∧ l = of_json <$> e.
Proof. destruct j; try done. cbn. intros [= <-]. by eauto. Qed.
Lemma of_json_str j s : of_json j = PStr s → j = JStr s.
Proof. destruct j; try done. cbn. by intros [= ->]. Qed.

Lemma dict_field_normed d k e d' :
  NoDup (keys d) → od_get d k = Some e → of_json e = PDict d' → ∃ c, dict_field (normed d) k = Some c ∧ same_dict c d'.
Proof.
  intros Hnd Hg (o & -> & ->)%of_json_dict. unfold dict_field. rewrite get_normed, Hg by done. cbn. eexists. split; [done|].
  apply (norm_pyeq (JObj o)).
Qed.
Lemma str_field_normed d k s : NoDup (keys d) → od_get d k = Some (JStr s) → str_field (normed d) k = Some s.
Proof. intros Hnd Hg. unfold str_field. by rewrite get_normed, Hg. Qed.

Lemma step_of_step t : step_of_text (step_text t) = Some t.
Proof. by destruct t. Qed.
Lemma trigger_of_trigger t : trigger_of_text (trigger_text t) = Some t.
Proof. by destruct t. Qed.

#[local] Arguments step_of_text : simpl never.
#[local] Arguments trigger_of_text : simpl never.
#[local] Arguments str_field : simpl never.
#[local] Arguments dict_field : simpl never.
#[local] Arguments sort_entries : simpl never.

Lemma decode_step_normed j s :
  jwf j → of_json j = plan_step s → ∃ s', decode_step (norm j) = Some s' ∧ same_step s s'.
Proof.
  intros Hw (e & -> & He)%of_json_dict. apply jwf_obj in Hw as [Hnd _].
  destruct e as [|[k1 v1] [|[k2 v2] [|[k3 v3] [|]]]]; try done. cbn in He. injection He as <- H1 <- H2 <- H3.
  symmetry in H1, H2, H3. apply of_json_str in H1 as ->, H2 as ->. cbn [norm decode_step].
  rewrite (str_field_normed _ "type" (step_text (sd_type s))) by done. cbn [mbind option_bind]. rewrite step_of_step. cbn [mbind option_bind].
  rewrite (str_field_normed _ "name" (sd_name s)) by done. cbn [mbind option_bind].
  destruct (dict_field_normed _ "config" v3 _ Hnd eq_refl H3) as (c & -> & Hc). cbn [mbind option_bind]. eexists. split; [done|]. by split_and!.
Qed.
Lemma decode_trigger_normed j t :
  jwf j → of_json j = PDict [(PStr "type", PStr (trigger_text (td_type t))); (PStr "config", PDict (td_config t))] →
  ∃ t', decode_trigger (norm j) = Some t' ∧ td_type t = td_type t' ∧ same_dict (td_config t') (td_config t).
Proof.
  intros Hw (e & -> & He)%of_json_dict. apply jwf_obj in Hw as [Hnd _]. destruct e as [|[k1 v1] [|[k2 v2] [|]]]; try done.
  cbn in He. injection He as <- H1 <- H2. symmetry in H1, H2. apply of_json_str in H1 as ->. cbn [norm decode_trigger].
  rewrite (str_field_normed _ "type" (trigger_text (td_type t))) by done. cbn [mbind option_bind]. rewrite trigger_of_trigger. cbn [mbind option_bind].
  destruct (dict_field_normed _ "config" v2 _ Hnd eq_refl H2) as (c & -> & Hc). cbn [mbind option_bind]. by eauto.
Qed.
Lemma decode_steps js steps :
  Forall jwf js → of_json <$> js = plan_step <$> steps → ∃ ss, mapM decode_step (norm <$> js) = Some ss ∧ Forall2 same_step steps ss.
Proof.
  revert steps. induction js as [|j js IH]; intros [|s steps] Hw He; try done; cbn in He; [by exists []|].
  injection He as Hj He. apply Forall_cons in Hw as [Hw1 Hw2]. destruct (decode_step_normed j s Hw1 Hj) as (s' & H1 & Hs).
  destruct (IH steps Hw2 He) as (ss & H2 & Hss). exists (s' :: ss). cbn. rewrite H1. cbn. rewrite H2. cbn. split; [done|by constructor].
Qed.
Lemma decode_needs js needs : of_json <$> js = PStr <$> needs → mapM as_jstr (norm <$> js) = Some needs.
Proof.
  revert needs. induction js as [|j js IH]; intros [|n needs] He; try done. cbn in He. injection He as Hj He.
  apply of_json_str in Hj as ->. cbn. by rewrite (IH needs He).
Qed.
Lemma decode_roles_plain e roles :
  (λ '(k, x), (PStr k, of_json x)) <$> e = (λ p, (PStr p.1, PStr p.2)) <$> roles → mapM decode_role ((λ '(k, x), (k, norm x)) <$> e) = Some roles.
Proof.
  revert roles. induction e as [|[k x] e IH]; intros [|[k' v'] roles] He; try done. cbn in He. injection He as -> Hj He.
  apply of_json_str in Hj as ->. cbn. by rewrite (IH roles He).
Qed.
Lemma mapM_perm {A B} (f : A → option B) l l' ys : l ≡ₚ l' → mapM f l = Some ys → ∃ ys', mapM f l' = Some ys' ∧ ys ≡ₚ ys'.
Proof.
  intros Hp. revert ys. induction Hp as [|x l l' _ IH|x y l|l l' l'' _ IH1 _ IH2]; intros ys; cbn.
  - intros [= <-]. by exists [].
  - destruct (f x) as [b|]; [|done]. cbn. destruct (mapM f l) as [bs|]; [|done]. cbn. intros [= <-].
    destruct (IH bs eq_refl) as (bs' & -> & Hb). exists (b :: bs'). by rewrite Hb.
  - destruct (f y) as [b|]; [|done]. cbn. destruct (f x) as [a|]; [|done]. cbn. destruct (mapM f l) as [bs|]; [|done]. cbn. intros [= <-].
    exists (a :: b :: bs). split; [done|]. apply perm_swap.
  - intros (ys' & H1 & P1)%IH1. apply IH2 in H1 as (ys'' & H2 & P2). exists ys''. split; [done|]. by rewrite P1.
Qed.

(** C38: A plan holds the whole definition. Whatever the capture wrote of a definition
    whose values hold no float (a float [timeout] is one) and whose mappings have distinct
    string keys, the definition decoded from the text is the captured one: the same name,
    trigger, steps in order, conditions, declared needs, roles and approval rule, with
    mappings equal as Python compares them. *)
Theorem plan_roundtrip wf text :
  pwf (plan_value wf) → capture wf = Ok text → ∃ wf', definition text = Some wf' ∧ same_plan wf wf'.
Proof.
  intros Hw H. unfold capture in H. destruct (to_json (plan_value wf)) as [j|] eqn:Hj; [|done]. injection H as <-.
  pose proof (to_json_wf _ Hw j Hj) as Hjw. apply of_to_json in Hj. unfold definition, loads.
  rewrite (loads_dumps plain_hooks compact j compact_ok Hjw). cbn [sort_keys compact].
  apply of_json_dict in Hj as (d & -> & Hd). apply jwf_obj in Hjw as [Hnd Hjw]. cbn [norm].
  pose proof (λ k, get_normed d k Hnd) as Hget. set (D := normed d) in *. clearbody D.
  destruct d as [|[k1 v1] [|[k2 v2] [|[k3 v3] [|[k4 v4] [|[k5 v5] [|[k6 v6] [|[k7 v7] [|]]]]]]]]; try done.
  cbn in Hd. injection Hd as <- H1 <- H2 <- H3 <- H4 <- H5 <- H6 <- H7. symmetry in H1, H2, H3, H4, H5, H6, H7.
  rewrite !Forall_cons in Hjw. destruct Hjw as (_ & W2 & W3 & _ & _ & W6 & _ & _). cbn [snd] in *.
  apply of_json_str in H1 as ->. apply of_json_list in H3 as (js & -> & Hjs). symmetry in Hjs. apply jwf_arr in W3.
  destruct (decode_steps js (wf_steps wf) W3 Hjs) as (ss & Hss & Hsteps).
  apply of_json_list in H4 as (jc & -> & Hjc). apply of_json_list in H5 as (jn & -> & Hjn). symmetry in Hjn.
  apply of_json_dict in H6 as (r & -> & Hr). symmetry in Hr. assert (v7 = JBool (wf_auto_run wf)) as -> by (destruct v7; try done; cbn in H7; congruence).
  destruct (mapM_perm decode_role _ (normed r) (wf_roles wf) ltac:(symmetry; apply sort_entries_perm) (decode_roles_plain r _ Hr)) as (roles & Hroles & Hrp).
  destruct (decode_trigger_normed v2 (wf_trigger wf) W2 H2) as (T & HT & Ht1 & Ht2).
  assert (∀ k v, od_get _ k = Some v → od_get D k = Some (norm v)) as Hg by (intros k v Hk; by rewrite Hget, Hk).
  unfold str_field, arr_field. rewrite (Hg "name" _ eq_refl), (Hg "trigger" _ eq_refl), (Hg "steps" _ eq_refl), (Hg "conditions" _ eq_refl),
    (Hg "needs" _ eq_refl), (Hg "roles" _ eq_refl), (Hg "auto_run" _ eq_refl).
  cbn [norm mbind option_bind decode_roles as_jbool]. rewrite HT. cbn [mbind option_bind]. rewrite Hss. cbn [mbind option_bind].
  rewrite (decode_needs jn _ Hjn). cbn [mbind option_bind]. rewrite Hroles. cbn [mbind option_bind]. eexists. split; [done|].
  split_and!; cbn; try done. rewrite Hjc. rewrite Forall2_fmap_l, !Forall2_fmap_r. apply Forall_Forall2_diag, Forall_forall. intros x _. apply norm_pyeq.
Qed.

(** A definition as the capture of the sample wrote it *)
Definition sample_wf : WorkflowDef :=
  {| wf_name := "git-sign"; wf_trigger := {| td_type := PROCESS_SPAWN; td_config := [(PStr "cgroup_pattern", PStr "user.slice/*")] |};
     wf_steps := [{| sd_type := DELIVER_SECRET; sd_name := ""; sd_config := [(PStr "item", PStr "vault/key"); (PStr "as", PStr "ssh-agent")] |}];
     wf_conditions := [PDict [(PStr "argv0", PStr "git")]]; wf_needs := ["vault/key"]; wf_roles := [("dev", "invoker"); ("admin", "approver")];
     wf_auto_run := false; wf_source_path := "/etc/qdistro/workflows/git.yaml"; wf_description := "" |}.
Lemma sample_wf_plain : pwf (plan_value sample_wf).
Proof. cbn. repeat split; try (apply NoDup_cons_2; [set_solver|]); repeat constructor; set_solver. Qed.
Definition sample_text : string := match capture sample_wf with Ok t => t | Err _ => "" end.
Lemma sample_captured : capture sample_wf = Ok sample_text.
Proof. by vm_compute. Qed.
Lemma plan_roundtrip_witness : ∃ wf', definition sample_text = Some wf' ∧ same_plan sample_wf wf'.
Proof. exact (plan_roundtrip sample_wf sample_text sample_wf_plain sample_captured). Defined.

(** ** What the loader returns *)

Definition checked (wf : WorkflowDef) : Prop := is_ok (capture wf) = true ∧ truthy (wf_name wf) = true ∧ wf_steps wf ≠ [].

Lemma from_dict_checked v path wf : from_dict v path = Ok wf → truthy (wf_name wf) = true ∧ wf_steps wf ≠ [].
Proof.
  unfold from_dict. destruct v as [| | | | | |data]; try done. destruct (dget data "name") as [| | | |name| |]; try done.
  destruct (truthy name) eqn:Hn; [|done]. cbn [negb].
  destruct (match dget data "trigger" with PNone => _ | _ => _ end); [|done]. cbn [result_bind].
  destruct (dget data "steps") as [| | | | |[|s ss]|]; try done. destruct (map_result step_from (s :: ss)) as [steps|] eqn:Hs; [|done]. cbn [result_bind].
  destruct (conditions_from data); [|done]. cbn [result_bind]. destruct (needs_from data); [|done]. cbn [result_bind].
  destruct (roles_from data); [|done]. cbn [result_bind].
  destruct (match default _ _ with PBool b => Ok b | _ => _ end); [|done]. cbn [result_bind].
  destruct (negb _); [by destruct (sortable _)|]. intros [= <-]. cbn. split; [done|].
  apply map_result_ok in Hs. intros ->. by inversion Hs.
Qed.
Lemma load_entries_checked path es r : load_entries path es = Ok r → Forall checked r.1.
Proof.
  revert r. induction es as [|e es IH]; intros r; cbn [load_entries]; [by intros [= <-]|].
  destruct (from_dict e path) as [wf|[w|]] eqn:Hf; cbn [result_bind]; [|..|done].
  - destruct (capture wf) as [t|[w|]] eqn:Hc; cbn [result_bind]; [|..|done].
    + destruct (load_entries path es) as [r'|]; [|done]. intros [= <-]. constructor; [|by apply IH].
      split; [by rewrite Hc|]. by eapply from_dict_checked.
    + destruct (load_entries path es) as [r'|]; [|done]. intros [= <-]. by apply (IH r').
  - destruct (load_entries path es) as [r'|]; [|done]. intros [= <-]. by apply (IH r').
Qed.
Lemma load_files_checked files : ∀ total r, load_files total files = Ok r → Forall checked r.1.
Proof.
  induction files as [|f fs IH]; intros total r; cbn [load_files]; [by intros [= <-]|].
  case_match; [apply IH|]. destruct (f_size f) as [size|]; [|destruct (load_files total fs) eqn:Hr; [|done]; intros [= <-]; exact (IH _ _ Hr)].
  case_match; [destruct (load_files total fs) eqn:Hr; [|done]; intros [= <-]; exact (IH _ _ Hr)|]. case_match; [by intros [= <-]|].
  destruct (match f_yaml f with None => _ | Some data => load_file (f_name f) data end) as [h|] eqn:Hh; [|done]. cbn [result_bind].
  destruct (load_files _ fs) as [r'|] eqn:Hr; [|done]. intros [= <-]. cbn. apply Forall_app. split; [|by eapply IH].
  destruct (f_yaml f) as [data|]; [|by injection Hh as <-]. unfold load_file in Hh.
  destruct data; try (by injection Hh as <-); by eapply load_entries_checked.
Qed.

Lemma merge_names (m : list (string * WorkflowDef)) wfs :
  NoDup (keys m) → Forall (λ p, p.1 = wf_name p.2 ∧ checked p.2) m → Forall checked wfs →
  let m' := foldl (λ m wf, od_set m (wf_name wf) wf) m wfs in NoDup (keys m') ∧ Forall (λ p, p.1 = wf_name p.2 ∧ checked p.2) m'.
Proof.
  intros Hnd Hm Hw. revert m Hnd Hm. induction Hw as [|wf wfs Hwf _ IH]; intros m Hnd Hm; [done|]. cbn. apply IH; [by apply od_set_NoDup|].
  apply Forall_forall. intros p [->|Hp]%od_set_elem; [by split|]. rewrite Forall_forall in Hm. by apply Hm.
Qed.

(** What the loader returns can be run and told apart: the names are distinct, no name
    is empty, every workflow has a step, and every one has a plan. *)
Theorem loaded_workflows_checked system user wfs errs :
  load system user = Ok (wfs, errs) → NoDup (wf_name <$> wfs) ∧ Forall checked wfs.
Proof.
  unfold load, load_dir. intros H. destruct (match system with None => _ | Some files => _ end) as [s|] eqn:Hs; [|done]. cbn [result_bind] in H.
  destruct (match user with None => _ | Some files => _ end) as [u|] eqn:Hu; [|done]. injection H as <- <-.
  assert (Forall checked (s.1 ++ u.1)) as Hall.
  { apply Forall_app. split; [destruct system|destruct user]; try (by eapply load_files_checked); by simplify_eq. }
  destruct (merge_names [] (s.1 ++ u.1)) as [Hnd Hm]; [constructor|constructor|done|]. set (m := foldl _ _ _) in *.
  assert (wf_name <$> m.*2 = keys m) as ->.
  { unfold keys. clear Hnd. induction Hm as [|p m [Hp _] _ IH]; [done|]. cbn. by rewrite Hp, IH. }
  split; [done|]. apply Forall_fmap. eapply Forall_impl; [exact Hm|]. by intros p [_ ?].
Qed.

Definition good_file : file :=
  {| f_name := "a.yaml"; f_size := Some 100%Z;
     f_yaml := Some (PDict [(PStr "name", PStr "w"); (PStr "trigger", PDict [(PStr "type", PStr "cron")]);
                            (PStr "steps", PList [PDict [(PStr "run_hook", PDict [(PStr "hook", PStr "h")])]])]) |}.
Definition good_loaded : list WorkflowDef * list load_error := match load (Some [good_file]) None with Ok r => r | Err _ => ([], []) end.
Lemma good_loads : load (Some [good_file]) None = Ok (good_loaded.1, good_loaded.2).
Proof. by vm_compute. Qed.
Lemma loaded_workflows_checked_witness : NoDup (wf_name <$> good_loaded.1) ∧ Forall checked good_loaded.1.
Proof. exact (loaded_workflows_checked (Some [good_file]) None good_loaded.1 good_loaded.2 good_loads). Defined.

(** ** One file can stop all of them *)

(** A definition whose [conditions] is a number *)
Definition bad_file (n : Z) : file :=
  {| f_name := "z.yaml"; f_size := Some 100%Z;
     f_yaml := Some (PDict [(PStr "name", PStr "w"); (PStr "trigger", PDict [(PStr "type", PStr "cron")]);
                            (PStr "steps", PList [PDict [(PStr "run_hook", PDict [(PStr "hook", PStr "h")])]]);
                            (PStr "conditions", PInt n)]) |}.

(** A single malformed file stops the loading of every workflow. When the conditions of
    one definition are a number, [list] raises a TypeError, which the per-entry handler
    for ValueError lets through: whatever the other files hold, the load raises instead of
    reporting the file and going on. *)
Theorem malformed_conditions_abort_load system n r :
  (n ≠ 0)%Z → load_dir system = Ok r → load system (Some [bad_file n]) = Err TypeError.
Proof. intros Hn Hs. unfold load. rewrite Hs. destruct n; [done|by vm_compute..]. Qed.
Lemma malformed_conditions_abort_load_witness : load (Some [good_file]) (Some [bad_file 5]) = Err TypeError.
Proof. by apply (malformed_conditions_abort_load (Some [good_file]) 5 (good_loaded.1, good_loaded.2)); [|vm_compute]. Defined.

End Schema.
