(* ===== verification/WfEngine.v ===== *)
(** * The workflow engine (workflow_engine.py)

    Runs of workflows: how a trigger creates them, what an approval is bound to, how a
    reload takes it back, the steps and the secret channels they open, and the cleanup of
    those channels. Calls that leave the engine, to the audit database, the vault, a
    delivery channel, the relay, D-Bus or the broker, are logged with their answer, which is
    an arbitrary function of the log and may be an exception. Clock readings are left out. *)

From S2P Require Import Prelude Json LineageStore PyText WfConditions WfSchema.

Module Engine.
Import PyText Schema.

(** ** State *)

Inductive run_error :=
| E_none | E_invalidated | E_admission | E_pool | E_conditions (r : Conditions.reason) | E_step (i : nat) | E_uncaught.
Inductive cleanup_state := CS_not_needed | CS_pending | CS_unresolved | CS_confirmed.

(** [WorkflowRun]; [r_audit_failures] counts its audit entries, [r_uid] is the cached
    [_trigger_uid] of its context *)
Record run := {
  r_name : string;
  r_state : RunState;
  r_context : Conditions.context;
  r_plan : string;
  r_execution : bool;
  r_channel : list (string * string);
  r_uid : option Z;
  r_error : run_error;
  r_steps : list (StepType * bool);
  r_cleanup : cleanup_state;
  r_cleanup_pending : nat;
  r_audit_failures : nat;
}.

(** A delivery: the canonical method and the reference its channel is reached by *)
Record handle := { h_method : string; h_ref : option string; h_scrubbed : bool }.

Inductive audit_row :=
| A_queued (rid digest : string) | A_pending (rid : string) | A_binding (rid digest : string) | A_approval (rid digest : string)
| A_start (rid : string) | A_complete (rid : string) | A_failed (rid : string) (e : run_error) | A_step (rid : string) (t : StepType) (ok : bool)
| A_scrub (rid item : string) (h : nat) | A_cleanup (rid : string) (s : cleanup_state) (pending : nat).

Inductive op :=
| O_audit (a : audit_row)
| O_facts
| O_fetch (item rid : string)
| O_make (method : string)
| O_deliver (h : nat)
| O_revoke (h : nat)
| O_relay (rid name : string) (v : option string)
| O_notify (rid : string)
| O_hook (name : string)
| O_dbus (bus_name path method : string)
| O_broker (method : string)
| O_wait (pid : Z)
| O_submit (rid : string).

Inductive exn := E_type | E_other.
Inductive answer :=
| Done | Facts (pw : Conditions.proc_world) | Ref (r : option string) | Verdict (v : pyval) | Exited (b : bool) | Raise (e : exn).

Record event := Ev { ev_op : op; ev_answer : answer }.
Definition world : Type := list event → op → answer.

Record engine := {
  workflows : gmap string WorkflowDef;
  runs : list (string * run);
  inflight : Z;
  active_keys : gset (string * string);
  delivered_secrets : gmap string (list string);
  delivery_handles : gmap string (list nat);
  cleanup_items : gmap nat string;
  cleanup_attempts : gmap nat nat;
  cleanup_pending_runs : gset string;
  relay_attempts : gmap (string * string) nat;
  relay_cleared : gset (string * string);
  stopping : bool;
  heap : gmap nat handle;
  next_handle : nat;
  log : list event;
}.

(** The parameters of the constructor, the environment and the digest *)
Record config := {
  cf_audit : bool;
  cf_registrar : bool;
  cf_source : bool;
  cf_hooks : bool;
  cf_broker : bool;
  cf_dbus_open : bool;
  cf_dbus_allow : string;
  cf_max_inflight : Z;
  cf_float_int : string → option Z;
  cf_sha256 : string → string;
}.

(** ** Updates *)

Definition set_runs (v : list (string * run)) (s : engine) : engine :=
  {| workflows := workflows s; runs := v; inflight := inflight s; active_keys := active_keys s; delivered_secrets := delivered_secrets s;
     delivery_handles := delivery_handles s; cleanup_items := cleanup_items s; cleanup_attempts := cleanup_attempts s;
     cleanup_pending_runs := cleanup_pending_runs s; relay_attempts := relay_attempts s; relay_cleared := relay_cleared s;
     stopping := stopping s; heap := heap s; next_handle := next_handle s; log := log s |}.
Definition set_workflows (v : gmap string WorkflowDef) (s : engine) : engine :=
  {| workflows := v; runs := runs s; inflight := inflight s; active_keys := active_keys s; delivered_secrets := delivered_secrets s;
     delivery_handles := delivery_handles s; cleanup_items := cleanup_items s; cleanup_attempts := cleanup_attempts s;
     cleanup_pending_runs := cleanup_pending_runs s; relay_attempts := relay_attempts s; relay_cleared := relay_cleared s;
     stopping := stopping s; heap := heap s; next_handle := next_handle s; log := log s |}.
Definition set_active (n : Z) (k : gset (string * string)) (s : engine) : engine :=
  {| workflows := workflows s; runs := runs s; inflight := n; active_keys := k; delivered_secrets := delivered_secrets s;
     delivery_handles := delivery_handles s; cleanup_items := cleanup_items s; cleanup_attempts := cleanup_attempts s;
     cleanup_pending_runs := cleanup_pending_runs s; relay_attempts := relay_attempts s; relay_cleared := relay_cleared s;
     stopping := stopping s; heap := heap s; next_handle := next_handle s; log := log s |}.
Definition set_secrets (d : gmap string (list string)) (h : gmap string (list nat)) (i : gmap nat string) (a : gmap nat nat) (p : gset string) (s : engine) : engine :=
  {| workflows := workflows s; runs := runs s; inflight := inflight s; active_keys := active_keys s; delivered_secrets := d;
     delivery_handles := h; cleanup_items := i; cleanup_attempts := a;
     cleanup_pending_runs := p; relay_attempts := relay_attempts s; relay_cleared := relay_cleared s;
     stopping := stopping s; heap := heap s; next_handle := next_handle s; log := log s |}.
Definition set_relay (a : gmap (string * string) nat) (c : gset (string * string)) (s : engine) : engine :=
  {| workflows := workflows s; runs := runs s; inflight := inflight s; active_keys := active_keys s; delivered_secrets := delivered_secrets s;
     delivery_handles := delivery_handles s; cleanup_items := cleanup_items s; cleanup_attempts := cleanup_attempts s;
     cleanup_pending_runs := cleanup_pending_runs s; relay_attempts := a; relay_cleared := c;
     stopping := stopping s; heap := heap s; next_handle := next_handle s; log := log s |}.
Definition set_heap (h : gmap nat handle) (n : nat) (s : engine) : engine :=
  {| workflows := workflows s; runs := runs s; inflight := inflight s; active_keys := active_keys s; delivered_secrets := delivered_secrets s;
     delivery_handles := delivery_handles s; cleanup_items := cleanup_items s; cleanup_attempts := cleanup_attempts s;
     cleanup_pending_runs := cleanup_pending_runs s; relay_attempts := relay_attempts s; relay_cleared := relay_cleared s;
     stopping := stopping s; heap := h; next_handle := n; log := log s |}.
Definition set_stopping (b : bool) (s : engine) : engine :=
  {| workflows := workflows s; runs := runs s; inflight := inflight s; active_keys := active_keys s; delivered_secrets := delivered_secrets s;
     delivery_handles := delivery_handles s; cleanup_items := cleanup_items s; cleanup_attempts := cleanup_attempts s;
     cleanup_pending_runs := cleanup_pending_runs s; relay_attempts := relay_attempts s; relay_cleared := relay_cleared s;
     stopping := b; heap := heap s; next_handle := next_handle s; log := log s |}.
Definition set_log (l : list event) (s : engine) : engine :=
  {| workflows := workflows s; runs := runs s; inflight := inflight s; active_keys := active_keys s; delivered_secrets := delivered_secrets s;
     delivery_handles := delivery_handles s; cleanup_items := cleanup_items s; cleanup_attempts := cleanup_attempts s;
     cleanup_pending_runs := cleanup_pending_runs s; relay_attempts := relay_attempts s; relay_cleared := relay_cleared s;
     stopping := stopping s; heap := heap s; next_handle := next_handle s; log := l |}.

Definition with_state (st : RunState) (r : run) : run :=
  {| r_name := r_name r; r_state := st; r_context := r_context r; r_plan := r_plan r; r_execution := r_execution r; r_channel := r_channel r;
     r_uid := r_uid r; r_error := r_error r; r_steps := r_steps r; r_cleanup := r_cleanup r; r_cleanup_pending := r_cleanup_pending r;
     r_audit_failures := r_audit_failures r |}.
Definition with_failed (e : run_error) (r : run) : run :=
  {| r_name := r_name r; r_state := FAILED; r_context := r_context r; r_plan := r_plan r; r_execution := r_execution r; r_channel := r_channel r;
     r_uid := r_uid r; r_error := e; r_steps := r_steps r; r_cleanup := r_cleanup r; r_cleanup_pending := r_cleanup_pending r;
     r_audit_failures := r_audit_failures r |}.
Definition with_execution (r : run) : run :=
  {| r_name := r_name r; r_state := RUNNING; r_context := r_context r; r_plan := r_plan r; r_execution := true; r_channel := r_channel r;
     r_uid := r_uid r; r_error := r_error r; r_steps := r_steps r; r_cleanup := r_cleanup r; r_cleanup_pending := r_cleanup_pending r;
     r_audit_failures := r_audit_failures r |}.
Definition with_channel (c : list (string * string)) (r : run) : run :=
  {| r_name := r_name r; r_state := r_state r; r_context := r_context r; r_plan := r_plan r; r_execution := r_execution r; r_channel := c;
     r_uid := r_uid r; r_error := r_error r; r_steps := r_steps r; r_cleanup := r_cleanup r; r_cleanup_pending := r_cleanup_pending r;
     r_audit_failures := r_audit_failures r |}.
Definition with_uid (u : option Z) (r : run) : run :=
  {| r_name := r_name r; r_state := r_state r; r_context := r_context r; r_plan := r_plan r; r_execution := r_execution r; r_channel := r_channel r;
     r_uid := u; r_error := r_error r; r_steps := r_steps r; r_cleanup := r_cleanup r; r_cleanup_pending := r_cleanup_pending r;
     r_audit_failures := r_audit_failures r |}.
Definition with_step (t : StepType) (ok : bool) (r : run) : run :=
  {| r_name := r_name r; r_state := r_state r; r_context := r_context r; r_plan := r_plan r; r_execution := r_execution r; r_channel := r_channel r;
     r_uid := r_uid r; r_error := r_error r; r_steps := r_steps r ++ [(t, ok)]; r_cleanup := r_cleanup r; r_cleanup_pending := r_cleanup_pending r;
     r_audit_failures := r_audit_failures r |}.
Definition with_cleanup (c : cleanup_state) (n : nat) (r : run) : run :=
  {| r_name := r_name r; r_state := r_state r; r_context := r_context r; r_plan := r_plan r; r_execution := r_execution r; r_channel := r_channel r;
     r_uid := r_uid r; r_error := r_error r; r_steps := r_steps r; r_cleanup := c; r_cleanup_pending := n;
     r_audit_failures := r_audit_failures r |}.
Definition with_audit_failure (r : run) : run :=
  {| r_name := r_name r; r_state := r_state r; r_context := r_context r; r_plan := r_plan r; r_execution := r_execution r; r_channel := r_channel r;
     r_uid := r_uid r; r_error := r_error r; r_steps := r_steps r; r_cleanup := r_cleanup r; r_cleanup_pending := r_cleanup_pending r;
     r_audit_failures := S (r_audit_failures r) |}.

Definition new_run (name : string) (ctx : Conditions.context) (plan : string) (st : RunState) : run :=
  {| r_name := name; r_state := st; r_context := ctx; r_plan := plan; r_execution := false; r_channel := []; r_uid := None;
     r_error := E_none; r_steps := []; r_cleanup := CS_not_needed; r_cleanup_pending := 0; r_audit_failures := 0 |}.

(** ** Computations *)

Definition M (A : Type) : Type := config → world → engine → engine * result exn A.
#[export] Instance M_ret : MRet M := λ A a c w s, (s, Ok a).
#[export] Instance M_bind : MBind M := λ A B f m c w s,
  match m c w s with (s', Ok a) => f a c w s' | (s', Err e) => (s', Err e) end.
Definition raise {A} (e : exn) : M A := λ c w s, (s, Err e).
Definition gets {A} (f : engine → A) : M A := λ c w s, (s, Ok (f s)).
Definition asks {A} (f : config → A) : M A := λ c w s, (s, Ok (f c)).
Definition modify (f : engine → engine) : M unit := λ c w s, (f s, Ok tt).
Definition attempt {A} (m : M A) : M (result exn A) := λ c w s, let '(s', r) := m c w s in (s', Ok r).
Definition call (o : op) : M answer := λ c w s,
  let a := w (log s) o in
  (set_log (Ev o a :: log s) s, match a with Raise e => Err e | _ => Ok a end).
Definition quietly {A} (m : M A) : M unit := _ ← attempt m; mret tt.
Definition when (b : bool) (m : M unit) : M unit := if b then m else mret tt.
(** [if self._audit: self._audit.log_...(...)] *)
Definition audit (a : audit_row) : M unit := b ← asks cf_audit; when b (_ ← call (O_audit a); mret tt).

Definition update_run (rid : string) (f : run → run) : M unit :=
  modify (λ s, match od_get (runs s) rid with Some r => set_runs (od_set (runs s) rid (f r)) s | None => s end).
Definition get_run (rid : string) : M (option run) := gets (λ s, od_get (runs s) rid).
Fixpoint for_each {A} (l : list A) (f : A → M unit) : M unit := match l with [] => mret tt | x :: l' => f x;; for_each l' f end.

Definition mark_failed (rid : string) (e : run_error) : M unit := update_run rid (with_failed e).

(** ** Plans *)

Definition digest (c : config) (plan : string) : string := cf_sha256 c plan.

(** [_plan_matches] *)
Definition plan_matches (r : run) : M bool :=
  wf ← gets (λ s, workflows s !! r_name r);
  match wf with
  | None => mret false
  | Some wf => match capture wf with
               | Ok t => asks (λ c, bool_decide (digest c t = digest c (r_plan r)))
               | Err _ => raise E_other
               end
  end.

(** [_invalidate_runs]: every run is failed before any audit *)
Definition invalidate_runs (rids : list string) : M unit :=
  for_each rids (λ rid, mark_failed rid E_invalidated);;
  b ← asks cf_audit;
  when b (for_each rids (λ rid,
    a ← attempt (call (O_audit (A_failed rid E_invalidated)));
    match a with Ok _ => mret tt | Err _ => update_run rid with_audit_failure end)).

(** [_validate_plan] *)
Definition validate_plan (rid : string) (r : run) : M bool :=
  ok ← plan_matches r;
  if ok : bool then mret true else (invalidate_runs [rid];; mret false).

Definition awaiting (r : run) : bool := negb (r_execution r) && bool_decide (r_state r = PENDING ∨ r_state r = RUNNING).

(** The runs a reload invalidates *)
Fixpoint stale_runs (l : list (string * run)) : M (list string) :=
  match l with
  | [] => mret []
  | (rid, r) :: l' =>
      if awaiting r then ok ← plan_matches r; rs ← stale_runs l'; mret (if ok : bool then rs else rid :: rs)
      else stale_runs l'
  end.
(** [load_workflows], with what the loader returned *)
Definition load_workflows (wfs : list WorkflowDef) : M unit :=
  modify (set_workflows (list_to_map ((λ wf, (wf_name wf, wf)) <$> wfs)));;
  l ← gets runs; rids ← stale_runs l; invalidate_runs rids.

(** [preview_run]: the digest and the definition shown *)
Definition preview_run (rid : string) : M (option (string * string)) :=
  r ← get_run rid;
  match r with
  | None => mret None
  | Some r =>
      if negb (bool_decide (r_state r = PENDING)) then mret None
      else ok ← validate_plan rid r; d ← asks digest; mret (if ok : bool then Some (d (r_plan r), r_plan r) else None)
  end.

(** ** Admission *)

(** [_dedup_key] *)
Definition dedup_key (name : string) (ctx : Conditions.context) : option (string * string) :=
  match ctx !! "cgroup" with None | Some PNone => None | Some v => Some (name, py_str v) end.

(** [_release_inflight] *)
Definition release_inflight (key : option (string * string)) : M unit :=
  modify (λ s, set_active (Z.max 0 (inflight s - 1)) (match key with Some k => active_keys s ∖ {[k]} | None => active_keys s end) s).

Definition add_run (rid : string) (r : run) : M unit := modify (λ s, set_runs (od_set (runs s) rid r) s).
Definition captured (wf : WorkflowDef) : M string := match capture wf with Ok t => mret t | Err _ => raise E_other end.

(** What [_on_trigger] goes on with after its locked part *)
Inductive admission := Refused | Ask | Queue (key : option (string * string)).

(** The locked part of [_on_trigger] *)
Definition admit_trigger (name : string) (ctx : Conditions.context) (rid : string) : M admission :=
  let key := dedup_key name ctx in
  wf ← gets (λ s, workflows s !! name);
  match wf with
  | None => mret Refused
  | Some wf =>
      if negb (wf_auto_run wf) then mret Ask
      else
        n ← gets inflight; keys ← gets active_keys; top ← asks cf_max_inflight;
        if (top <=? n)%Z then mret Refused
        else if (match key with Some k => bool_decide (k ∈ keys) | None => false end) then mret Refused
        else
          modify (λ s, set_active (inflight s + 1) (match key with Some k => active_keys s ∪ {[k]} | None => active_keys s end) s);;
          t ← captured wf;
          add_run rid (new_run name ctx t RUNNING);;
          d ← asks digest;
          a ← attempt (audit (A_queued rid (d t)));
          match a with
          | Ok _ => mret (Queue key)
          | Err _ =>
              mark_failed rid E_admission;;
              quietly (audit (A_failed rid E_admission));;
              release_inflight key;;
              mret Refused
          end
  end.

(** The submission of an automatic run to the pool *)
Definition submit_auto (rid : string) (key : option (string * string)) : M bool :=
  a ← attempt (call (O_submit rid));
  match a with
  | Ok _ => mret true
  | Err _ => mark_failed rid E_pool;; release_inflight key;; mret false
  end.

(** The search of [_enqueue_pending] for a pending run of the same key *)
Fixpoint find_pending (name : string) (key : option (string * string)) (l : list (string * run)) : M (option string) :=
  match l with
  | [] => mret None
  | (rid, r) :: l' =>
      if bool_decide (r_state r = PENDING ∧ r_name r = name ∧ dedup_key name (r_context r) = key) then
        ok ← validate_plan rid r; if ok : bool then mret (Some rid) else find_pending name key l'
      else find_pending name key l'
  end.
(** [_enqueue_pending]: the run it answers *)
Definition enqueue_pending (name : string) (ctx : Conditions.context) (rid : string) : M string :=
  l ← gets runs;
  old ← find_pending name (dedup_key name ctx) l;
  match old with
  | Some rid' => mret rid'
  | None =>
      wf ← gets (λ s, workflows s !! name);
      match wf with
      | None => raise E_other
      | Some wf =>
          t ← captured wf;
          add_run rid (new_run name ctx t PENDING);;
          d ← asks digest;
          audit (A_pending rid);; audit (A_binding rid (d t));;
          quietly (call (O_notify rid));;
          mret rid
      end
  end.

(** [approve_run] *)
Definition approve_run (rid expected : string) : M bool :=
  r ← get_run rid;
  match r with
  | None => mret false
  | Some r =>
      if negb (bool_decide (r_state r = PENDING)) then mret false
      else
        ok ← validate_plan rid r;
        d ← asks digest;
        if negb ok then mret false
        else if negb (truthy expected) || negb (bool_decide (expected = d (r_plan r))) then mret false
        else
          n ← gets inflight; top ← asks cf_max_inflight;
          if (top <=? n)%Z then mret false
          else
            modify (λ s, set_active (inflight s + 1) (active_keys s) s);;
            a ← attempt (audit (A_approval rid (d (r_plan r)));; update_run rid (with_state RUNNING);; call (O_submit rid));
            match a with
            | Ok _ => mret true
            | Err _ => release_inflight None;; update_run rid (with_state PENDING);; mret false
            end
  end.

(** [start_run], up to the execution *)
Definition start_run (name : string) (ctx : Conditions.context) (rid : string) : M unit :=
  wf ← gets (λ s, workflows s !! name);
  match wf with
  | None => raise E_other
  | Some wf => t ← captured wf; add_run rid (new_run name ctx t RUNNING)
  end.

(** ** Cleanup *)

Definition MAX_ATTEMPTS : nat := 3.

(** Each of [l] in turn; whether any of them reported an error *)
Fixpoint any_error {A} (l : list A) (f : A → M bool) : M bool :=
  match l with [] => mret false | x :: l' => e ← f x; es ← any_error l' f; mret (e || es) end.

(** Disarming one relay target of the run *)
Definition clear_relay (rid name : string) : M bool :=
  cleared ← gets relay_cleared;
  if bool_decide ((rid, name) ∈ cleared) then mret false
  else
    n ← gets (λ s, default 0 (relay_attempts s !! (rid, name)));
    if MAX_ATTEMPTS <=? n then mret true
    else
      modify (λ s, set_relay (<[(rid, name) := S n]> (relay_attempts s)) (relay_cleared s) s);;
      a ← attempt (call (O_relay rid name None));
      match a with
      | Err _ => mret true
      | Ok _ => modify (λ s, set_relay (delete (rid, name) (relay_attempts s)) ({[(rid, name)]} ∪ relay_cleared s) s);; mret false
      end.

Definition with_scrubbed (h : handle) : handle := {| h_method := h_method h; h_ref := h_ref h; h_scrubbed := true |}.
Definition with_ref (r : option string) (h : handle) : handle := {| h_method := h_method h; h_ref := r; h_scrubbed := h_scrubbed h |}.
Definition is_scrubbed (h : nat) (s : engine) : bool := match heap s !! h with Some hd => h_scrubbed hd | None => false end.

(** [DeliveryHandle.scrub] *)
Definition scrub (h : nat) : M unit :=
  done ← gets (is_scrubbed h);
  if done : bool then mret tt
  else _ ← call (O_revoke h); modify (λ s, set_heap (alter with_scrubbed h (heap s)) (next_handle s) s).

(** [owned.remove(handle)] *)
Fixpoint remove_first (h : nat) (l : list nat) : list nat :=
  match l with [] => [] | x :: l' => if bool_decide (x = h) then l' else x :: remove_first h l' end.

(** One owned handle: revoked, audited, and only then given up *)
Definition clean_handle (rid : string) (secrets : list string) (ih : nat * nat) : M bool :=
  let '(index, h) := ih in
  modify (λ s, match cleanup_items s !! h with
               | Some _ => s
               | None => set_secrets (delivered_secrets s) (delivery_handles s) (<[h := default "" (secrets !! index)]> (cleanup_items s))
                           (cleanup_attempts s) (cleanup_pending_runs s) s
               end);;
  item ← gets (λ s, default "" (cleanup_items s !! h));
  n ← gets (λ s, default 0 (cleanup_attempts s !! h));
  done ← gets (is_scrubbed h);
  if (MAX_ATTEMPTS <=? n) && negb done then mret true
  else
    a ← attempt (
      when (negb done) (
        modify (λ s, set_secrets (delivered_secrets s) (delivery_handles s) (cleanup_items s) (<[h := S n]> (cleanup_attempts s)) (cleanup_pending_runs s) s);;
        scrub h);;
      audit (A_scrub rid item h));
    match a with
    | Err _ => mret true
    | Ok _ =>
        modify (λ s, set_secrets (delivered_secrets s)
                       (match delivery_handles s !! rid with Some l => <[rid := remove_first h l]> (delivery_handles s) | None => delivery_handles s end)
                       (delete h (cleanup_items s)) (delete h (cleanup_attempts s)) (cleanup_pending_runs s) s);;
        mret false
    end.

Definition owned (rid : string) (s : engine) : list nat := default [] (delivery_handles s !! rid).

(** The end of [_cleanup_owned]: the state it records *)
Definition finish_cleanup (rid : string) (partial errors : bool) : M unit :=
  n ← gets (λ s, length (owned rid s));
  when (bool_decide (n = 0)) (modify (λ s, set_secrets (delete rid (delivered_secrets s)) (delete rid (delivery_handles s)) (cleanup_items s)
                                              (cleanup_attempts s) (cleanup_pending_runs s) s));;
  let state := if errors then CS_unresolved else if bool_decide (n = 0) then CS_confirmed else if partial then CS_pending else CS_unresolved in
  update_run rid (with_cleanup state n);;
  a ← attempt (audit (A_cleanup rid state n));
  state ← (match a with Ok _ => mret state | Err _ => update_run rid (with_cleanup CS_unresolved n);; mret CS_unresolved end);
  modify (λ s, set_secrets (delivered_secrets s) (delivery_handles s) (cleanup_items s) (cleanup_attempts s)
                 (match state with CS_confirmed => cleanup_pending_runs s ∖ {[rid]} | _ => cleanup_pending_runs s ∪ {[rid]} end) s).

(** [_cleanup_owned], and [_cleanup_secrets] without [only_handle] *)
Definition cleanup_owned (rid : string) (only : option nat) : M unit :=
  handles ← gets (owned rid);
  secrets ← gets (λ s, default [] (delivered_secrets s !! rid));
  let handles := match only with None => handles | Some h => filter (λ x, x = h) handles end in
  r ← get_run rid;
  reg ← asks cf_registrar;
  let names := match r with Some r => keys (r_channel r) | None => [] end in
  e1 ← (if reg && bool_decide (only = None) then any_error names (clear_relay rid) else mret false);
  e2 ← any_error (imap pair handles) (clean_handle rid secrets);
  finish_cleanup rid (negb (bool_decide (only = None))) (e1 || e2).

(** [scrub_all_runs] *)
Definition scrub_all_runs : M unit :=
  rids ← gets (λ s, elements (cleanup_pending_runs s ∪ dom (delivery_handles s)));
  for_each rids (λ rid, cleanup_owned rid None).

(** ** Delivering a secret *)

Definition METHOD_ALIASES : list (string * string) :=
  [("env", "env"); ("env_var", "env"); ("ssh-agent", "ssh-agent"); ("ssh_agent", "ssh-agent"); ("ssh_agent_socket", "ssh-agent");
   ("fd-pass", "fd-pass"); ("fd_pass", "fd-pass"); ("fd", "fd-pass");
   ("tmpfs-mount", "tmpfs-mount"); ("tmpfs_mount", "tmpfs-mount"); ("tmpfs", "tmpfs-mount")].
(** [normalize_method] *)
Definition normalize_method (v : pyval) : result exn string :=
  match od_get METHOD_ALIASES (py_str v) with Some m => Ok m | None => Err E_other end.
(** [make_delivery]: the checks of the constructors, then whatever else may fail before the
    handle exists *)
Definition make_delivery (config : dict) : M string :=
  match normalize_method (default (PStr "env") (dict_lookup config "as")) with
  | Err e => raise e
  | Ok m =>
      let filename := default (PStr "secret") (dict_lookup config "filename") in
      if bool_decide (m = "env") && negb (pytruthy (default (PStr "") (dict_lookup config "var"))) then raise E_other
      else if bool_decide (m = "tmpfs-mount") &&
              (match filename with PStr f => negb (truthy f) || negb (bool_decide (basename f = f)) || bool_decide (f = ".") || bool_decide (f = "..") | _ => true end)
           then raise E_other
      else _ ← call (O_make m); mret m
  end.

Definition alloc (m : string) : M nat :=
  h ← gets next_handle;
  modify (λ s, set_heap (<[h := {| h_method := m; h_ref := None; h_scrubbed := false |}]> (heap s)) (S h) s);;
  mret h.

(** [_own_delivery] *)
Definition own_delivery (rid : string) (h : nat) (item : string) : M unit :=
  modify (λ s, set_secrets (delivered_secrets s) (<[rid := owned rid s ++ [h]]> (delivery_handles s)) (<[h := item]> (cleanup_items s))
                 (cleanup_attempts s) (cleanup_pending_runs s ∪ {[rid]}) s);;
  n ← gets (λ s, length (owned rid s));
  update_run rid (with_cleanup CS_pending n);;
  audit (A_cleanup rid CS_pending n).

(** [handle.deliver()] *)
Definition deliver (h : nat) : M unit :=
  a ← call (O_deliver h);
  modify (λ s, set_heap (alter (with_ref (match a with Ref r => r | _ => None end)) h (heap s)) (next_handle s) s).

Definition EXTERNAL_ALLOWLIST : list string := ["SSH_AUTH_SOCK"].
Definition STEP_SCRUB_LIFETIMES : list string := ["step"; "step_exit"; "immediate"; "now"].

(** [_publish_channel]: a name that is not a string is kept by its text *)
Definition publish_channel (h : nat) (config : dict) (rid : string) : M unit :=
  hd ← gets (λ s, heap s !! h);
  let expose d := default (PStr d) (dict_lookup config "expose_as") in
  let entry := match hd with
               | Some {| h_method := m; h_ref := Some r |} =>
                   if negb (truthy r) then None
                   else if bool_decide (m = "ssh-agent") then Some (expose "SSH_AUTH_SOCK", r)
                   else if bool_decide (m = "tmpfs-mount") then Some (expose "SECRET_PATH", r) else None
               | _ => None
               end in
  match entry with
  | None => mret tt
  | Some (k, v) =>
      if negb (hashable k) then raise E_type
      else
        let name := py_str k in
        update_run rid (λ r, with_channel (od_set (r_channel r) name v) r);;
        reg ← asks cf_registrar;
        when (reg && bool_decide (name ∈ EXTERNAL_ALLOWLIST)) (
          a ← attempt (call (O_relay rid name (Some v)));
          match a with Err E_type => quietly (call (O_relay rid name (Some v))) | _ => mret tt end)
  end.

(** [dict(v)]: a mapping, or an iterable of pairs with hashable keys *)
Definition dict_pair (v : pyval) : result exn unit :=
  match py_list v with
  | Ok [k; _] => if hashable k then Ok tt else Err E_type
  | Ok _ => Err E_other
  | Err _ => Err E_type
  end.
Definition dict_from (v : pyval) : result exn unit :=
  match v with
  | PDict _ => Ok tt
  | _ => match py_list v with
         | Ok l => foldl (λ acc x, match acc with Ok _ => dict_pair x | Err e => Err e end) (Ok tt) l
         | Err _ => Err E_type
         end
  end.

(** The channels of earlier steps a step with a command names in [consume_channels]. They
    are laid over [base_env or os.environ], an environment only the delivery object sees
    ([O_make], [O_deliver]); what stays of it here is that a value that is no such mapping
    raises before there is a handle. *)
Definition consumed_channels (config : dict) (channels : list (string * string)) : result exn (list (string * string)) :=
  let consume := match dget config "consume_channels" with PStr s => PList [PStr s] | v => v end in
  if pytruthy consume && negb (bool_decide (channels = [])) && pytruthy (dget config "command") then
    match py_list consume with
    | Err _ => Err E_type
    | Ok l =>
        if forallb hashable l then
          let selected := foldl (λ d k, match k with
                                        | PStr s => match od_get channels s with Some v => od_set d s v | None => d end
                                        | _ => d
                                        end) [] l in
          match selected with
          | [] => Ok []
          | _ => let base := dget config "base_env" in
                 if pytruthy base then match dict_from base with Ok _ => Ok selected | Err e => Err e end else Ok selected
          end
        else Err E_type
    end
  else Ok [].
Definition consume_channels (rid : string) (config : dict) : M (list (string * string)) :=
  r ← get_run rid;
  match consumed_channels config (match r with Some r => r_channel r | None => [] end) with
  | Ok selected => mret selected
  | Err e => raise e
  end.

(** A step that names nobody inherits nothing; one that names channels inherits those. *)
Example consumed_named :
  consumed_channels [(PStr "consume_channels", PList [PStr "MARKER"; PStr "GONE"]); (PStr "command", PStr "git")]
    [("SSH_AUTH_SOCK", "/s"); ("MARKER", "/m")] = Ok [("MARKER", "/m")].
Proof. reflexivity. Qed.
Example consumed_not_iterable :
  consumed_channels [(PStr "consume_channels", PInt 3); (PStr "command", PStr "git")] [("MARKER", "/m")] = Err E_type.
Proof. reflexivity. Qed.

(** [_handle_deliver_secret] *)
Definition handle_deliver_secret (wf : WorkflowDef) (rid : string) (config : dict) : M bool :=
  match default (PStr "") (dict_lookup config "item") with
  | PStr item =>
      if negb (truthy item) || negb (bool_decide (item ∈ wf_needs wf)) then mret false
      else
        modify (λ s, set_secrets (<[rid := default [] (delivered_secrets s !! rid) ++ [item]]> (delivered_secrets s)) (delivery_handles s) (cleanup_items s)
                       (cleanup_attempts s) (cleanup_pending_runs s) s);;
        src ← asks cf_source;
        if negb src then mret true
        else
          _ ← call (O_fetch item rid);
          _ ← consume_channels rid config;
          m ← attempt (make_delivery config);
          match m with
          | Err _ => mret false
          | Ok m =>
              h ← alloc m;
              a ← attempt (own_delivery rid h item;; deliver h);
              match a with
              | Err _ => cleanup_owned rid None;; mret false
              | Ok _ =>
                  let scrub_on := default (PStr "workflow_exit") (dict_lookup config "scrub_on") in
                  if negb (hashable scrub_on) then raise E_type
                  else
                    stop ← gets stopping;
                    let track := negb (match scrub_on with PStr x => bool_decide (x ∈ STEP_SCRUB_LIFETIMES) | _ => false end) && negb stop in
                    when (negb track) (cleanup_owned rid (Some h));;
                    when (track && negb (pytruthy (dget config "command"))) (publish_channel h config rid);;
                    mret true
              end
          end
  | _ => mret false
  end.

(** ** The other steps *)

(** [_resolve_ref] *)
Definition after_prefix (p s : string) : option string := Json.strip p s.
Definition resolve_ref (v : pyval) (r : run) : pyval :=
  match v with
  | PStr s =>
      match after_prefix "$trigger." s, after_prefix "trigger." s, after_prefix "$run." s, after_prefix "run." s with
      | Some k, _, _, _ | None, Some k, _, _ => default PNone (r_context r !! k)
      | None, None, Some k, _ | None, None, None, Some k =>
          match od_get (r_channel r) k with
          | Some x => PStr x
          | None =>
              if bool_decide (k = "channel_env") then
                match r_channel r with [] => PNone | l => PDict ((λ '(a, b), (PStr a, PStr b)) <$> l) end
              else if bool_decide (k = "_trigger_uid") then match r_uid r with Some u => PInt u | None => PNone end
              else PNone
          end
      | None, None, None, None => v
      end
  | _ => v
  end.

(** [int(v)] *)
Definition int_value (c : config) (v : pyval) : option Z :=
  match v with
  | PInt z => Some z
  | PBool b => Some (if b then 1 else 0)%Z
  | PFloat x => cf_float_int c x
  | PStr s => py_int s
  | _ => None
  end.

(** [_handle_wait_for_process] *)
Definition handle_wait (rid : string) (config : dict) : M bool :=
  r ← get_run rid;
  c ← asks id;
  let raw := match dict_lookup config "pid" with Some v => v | None => default (PStr "") (dict_lookup config "value") end in
  match r with
  | None => mret false
  | Some r =>
      match int_value c (resolve_ref raw r) with
      | None => mret false
      | Some pid => if (pid <=? 0)%Z then mret false else a ← call (O_wait pid); mret (match a with Exited b => b | _ => false end)
      end
  end.

(** [_handle_run_hook] *)
Definition handle_run_hook (config : dict) : M bool :=
  let name := py_strip (py_str (match dict_lookup config "hook" with Some v => v | None => default (PStr "") (dict_lookup config "name") end)) in
  hooks ← asks cf_hooks;
  if negb (truthy name) || negb hooks then mret false
  else
    a ← call (O_hook name);
    match a with
    | Verdict (PDict d) => mret (bool_decide (py_lower (py_str (default (PStr "") (dict_lookup d "verdict"))) ∈ ["allow"; "transform"]))
    | _ => mret false
    end.

Definition DBUS_DENYLIST : list string :=
  ["org.qdistro.Pwd1"; "org.qdistro.AdminBroker1"; "org.freedesktop.systemd1"; "org.freedesktop.login1"; "org.freedesktop.PolicyKit1"].
(** [_dbus_allowlist] *)
Definition dbus_allowlist (raw : string) : list string := filter (λ p, truthy p = true) (py_strip <$> split_char "," raw).
(** The destination policy of a [call_dbus] step *)
Definition dbus_permitted (c : config) (bus_name : string) : bool :=
  cf_dbus_open c ||
  (negb (starts_with ":" bus_name) && negb (bool_decide (bus_name ∈ DBUS_DENYLIST)) && bool_decide (bus_name ∈ dbus_allowlist (cf_dbus_allow c))).
(** [_handle_call_dbus] *)
Definition handle_call_dbus (config : dict) : M bool :=
  let text k := py_str (default (PStr "") (dict_lookup config k)) in
  c ← asks id;
  if negb (truthy (text "bus_name")) || negb (truthy (text "object_path")) || negb (truthy (text "method")) then mret false
  else if starts_with "_" (text "method") then mret false
  else if negb (dbus_permitted c (text "bus_name")) then mret false
  else a ← attempt (call (O_dbus (text "bus_name") (text "object_path") (text "method"))); mret (is_ok a).

Definition BROKER_WHITELIST : list string :=
  ["ListRules"; "ListCache"; "ListHistory"; "ListWorkflows"; "ListWorkflowRuns"; "GetPending"; "RunCacheGc"; "RunAuditGc"; "ReloadRules"].
(** [_handle_call_broker] *)
Definition handle_call_broker (config : dict) : M bool :=
  let m := py_str (default (PStr "") (dict_lookup config "method")) in
  b ← asks cf_broker;
  if negb b || negb (bool_decide (m ∈ BROKER_WHITELIST)) then mret false
  else a ← attempt (call (O_broker m)); mret (is_ok a).

(** [_execute_step]: an exception of the handler is a failed step *)
Definition execute_step (wf : WorkflowDef) (rid : string) (step : StepDef) : M bool :=
  a ← attempt (match sd_type step with
               | DELIVER_SECRET => handle_deliver_secret wf rid (sd_config step)
               | WAIT_FOR_PROCESS => handle_wait rid (sd_config step)
               | RUN_HOOK => handle_run_hook (sd_config step)
               | CALL_DBUS => handle_call_dbus (sd_config step)
               | CALL_BROKER => handle_call_broker (sd_config step)
               end);
  mret (match a with Ok b => b | Err _ => false end).

(** ** Execution *)

(** Where a worker stands in [_execute_existing_run] *)
Inductive phase :=
| P_dispatch | P_start (wf : WorkflowDef) | P_conditions (wf : WorkflowDef) | P_step (wf : WorkflowDef) (i : nat) | P_finish | P_done.

(** One round of the loop of [_execute_steps]: whether it goes on *)
Definition do_step (wf : WorkflowDef) (rid : string) (i : nat) (step : StepDef) : M bool :=
  ok ← execute_step wf rid step;
  update_run rid (with_step (sd_type step) ok);;
  audit (A_step rid (sd_type step) ok);;
  if ok : bool then mret true
  else mark_failed rid (E_step i);; cleanup_owned rid None;; audit (A_failed rid (E_step i));; mret false.

(** [_execute_existing_run], cut where another thread can see the run *)
Definition run_phase (rid : string) (p : phase) : M phase :=
  match p with
  | P_dispatch =>
      r ← get_run rid;
      match r with
      | None => mret P_done
      | Some r =>
          if bool_decide (r_state r = FAILED) then mret P_done
          else
            ok ← validate_plan rid r;
            if negb ok then mret P_done
            else match definition (r_plan r) with
                 | None => raise E_other
                 | Some wf => update_run rid with_execution;; mret (P_start wf)
                 end
      end
  | P_start wf =>
      r ← get_run rid; d ← asks digest;
      audit (A_start rid);; audit (A_binding rid (match r with Some r => d (r_plan r) | None => "" end));; mret (P_conditions wf)
  | P_conditions wf =>
      r ← get_run rid;
      a ← attempt (call O_facts);
      let ctx := match r with Some r => r_context r | None => ∅ end in
      let '(ok, reason) := match a with
                           | Ok (Facts pw) => Conditions.conditions_satisfied pw (invoker_identities wf) (wf_conditions wf) ctx
                           | _ => (false, Conditions.R_exception)
                           end in
      if ok : bool then mret (P_step wf 0)
      else mark_failed rid (E_conditions reason);; audit (A_failed rid (E_conditions reason));; mret P_done
  | P_step wf i =>
      match wf_steps wf !! i with
      | None => mret P_finish
      | Some step =>
          a ← attempt (do_step wf rid i step);
          match a with
          | Ok b => mret (if b : bool then P_step wf (S i) else P_finish)
          | Err _ => mark_failed rid E_uncaught;; cleanup_owned rid None;; audit (A_failed rid E_uncaught);; mret P_done
          end
      end
  | P_finish =>
      r ← get_run rid;
      match r with
      | Some r => if bool_decide (r_state r = RUNNING) then
                    update_run rid (with_state COMPLETED);; cleanup_owned rid None;; audit (A_complete rid);; mret P_done
                  else mret P_done
      | None => mret P_done
      end
  | P_done => mret P_done
  end.

(** ** The bridge to external processes *)

(** [_run_trigger_uid] *)
Definition run_trigger_uid (rid : string) (r : run) : M (option Z) :=
  match r_uid r with
  | Some u => mret (if (0 <=? u)%Z then Some u else None)
  | None =>
      c ← asks id;
      match int_value c (default PNone (r_context r !! "pid")) with
      | None => update_run rid (with_uid (Some (-1)%Z));; mret None
      | Some pid =>
          a ← attempt (call O_facts);
          let uid := match a with
                     | Ok (Facts pw) =>
                         match Conditions.pw_identity pw pid with
                         | None => None
                         | Some id =>
                             match default PNone (r_context r !! "pid_starttime") with
                             | PNone => Some (Conditions.id_uid id)
                             | expected =>
                                 match Conditions.proc_starttime pw pid, as_int expected with
                                 | Some now, Some e => if bool_decide (now = e) then Some (Conditions.id_uid id) else None
                                 | Some _, None => None
                                 | None, _ => Some (Conditions.id_uid id)
                                 end
                             end
                         end
                     | _ => None
                     end in
          update_run rid (with_uid (Some (default (-1)%Z uid)));; mret uid
      end
  end.

(** [get_run_channel_env] *)
Definition get_run_channel_env (rid : string) (names : option (list string)) (caller : option Z) : M (list (string * string)) :=
  r ← get_run rid;
  match r with
  | None => mret []
  | Some r =>
      if negb (bool_decide (r_state r = RUNNING)) then mret []
      else
        ok ← (match caller with
              | None => mret true
              | Some u => t ← run_trigger_uid rid r; mret (bool_decide (t = Some u))
              end);
        if negb ok then mret []
        else
          let wanted := match names with None => EXTERNAL_ALLOWLIST | Some l => filter (λ n, n ∈ l) EXTERNAL_ALLOWLIST end in
          mret (omap (λ k, match od_get (r_channel r) k with Some v => if truthy v then Some (k, v) else None | None => None end) wanted)
  end.

End Engine.
