(* ===== verification/WfRuns.v ===== *)
(** * Runs of workflows: who may run, and what they may unseal

    The threads of the engine as a step relation: triggers, reloads, previews, approvals and
    the workers of the pool interleave, and every call may fail. Proved over all of it: an
    approval is for the plan that runs, a reload takes it back, and a secret is unsealed
    only for an authorised run whose process met the conditions and that declared it. *)

From S2P Require Import Prelude Json LineageStore PyText WfConditions WfSchema WfEngine.

Module Runs.
Import Schema Engine.

(** ** Threads *)

(** A worker: the run, the key and the slot its end gives back, and where it stands *)
Record job := { j_rid : string; j_key : option (string * string); j_counted : bool; j_phase : phase }.
(** The rest of an [_on_trigger] after its locked part *)
Inductive cont := C_ask (name : string) (ctx : Conditions.context) | C_queue (rid : string) (key : option (string * string)).
Record sys := { sy_engine : engine; sy_jobs : list job; sy_conts : list cont }.

Inductive label := L_approved (rid digest : string) | L_started (rid : string) | L_other.

Definition fresh (rid : string) (s : sys) : Prop := rid ∉ keys (runs (sy_engine s)).

(** One thread moves. Identifiers of runs are drawn fresh, and what is loaded was checked
    by the loader. *)
Inductive sstep (c : config) : sys → label → sys → Prop :=
| S_reload w s wfs :
    Forall checked wfs →
    sstep c s L_other {| sy_engine := (load_workflows wfs c w (sy_engine s)).1; sy_jobs := sy_jobs s; sy_conts := sy_conts s |}
| S_trigger w s name ctx rid e a :
    fresh rid s → admit_trigger name ctx rid c w (sy_engine s) = (e, a) →
    sstep c s L_other {| sy_engine := e; sy_jobs := sy_jobs s;
      sy_conts := (match a with Ok Ask => [C_ask name ctx] | Ok (Queue key) => [C_queue rid key] | _ => [] end) ++ sy_conts s |}
| S_ask w s l1 l2 name ctx rid :
    sy_conts s = l1 ++ C_ask name ctx :: l2 → fresh rid s →
    sstep c s L_other {| sy_engine := (enqueue_pending name ctx rid c w (sy_engine s)).1; sy_jobs := sy_jobs s; sy_conts := l1 ++ l2 |}
| S_submit w s l1 l2 rid key e a :
    sy_conts s = l1 ++ C_queue rid key :: l2 → submit_auto rid key c w (sy_engine s) = (e, a) →
    sstep c s L_other {| sy_engine := e; sy_conts := l1 ++ l2;
      sy_jobs := (match a with Ok true => [{| j_rid := rid; j_key := key; j_counted := true; j_phase := P_dispatch |}] | _ => [] end) ++ sy_jobs s |}
| S_approve w s rid expected e :
    approve_run rid expected c w (sy_engine s) = (e, Ok true) →
    sstep c s (L_approved rid expected) {| sy_engine := e; sy_conts := sy_conts s;
      sy_jobs := {| j_rid := rid; j_key := None; j_counted := true; j_phase := P_dispatch |} :: sy_jobs s |}
| S_refuse w s rid expected e a :
    approve_run rid expected c w (sy_engine s) = (e, a) → a ≠ Ok true →
    sstep c s L_other {| sy_engine := e; sy_conts := sy_conts s; sy_jobs := sy_jobs s |}
| S_start w s name ctx rid e :
    fresh rid s → start_run name ctx rid c w (sy_engine s) = (e, Ok tt) →
    sstep c s (L_started rid) {| sy_engine := e; sy_conts := sy_conts s;
      sy_jobs := {| j_rid := rid; j_key := None; j_counted := false; j_phase := P_dispatch |} :: sy_jobs s |}
| S_preview w s rid :
    sstep c s L_other {| sy_engine := (preview_run rid c w (sy_engine s)).1; sy_jobs := sy_jobs s; sy_conts := sy_conts s |}
| S_channel w s rid names caller :
    sstep c s L_other {| sy_engine := (get_run_channel_env rid names caller c w (sy_engine s)).1; sy_jobs := sy_jobs s; sy_conts := sy_conts s |}
| S_job w s l1 l2 j e a :
    sy_jobs s = l1 ++ j :: l2 → j_phase j ≠ P_done → run_phase (j_rid j) (j_phase j) c w (sy_engine s) = (e, a) →
    sstep c s L_other {| sy_engine := e; sy_conts := sy_conts s;
      sy_jobs := l1 ++ {| j_rid := j_rid j; j_key := j_key j; j_counted := j_counted j;
                          j_phase := match a with Ok p => p | Err _ => P_done end |} :: l2 |}
| S_exit w s l1 l2 j :
    sy_jobs s = l1 ++ j :: l2 → j_phase j = P_done →
    sstep c s L_other {| sy_engine := (when (j_counted j) (release_inflight (j_key j)) c w (sy_engine s)).1; sy_jobs := l1 ++ l2; sy_conts := sy_conts s |}
| S_stop s : sstep c s L_other {| sy_engine := set_stopping true (sy_engine s); sy_jobs := sy_jobs s; sy_conts := sy_conts s |}
| S_cancel s l1 l2 j :
    stopping (sy_engine s) = true → sy_jobs s = l1 ++ j :: l2 → j_phase j = P_dispatch →
    sstep c s L_other {| sy_engine := sy_engine s; sy_jobs := l1 ++ l2; sy_conts := sy_conts s |}
| S_scrub_all w s :
    stopping (sy_engine s) = true → Forall (λ j, j_counted j = false) (sy_jobs s) →
    sstep c s L_other {| sy_engine := (scrub_all_runs c w (sy_engine s)).1; sy_jobs := sy_jobs s; sy_conts := sy_conts s |}.

Definition boot : sys :=
  {| sy_engine := {| workflows := ∅; runs := []; inflight := 0; active_keys := ∅; delivered_secrets := ∅; delivery_handles := ∅; cleanup_items := ∅;
                     cleanup_attempts := ∅; cleanup_pending_runs := ∅; relay_attempts := ∅; relay_cleared := ∅; stopping := false; heap := ∅;
                     next_handle := 0; log := [] |};
     sy_jobs := []; sy_conts := [] |}.

Inductive reached (c : config) : list label → sys → Prop :=
| reached_boot : reached c [] boot
| reached_step tr s l s' : reached c tr s → sstep c s l s' → reached c (l :: tr) s'.

(** ** Relations every part of a computation keeps *)

Definition keeps (R : relation engine) {A} (m : M A) : Prop := ∀ c w s, R s (m c w s).1.

Section keeps.
Context (R : relation engine) `{!PreOrder R}.

Lemma keeps_ret {A} (a : A) : keeps R (mret a).
Proof. intros c w s. simpl. reflexivity. Qed.
Lemma keeps_raise {A} e : keeps R (raise e : M A).
Proof. intros c w s. simpl. reflexivity. Qed.
Lemma keeps_gets {A} (f : engine → A) : keeps R (gets f).
Proof. intros c w s. simpl. reflexivity. Qed.
Lemma keeps_asks {A} (f : config → A) : keeps R (asks f).
Proof. intros c w s. simpl. reflexivity. Qed.
Lemma keeps_modify f : (∀ s, R s (f s)) → keeps R (modify f).
Proof. intros Hf c w s. apply Hf. Qed.
Lemma keeps_bind {A B} (m : M A) (f : A → M B) : keeps R m → (∀ a, keeps R (f a)) → keeps R (m ≫= f).
Proof.
  intros Hm Hf c w s. specialize (Hm c w s). unfold mbind, M_bind. destruct (m c w s) as [s1 [a|e]]; [|done].
  etransitivity; [exact Hm|apply Hf].
Qed.
Lemma keeps_attempt {A} (m : M A) : keeps R m → keeps R (attempt m).
Proof. intros Hm c w s. unfold attempt. specialize (Hm c w s). by destruct (m c w s). Qed.
Lemma keeps_quietly {A} (m : M A) : keeps R m → keeps R (quietly m).
Proof. intros Hm. unfold quietly. apply keeps_bind; [by apply keeps_attempt|]. intros _. apply keeps_ret. Qed.
Lemma keeps_when b m : keeps R m → keeps R (when b m).
Proof. intros Hm. destruct b; [done|apply keeps_ret]. Qed.
Lemma keeps_for_each {A} (l : list A) f : (∀ x, x ∈ l → keeps R (f x)) → keeps R (for_each l f).
Proof.
  intros Hf. induction l as [|x l IH]; [apply keeps_ret|]. apply keeps_bind; [apply Hf; left|]. intros _. apply IH. intros y Hy. apply Hf. by right.
Qed.
Lemma keeps_any_error {A} (l : list A) f : (∀ x, x ∈ l → keeps R (f x)) → keeps R (any_error l f).
Proof.
  intros Hf. induction l as [|x l IH]; [apply keeps_ret|]. apply keeps_bind; [apply Hf; left|]. intros e.
  apply keeps_bind; [apply IH; intros y Hy; apply Hf; by right|]. intros es. apply keeps_ret.
Qed.
End keeps.

Create HintDb keeps discriminated.
#[export] Hint Resolve keeps_ret keeps_raise keeps_gets keeps_asks keeps_attempt keeps_quietly keeps_when : keeps.
#[export] Hint Extern 1 (PreOrder _) => typeclasses eauto : keeps.
#[export] Hint Extern 3 (keeps _ (mbind _ _)) => apply keeps_bind; [typeclasses eauto| |intros ?] : keeps.
#[export] Hint Extern 3 (keeps _ (for_each _ _)) => apply keeps_for_each; [typeclasses eauto|intros ? ?] : keeps.
#[export] Hint Extern 3 (keeps _ (any_error _ _)) => apply keeps_any_error; [typeclasses eauto|intros ? ?] : keeps.
#[export] Hint Extern 4 (keeps _ (match ?x with _ => _ end)) => destruct x : keeps.

(** ** Runs only move on *)

(** The run keeps its name, plan and context; it fails at most, and only if it [may] *)
Definition moved (may : Prop) (r r' : run) : Prop :=
  r_name r' = r_name r ∧ r_plan r' = r_plan r ∧ r_context r' = r_context r ∧ r_execution r' = r_execution r ∧
  (r_state r' = r_state r ∨ may ∧ r_state r' = FAILED).
(** Nothing but the runs of [X] fails *)
Definition evolves (X : string → Prop) (s s' : engine) : Prop :=
  workflows s' = workflows s ∧ inflight s' = inflight s ∧ active_keys s' = active_keys s ∧ stopping s' = stopping s ∧
  (∀ e, e ∈ log s → e ∈ log s') ∧ keys (runs s') = keys (runs s) ∧
  ∀ rid r, od_get (runs s) rid = Some r → ∃ r', od_get (runs s') rid = Some r' ∧ moved (X rid) r r'.

#[export] Instance moved_preorder may : PreOrder (moved may).
Proof.
  split; [intros r; unfold moved; by split_and!; [..|left]|]. intros r1 r2 r3 (? & ? & ? & ? & HA) (? & ? & ? & ? & HB). unfold moved.
  split_and!; try congruence. destruct HB as [->|]; [done|by right].
Qed.
#[export] Instance evolves_preorder X : PreOrder (evolves X).
Proof.
  split.
  - intros s. unfold evolves. split_and!; try done. intros rid r Hr. exists r. split; [done|reflexivity].
  - intros s1 s2 s3 (? & ? & ? & ? & L1 & ? & HA) (? & ? & ? & ? & L2 & ? & HB). unfold evolves. split_and!; try congruence; [by auto|].
    intros rid r (r' & Hr' & Hm)%HA. apply HB in Hr' as (r'' & Hr'' & Hm'). exists r''. split; [done|by etransitivity].
Qed.

Lemma od_keys_set_old {A} (d : list (string * A)) k v : k ∈ keys d → keys (od_set d k v) = keys d.
Proof. intros Hk. rewrite od_keys_set. by rewrite bool_decide_true. Qed.

Section evolves.
Context (X : string → Prop).

Lemma evolves_same s s' :
  workflows s' = workflows s → inflight s' = inflight s → active_keys s' = active_keys s → stopping s' = stopping s → log s' = log s → runs s' = runs s → evolves X s s'.
Proof.
  intros. unfold evolves. split_and!; try congruence. intros rid r Hr. exists r. split; [congruence|reflexivity].
Qed.
Lemma evolves_call o : keeps (evolves X) (call o).
Proof.
  intros c w s. unfold evolves, call. cbn. split_and!; try done; [intros e He; by right|]. intros rid r Hr. exists r. split; [done|reflexivity].
Qed.
Lemma evolves_update rid f : (∀ r, moved (X rid) r (f r)) → keeps (evolves X) (update_run rid f).
Proof.
  intros Hf. apply keeps_modify. intros s. destruct (od_get (runs s) rid) as [r|] eqn:Hr; [|reflexivity]. unfold evolves. cbn. split_and!; try done.
  - apply od_keys_set_old, od_get_is_Some. by eauto.
  - intros rid' r' Hr'. destruct (decide (rid' = rid)) as [->|Hne].
    + rewrite Hr in Hr'. injection Hr' as <-. exists (f r). split; [apply od_get_set_eq|apply Hf].
    + exists r'. split; [by rewrite od_get_set_ne|reflexivity].
Qed.
Lemma moved_same may r r' : r_name r' = r_name r → r_plan r' = r_plan r → r_context r' = r_context r → r_execution r' = r_execution r → r_state r' = r_state r → moved may r r'.
Proof. intros. unfold moved. by split_and!; [..|left]. Qed.
Lemma moved_failed (may : Prop) e r : may → moved may r (with_failed e r).
Proof. intros. unfold moved. by split_and!; [..|right]. Qed.
End evolves.

#[export] Hint Resolve evolves_call : keeps.
#[export] Hint Extern 2 (keeps (evolves _) (modify _)) => apply keeps_modify; intros ?; solve [apply evolves_same; done | case_match; apply evolves_same; done] : keeps.
#[export] Hint Extern 2 (keeps (evolves _) (update_run _ _)) => apply evolves_update; intros ?; solve [apply moved_same; done | by apply moved_failed] : keeps.

Section evolves_ops.
Context (X : string → Prop).
Lemma evolves_audit a : keeps (evolves X) (audit a).
Proof. unfold audit. auto 20 with keeps. Qed.
#[local] Hint Resolve evolves_audit : keeps.
Lemma evolves_clean_handle rid secrets ih : keeps (evolves X) (clean_handle rid secrets ih).
Proof. destruct ih as [i h]. unfold clean_handle, scrub. auto 40 with keeps. Qed.
Lemma evolves_clear_relay rid name : keeps (evolves X) (clear_relay rid name).
Proof. unfold clear_relay. auto 40 with keeps. Qed.
#[local] Hint Resolve evolves_clean_handle evolves_clear_relay : keeps.
Lemma evolves_cleanup rid only : keeps (evolves X) (cleanup_owned rid only).
Proof. unfold cleanup_owned, finish_cleanup, get_run. auto 60 with keeps. Qed.
#[local] Hint Resolve evolves_cleanup : keeps.
Lemma evolves_scrub_all : keeps (evolves X) scrub_all_runs.
Proof. unfold scrub_all_runs. auto 20 with keeps. Qed.
Lemma evolves_deliver wf rid config : keeps (evolves X) (handle_deliver_secret wf rid config).
Proof. unfold handle_deliver_secret, consume_channels, get_run, make_delivery, alloc, own_delivery, deliver, publish_channel. auto 80 with keeps. Qed.
#[local] Hint Resolve evolves_deliver : keeps.
Lemma evolves_channel rid names caller : keeps (evolves X) (get_run_channel_env rid names caller).
Proof. unfold get_run_channel_env, run_trigger_uid, get_run. auto 60 with keeps. Qed.
Lemma evolves_execute wf rid step : keeps (evolves X) (execute_step wf rid step).
Proof. unfold execute_step, handle_wait, handle_run_hook, handle_call_dbus, handle_call_broker, get_run. auto 60 with keeps. Qed.
End evolves_ops.
#[export] Hint Resolve evolves_audit evolves_cleanup evolves_execute evolves_scrub_all evolves_channel : keeps.

Lemma evolves_do_step wf rid i step : keeps (evolves (λ x, x = rid)) (do_step wf rid i step).
Proof. unfold do_step, mark_failed. auto 60 with keeps. Qed.
#[export] Hint Resolve evolves_do_step : keeps.

(** The phases of a worker between the dispatch and the end *)
Definition executing (p : phase) : bool := match p with P_start _ | P_conditions _ | P_step _ _ => true | _ => false end.
Lemma evolves_phase rid p : executing p = true → keeps (evolves (λ x, x = rid)) (run_phase rid p).
Proof. destruct p; try done; intros _; cbn [run_phase]; unfold mark_failed, get_run; auto 60 with keeps. Qed.

(** ** Which calls are made *)

Definition logs (E : op → Prop) (s s' : engine) : Prop := ∃ l, log s' = l ++ log s ∧ Forall (λ e, E (ev_op e)) l.
#[export] Instance logs_preorder E : PreOrder (logs E).
Proof.
  split; [intros s; by exists []|]. intros s1 s2 s3 (l1 & H1 & F1) (l2 & H2 & F2). exists (l2 ++ l1).
  split; [by rewrite H2, H1, app_assoc|by apply Forall_app].
Qed.
Lemma logs_call (E : op → Prop) o : E o → keeps (logs E) (call o).
Proof. intros Ho c w s. exists [Ev o (w (log s) o)]. split; [done|by constructor]. Qed.
Lemma logs_same (E : op → Prop) s s' : log s' = log s → logs E s s'.
Proof. intros H. by exists []. Qed.

(** Calls that unseal nothing *)
Definition sealed (o : op) : Prop := match o with O_fetch _ _ => False | _ => True end.
(** Calls that unseal at most the declared items of the run *)
Definition declared (rid : string) (wf : WorkflowDef) (o : op) : Prop :=
  match o with O_fetch item rid' => rid' = rid ∧ item ∈ wf_needs wf | _ => True end.

#[export] Hint Extern 2 (keeps (logs _) (call _)) => apply logs_call; first [done | by split] : keeps.
#[export] Hint Extern 2 (keeps (logs _) (modify _)) => apply keeps_modify; intros ?; solve [apply logs_same; done | case_match; apply logs_same; done] : keeps.
#[export] Hint Extern 2 (keeps (logs _) (update_run _ _)) => apply keeps_modify; intros ?; case_match; apply logs_same; done : keeps.

Section sealed_ops.
Context (E : op → Prop).
Hypothesis HE : ∀ o, sealed o → E o.
#[local] Hint Extern 1 (keeps (logs E) (call _)) => apply logs_call, HE; exact I : keeps.
Lemma sealed_audit a : keeps (logs E) (audit a).
Proof using HE. unfold audit. auto 20 with keeps. Qed.
#[local] Hint Resolve sealed_audit : keeps.
Lemma sealed_cleanup rid only : keeps (logs E) (cleanup_owned rid only).
Proof using HE.
  unfold cleanup_owned, finish_cleanup, get_run.
  assert (∀ ss ih, keeps (logs E) (clean_handle rid ss ih)) by (intros ss [i h]; unfold clean_handle, scrub; auto 40 with keeps).
  assert (∀ n, keeps (logs E) (clear_relay rid n)) by (intros n; unfold clear_relay; auto 40 with keeps). auto 60 with keeps.
Qed.
#[local] Hint Resolve sealed_cleanup : keeps.
Lemma sealed_scrub_all : keeps (logs E) scrub_all_runs.
Proof using HE. unfold scrub_all_runs. auto 20 with keeps. Qed.
Lemma sealed_channel rid names caller : keeps (logs E) (get_run_channel_env rid names caller).
Proof using HE. unfold get_run_channel_env, run_trigger_uid, get_run. auto 60 with keeps. Qed.
Lemma sealed_execute wf rid step :
  (∀ item, item ∈ wf_needs wf → E (O_fetch item rid)) → keeps (logs E) (execute_step wf rid step).
Proof using HE.
  intros Hn. unfold execute_step. assert (∀ config, keeps (logs E) (handle_deliver_secret wf rid config)).
  { intros config. unfold handle_deliver_secret. destruct (default _ _) as [| | | |item| |]; auto with keeps.
    destruct (truthy item); [|apply keeps_ret; typeclasses eauto].
    destruct (bool_decide (item ∈ wf_needs wf)) eqn:Hi; [|apply keeps_ret; typeclasses eauto]. apply bool_decide_eq_true in Hi. cbn [negb orb].
    assert (keeps (logs E) (call (O_fetch item rid))) by (by apply logs_call, Hn).
    unfold consume_channels, get_run, make_delivery, alloc, own_delivery, deliver, publish_channel. auto 80 with keeps. }
  unfold handle_wait, handle_run_hook, handle_call_dbus, handle_call_broker, get_run. auto 60 with keeps.
Qed.
#[local] Hint Resolve sealed_scrub_all sealed_channel : keeps.
Lemma sealed_validate rid r : keeps (logs E) (validate_plan rid r).
Proof using HE. unfold validate_plan, plan_matches, invalidate_runs, mark_failed. auto 40 with keeps. Qed.
#[local] Hint Resolve sealed_validate : keeps.
Lemma sealed_load wfs : keeps (logs E) (load_workflows wfs).
Proof using HE.
  assert (∀ l, keeps (logs E) (stale_runs l)).
  { induction l as [|[rid r] l IH]; cbn [stale_runs]; unfold plan_matches; auto 40 with keeps. }
  unfold load_workflows, invalidate_runs, mark_failed. auto 40 with keeps.
Qed.
Lemma sealed_admit name ctx rid : keeps (logs E) (admit_trigger name ctx rid).
Proof using HE. unfold admit_trigger, captured, add_run, mark_failed, release_inflight. auto 60 with keeps. Qed.
Lemma sealed_enqueue name ctx rid : keeps (logs E) (enqueue_pending name ctx rid).
Proof using HE.
  assert (∀ key l, keeps (logs E) (find_pending name key l)) by (intros key l; induction l as [|[rid' r] l IH]; cbn [find_pending]; auto 40 with keeps).
  unfold enqueue_pending, captured, add_run. auto 60 with keeps.
Qed.
Lemma sealed_submit rid key : keeps (logs E) (submit_auto rid key).
Proof using HE. unfold submit_auto, mark_failed, release_inflight. auto 60 with keeps. Qed.
Lemma sealed_approve rid expected : keeps (logs E) (approve_run rid expected).
Proof using HE. unfold approve_run, get_run, release_inflight. auto 60 with keeps. Qed.
Lemma sealed_preview rid : keeps (logs E) (preview_run rid).
Proof using HE. unfold preview_run, get_run. auto 60 with keeps. Qed.
Lemma sealed_start name ctx rid : keeps (logs E) (start_run name ctx rid).
Proof using HE. unfold start_run, captured, add_run. auto 60 with keeps. Qed.
Lemma sealed_phase rid p :
  (∀ wf i item, p = P_step wf i → item ∈ wf_needs wf → E (O_fetch item rid)) → keeps (logs E) (run_phase rid p).
Proof using HE.
  intros Hn. destruct p as [|wf|wf|wf i| |]; cbn [run_phase]; unfold mark_failed, get_run.
  4: { destruct (wf_steps wf !! i) as [step|]; [|auto with keeps]. unfold do_step, mark_failed.
       assert (keeps (logs E) (execute_step wf rid step)) by (apply sealed_execute; intros item; by eapply Hn). auto 60 with keeps. }
  all: auto 60 with keeps.
Qed.
End sealed_ops.

End Runs.
