(* ===== verification/WfAuth.v ===== *)
(** * What a run is authorised by

    The invariant of the engine between two steps, and what follows from it: a run that may
    still start has the plan that is loaded, a run that executes was approved for its plan,
    started directly or captured from an automatic workflow, and every unsealed item was
    declared by an executing run whose process met the conditions. *)

From S2P Require Import Prelude Json LineageStore PyText WfConditions WfSchema WfEngine WfRuns.

Module Auth.
Import Schema Engine Runs.

(** ** Runs of computations *)

Lemma wf_bind {A B} (m : M A) (f : A → M B) c w s s' x :
  (m ≫= f) c w s = (s', x) →
  (∃ e, m c w s = (s', Err e) ∧ x = Err e) ∨ (∃ a s1, m c w s = (s1, Ok a) ∧ f a c w s1 = (s', x)).
Proof. unfold mbind, M_bind. destruct (m c w s) as [s1 [a|e]]; [by eauto|]. intros [= <- <-]. by eauto. Qed.
Lemma wf_attempt {A} (m : M A) c w s s' x : attempt m c w s = (s', x) → ∃ r, x = Ok r ∧ m c w s = (s', r).
Proof. unfold attempt. destruct (m c w s). intros [= <- <-]. by eauto. Qed.
Lemma keeps_run {A} (R : relation engine) (m : M A) c w s s' x : keeps R m → m c w s = (s', x) → R s s'.
Proof. intros Hm H. specialize (Hm c w s). by rewrite H in Hm. Qed.

(** Take the first part of a sequence apart; [Hx] is the run of the part *)
Ltac unseq H Hx := apply wf_bind in H as [(? & Hx & ?)|(? & ? & Hx & H)].

(** ** The invariant *)

(** The plan of the run is the plan of the loaded workflow *)
Definition plan_current (c : config) (wfs : gmap string WorkflowDef) (r : run) : Prop :=
  ∃ wf t, wfs !! r_name r = Some wf ∧ capture wf = Ok t ∧ digest c t = digest c (r_plan r).

Definition authorised (c : config) (tr : list label) (rid : string) (r : run) : Prop :=
  (∃ wf, wf_auto_run wf = true ∧ capture wf = Ok (r_plan r)) ∨ L_started rid ∈ tr ∨ L_approved rid (digest c (r_plan r)) ∈ tr.

(** The process that fired the run met the conditions of the workflow *)
Definition met (e : engine) (wf : WorkflowDef) (r : run) : Prop :=
  ∃ pw reason, Ev O_facts (Facts pw) ∈ log e ∧
    Conditions.conditions_satisfied pw (invoker_identities wf) (wf_conditions wf) (r_context r) = (true, reason).

Definition job_ok (e : engine) (j : job) : Prop :=
  ∃ r, od_get (runs e) (j_rid j) = Some r ∧ r_state r ≠ PENDING ∧
    match j_phase j with
    | P_dispatch => r_execution r = false ∧ (r_state r = RUNNING ∨ r_state r = FAILED)
    | P_start wf | P_conditions wf => r_execution r = true ∧ r_state r = RUNNING ∧ definition (r_plan r) = Some wf
    | P_step wf _ => r_execution r = true ∧ r_state r = RUNNING ∧ definition (r_plan r) = Some wf ∧ met e wf r
    | P_finish | P_done => True
    end.
Definition queued_ok (e : engine) (rid : string) : Prop :=
  ∃ r, od_get (runs e) rid = Some r ∧ r_execution r = false ∧ (r_state r = RUNNING ∨ r_state r = FAILED).

Definition queued (conts : list cont) : list string := omap (λ k, match k with C_queue rid _ => Some rid | _ => None end) conts.

(** What an unsealed item rests on *)
Definition released (e : engine) (item rid : string) : Prop :=
  ∃ r wf, od_get (runs e) rid = Some r ∧ r_execution r = true ∧ definition (r_plan r) = Some wf ∧ item ∈ wf_needs wf ∧ met e wf r.

Record inv (c : config) (tr : list label) (e : engine) (jobs : list job) (conts : list cont) : Prop := {
  i_loaded : ∀ name wf, workflows e !! name = Some wf → is_ok (capture wf) = true;
  i_nodup : NoDup (keys (runs e));
  i_pending : ∀ rid r, od_get (runs e) rid = Some r → r_state r = PENDING → r_execution r = false;
  i_current : ∀ rid r, od_get (runs e) rid = Some r → awaiting r = true → plan_current c (workflows e) r;
  i_auth : ∀ rid r, od_get (runs e) rid = Some r → r_state r = RUNNING ∨ r_execution r = true → authorised c tr rid r;
  i_jobs : ∀ j, j ∈ jobs → job_ok e j;
  i_queued : ∀ rid, rid ∈ queued conts → queued_ok e rid;
  i_unique : NoDup ((j_rid <$> jobs) ++ queued conts);
  i_released : ∀ item rid a, Ev (O_fetch item rid) a ∈ log e → released e item rid;
}.

(** ** Frames *)

Lemma plan_current_same c wfs r r' : r_name r' = r_name r → r_plan r' = r_plan r → plan_current c wfs r → plan_current c wfs r'.
Proof. unfold plan_current. intros -> ->. done. Qed.
Lemma authorised_mono c tr l rid r r' : r_plan r' = r_plan r → authorised c tr rid r → authorised c (l :: tr) rid r'.
Proof. unfold authorised. intros ->. rewrite !elem_of_cons. tauto. Qed.
Lemma met_mono e e' wf r r' : (∀ ev, ev ∈ log e → ev ∈ log e') → r_context r' = r_context r → met e wf r → met e' wf r'.
Proof. intros Hl Hc (pw & x & Hf & Hs). exists pw, x. rewrite Hc. by auto. Qed.

(** Every run is still there, with its plan, and has not gone back *)
Definition extends (e e' : engine) : Prop :=
  (∀ ev, ev ∈ log e → ev ∈ log e') ∧
  ∀ rid r, od_get (runs e) rid = Some r → ∃ r', od_get (runs e') rid = Some r' ∧
    r_plan r' = r_plan r ∧ r_context r' = r_context r ∧ (r_execution r = true → r_execution r' = true).
Lemma evolves_extends X e e' : evolves X e e' → extends e e'.
Proof.
  intros (_ & _ & _ & _ & Hl & _ & Hr). split; [done|]. intros rid r (r' & Hr' & Hm)%Hr. exists r'. destruct Hm as (_ & ? & ? & He & _).
  split_and!; try done. by rewrite He.
Qed.
Lemma released_mono e e' item rid : extends e e' → released e item rid → released e' item rid.
Proof.
  intros [Hl Hx] (r & wf & Hr & He & Hd & Hi & Hm). apply Hx in Hr as (r' & Hr' & Hp & Hc & Hex). exists r', wf. rewrite Hp.
  split_and!; auto. by eapply met_mono.
Qed.

(** What the new events unseal is released, then all of it is *)
Lemma released_logs (E : op → Prop) e e' :
  (∀ item rid a, Ev (O_fetch item rid) a ∈ log e → released e item rid) → extends e e' → logs E e e' →
  (∀ item rid, E (O_fetch item rid) → released e item rid) →
  ∀ item rid a, Ev (O_fetch item rid) a ∈ log e' → released e' item rid.
Proof.
  intros Hrel Hx (l & Hl & Hf) HE item rid a. rewrite Hl, elem_of_app. intros [Hin|Hin]; (eapply released_mono; [exact Hx|]); [|by eapply Hrel].
  rewrite Forall_forall in Hf. by apply Hf, HE in Hin.
Qed.

Lemma evolves_back X e e' rid r' :
  evolves X e e' → od_get (runs e') rid = Some r' → ∃ r, od_get (runs e) rid = Some r ∧ moved (X rid) r r'.
Proof.
  intros (_ & _ & _ & _ & _ & Hk & Hr) Hr'. assert (is_Some (od_get (runs e) rid)) as [r Hg].
  { apply od_get_is_Some. rewrite <- Hk. apply od_get_is_Some. by eauto. }
  exists r. split; [done|]. apply Hr in Hg as (r'' & Hg' & Hm). congruence.
Qed.

Lemma job_ok_evolves X e e' j :
  evolves X e e' → (∀ r, X (j_rid j) → od_get (runs e) (j_rid j) = Some r → r_execution r = false) → job_ok e j → job_ok e' j.
Proof.
  intros Hev HX (r & Hr & Hnp & Hph). pose proof Hev as (_ & _ & _ & _ & Hl & _ & Hx). apply Hx in Hr as Hr'. destruct Hr' as (r' & Hr' & _ & Hp & Hc & He & Hs).
  exists r'. split; [done|]. split; [destruct Hs as [->|[_ ->]]; done|].
  assert (r_execution r = true → r_state r' = r_state r) as Hst. { destruct Hs as [|[Hxx _]]; [done|]. intros Ht. specialize (HX r Hxx Hr). congruence. }
  destruct (j_phase j); try done; rewrite ?Hp, ?He.
  - destruct Hph as [? Hor]. split; [done|]. destruct Hs as [->|[_ ->]]; [done|by right].
  - destruct Hph as (? & ? & ?). split_and!; try done. rewrite Hst; done.
  - destruct Hph as (? & ? & ?). split_and!; try done. rewrite Hst; done.
  - destruct Hph as (? & ? & ? & Hm). split_and!; try done; [rewrite Hst; done|]. by eapply met_mono.
Qed.
Lemma queued_ok_evolves X e e' rid : evolves X e e' → queued_ok e rid → queued_ok e' rid.
Proof.
  intros (_ & _ & _ & _ & _ & _ & Hx) (r & Hr & He & Hs). apply Hx in Hr as (r' & Hr' & _ & _ & _ & He' & Hs').
  exists r'. split_and!; [done|congruence|]. destruct Hs' as [->|[_ ->]]; [done|by right].
Qed.

Lemma inv_label c tr l e jobs conts : inv c tr e jobs conts → inv c (l :: tr) e jobs conts.
Proof. intros []. split; try done. intros rid r Hr Hs. eapply authorised_mono; [done|by eapply i_auth0]. Qed.

(** Everything but the plans and the job of the step itself survives an evolution; the
    workflows may have been replaced before it *)
Lemma inv_evolves_plans c tr e e1 e' jobs jobs' conts X (E : op → Prop) :
  inv c tr e jobs conts → runs e1 = runs e → log e1 = log e → evolves X e1 e' → logs E e1 e' → (∀ item rid, E (O_fetch item rid) → released e item rid) →
  j_rid <$> jobs' = j_rid <$> jobs → (∀ j, j ∈ jobs' → job_ok e' j) →
  (∀ name wf, workflows e' !! name = Some wf → is_ok (capture wf) = true) →
  (∀ rid r, od_get (runs e') rid = Some r → awaiting r = true → plan_current c (workflows e') r) →
  inv c tr e' jobs' conts.
Proof.
  intros I H1 H2 Hev Hlog HE Hids Hjobs Hld Hcur. split; [done|..].
  - pose proof Hev as (_ & _ & _ & _ & _ & -> & _). rewrite H1. apply I.
  - intros rid r' Hr' Hp. destruct (evolves_back _ _ _ _ _ Hev Hr') as (r & Hr & _ & _ & _ & -> & Hs). rewrite H1 in Hr.
    apply (i_pending _ _ _ _ _ I rid r Hr). destruct Hs as [<-|[_ Hf]]; [done|congruence].
  - done.
  - intros rid r' Hr' Hrun. destruct (evolves_back _ _ _ _ _ Hev Hr') as (r & Hr & _ & Hp & _ & He & Hs). rewrite H1 in Hr. unfold authorised. rewrite Hp.
    apply (i_auth _ _ _ _ _ I rid r Hr). rewrite He in Hrun. destruct Hs as [<-|[_ Hf]]; [done|]. rewrite Hf in Hrun. naive_solver.
  - done.
  - intros rid (r & Hr & Hq)%(i_queued _ _ _ _ _ I). eapply queued_ok_evolves; [exact Hev|]. exists r. by rewrite H1.
  - rewrite Hids. apply (i_unique _ _ _ _ _ I).
  - assert (extends e e1) as Hx. { split; [by rewrite H2|]. rewrite H1. intros rid' r Hr. by exists r. }
    eapply released_logs; [|by eapply evolves_extends|exact Hlog|].
    + rewrite H2. intros item rid a Hin%(i_released _ _ _ _ _ I). by eapply released_mono.
    + intros item rid Hf%HE. by eapply released_mono.
Qed.
Lemma inv_evolves c tr e e' jobs jobs' conts X (E : op → Prop) :
  inv c tr e jobs conts → evolves X e e' → logs E e e' → (∀ item rid, E (O_fetch item rid) → released e item rid) → j_rid <$> jobs' = j_rid <$> jobs → (∀ j, j ∈ jobs' → job_ok e' j) →
  inv c tr e' jobs' conts.
Proof.
  intros I Hev Hlog HE Hids Hjobs. pose proof Hev as (Hwf & _ & _ & _ & _ & _ & _). eapply inv_evolves_plans; try done; rewrite Hwf; [apply I|].
  intros rid r' Hr' Ha. destruct (evolves_back _ _ _ _ _ Hev Hr') as (r & Hr & Hn & Hp & _ & He & Hs).
  eapply plan_current_same; [done..|]. apply (i_current _ _ _ _ _ I rid r Hr). unfold awaiting in *. rewrite He in Ha.
  apply andb_true_iff in Ha as [-> Ha]. apply bool_decide_eq_true in Ha. cbn [andb]. apply bool_decide_eq_true.
  destruct Hs as [<-|[_ Hf]]; [done|]. rewrite Hf in Ha. naive_solver.
Qed.
Lemma inv_evolves_same c tr e e' jobs conts X :
  inv c tr e jobs conts → evolves X e e' → logs sealed e e' → (∀ rid r, X rid → od_get (runs e) rid = Some r → r_execution r = false) →
  inv c tr e' jobs conts.
Proof.
  intros I Hev Hlog HX. eapply (inv_evolves _ _ _ _ _ _ _ _ sealed); [done..|]. intros j Hj%(i_jobs _ _ _ _ _ I). eapply job_ok_evolves; [done| |done]. intros r. apply HX.
Qed.

(** The invariant looks at the workflows, the runs and the log *)
Lemma inv_ext c tr e e' jobs conts : workflows e' = workflows e → runs e' = runs e → log e' = log e → inv c tr e jobs conts → inv c tr e' jobs conts.
Proof.
  intros Hw Hr Hl []. assert (∀ wf r, met e wf r → met e' wf r) as Hm by (unfold met; rewrite Hl; done).
  split; unfold job_ok, queued_ok, released in *; rewrite ?Hw, ?Hr, ?Hl; try done.
  - intros j (r & ? & ? & Hp)%i_jobs0. exists r. split_and!; try done. destruct (j_phase j); naive_solver.
  - intros item rid a (r & wf & ?)%i_released0. exists r, wf. naive_solver.
Qed.

(** ** Plans that are current stay valid *)

Lemma plan_matches_current c w s r : plan_current c (workflows s) r → plan_matches r c w s = (s, Ok true).
Proof.
  intros (wf & t & Hw & Hc & Hd). unfold plan_matches, mbind, M_bind, gets. rewrite Hw, Hc. unfold asks. by rewrite bool_decide_true.
Qed.
Lemma validate_current c w s rid r : plan_current c (workflows s) r → validate_plan rid r c w s = (s, Ok true).
Proof. intros Hp. unfold validate_plan. unfold mbind at 1, M_bind at 1. by rewrite plan_matches_current. Qed.

Lemma pending_current c tr e jobs conts rid r :
  inv c tr e jobs conts → od_get (runs e) rid = Some r → r_state r = PENDING → plan_current c (workflows e) r.
Proof.
  intros I Hr Hs. apply (i_current _ _ _ _ _ I rid r Hr). unfold awaiting. rewrite (i_pending _ _ _ _ _ I rid r Hr Hs), Hs. done.
Qed.

(** ** New runs, workers and queue entries *)

Definition creates (rid : string) (r : run) (e e' : engine) : Prop :=
  workflows e' = workflows e ∧ runs e' = od_set (runs e) rid r ∧ log e' = log e.

Lemma inv_create c tr l e e' jobs conts rid r :
  inv c tr e jobs conts → rid ∉ keys (runs e) → creates rid r e e' → r_execution r = false →
  plan_current c (workflows e) r → (r_state r = RUNNING → authorised c (l :: tr) rid r) →
  inv c (l :: tr) e' jobs conts.
Proof.
  intros I Hfresh (Hw & Hr & Hl) Hex Hcur Hauth.
  assert (∀ rid' r', od_get (runs e) rid' = Some r' → od_get (runs e') rid' = Some r') as Hold.
  { intros rid' r' H. rewrite Hr, od_get_set_ne; [done|]. intros <-. apply Hfresh, od_get_is_Some. by eauto. }
  assert (∀ rid' r', od_get (runs e') rid' = Some r' → rid' = rid ∧ r' = r ∨ od_get (runs e) rid' = Some r') as Hnew.
  { intros rid' r'. rewrite Hr. destruct (decide (rid' = rid)) as [->|Hne]; [rewrite od_get_set_eq; naive_solver|]. rewrite od_get_set_ne by done. by right. }
  assert (∀ wf r', met e wf r' → met e' wf r') as Hmet by (unfold met; rewrite Hl; done). split.
  - rewrite Hw. apply I.
  - rewrite Hr. apply od_set_NoDup, I.
  - intros rid' r' [[-> ->]|H]%Hnew; [done|]. by eapply I.
  - intros rid' r' [[-> ->]|H]%Hnew Ha; rewrite Hw; [done|]. by eapply I.
  - intros rid' r' [[-> ->]|H]%Hnew Hrun; [|eapply authorised_mono; [done|by eapply I]]. destruct Hrun as [?|?]; [by apply Hauth|congruence].
  - intros j (r' & ? & ? & Hp)%(i_jobs _ _ _ _ _ I). exists r'. split_and!; [by apply Hold|done|]. destruct (j_phase j); naive_solver.
  - intros rid' (r' & ? & ? & ?)%(i_queued _ _ _ _ _ I). exists r'. split_and!; [by apply Hold|done..].
  - apply I.
  - intros item rid' a. rewrite Hl. intros (r' & wf & H1 & H2 & H3 & H4 & H5)%(i_released _ _ _ _ _ I). exists r', wf. split_and!; auto.
Qed.

Lemma inv_job c tr e jobs conts j :
  inv c tr e jobs conts → job_ok e j → j_rid j ∉ (j_rid <$> jobs) ++ queued conts → inv c tr e (j :: jobs) conts.
Proof.
  intros I Hj Hn. split; try apply I.
  - intros j' [->|Hj']%elem_of_cons; [done|by apply I].
  - cbn. apply NoDup_cons. split; [done|apply I].
Qed.
Lemma inv_cont c tr e jobs conts rid key :
  inv c tr e jobs conts → queued_ok e rid → rid ∉ (j_rid <$> jobs) ++ queued conts → inv c tr e jobs (C_queue rid key :: conts).
Proof.
  intros I Hq Hn. split; try apply I.
  - intros rid' [->|Hr]%elem_of_cons; [done|by apply I].
  - cbn. rewrite <- Permutation_middle. apply NoDup_cons. split; [done|apply I].
Qed.
Lemma inv_ask c tr e jobs conts name ctx : inv c tr e jobs conts → inv c tr e jobs (C_ask name ctx :: conts).
Proof. intros I. split; apply I. Qed.
Lemma queued_app l1 l2 : queued (l1 ++ l2) = queued l1 ++ queued l2.
Proof. apply omap_app. Qed.

(** Fewer workers, or fewer queue entries *)
Lemma inv_sub c tr e jobs jobs' conts conts' :
  inv c tr e jobs conts → (j_rid <$> jobs') ++ queued conts' `sublist_of` (j_rid <$> jobs) ++ queued conts →
  (∀ j, j ∈ jobs' → j ∈ jobs) → (∀ rid, rid ∈ queued conts' → rid ∈ queued conts) → inv c tr e jobs' conts'.
Proof.
  intros I Hs Hj Hq. split; try apply I.
  - intros j Hin. by apply I, Hj.
  - intros rid Hin. by apply I, Hq.
  - eapply sublist_NoDup; [apply (i_unique _ _ _ _ _ I)|exact Hs].
Qed.

(** An identifier that is fresh belongs to no worker and no queue entry *)
Lemma fresh_unused c tr e jobs conts rid : inv c tr e jobs conts → rid ∉ keys (runs e) → rid ∉ (j_rid <$> jobs) ++ queued conts.
Proof.
  intros I Hf [(j & -> & (r & Hr & _)%(i_jobs _ _ _ _ _ I))%list_elem_of_fmap|(r & Hr & _)%(i_queued _ _ _ _ _ I)]%elem_of_app;
    apply Hf, od_get_is_Some; by eauto.
Qed.

(** ** The operations *)

Lemma stale_runs_pure c w s l :
  (∀ name wf, workflows s !! name = Some wf → is_ok (capture wf) = true) →
  ∃ rids, stale_runs l c w s = (s, Ok rids) ∧
    (∀ rid, rid ∈ rids → ∃ r, (rid, r) ∈ l ∧ awaiting r = true) ∧
    ∀ rid r, (rid, r) ∈ l → awaiting r = true → plan_current c (workflows s) r ∨ rid ∈ rids.
Proof.
  intros Hload. induction l as [|[rid r] l (rids & IH1 & IH2 & IH3)]; cbn [stale_runs]; [exists []; split_and!; [done|set_solver|set_solver]|].
  destruct (awaiting r) eqn:Ha.
  - assert (∃ b, plan_matches r c w s = (s, Ok b) ∧ (b = true → plan_current c (workflows s) r)) as (b & Hb & Hcur).
    { unfold plan_matches, mbind, M_bind, gets. destruct (workflows s !! r_name r) as [wf|] eqn:Hw; [|by exists false].
      pose proof (Hload _ _ Hw) as Hok. destruct (capture wf) as [t|] eqn:Hc; [|done]. unfold asks. eexists. split; [done|].
      intros Hd%bool_decide_eq_true. by exists wf, t. }
    exists (if b then rids else rid :: rids). split; [|split].
    + unfold mbind, M_bind. rewrite Hb, IH1. done.
    + intros rid' Hin. assert (rid' = rid ∨ rid' ∈ rids) as [->|Hin'] by (destruct b; set_solver); [exists r; split; [left|done]|].
      destruct (IH2 rid' Hin') as (r' & ? & ?). exists r'. split; [by right|done].
    + intros rid' r' [[= -> ->]|Hin]%elem_of_cons Ha'; [destruct b; [left; by apply Hcur|right; left]|].
      destruct (IH3 rid' r' Hin Ha') as [?|?]; [by left|right]. destruct b; [done|by right].
  - exists rids. split; [done|]. split.
    + intros rid' (r' & ? & ?)%IH2. exists r'. split; [by right|done].
    + intros rid' r' [[= -> ->]|Hin]%elem_of_cons Ha'; [congruence|by eapply IH3].
Qed.

(** Runs that have failed stay failed; [invalidate_runs] fails all it is given *)
Definition failed_in (e : engine) (rid : string) : Prop := ∀ r, od_get (runs e) rid = Some r → r_state r = FAILED.
Lemma failed_evolves X e e' rid : evolves X e e' → failed_in e rid → failed_in e' rid.
Proof.
  intros Hev Hf r' Hr'. destruct (evolves_back _ _ _ _ _ Hev Hr') as (r & Hr & _ & _ & _ & _ & [->|[_ ->]]); [|done]. by apply Hf.
Qed.
Lemma evolves_mark X rids : (∀ rid, rid ∈ rids → X rid) → keeps (evolves X) (for_each rids (λ rid, mark_failed rid E_invalidated)).
Proof.
  intros HX. apply keeps_for_each; [typeclasses eauto|]. intros rid Hin. apply evolves_update. intros r. apply moved_failed. by apply HX.
Qed.
Lemma mark_all c w s rids rid : rid ∈ rids → failed_in (for_each rids (λ rid, mark_failed rid E_invalidated) c w s).1 rid.
Proof.
  revert s. induction rids as [|x rids IH]; intros s Hin; [by apply elem_of_nil in Hin|]. cbn [for_each].
  unfold mbind, M_bind. cbn [mark_failed update_run modify]. destruct (decide (rid ∈ rids)) as [Hr|Hr]; [by apply IH|].
  assert (rid = x) as -> by set_solver. set (s1 := match od_get (runs s) x with Some r => _ | None => s end).
  apply (failed_evolves (λ _, True) s1); [apply evolves_mark; done|]. intros r. subst s1. destruct (od_get (runs s) x) as [r0|] eqn:Hr0.
  - cbn. rewrite od_get_set_eq. by intros [= <-].
  - rewrite Hr0. done.
Qed.
Lemma evolves_invalidate X rids : (∀ rid, rid ∈ rids → X rid) → keeps (evolves X) (invalidate_runs rids).
Proof. intros HX. unfold invalidate_runs. pose proof (evolves_mark X rids HX). auto 40 with keeps. Qed.
Lemma invalidate_fails c w s rids rid : rid ∈ rids → failed_in (invalidate_runs rids c w s).1 rid.
Proof.
  intros Hin. unfold invalidate_runs. pose proof (mark_all c w s rids rid Hin) as Hm. unfold mbind at 1, M_bind at 1.
  destruct (for_each rids _ c w s) as [s1 [[]|e]] eqn:H1; [|done].
  match goal with |- failed_in (?m c w s1).1 _ => assert (keeps (evolves (λ _, False)) m) as Hk by auto 40 with keeps end.
  eapply failed_evolves; [apply Hk|exact Hm].
Qed.

Lemma load_workflows_inv c w tr e jobs conts wfs :
  Forall checked wfs → inv c tr e jobs conts → inv c tr (load_workflows wfs c w e).1 jobs conts.
Proof.
  intros Hch I. set (m := list_to_map ((λ wf, (wf_name wf, wf)) <$> wfs) : gmap string WorkflowDef). set (e1 := set_workflows m e).
  assert (∀ name wf, workflows e1 !! name = Some wf → is_ok (capture wf) = true) as Hload.
  { intros name wf Hw%elem_of_list_to_map_2. apply list_elem_of_fmap in Hw as (wf' & [= -> ->] & Hin). rewrite Forall_forall in Hch. by apply Hch in Hin as [? _]. }
  destruct (stale_runs_pure c w e1 (runs e) Hload) as (rids & Hst & Hin & Hcur).
  assert (load_workflows wfs c w e = invalidate_runs rids c w e1) as ->.
  { unfold load_workflows, mbind, M_bind, modify, gets. fold m. fold e1. change (runs e1) with (runs e). by rewrite Hst. }
  set (e' := (invalidate_runs rids c w e1).1). set (X := λ rid, rid ∈ rids).
  assert (evolves X e1 e') as Hev by (by apply evolves_invalidate).
  assert (logs sealed e1 e') as Hlog by (unfold e', invalidate_runs, mark_failed; assert (keeps (logs sealed) (invalidate_runs rids)) as Hk by
    (unfold invalidate_runs, mark_failed; auto 40 with keeps); apply Hk).
  assert (∀ rid r, X rid → od_get (runs e) rid = Some r → r_execution r = false) as HX.
  { intros rid r (r' & Hr' & Ha)%Hin Hr. apply od_elem_get in Hr'; [|apply I]. rewrite Hr in Hr'. injection Hr' as <-.
    unfold awaiting in Ha. by apply andb_true_iff in Ha as [Ha%negb_true_iff _]. }
  eapply (inv_evolves_plans c tr e e1 _ _ _ _ _ sealed); [exact I|done|done|exact Hev|exact Hlog|done|done|..].
  - intros j Hj%(i_jobs _ _ _ _ _ I). eapply job_ok_evolves; [exact Hev| |exact Hj]. intros r Hx. by apply HX.
  - pose proof Hev as (-> & _). exact Hload.
  - intros rid r' Hr' Ha. destruct (evolves_back _ _ _ _ _ Hev Hr') as (r & Hr & Hn & Hp & _ & He & Hs). pose proof Hev as (-> & _).
    assert (r_state r' ≠ FAILED) as Hnf. { unfold awaiting in Ha. apply andb_true_iff in Ha as [_ Ha%bool_decide_eq_true]. intros Hf. rewrite Hf in Ha. naive_solver. }
    assert (awaiting r = true) as Ha0. { unfold awaiting in *. rewrite <- He. destruct Hs as [<-|[_ ?]]; [done|congruence]. }
    eapply plan_current_same; [done..|]. destruct (Hcur rid r) as [?|Hst']; [by apply od_get_elem in Hr|done|done|].
    pose proof (invalidate_fails c w e1 rids rid Hst' r' Hr'). done.
Qed.

(** The parts that read, and those that write one field *)
Lemma wf_bind_gets {A B} (f : engine → A) (k : A → M B) c w s : (gets f ≫= k) c w s = k (f s) c w s.
Proof. done. Qed.
Lemma wf_bind_asks {A B} (f : config → A) (k : A → M B) c w s : (asks f ≫= k) c w s = k (f c) c w s.
Proof. done. Qed.
Lemma wf_bind_modify {B} f (k : unit → M B) c w s : (modify f ≫= k) c w s = k tt c w (f s).
Proof. done. Qed.
Lemma wf_bind_attempt {A B} (m : M A) (k : result exn A → M B) c w s : (attempt m ≫= k) c w s = k (m c w s).2 c w (m c w s).1.
Proof. unfold attempt, mbind, M_bind. by destruct (m c w s). Qed.
Lemma wf_bind_ret {A B} (a : A) (k : A → M B) c w s : ((mret a : M A) ≫= k) c w s = k a c w s.
Proof. done. Qed.
Lemma wf_bind_captured {B} wf (k : string → M B) c w s t : capture wf = Ok t → (captured wf ≫= k) c w s = k t c w s.
Proof. intros H. unfold captured. by rewrite H. Qed.
Lemma wf_bind_quietly {A B} (m : M A) (k : unit → M B) c w s : (quietly m ≫= k) c w s = k tt c w (m c w s).1.
Proof. unfold quietly, attempt, mbind, M_bind. by destruct (m c w s). Qed.
Lemma wf_bind_update {B} rid f (k : unit → M B) c w s : (update_run rid f ≫= k) c w s = k tt c w (update_run rid f c w s).1.
Proof. done. Qed.
Lemma wf_bind_release {B} key (k : unit → M B) c w s : (release_inflight key ≫= k) c w s = k tt c w (release_inflight key c w s).1.
Proof. done. Qed.
Lemma run_ret {A} (x : A) c w s s' a : (mret x : M A) c w s = (s', a) → s' = s ∧ a = Ok x.
Proof. by intros [= <- <-]. Qed.
Create HintDb wfrun discriminated.
#[export] Hint Rewrite @wf_bind_gets @wf_bind_asks @wf_bind_modify @wf_bind_attempt @wf_bind_ret @wf_bind_quietly @wf_bind_update @wf_bind_release : wfrun.
Ltac wf_run := autorewrite with wfrun; cbv beta.
Ltac wf_run_in H := autorewrite with wfrun in H; cbv beta in H.

(** A computation that unseals nothing and fails at most runs that have not started *)
Lemma inv_frame {A} (m : M A) X c w tr e jobs conts :
  keeps (evolves X) m → keeps (logs sealed) m → (∀ rid r, X rid → od_get (runs e) rid = Some r → r_execution r = false) →
  inv c tr e jobs conts → inv c tr (m c w e).1 jobs conts.
Proof. intros He Hl HX I. eapply inv_evolves_same; [exact I|apply He|apply Hl|exact HX]. Qed.
Lemma inv_quiet {A} (m : M A) c w tr e jobs conts :
  keeps (evolves (λ _, False)) m → keeps (logs sealed) m → inv c tr e jobs conts → inv c tr (m c w e).1 jobs conts.
Proof. intros He Hl I. eapply inv_frame; [exact He|exact Hl|intros ? ? []|exact I]. Qed.

(** The run of the computation afterwards *)
Lemma keeps_at {A} (m : M A) X c w e rid r :
  keeps (evolves X) m → od_get (runs e) rid = Some r → ∃ r', od_get (runs (m c w e).1) rid = Some r' ∧ moved (X rid) r r'.
Proof. intros Hk. apply Hk. Qed.

Lemma wf_release_inv c w tr e jobs conts key : inv c tr e jobs conts → inv c tr (release_inflight key c w e).1 jobs conts.
Proof. apply inv_ext; done. Qed.

Lemma loaded_captured c tr e jobs conts name wf :
  inv c tr e jobs conts → workflows e !! name = Some wf → ∃ t, capture wf = Ok t.
Proof. intros I Hw. apply (i_loaded _ _ _ _ _ I) in Hw. destruct (capture wf) as [t|]; [by exists t|done]. Qed.

(** The run a trigger, a question or a direct start adds *)
Lemma add_run_inv c tr l e e0 jobs conts rid name ctx wf t st :
  inv c tr e jobs conts → rid ∉ keys (runs e) → workflows e !! name = Some wf → capture wf = Ok t →
  workflows e0 = workflows e → runs e0 = runs e → log e0 = log e →
  (st = RUNNING → authorised c (l :: tr) rid (new_run name ctx t st)) →
  inv c (l :: tr) (set_runs (od_set (runs e0) rid (new_run name ctx t st)) e0) jobs conts.
Proof.
  intros I Hf Hw Ht H1 H2 H3 Ha. apply (inv_create c tr l e _ jobs conts rid (new_run name ctx t st)); [exact I|exact Hf| |done| |exact Ha].
  - unfold creates. cbn. by rewrite H1, H2, H3.
  - by exists wf, t.
Qed.

Lemma admit_trigger_inv c w tr e jobs conts name ctx rid e' a :
  inv c tr e jobs conts → rid ∉ keys (runs e) → admit_trigger name ctx rid c w e = (e', a) →
  inv c (L_other :: tr) e' jobs ((match a with Ok Ask => [C_ask name ctx] | Ok (Queue key) => [C_queue rid key] | _ => [] end) ++ conts).
Proof.
  intros I Hf. pose proof (inv_label _ _ L_other _ _ _ I) as I'. unfold admit_trigger. wf_run.
  destruct (workflows e !! name) as [wf|] eqn:Hw; [|by intros [= <- <-]].
  destruct (wf_auto_run wf) eqn:Hauto; cbn [negb]; [|intros [= <- <-]; by apply inv_ask]. wf_run.
  destruct (cf_max_inflight c <=? inflight e)%Z; [by intros [= <- <-]|].
  destruct (match dedup_key name ctx with Some k => _ | None => false end); [by intros [= <- <-]|]. wf_run.
  destruct (loaded_captured _ _ _ _ _ _ _ I Hw) as [t Ht]. rewrite (wf_bind_captured _ _ _ _ _ _ Ht). unfold add_run. wf_run.
  set (e1 := set_runs _ _). set (r := new_run name ctx t RUNNING).
  assert (inv c (L_other :: tr) e1 jobs conts) as I1. { eapply add_run_inv; try done. intros _. left. by exists wf. }
  set (m := audit _). assert (inv c (L_other :: tr) (m c w e1).1 jobs conts) as I2 by (apply inv_quiet; [apply evolves_audit|by apply sealed_audit|done]).
  assert (∃ r', od_get (runs (m c w e1).1) rid = Some r' ∧ moved False r r') as (r' & Hr' & Hm).
  { apply (keeps_at m (λ _, False)); [apply evolves_audit|apply od_get_set_eq]. }
  destruct Hm as (_ & _ & _ & Hex & [Hst|[[] _]]). destruct ((m c w e1).2) as [[]|].
  - intros [= <- <-]. apply inv_cont; [done|by exists r'; auto|]. exact (fresh_unused _ _ _ _ _ _ I Hf).
  - unfold mark_failed. wf_run. intros [-> ->]%run_ret. apply wf_release_inv, inv_quiet; [apply evolves_audit|by apply sealed_audit|].
    apply (inv_frame _ (λ x, x = rid)); [auto with keeps..| |done]. intros ? r'' -> Hr''. naive_solver.
Qed.

Lemma find_pending_pure c w s name key l :
  (∀ rid r, (rid, r) ∈ l → r_state r = PENDING → plan_current c (workflows s) r) → ∃ o, find_pending name key l c w s = (s, Ok o).
Proof.
  induction l as [|[rid r] l IH]; intros Hl; cbn [find_pending]; [by eexists|].
  assert (∃ o, find_pending name key l c w s = (s, Ok o)) as Hrest by (apply IH; intros; eapply Hl; [by right|done]).
  case_bool_decide as Hb; [|done]. unfold mbind, M_bind. rewrite validate_current; [by eexists|]. eapply Hl; [left|apply Hb].
Qed.
Lemma enqueue_pending_inv c w tr e jobs conts name ctx rid :
  inv c tr e jobs conts → rid ∉ keys (runs e) → inv c (L_other :: tr) (enqueue_pending name ctx rid c w e).1 jobs conts.
Proof.
  intros I Hf. pose proof (inv_label _ _ L_other _ _ _ I) as I'. unfold enqueue_pending. wf_run.
  destruct (find_pending_pure c w e name (dedup_key name ctx) (runs e)) as [o Ho].
  { intros rid' r' Hin. apply od_elem_get in Hin; [|apply I]. by eapply pending_current. }
  unfold mbind at 1, M_bind at 1. rewrite Ho. destruct o as [rid'|]; [done|]. wf_run.
  destruct (workflows e !! name) as [wf|] eqn:Hw; [|done].
  destruct (loaded_captured _ _ _ _ _ _ _ I Hw) as [t Ht]. rewrite (wf_bind_captured _ _ _ _ _ _ Ht). unfold add_run. wf_run.
  apply inv_quiet; [auto 20 with keeps| |by eapply add_run_inv].
  pose proof (sealed_audit sealed (λ _ H, H)). auto 20 with keeps.
Qed.

Lemma start_run_inv c w tr e jobs conts name ctx rid e' :
  inv c tr e jobs conts → rid ∉ keys (runs e) → start_run name ctx rid c w e = (e', Ok tt) →
  inv c (L_started rid :: tr) e' ({| j_rid := rid; j_key := None; j_counted := false; j_phase := P_dispatch |} :: jobs) conts.
Proof.
  intros I Hf. unfold start_run. wf_run. destruct (workflows e !! name) as [wf|] eqn:Hw; [|done].
  destruct (loaded_captured _ _ _ _ _ _ _ I Hw) as [t Ht]. rewrite (wf_bind_captured _ _ _ _ _ _ Ht). intros [= <-]. apply inv_job.
  - eapply add_run_inv; try done. intros _. right. left. left.
  - exists (new_run name ctx t RUNNING). split; [apply od_get_set_eq|]. by split; [|split; [|left]].
  - exact (fresh_unused _ _ _ _ _ _ I Hf).
Qed.

Lemma submit_inv c w tr e jobs l1 l2 rid key e' a :
  inv c tr e jobs (l1 ++ C_queue rid key :: l2) → submit_auto rid key c w e = (e', a) →
  inv c tr e' ((match a with Ok true => [{| j_rid := rid; j_key := key; j_counted := true; j_phase := P_dispatch |}] | _ => [] end) ++ jobs) (l1 ++ l2).
Proof.
  intros I. assert (queued_ok e rid) as Hq. { apply I. rewrite queued_app. apply elem_of_app. right. left. }
  assert (inv c tr e jobs (l1 ++ l2)) as I1.
  { eapply inv_sub; [exact I|..]; rewrite ?queued_app; [|done|set_solver]. apply sublist_app; [done|]. apply sublist_app; [done|]. by constructor. }
  assert (rid ∉ (j_rid <$> jobs) ++ queued (l1 ++ l2)) as Hn.
  { pose proof (i_unique _ _ _ _ _ I) as Hnd. rewrite queued_app in *. cbn in Hnd. rewrite app_assoc, <- Permutation_middle, <- app_assoc in Hnd. by apply NoDup_cons in Hnd as [? _]. }
  unfold submit_auto. wf_run. set (m := call (O_submit rid)).
  assert (inv c tr (m c w e).1 jobs (l1 ++ l2)) as I2 by (apply inv_quiet; [unfold m; auto with keeps..|done]).
  assert (queued_ok (m c w e).1 rid) as (r & Hr & He & Hs) by (eapply queued_ok_evolves; [apply (evolves_call (λ _, False))|done]).
  destruct ((m c w e).2).
  - intros [-> ->]%run_ret. apply inv_job; [done| |done]. exists r. split; [done|]. split; [destruct Hs as [->| ->]; done|done].
  - unfold mark_failed. wf_run. intros [-> ->]%run_ret. apply wf_release_inv, (inv_frame _ (λ x, x = rid)); [auto with keeps..| |done].
    intros ? r' -> Hr'. cbn in Hr'. naive_solver.
Qed.

(** One run changes, with the workers it has *)
Lemma inv_rerun c tr e e' jobs jobs' conts rid r r' :
  inv c tr e jobs conts → od_get (runs e) rid = Some r →
  workflows e' = workflows e → runs e' = od_set (runs e) rid r' → log e' = log e →
  r_plan r' = r_plan r → r_context r' = r_context r → (r_execution r = true → r_execution r' = true) →
  (r_state r' = PENDING → r_execution r' = false) → (awaiting r' = true → plan_current c (workflows e) r') →
  (r_state r' = RUNNING ∨ r_execution r' = true → authorised c tr rid r') →
  j_rid <$> jobs' = j_rid <$> jobs → (∀ j, j ∈ jobs' → j ∈ jobs ∧ j_rid j ≠ rid ∨ job_ok e' j) → rid ∉ queued conts →
  inv c tr e' jobs' conts.
Proof.
  intros I Hrid Hw Hr Hl Hp Hc Hex Hpend Hcur Hauth Hids Hjobs Hq.
  assert (∀ rid' r1, od_get (runs e') rid' = Some r1 → rid' = rid ∧ r1 = r' ∨ od_get (runs e) rid' = Some r1) as Hnew.
  { intros rid' r1. rewrite Hr. destruct (decide (rid' = rid)) as [->|Hne]; [rewrite od_get_set_eq; naive_solver|]. rewrite od_get_set_ne by done. by right. }
  assert (∀ rid' r1, rid' ≠ rid → od_get (runs e) rid' = Some r1 → od_get (runs e') rid' = Some r1) as Hold.
  { intros rid' r1 Hne H. by rewrite Hr, od_get_set_ne. }
  assert (extends e e') as Hext.
  { split; [by rewrite Hl|]. intros rid' r1 Hr1. destruct (decide (rid' = rid)) as [->|Hne]; [|exists r1; by auto].
    rewrite Hrid in Hr1. injection Hr1 as <-. exists r'. rewrite Hr, od_get_set_eq. done. }
  assert (∀ wf r1, met e wf r1 → met e' wf r1) as Hmet by (unfold met; rewrite Hl; done). split.
  - rewrite Hw. apply I.
  - rewrite Hr. apply od_set_NoDup, I.
  - intros rid' r1 [[-> ->]|H]%Hnew; [done|by eapply I].
  - rewrite Hw. intros rid' r1 [[-> ->]|H]%Hnew; [done|by eapply I].
  - intros rid' r1 [[-> ->]|H]%Hnew; [done|by eapply I].
  - intros j [[(r1 & H1 & H2 & H3)%(i_jobs _ _ _ _ _ I) Hne]|?]%Hjobs; [|done]. exists r1. split_and!; [by apply Hold|done|]. destruct (j_phase j); naive_solver.
  - intros rid' Hin. destruct (i_queued _ _ _ _ _ I rid' Hin) as (r1 & H1 & H2). exists r1. split; [|done]. apply Hold; [|done]. by intros ->.
  - rewrite Hids. apply (i_unique _ _ _ _ _ I).
  - rewrite Hl. intros item rid' a Hin%(i_released _ _ _ _ _ I). by eapply released_mono.
Qed.

(** A pending run has no worker *)
Lemma pending_unused c tr e jobs conts rid r :
  inv c tr e jobs conts → od_get (runs e) rid = Some r → r_state r = PENDING → rid ∉ (j_rid <$> jobs) ++ queued conts.
Proof.
  intros I Hr Hs [(j & -> & (r' & Hr' & Hn & _)%(i_jobs _ _ _ _ _ I))%list_elem_of_fmap|(r' & Hr' & _ & Hn)%(i_queued _ _ _ _ _ I)]%elem_of_app;
    rewrite Hr in Hr'; injection Hr' as <-; [done|]. rewrite Hs in Hn. by destruct Hn.
Qed.
Lemma inv_rerun_idle c tr e e' jobs conts rid r r' :
  inv c tr e jobs conts → od_get (runs e) rid = Some r → r_state r = PENDING →
  workflows e' = workflows e → runs e' = od_set (runs e) rid r' → log e' = log e →
  r_name r' = r_name r → r_plan r' = r_plan r → r_context r' = r_context r → r_execution r' = false →
  (r_state r' = RUNNING → authorised c tr rid r') → inv c tr e' jobs conts.
Proof.
  intros I Hr Hs Hw Hr' Hl Hn Hp Hc Hex Ha. pose proof (pending_unused _ _ _ _ _ _ _ I Hr Hs) as Hun. rewrite not_elem_of_app in Hun. destruct Hun as [Hun1 Hun2].
  pose proof (i_pending _ _ _ _ _ I _ _ Hr Hs) as Hpe. eapply (inv_rerun _ _ e e'); try done; [congruence|..].
  - intros _. eapply plan_current_same; [done..|]. by eapply pending_current.
  - intros [?|?]; [by apply Ha|congruence].
  - intros j Hj. left. split; [done|]. intros <-. apply Hun1. by apply list_elem_of_fmap_2.
Qed.

Lemma od_set_set {A} (d : list (string * A)) k v v' : od_set (od_set d k v) k v' = od_set d k v'.
Proof.
  induction d as [|[k0 v0] d IH]; cbn; [by rewrite bool_decide_true|]. destruct (bool_decide (k0 = k)) eqn:Hd; cbn; rewrite Hd; [done|by rewrite IH].
Qed.

Lemma audit_log a c w s : (audit a c w s).1 = set_log (log (audit a c w s).1) s.
Proof. unfold audit. wf_run. destruct (cf_audit c); [|by destruct s]. unfold when, call, mbind, M_bind. cbn. destruct (w (log s) (O_audit a)); done. Qed.

Lemma inv_log c tr e e' jobs conts :
  inv c tr e jobs conts → logs sealed e e' → workflows e' = workflows e → runs e' = runs e → inv c tr e' jobs conts.
Proof.
  intros I Hl Hw Hr. apply (inv_ext c tr (set_log (log e') e)); [done..|]. eapply (inv_evolves_same _ _ e _ _ _ (λ _, False)); [done| | |intros ? ? []].
  - unfold evolves. split_and!; try done; [|intros rid r ?; exists r; split; [done|reflexivity]].
    destruct Hl as (l & Hl & _). cbn. rewrite Hl. intros ev ?. apply elem_of_app. by right.
  - destruct Hl as (l & Hl & Hf). by exists l.
Qed.

Definition approval (rid d : string) : M answer := audit (A_approval rid d);; update_run rid (with_state RUNNING);; call (O_submit rid).
(** Where the run of an approval stands after its calls *)
Lemma approval_run c w e e' rid d r x :
  od_get (runs e) rid = Some r → approval rid d c w e = (e', x) →
  workflows e' = workflows e ∧ logs sealed e e' ∧
  (runs e' = od_set (runs e) rid (with_state RUNNING r) ∨ is_ok x = false ∧ runs e' = runs e).
Proof.
  intros Hr H. assert (keeps (logs sealed) (approval rid d)) as Hk.
  { pose proof (sealed_audit sealed (λ _ H, H) (A_approval rid d)). unfold approval. auto with keeps. }
  pose proof (keeps_run _ _ _ _ _ _ _ Hk H) as Hlog. unfold approval in H. unfold mbind at 1, M_bind at 1 in H.
  pose proof (audit_log (A_approval rid d) c w e) as Ha. destruct (audit (A_approval rid d) c w e) as [e1 [[]|ex]]; cbn in Ha.
  - rewrite wf_bind_update in H. unfold update_run, modify, call in H. rewrite Ha in H. cbn in H. rewrite Hr in H. injection H as <- <-. cbn. by auto.
  - injection H as <- <-. rewrite Ha. cbn. by auto.
Qed.

Lemma approve_inv c w tr e jobs conts rid expected e' a :
  inv c tr e jobs conts → approve_run rid expected c w e = (e', a) →
  match a with
  | Ok true => inv c (L_approved rid expected :: tr) e' ({| j_rid := rid; j_key := None; j_counted := true; j_phase := P_dispatch |} :: jobs) conts
  | _ => inv c tr e' jobs conts
  end.
Proof.
  intros I. unfold approve_run, get_run. wf_run. destruct (od_get (runs e) rid) as [r|] eqn:Hr; [|by intros [-> ->]%run_ret].
  case_bool_decide as Hs; cbn [negb]; [|by intros [-> ->]%run_ret]. unfold mbind at 1, M_bind at 1. rewrite validate_current by (by eapply pending_current).
  wf_run. cbn [negb]. destruct (negb (truthy expected) || negb (bool_decide (expected = digest c (r_plan r)))) eqn:Hd; [by intros [-> ->]%run_ret|].
  apply orb_false_iff in Hd as [_ Hd%negb_false_iff%bool_decide_eq_true]. wf_run. destruct (cf_max_inflight c <=? inflight e)%Z; [by intros [-> ->]%run_ret|]. wf_run.
  set (e1 := set_active _ _ _). fold (approval rid (digest c (r_plan r))). destruct (approval rid (digest c (r_plan r)) c w e1) as [e2 x] eqn:Hb.
  apply (approval_run c w e1 e2 rid _ r x Hr) in Hb as (Hw & Hl & Hrun). cbn [fst snd]. set (e3 := set_log (log e2) e1).
  assert (inv c tr e3 jobs conts) as I3. { apply (inv_log c tr e1); [|done..]. by apply (inv_ext c tr e). }
  destruct x as [ans|ex].
  - destruct Hrun as [Hrun|[? _]]; [|done]. intros [-> ->]%run_ret.
    assert (inv c (L_approved rid expected :: tr) e2 jobs conts) as I2.
    { eapply (inv_rerun_idle _ _ e3); [by apply inv_label|exact Hr|done|done|exact Hrun|done..| |].
      - apply (i_pending _ _ _ _ _ I3 rid r Hr Hs).
      - intros _. right. right. rewrite Hd. left. }
    apply inv_job; [done| |by eapply (pending_unused _ _ e3)]. exists (with_state RUNNING r). rewrite Hrun, od_get_set_eq. cbn.
    split_and!; [done..| |by left]. apply (i_pending _ _ _ _ _ I3 rid r Hr Hs).
  - wf_run. intros [-> ->]%run_ret. unfold update_run, modify. cbn [fst]. set (r' := with_state PENDING r).
    assert (∃ r1, od_get (runs e2) rid = Some r1 ∧ od_set (runs e2) rid (with_state PENDING r1) = od_set (runs e1) rid r') as (r1 & Hr1 & Hset).
    { destruct Hrun as [->|[_ ->]]; [|by exists r]. exists (with_state RUNNING r). rewrite od_get_set_eq, od_set_set. done. }
    cbn [release_inflight modify fst]. change (runs (set_active _ _ e2)) with (runs e2). rewrite Hr1, Hset.
    eapply (inv_rerun_idle _ _ e3 _ _ _ rid r r'); try done. apply (i_pending _ _ _ _ _ I3 rid r Hr Hs).
Qed.

Lemma preview_inv c w tr e jobs conts rid : inv c tr e jobs conts → inv c tr (preview_run rid c w e).1 jobs conts.
Proof.
  intros I. unfold preview_run, get_run. wf_run. destruct (od_get (runs e) rid) as [r|] eqn:Hr; [|done].
  case_bool_decide as Hs; [|done]. cbn [negb]. unfold mbind at 1, M_bind at 1. by rewrite validate_current by (by eapply pending_current).
Qed.

(** ** Workers *)

Definition at_phase (j : job) (p : phase) : job := {| j_rid := j_rid j; j_key := j_key j; j_counted := j_counted j; j_phase := p |}.

Lemma at_phase_ids l1 j l2 p : j_rid <$> (l1 ++ at_phase j p :: l2) = j_rid <$> (l1 ++ j :: l2).
Proof. by rewrite !fmap_app. Qed.
(** The other workers have other runs *)
Lemma other_worker c tr e l1 j l2 conts p j' :
  inv c tr e (l1 ++ j :: l2) conts → j' ∈ l1 ++ at_phase j p :: l2 → j' = at_phase j p ∨ j' ∈ l1 ++ j :: l2 ∧ j_rid j' ≠ j_rid j.
Proof.
  intros I Hin. pose proof (i_unique _ _ _ _ _ I) as Hnd. apply NoDup_app in Hnd as (Hnd & _ & _).
  rewrite fmap_app, fmap_cons, <- Permutation_middle in Hnd. apply NoDup_cons in Hnd as [Hne _]. rewrite not_elem_of_app in Hne. destruct Hne as [Hn1 Hn2].
  apply elem_of_app in Hin as [Hin|[->|Hin]%elem_of_cons]; [right|by left|right].
  - split; [set_solver|]. intros Heq. apply Hn1. rewrite <- Heq. by apply list_elem_of_fmap_2.
  - split; [set_solver|]. intros Heq. apply Hn2. rewrite <- Heq. by apply list_elem_of_fmap_2.
Qed.
Lemma worker_unqueued c tr e l1 j l2 conts : inv c tr e (l1 ++ j :: l2) conts → j_rid j ∉ queued conts.
Proof.
  intros I Hq. pose proof (i_unique _ _ _ _ _ I) as Hnd. apply NoDup_app in Hnd as (_ & Hnd & _). apply (Hnd (j_rid j)); [|done].
  rewrite fmap_app, fmap_cons. apply elem_of_app. right. left.
Qed.

Lemma inv_worker c tr e e' l1 j l2 conts p (E : op → Prop) :
  inv c tr e (l1 ++ j :: l2) conts → evolves (λ x, x = j_rid j) e e' → logs E e e' →
  (∀ item rid, E (O_fetch item rid) → released e item rid) → job_ok e' (at_phase j p) → inv c tr e' (l1 ++ at_phase j p :: l2) conts.
Proof.
  intros I Hev Hl HE Hj. eapply inv_evolves; [exact I|exact Hev|exact Hl|exact HE|apply at_phase_ids|].
  intros j' [->|[Hin Hne]]%(other_worker _ _ _ _ _ _ _ _ _ I); [done|]. eapply job_ok_evolves; [exact Hev|by intros r ?|]. by apply I.
Qed.
Lemma inv_worker_run c tr e e' l1 j l2 conts p r r' :
  inv c tr e (l1 ++ j :: l2) conts → od_get (runs e) (j_rid j) = Some r →
  workflows e' = workflows e → runs e' = od_set (runs e) (j_rid j) r' → log e' = log e →
  r_plan r' = r_plan r → r_context r' = r_context r → (r_execution r = true → r_execution r' = true) →
  r_state r' ≠ PENDING → awaiting r' = false → (r_state r' = RUNNING ∨ r_execution r' = true → authorised c tr (j_rid j) r') →
  job_ok e' (at_phase j p) → inv c tr e' (l1 ++ at_phase j p :: l2) conts.
Proof.
  intros I Hr Hw Hr' Hl Hp Hc Hex Hs Ha Hauth Hj. eapply inv_rerun; try done; [by rewrite Ha|apply at_phase_ids| |by eapply worker_unqueued].
  intros j' [->|[Hin Hne]]%(other_worker _ _ _ _ _ _ _ _ _ I); [by right|by left].
Qed.

(** A worker that is at its end only needs its run *)
Lemma job_ok_end e j p r : od_get (runs e) (j_rid j) = Some r → r_state r ≠ PENDING → p = P_finish ∨ p = P_done → job_ok e (at_phase j p).
Proof. intros Hr Hs [-> | ->]; by exists r. Qed.
Lemma job_ok_moved_end X e e' j p : evolves X e e' → job_ok e j → p = P_finish ∨ p = P_done → job_ok e' (at_phase j p).
Proof.
  intros (_ & _ & _ & _ & _ & _ & Hx) (r & Hr & Hs & _) Hp. apply Hx in Hr as (r' & Hr' & _ & _ & _ & _ & Hs').
  eapply job_ok_end; [exact Hr'| |done]. destruct Hs' as [->|[_ ->]]; done.
Qed.

Lemma dispatch_inv c w tr e l1 j l2 conts e' a :
  inv c tr e (l1 ++ j :: l2) conts → j_phase j = P_dispatch → run_phase (j_rid j) P_dispatch c w e = (e', a) →
  inv c tr e' (l1 ++ at_phase j (match a with Ok p => p | Err _ => P_done end) :: l2) conts.
Proof.
  intros I Hph. assert (job_ok e j) as Hj by (apply I; set_solver). pose proof Hj as (r & Hr & Hs & Hd). rewrite Hph in Hd. destruct Hd as [Hex Hd].
  assert (∀ p, p = P_finish ∨ p = P_done → inv c tr e (l1 ++ at_phase j p :: l2) conts) as Hend.
  { intros p Hp. apply (inv_worker c tr e e l1 j l2 conts p sealed I); [reflexivity..|done|by eapply job_ok_end]. }
  cbn [run_phase]. unfold get_run. wf_run. rewrite Hr. case_bool_decide as Hf; [intros [-> ->]%run_ret; by apply Hend; right|].
  destruct Hd as [Hrun|?]; [|done]. assert (awaiting r = true) as Ha by (unfold awaiting; rewrite Hex, Hrun; done).
  unfold mbind at 1, M_bind at 1. rewrite validate_current by (by apply (i_current _ _ _ _ _ I (j_rid j))). cbn [negb].
  destruct (definition (r_plan r)) as [wf|] eqn:Hdef; [|intros [= <- <-]; by apply Hend; right].
  wf_run. intros [-> ->]%run_ret. unfold update_run, modify. cbn [fst]. rewrite Hr.
  eapply (inv_worker_run c tr e _ l1 j l2 conts (P_start wf) r (with_execution r)); try done.
  - intros _. apply (i_auth _ _ _ _ _ I (j_rid j) r Hr). by left.
  - exists (with_execution r). split; [apply od_get_set_eq|]. by split_and!.
Qed.

Lemma finish_inv c w tr e l1 j l2 conts e' a :
  inv c tr e (l1 ++ j :: l2) conts → run_phase (j_rid j) P_finish c w e = (e', a) →
  inv c tr e' (l1 ++ at_phase j (match a with Ok p => p | Err _ => P_done end) :: l2) conts.
Proof.
  intros I. assert (job_ok e j) as (r & Hr & Hs & _) by (apply I; set_solver). cbn [run_phase]. unfold get_run. wf_run. rewrite Hr.
  case_bool_decide as Hrun.
  - wf_run. unfold update_run at 1, modify. cbn [fst]. rewrite Hr. set (e1 := set_runs _ _). set (m := mbind _ _). intros H.
    assert (match a with Ok p => p | Err _ => P_done end = P_done) as ->.
    { destruct a; [|done]. unfold m in H. unseq H Hx; [done|]. unseq H Hy; [done|]. by apply run_ret in H as [_ [= ->]]. }
    assert (e' = (m c w e1).1) as -> by (by rewrite H). apply inv_quiet.
    + unfold m. auto 20 with keeps.
    + unfold m. pose proof (sealed_audit sealed (λ _ H, H)). pose proof (sealed_cleanup sealed (λ _ H, H)). auto 20 with keeps.
    + eapply (inv_worker_run c tr e _ l1 j l2 conts P_done r (with_state COMPLETED r)); try done.
      * unfold awaiting. cbn. apply andb_false_r.
      * intros _. apply (i_auth _ _ _ _ _ I (j_rid j) r Hr). by left.
      * by exists (with_state COMPLETED r); split; [apply od_get_set_eq|].
  - intros [-> ->]%run_ret. apply (inv_worker c tr e e l1 j l2 conts P_done sealed I); [reflexivity..|done|]. eapply job_ok_end; [done..|by right].
Qed.

(** A run that nothing failed stands where it stood *)
Lemma quiet_keeps_run {A} (m : M A) c w e e' x rid r :
  keeps (evolves (λ _, False)) m → m c w e = (e', x) → od_get (runs e) rid = Some r →
  ∃ r', od_get (runs e') rid = Some r' ∧ r_plan r' = r_plan r ∧ r_context r' = r_context r ∧ r_execution r' = r_execution r ∧ r_state r' = r_state r ∧
        ∀ wf, met e wf r → met e' wf r'.
Proof.
  intros Hk H Hr. pose proof (keeps_run _ _ _ _ _ _ _ Hk H) as (_ & _ & _ & _ & Hl & _ & Hx). apply Hx in Hr as (r' & Hr' & _ & Hp & Hc & He & [Hs|[[] _]]).
  exists r'. split_and!; try done. intros wf. by apply met_mono.
Qed.

Lemma start_job c w e e' a j wf :
  job_ok e j → j_phase j = P_start wf → run_phase (j_rid j) (P_start wf) c w e = (e', a) →
  job_ok e' (at_phase j (match a with Ok p => p | Err _ => P_done end)).
Proof.
  intros (r & Hr & Hs & Hph) Hp H. rewrite Hp in Hph. destruct Hph as (Hex & Hrun & Hdef).
  assert (keeps (evolves (λ _, False)) (run_phase (j_rid j) (P_start wf))) as Hk by (cbn [run_phase]; unfold get_run; auto 20 with keeps).
  destruct (quiet_keeps_run _ _ _ _ _ _ _ _ Hk H Hr) as (r' & Hr' & Hp' & _ & He' & Hs' & _).
  assert (match a with Ok p => p = P_conditions wf | Err _ => True end) as Ha.
  { destruct a; [|done]. cbn [run_phase] in H. unfold get_run in H. wf_run_in H. unseq H Hx; [done|]. unseq H Hy; [done|]. by apply run_ret in H as [_ [= ->]]. }
  exists r'. destruct a as [p|]; [subst p|]; cbn; rewrite ?Hp', ?He', Hs'; by split_and!.
Qed.

Lemma conditions_job c w e e' a j wf :
  job_ok e j → j_phase j = P_conditions wf → run_phase (j_rid j) (P_conditions wf) c w e = (e', a) →
  job_ok e' (at_phase j (match a with Ok p => p | Err _ => P_done end)).
Proof.
  intros Hj Hp H. pose proof (keeps_run _ _ _ _ _ _ _ (evolves_phase (j_rid j) (P_conditions wf) eq_refl) H) as Hev.
  assert (∀ p, p = P_finish ∨ p = P_done → job_ok e' (at_phase j p)) as Hend by (intros p Hpp; by eapply job_ok_moved_end).
  pose proof Hj as (r & Hr & Hs & Hph). rewrite Hp in Hph. destruct Hph as (Hex & Hrun & Hdef).
  cbn [run_phase] in H. unfold get_run in H. wf_run_in H. rewrite Hr in H. destruct (call O_facts c w e) as [e1 x] eqn:Hc. cbn [fst snd] in H.
  destruct (match x with Ok (Facts pw) => _ | _ => _ end) as [ok reason] eqn:Hcond. destruct ok.
  - apply run_ret in H as [-> ->].
    destruct (quiet_keeps_run _ _ _ _ _ _ _ _ (evolves_call _ _) Hc Hr) as (r' & Hr' & Hp' & Hc' & He' & Hs' & _).
    exists r'. cbn. rewrite Hp', He', Hs'. split_and!; try done.
    destruct x as [ans|]; [|done]. destruct ans as [|pw| | | |]; try done. exists pw, reason. rewrite Hc'. split; [|done].
    unfold call in Hc. destruct (w (log e) O_facts) eqn:Hw; try done. injection Hc as <- <-. left.
  - unfold mark_failed in H. wf_run_in H. unseq H Hx; [subst a; apply Hend; by right|]. apply run_ret in H as [-> ->]. apply Hend. by right.
Qed.

Lemma step_job c w e e' a j wf i :
  job_ok e j → j_phase j = P_step wf i → run_phase (j_rid j) (P_step wf i) c w e = (e', a) →
  job_ok e' (at_phase j (match a with Ok p => p | Err _ => P_done end)).
Proof.
  intros Hj Hp H. pose proof (keeps_run _ _ _ _ _ _ _ (evolves_phase (j_rid j) (P_step wf i) eq_refl) H) as Hev.
  assert (∀ p, p = P_finish ∨ p = P_done → job_ok e' (at_phase j p)) as Hend by (intros p Hpp; by eapply job_ok_moved_end).
  pose proof Hj as (r & Hr & Hs & Hph). rewrite Hp in Hph. destruct Hph as (Hex & Hrun & Hdef & Hmet).
  cbn [run_phase] in H. destruct (wf_steps wf !! i) as [step|]; [|apply run_ret in H as [-> ->]; apply Hend; by left].
  wf_run_in H. destruct (do_step wf (j_rid j) i step c w e) as [e1 x] eqn:Hd. cbn [fst snd] in H. destruct x as [b|ex].
  - apply run_ret in H as [-> ->]. destruct b; [|apply Hend; by left].
    unfold do_step in Hd. unseq Hd H1; [done|]. unseq Hd H2; [done|]. unseq Hd H3; [done|]. destruct x as [|]; [|repeat (unseq Hd H4; [done|]; clear H4); by apply run_ret in Hd as [_ ?]].
    apply run_ret in Hd as [-> _].
    destruct (quiet_keeps_run _ _ _ _ _ _ _ _ (evolves_execute _ _ _ _) H1 Hr) as (r1 & Hr1 & Hp1 & Hc1 & He1 & Hs1 & Hm1).
    assert (keeps (evolves (λ _, False)) (update_run (j_rid j) (with_step (sd_type step) true))) as Hu by auto with keeps.
    destruct (quiet_keeps_run _ _ _ _ _ _ _ _ Hu H2 Hr1) as (r2 & Hr2 & Hp2 & Hc2 & He2 & Hs2 & Hm2).
    destruct (quiet_keeps_run _ _ _ _ _ _ _ _ (evolves_audit _ _) H3 Hr2) as (r3 & Hr3 & Hp3 & Hc3 & He3 & Hs3 & Hm3).
    exists r3. cbn. split; [done|]. rewrite Hp3, He3, Hs3, Hp2, He2, Hs2, Hp1, He1, Hs1. split_and!; try done. by auto.
  - unfold mark_failed in H. wf_run_in H. destruct a as [p|]; [|apply Hend; by right].
    unseq H Hx; [done|]. unseq H Hy; [done|]. apply run_ret in H as [_ [= ->]]. apply Hend. by right.
Qed.

Lemma executing_inv c w tr e l1 j l2 conts e' a :
  inv c tr e (l1 ++ j :: l2) conts → executing (j_phase j) = true → run_phase (j_rid j) (j_phase j) c w e = (e', a) →
  inv c tr e' (l1 ++ at_phase j (match a with Ok p => p | Err _ => P_done end) :: l2) conts.
Proof.
  intros I Hex H. assert (job_ok e j) as Hj by (apply I; set_solver).
  set (E := λ o, match o with O_fetch item rid => released e item rid | _ => True end).
  assert (keeps (logs E) (run_phase (j_rid j) (j_phase j))) as Hk.
  { apply sealed_phase; [by intros []|]. intros wf i item Hp Hin. destruct Hj as (r & Hr & _ & Hph). rewrite Hp in Hph.
    destruct Hph as (? & ? & ? & ?). exists r, wf. by split_and!. }
  eapply (inv_worker c tr e e' l1 j l2 conts _ E I); [exact (keeps_run _ _ _ _ _ _ _ (evolves_phase _ _ Hex) H)|exact (keeps_run _ _ _ _ _ _ _ Hk H)|done|].
  destruct (j_phase j) eqn:Hp; try done; [by eapply start_job|by eapply conditions_job|by eapply step_job].
Qed.

(** ** Every step keeps the invariant *)

Definition sys_inv (c : config) (tr : list label) (s : sys) : Prop := inv c tr (sy_engine s) (sy_jobs s) (sy_conts s).

Lemma inv_boot c : sys_inv c [] boot.
Proof.
  split; cbn; try done; try (intros; set_solver).
  - constructor.
  - constructor.
Qed.

Lemma inv_fewer_jobs c tr e l1 j l2 conts : inv c tr e (l1 ++ j :: l2) conts → inv c tr e (l1 ++ l2) conts.
Proof.
  intros I. eapply inv_sub; [exact I| |set_solver|done]. apply sublist_app; [|done]. rewrite !fmap_app. apply sublist_app; [done|]. by constructor.
Qed.

Lemma step_inv c tr s l s' : sstep c s l s' → sys_inv c tr s → sys_inv c (l :: tr) s'.
Proof.
  unfold sys_inv. intros Hst I. destruct Hst as [w s wfs Hch|w s name ctx rid e a Hf H|w s l1 l2 name ctx rid Hc Hf|w s l1 l2 rid key e a Hc H
    |w s rid expected e H|w s rid expected e a H Hne|w s name ctx rid e Hf H|w s rid|w s rid names caller|w s l1 l2 j e a Hj Hp H|w s l1 l2 j Hj Hp
    |s|s l1 l2 j _ Hj Hp|w s _ _]; cbn [sy_engine sy_jobs sy_conts].
  - apply inv_label. by apply load_workflows_inv.
  - by eapply admit_trigger_inv.
  - rewrite Hc in I. apply enqueue_pending_inv; [|done]. eapply inv_sub; [exact I|..]; rewrite ?queued_app; [|done|set_solver].
    apply sublist_app; [done|]. by apply sublist_app.
  - rewrite Hc in I. apply inv_label. by eapply submit_inv.
  - exact (approve_inv _ _ _ _ _ _ _ _ _ _ I H).
  - apply inv_label. pose proof (approve_inv _ _ _ _ _ _ _ _ _ _ I H) as Ha. destruct a as [[]|]; done.
  - by eapply start_run_inv.
  - apply inv_label. by apply preview_inv.
  - apply inv_label. apply inv_quiet; [auto with keeps|by apply sealed_channel|done].
  - apply inv_label. rewrite Hj in I. destruct (j_phase j) eqn:Hph; [by eapply dispatch_inv|..]; try (eapply executing_inv; [done|by rewrite Hph|by rewrite Hph]);
      by eapply finish_inv.
  - apply inv_label. rewrite Hj in I. destruct (j_counted j); [apply wf_release_inv|]; by eapply inv_fewer_jobs.
  - apply inv_label. by apply (inv_ext c tr (sy_engine s)).
  - apply inv_label. rewrite Hj in I. by eapply inv_fewer_jobs.
  - apply inv_label. apply inv_quiet; [auto with keeps|by apply sealed_scrub_all|done].
Qed.

Lemma reached_inv c tr s : reached c tr s → sys_inv c tr s.
Proof. induction 1 as [|tr s l s' _ IH Hst]; [apply inv_boot|by eapply step_inv]. Qed.

(** ** What it gives *)

(** C8: Whatever triggers, questions, approvals, reloads, workers and failing calls interleave,
    a run that may still start, pending or queued, has the plan that is loaded under its name:
    an approval never starts a definition that has since been edited or removed. A worker
    that has started runs the definition of the plan its run captured, and that run was
    approved by a caller who named the digest of exactly this plan, was started directly,
    or was captured from a workflow declared automatic. *)
Theorem approved_plan_runs c tr s :
  reached c tr s →
  (∀ rid r, od_get (runs (sy_engine s)) rid = Some r → awaiting r = true → plan_current c (workflows (sy_engine s)) r) ∧
  (∀ j wf, j ∈ sy_jobs s → j_phase j = P_start wf ∨ j_phase j = P_conditions wf ∨ (∃ i, j_phase j = P_step wf i) →
     ∃ r, od_get (runs (sy_engine s)) (j_rid j) = Some r ∧ definition (r_plan r) = Some wf ∧ authorised c tr (j_rid j) r).
Proof.
  intros I%reached_inv. split; [apply I|]. intros j wf (r & Hr & _ & Hp)%(i_jobs _ _ _ _ _ I) Hph. exists r. split; [done|].
  assert (r_execution r = true ∧ definition (r_plan r) = Some wf) as [Hex Hd]
    by (destruct Hph as [Hph|[Hph|[i Hph]]]; rewrite Hph in Hp; tauto).
  split; [done|]. apply (i_auth _ _ _ _ _ I); auto.
Qed.

(** C7: The vault is asked to unseal an item only for a run that is authorised (approved by
    the digest of its plan, started directly, or of an automatic workflow), whose plan
    declares the item among its needs, and whose process was found, in a fresh look at the
    system, to meet the conditions of the plan and of its invoker roles. *)
Theorem secret_release_justified c tr s item rid a :
  reached c tr s → Ev (O_fetch item rid) a ∈ log (sy_engine s) →
  ∃ r wf, od_get (runs (sy_engine s)) rid = Some r ∧ definition (r_plan r) = Some wf ∧ item ∈ wf_needs wf ∧
    authorised c tr rid r ∧ met (sy_engine s) wf r.
Proof.
  intros I%reached_inv (r & wf & Hr & Hex & Hd & Hin & Hm)%(i_released _ _ _ _ _ I). exists r, wf. split_and!; try done.
  apply (i_auth _ _ _ _ _ I); auto.
Qed.

(** A git of uid 1000 fires the sample workflow, its run is approved and delivers the key *)
Definition cfg : config :=
  {| cf_audit := true; cf_registrar := true; cf_source := true; cf_hooks := false; cf_broker := false; cf_dbus_open := false; cf_dbus_allow := "";
     cf_max_inflight := 64; cf_float_int := λ _, None; cf_sha256 := λ t, t |}.
Definition calm : world := λ _ o, match o with O_facts => Facts Conditions.git_world | O_deliver _ => Ref (Some "/run/agent.sock") | _ => Done end.
Definition the_job (p : phase) : job := {| j_rid := "r1"; j_key := None; j_counted := true; j_phase := p |}.
Definition run_def : WorkflowDef := default sample_wf (definition sample_text).

Definition s_loaded : sys := {| sy_engine := (load_workflows [sample_wf] cfg calm (sy_engine boot)).1; sy_jobs := []; sy_conts := [] |}.
Definition s_asked : sys := {| sy_engine := (enqueue_pending "git-sign" Conditions.git_context "r1" cfg calm (sy_engine s_loaded)).1; sy_jobs := []; sy_conts := [] |}.
Definition s_approved : sys :=
  {| sy_engine := (approve_run "r1" sample_text cfg calm (sy_engine s_asked)).1; sy_jobs := [the_job P_dispatch]; sy_conts := [] |}.
Definition s_after (s : sys) (p p' : phase) : sys := {| sy_engine := (run_phase "r1" p cfg calm (sy_engine s)).1; sy_jobs := [the_job p']; sy_conts := [] |}.
Definition s_started : sys := s_after s_approved P_dispatch (P_start run_def).
Definition s_recorded : sys := s_after s_started (P_start run_def) (P_conditions run_def).
Definition s_admitted : sys := s_after s_recorded (P_conditions run_def) (P_step run_def 0).
Definition s_delivered : sys := s_after s_admitted (P_step run_def 0) (P_step run_def 1).
Definition approved_trace : list label := [L_approved "r1" sample_text; L_other; L_other; L_other].

Lemma reach_approved : reached cfg approved_trace s_approved.
Proof.
  eapply reached_step; [eapply reached_step; [eapply reached_step; [eapply reached_step; [apply reached_boot|]|]|]|].
  - eapply (S_reload _ calm _ [sample_wf]). repeat constructor; by vm_compute.
  - eapply (S_trigger _ calm s_loaded "git-sign" Conditions.git_context "r1" (sy_engine s_loaded) (Ok Ask)); [by apply (bool_decide_unpack _); vm_compute|by vm_compute].
  - eapply (S_ask _ calm _ [] [] "git-sign" Conditions.git_context "r1"); [done|by apply (bool_decide_unpack _); vm_compute].
  - eapply (S_approve _ calm s_asked "r1" sample_text). by vm_compute.
Qed.

(** One move of the only worker *)
Lemma reach_phase tr s p p' :
  reached cfg tr s → sy_jobs s = [the_job p] → sy_conts s = [] → p ≠ P_done →
  (run_phase "r1" p cfg calm (sy_engine s)).2 = Ok p' → reached cfg (L_other :: tr) (s_after s p p').
Proof.
  intros Hr Hj Hc Hp Ha. eapply reached_step; [exact Hr|]. destruct (run_phase "r1" p cfg calm (sy_engine s)) as [e a] eqn:H. cbn in Ha. subst a.
  pose proof (S_job cfg calm s [] [] (the_job p) e (Ok p') Hj Hp H) as Hst. unfold s_after. rewrite H. by rewrite Hc in Hst.
Qed.
Lemma reach_admitted : reached cfg ([L_other; L_other; L_other] ++ approved_trace) s_admitted.
Proof.
  apply reach_phase; [|done..|by vm_compute]. apply reach_phase; [|done..|by vm_compute].
  apply reach_phase; [apply reach_approved|done..|by vm_compute].
Qed.
Lemma reach_delivered : reached cfg ([L_other; L_other; L_other; L_other] ++ approved_trace) s_delivered.
Proof. apply reach_phase; [apply reach_admitted|done..|by vm_compute]. Qed.

Lemma approved_plan_runs_witness :
  (∃ r, od_get (runs (sy_engine s_approved)) "r1" = Some r ∧ awaiting r = true ∧ plan_current cfg (workflows (sy_engine s_approved)) r) ∧
  ∃ r, od_get (runs (sy_engine s_admitted)) "r1" = Some r ∧ definition (r_plan r) = Some run_def ∧
       authorised cfg ([L_other; L_other; L_other] ++ approved_trace) "r1" r.
Proof.
  split.
  - set (o := od_get (runs (sy_engine s_approved)) "r1").
    assert (match o with Some r => awaiting r = true | None => False end) as Ha by (by vm_compute).
    destruct o as [r|] eqn:Ho; [|done]. exists r. split; [done|]. split; [done|].
    exact (proj1 (approved_plan_runs _ _ _ reach_approved) "r1" r Ho Ha).
  - apply (proj2 (approved_plan_runs _ _ _ reach_admitted) (the_job (P_step run_def 0)) run_def); [left|]. right. right. by exists 0.
Defined.

Lemma secret_release_justified_witness :
  ∃ a, Ev (O_fetch "vault/key" "r1") a ∈ log (sy_engine s_delivered) ∧
  ∃ r wf, od_get (runs (sy_engine s_delivered)) "r1" = Some r ∧ definition (r_plan r) = Some wf ∧ "vault/key" ∈ wf_needs wf ∧
    authorised cfg ([L_other; L_other; L_other; L_other] ++ approved_trace) "r1" r ∧ met (sy_engine s_delivered) wf r.
Proof.
  set (f := λ ev, match ev with Ev (O_fetch i r) a => if bool_decide (i = "vault/key" ∧ r = "r1") then Some a else None | _ => None end).
  assert (Done ∈ omap f (log (sy_engine s_delivered))) as Hin.
  { assert (omap f (log (sy_engine s_delivered)) = [Done]) as -> by (by vm_compute). left. }
  apply list_elem_of_omap in Hin as ([o a] & Hin & Hf). unfold f in Hf. destruct o; try done. case_bool_decide as Hb; [|done]. destruct Hb as [-> ->].
  exists a. split; [done|]. exact (secret_release_justified _ _ _ _ _ _ reach_delivered Hin).
Defined.

End Auth.
