(* ===== verification/WfAdmission.v ===== *)
(** * Admission control of the workflow engine

    How many runs execute at once, and that a noisy trigger cannot queue the same workflow
    twice for one cgroup: the counters of the engine against the workers there are. *)

From S2P Require Import Prelude Json LineageStore PyText WfConditions WfSchema WfEngine WfRuns WfAuth.

Module Admission.
Import Schema Engine Runs Auth.

(** ** The counters *)

(** The computation leaves the counters alone *)
Definition same_load (s s' : engine) : Prop := inflight s' = inflight s ∧ active_keys s' = active_keys s.
#[export] Instance same_load_preorder : PreOrder same_load.
Proof. unfold same_load. split; [done|]. intros s1 s2 s3 [] []. split; congruence. Qed.
Lemma load_modify f : (∀ s, same_load s (f s)) → keeps same_load (modify f).
Proof. intros Hf. by apply keeps_modify. Qed.
Lemma load_evolves X {A} (m : M A) : keeps (evolves X) m → keeps same_load m.
Proof. intros Hm c w s. by destruct (Hm c w s) as (_ & ? & ? & _). Qed.
Lemma load_call o : keeps same_load (call o).
Proof. by intros c w s. Qed.
#[local] Hint Resolve load_call : keeps.
#[local] Hint Extern 2 (keeps same_load (modify _)) => apply load_modify; intros ?; solve [done | case_match; done] : keeps.
#[local] Hint Extern 2 (keeps same_load (update_run _ _)) => apply load_modify; intros ?; case_match; done : keeps.

Lemma load_update rid f : keeps same_load (update_run rid f).
Proof. auto with keeps. Qed.
Lemma load_audit a : keeps same_load (audit a).
Proof. unfold audit. auto 20 with keeps. Qed.
#[local] Hint Resolve load_audit : keeps.
Lemma load_validate rid r : keeps same_load (validate_plan rid r).
Proof. unfold validate_plan, plan_matches, invalidate_runs, mark_failed. auto 40 with keeps. Qed.
#[local] Hint Resolve load_validate : keeps.
Lemma load_add_run rid r : keeps same_load (add_run rid r).
Proof. unfold add_run. auto with keeps. Qed.
#[local] Hint Resolve load_add_run : keeps.
Lemma load_load wfs : keeps same_load (load_workflows wfs).
Proof.
  assert (∀ l, keeps same_load (stale_runs l)) by (induction l as [|[rid r] l IH]; cbn [stale_runs]; unfold plan_matches; auto 40 with keeps).
  unfold load_workflows, invalidate_runs, mark_failed. auto 40 with keeps.
Qed.
Lemma load_enqueue name ctx rid : keeps same_load (enqueue_pending name ctx rid).
Proof.
  assert (∀ key l, keeps same_load (find_pending name key l)) by (intros key l; induction l as [|[rid' r] l IH]; cbn [find_pending]; auto 40 with keeps).
  unfold enqueue_pending, captured. auto 60 with keeps.
Qed.
Lemma load_preview rid : keeps same_load (preview_run rid).
Proof. unfold preview_run, get_run. auto 60 with keeps. Qed.
Lemma load_start name ctx rid : keeps same_load (start_run name ctx rid).
Proof. unfold start_run, captured. auto 60 with keeps. Qed.
Lemma load_channel rid names caller : keeps same_load (get_run_channel_env rid names caller).
Proof. apply (load_evolves (λ _, False)), evolves_channel. Qed.
Lemma load_scrub_all : keeps same_load scrub_all_runs.
Proof. apply (load_evolves (λ _, False)), evolves_scrub_all. Qed.
Lemma load_cleanup rid only : keeps same_load (cleanup_owned rid only).
Proof. apply (load_evolves (λ _, False)), evolves_cleanup. Qed.
#[local] Hint Resolve load_cleanup : keeps.
Lemma load_phase rid p : keeps same_load (run_phase rid p).
Proof.
  destruct p; try (eapply load_evolves, evolves_phase; done); cbn [run_phase]; unfold get_run; auto 60 with keeps.
Qed.

(** ** The invariant *)

Definition counted (jobs : list job) : list job := filter (λ j, j_counted j = true) jobs.
Definition job_keys (jobs : list job) : list (string * string) := omap (λ j, if j_counted j then j_key j else None) jobs.
Definition cont_keys (conts : list cont) : list (string * string) := omap (λ k, match k with C_queue _ key => key | _ => None end) conts.
(** Runs of the pool, and those about to be submitted to it *)
Definition load (jobs : list job) (conts : list cont) : Z := Z.of_nat (length (counted jobs) + length (queued conts)).

Definition all_keys (jobs : list job) (conts : list cont) : list (string * string) := job_keys jobs ++ cont_keys conts.

Record loaded (c : config) (e : engine) (jobs : list job) (conts : list cont) : Prop := {
  ld_count : (load jobs conts ≤ inflight e)%Z;
  ld_max : (inflight e ≤ Z.max 0 (cf_max_inflight c))%Z;
  ld_active : ∀ k, k ∈ all_keys jobs conts → k ∈ active_keys e;
  ld_nodup : NoDup (all_keys jobs conts);
}.
Definition sys_loaded (c : config) (s : sys) : Prop := loaded c (sy_engine s) (sy_jobs s) (sy_conts s).

Lemma loaded_fewer c e e' jobs jobs' conts conts' :
  loaded c e jobs conts → same_load e e' → (load jobs' conts' ≤ load jobs conts)%Z → all_keys jobs' conts' ⊆+ all_keys jobs conts → loaded c e' jobs' conts'.
Proof.
  intros [] [Hi Ha] Hl Hk. apply submseteq_Permutation in Hk as [k Hk]. rewrite Hk in ld_nodup0. split; rewrite ?Hi, ?Ha; try lia.
  - intros x Hx. apply ld_active0. rewrite Hk. apply elem_of_app. by left.
  - by apply NoDup_app in ld_nodup0 as [? _].
Qed.
Lemma loaded_same c e e' jobs conts : loaded c e jobs conts → same_load e e' → loaded c e' jobs conts.
Proof. intros Hl Hs. by eapply loaded_fewer. Qed.

Definition admitted (key : option (string * string)) (s : engine) : engine :=
  set_active (inflight s + 1) (match key with Some k => active_keys s ∪ {[k]} | None => active_keys s end) s.
Lemma loaded_more c e e' jobs jobs' conts conts' key :
  loaded c e jobs conts → (inflight e < cf_max_inflight c)%Z → (∀ k, key = Some k → k ∉ active_keys e) → same_load (admitted key e) e' →
  load jobs' conts' = (load jobs conts + 1)%Z → all_keys jobs' conts' ≡ₚ option_list key ++ all_keys jobs conts → loaded c e' jobs' conts'.
Proof.
  intros [] Hlt Hnew [Hi Ha] Hl Hk. cbn in Hi, Ha. split; rewrite ?Hi, ?Ha, ?Hk; try lia.
  - intros x. rewrite Hk. destruct key as [k|]; cbn; [|by auto]. rewrite elem_of_cons, elem_of_union, elem_of_singleton. intros [->|?]; auto.
  - destruct key as [k|]; cbn; [|done]. apply NoDup_cons. split; [|done]. intros Hin%ld_active0. by apply (Hnew k).
Qed.
Lemma loaded_released c w e e1 jobs jobs' conts conts' key :
  loaded c e jobs conts → same_load e e1 → load jobs conts = (load jobs' conts' + 1)%Z → all_keys jobs conts ≡ₚ option_list key ++ all_keys jobs' conts' →
  loaded c (release_inflight key c w e1).1 jobs' conts'.
Proof.
  intros [] [Hi Ha] Hl Hk. assert (0 ≤ load jobs' conts')%Z by (unfold load; lia). rewrite Hk in ld_nodup0. split; cbn; rewrite ?Hi, ?Ha; try lia.
  - intros x Hx. assert (x ∈ active_keys e) as Hact by (apply ld_active0; rewrite Hk; apply elem_of_app; by right).
    destruct key as [k|]; [|done]. cbn in ld_nodup0. apply NoDup_cons in ld_nodup0 as [Hn _]. apply elem_of_difference. split; [done|]. by intros ->%elem_of_singleton.
  - by apply NoDup_app in ld_nodup0 as (_ & _ & ?).
Qed.

(** Giving back what was just taken *)
Lemma released_admitted c w e e' key :
  (0 ≤ inflight e)%Z → (∀ k, key = Some k → k ∉ active_keys e) → same_load (admitted key e) e' → same_load e (release_inflight key c w e').1.
Proof.
  intros H0 Hnew [Hi Ha]. cbn in Hi, Ha. split; cbn; rewrite ?Hi, ?Ha; [lia|]. destruct key as [k|]; [|done].
  specialize (Hnew k eq_refl). apply set_eq. intros x. rewrite elem_of_difference, elem_of_union, elem_of_singleton. split; [tauto|]. intros Hx. split; [auto|]. by intros ->.
Qed.

(** How the lists of the system move *)
Lemma counted_app l1 l2 : counted (l1 ++ l2) = counted l1 ++ counted l2.
Proof. apply filter_app. Qed.
Lemma job_keys_app l1 l2 : job_keys (l1 ++ l2) = job_keys l1 ++ job_keys l2.
Proof. apply omap_app. Qed.
Lemma cont_keys_app l1 l2 : cont_keys (l1 ++ l2) = cont_keys l1 ++ cont_keys l2.
Proof. apply omap_app. Qed.
Lemma counted_cons j l : length (counted (j :: l)) = (if j_counted j then 1 else 0) + length (counted l).
Proof. unfold counted. rewrite filter_cons. by destruct (j_counted j). Qed.
Lemma job_keys_cons j l : job_keys (j :: l) = (if j_counted j then option_list (j_key j) else []) ++ job_keys l.
Proof. cbn. destruct (j_counted j), (j_key j); done. Qed.
Lemma cont_keys_cons k l : cont_keys (k :: l) = (match k with C_queue _ key => option_list key | _ => [] end) ++ cont_keys l.
Proof. destruct k as [|rid [key|]]; done. Qed.
Lemma queued_cons k l : queued (k :: l) = (match k with C_queue rid _ => [rid] | _ => [] end) ++ queued l.
Proof. destruct k; done. Qed.
Ltac loads := unfold load; cbn [app]; rewrite ?counted_app, ?queued_app, ?length_app, ?counted_cons, ?queued_cons; cbn [j_counted length app]; rewrite ?length_app;
  repeat match goal with H : j_counted _ = _ |- _ => rewrite H; clear H end; lia.
Ltac all_keys := unfold all_keys; cbn [app]; rewrite ?job_keys_app, ?cont_keys_app, ?job_keys_cons, ?cont_keys_cons; cbn [j_counted j_key option_list app];
  repeat match goal with H : j_counted _ = _ |- _ => rewrite H; clear H end; cbn [app]; first [reflexivity | solve_submseteq | solve_Permutation | idtac].

(** ** The steps that count *)

Lemma loaded_nonneg c e jobs conts : loaded c e jobs conts → (0 ≤ inflight e)%Z.
Proof. intros []. unfold load in *. lia. Qed.
Lemma same_load_run {A} (m : M A) c w s e x : keeps same_load m → m c w s = (e, x) → same_load s e.
Proof. intros Hm H. specialize (Hm c w s). by rewrite H in Hm. Qed.

Lemma admit_loaded c w e jobs conts name ctx rid e' a :
  loaded c e jobs conts → (∀ wf, workflows e !! name = Some wf → is_ok (capture wf) = true) → admit_trigger name ctx rid c w e = (e', a) →
  loaded c e' jobs ((match a with Ok Ask => [C_ask name ctx] | Ok (Queue key) => [C_queue rid key] | _ => [] end) ++ conts).
Proof.
  intros L Hcap. unfold admit_trigger. wf_run. destruct (workflows e !! name) as [wf|]; [|intros [-> ->]%run_ret; done].
  destruct (negb (wf_auto_run wf)); [intros [-> ->]%run_ret; eapply loaded_fewer; [exact L|done|loads|all_keys]|]. wf_run.
  destruct (Z.leb_spec (cf_max_inflight c) (inflight e)); [intros [-> ->]%run_ret; done|].
  destruct (match dedup_key name ctx with Some k => bool_decide (k ∈ active_keys e) | None => false end) eqn:Hk; [intros [-> ->]%run_ret; done|]. wf_run.
  assert (∀ k, dedup_key name ctx = Some k → k ∉ active_keys e) as Hnew by (intros k Hd; rewrite Hd in Hk; by apply bool_decide_eq_false in Hk).
  fold (admitted (dedup_key name ctx) e). set (e1 := admitted _ e). unfold captured. specialize (Hcap wf eq_refl). destruct (capture wf) as [t|ex]; [|done].
  wf_run. unfold add_run. wf_run. set (e2 := set_runs _ e1). assert (same_load e1 (audit (A_queued rid (digest c t)) c w e2).1) as Ha.
  { transitivity e2; [done|]. apply load_audit. }
  destruct ((audit _ c w e2).2).
  - intros [-> ->]%run_ret. eapply (loaded_more c e); [done..|exact Ha|loads|all_keys].
  - unfold mark_failed. wf_run. intros [-> ->]%run_ret. cbn [app]. eapply loaded_same; [exact L|]. eapply released_admitted; [by eapply loaded_nonneg|exact Hnew|].
    etransitivity; [exact Ha|]. etransitivity; [|apply load_audit]. apply load_update.
Qed.

Lemma submit_loaded c w e jobs l1 l2 rid key e' a :
  loaded c e jobs (l1 ++ C_queue rid key :: l2) → submit_auto rid key c w e = (e', a) →
  loaded c e' ((match a with Ok true => [{| j_rid := rid; j_key := key; j_counted := true; j_phase := P_dispatch |}] | _ => [] end) ++ jobs) (l1 ++ l2).
Proof.
  intros L. unfold submit_auto. wf_run. set (m := call _). assert (same_load e (m c w e).1) as Hm by apply load_call.
  destruct ((m c w e).2).
  - intros [-> ->]%run_ret. eapply loaded_fewer; [exact L|exact Hm|loads|all_keys].
  - unfold mark_failed. wf_run. intros [-> ->]%run_ret. cbn [app].
    eapply loaded_released; [exact L|etransitivity; [exact Hm|apply load_update]|loads|all_keys].
Qed.

Lemma approve_loaded c w e jobs conts rid expected e' a :
  loaded c e jobs conts → approve_run rid expected c w e = (e', a) →
  loaded c e' ((match a with Ok true => [{| j_rid := rid; j_key := None; j_counted := true; j_phase := P_dispatch |}] | _ => [] end) ++ jobs) conts.
Proof.
  intros L. unfold approve_run, get_run. wf_run. destruct (od_get (runs e) rid) as [r|]; [|by intros [-> ->]%run_ret].
  case_bool_decide; cbn [negb]; [|by intros [-> ->]%run_ret]. intros H1. apply wf_bind in H1 as [(ex & H1 & ->)|(ok & e0 & H1 & H2)].
  { eapply loaded_same; [exact L|exact (same_load_run _ _ _ _ _ _ (load_validate _ _) H1)]. }
  pose proof (same_load_run _ _ _ _ _ _ (load_validate _ _) H1) as H0. assert (loaded c e0 jobs conts) as L0 by (by eapply loaded_same).
  clear H0 H1 L. revert H2. wf_run. destruct (negb ok); [by intros [-> ->]%run_ret|]. destruct (negb (truthy expected) || _); [by intros [-> ->]%run_ret|]. wf_run.
  destruct (Z.leb_spec (cf_max_inflight c) (inflight e0)); [by intros [-> ->]%run_ret|]. wf_run.
  change (set_active (inflight e0 + 1) (active_keys e0) e0) with (admitted None e0). set (e1 := admitted None e0). set (m := mbind _ _).
  assert (keeps same_load m) as Hm by (unfold m; pose proof load_update; auto with keeps). specialize (Hm c w e1). destruct ((m c w e1).2).
  - intros [-> ->]%run_ret. eapply (loaded_more c e0 _ jobs _ conts _ None); [done..|exact Hm|loads|all_keys].
  - wf_run. intros [-> ->]%run_ret. cbn [app]. eapply loaded_same; [exact L0|]. etransitivity; [|apply load_update].
    eapply (released_admitted _ _ _ _ None); [by eapply loaded_nonneg|done|exact Hm].
Qed.

Lemma step_loaded c tr s l s' : sys_inv c tr s → sstep c s l s' → sys_loaded c s → sys_loaded c s'.
Proof.
  unfold sys_loaded. intros I Hst L. destruct Hst as [w s wfs Hch|w s name ctx rid e a Hf H|w s l1 l2 name ctx rid Hc Hf|w s l1 l2 rid key e a Hc H
    |w s rid expected e H|w s rid expected e a H Hne|w s name ctx rid e Hf H|w s rid|w s rid names caller|w s l1 l2 j e a Hj Hp H|w s l1 l2 j Hj Hp
    |s|s l1 l2 j _ Hj Hp|w s _ _]; cbn [sy_engine sy_jobs sy_conts].
  - eapply loaded_same; [exact L|apply load_load].
  - eapply admit_loaded; [exact L|apply I|exact H].
  - rewrite Hc in L. eapply loaded_fewer; [exact L|apply load_enqueue|loads|all_keys].
  - rewrite Hc in L. by eapply submit_loaded.
  - exact (approve_loaded _ _ _ _ _ _ _ _ _ L H).
  - pose proof (approve_loaded _ _ _ _ _ _ _ _ _ L H) as Ha. destruct a as [[]|]; done.
  - eapply loaded_fewer; [exact L|exact (same_load_run _ _ _ _ _ _ (load_start _ _ _) H)|loads|all_keys].
  - eapply loaded_same; [exact L|apply load_preview].
  - eapply loaded_same; [exact L|apply load_channel].
  - rewrite Hj in L. eapply loaded_fewer; [exact L|exact (same_load_run _ _ _ _ _ _ (load_phase _ _) H)|loads|all_keys].
  - rewrite Hj in L. destruct (j_counted j) eqn:Hcj; cbn [when].
    + eapply (loaded_released c w _ _ _ _ _ _ (j_key j) L); [done|loads|all_keys].
    + eapply loaded_fewer; [exact L|done|loads|all_keys].
  - eapply loaded_same; [exact L|done].
  - rewrite Hj in L. eapply loaded_fewer; [exact L|done|loads|all_keys].
  - eapply loaded_same; [exact L|apply load_scrub_all].
Qed.
Lemma reached_loaded c tr s : reached c tr s → sys_loaded c s.
Proof.
  induction 1 as [|tr s l s' Hr IH Hst]; [|eapply step_loaded; [by eapply reached_inv|done..]].
  split; cbn; try done; [lia|set_solver|constructor].
Qed.

(** ** What it gives *)


End Admission.
