(* ===== verification/WfChannels.v ===== *)
(** * Secret channels of the workflow engine

    A delivered secret lives behind a handle the engine must revoke. Over every
    interleaving of the engine's threads and every failure of the calls it makes, no
    channel is forgotten: it was revoked, or its run is still on the list of those whose
    cleanup is tried again. *)

From S2P Require Import Prelude Json LineageStore PyText WfConditions WfSchema WfEngine WfRuns WfAuth.

Module Channels.
Import Schema Engine Runs Auth.

(** ** The invariant *)

(** The channel acknowledged its revocation *)
Definition revoked (s : engine) (h : nat) : Prop := ∃ a, Ev (O_revoke h) a ∈ log s ∧ (∀ e, a ≠ Raise e).
(** The cleanup of a run still has the handle *)
Definition tracked (s : engine) (h : nat) : Prop := ∃ rid, h ∈ owned rid s ∧ rid ∈ cleanup_pending_runs s.

(** Every handle but those of [X] is accounted for *)
Record chan_but (X : nat → Prop) (s : engine) : Prop := {
  ch_bound : ∀ h, h ∈ dom (heap s) → h < next_handle s;
  ch_scrubbed : ∀ h, is_scrubbed h s = true → revoked s h;
  ch_kept : ∀ h, h ∈ dom (heap s) → X h ∨ revoked s h ∨ tracked s h;
  ch_confirmed : ∀ rid r, od_get (runs s) rid = Some r → r_cleanup r = CS_confirmed → owned rid s = [];
}.
Definition chan : engine → Prop := chan_but (λ _, False).
Definition chans (s s' : engine) : Prop := chan s → chan s'.
#[export] Instance chans_preorder : PreOrder chans.
Proof. unfold chans. split; [by intros s|by auto]. Qed.

(** The run was not declared clean by this *)
Definition cleanups (s s' : engine) : Prop :=
  ∀ rid r', od_get (runs s') rid = Some r' → r_cleanup r' = CS_confirmed → ∃ r, od_get (runs s) rid = Some r ∧ r_cleanup r = CS_confirmed.

Lemma chan_frame X s s' :
  heap s' = heap s → next_handle s' = next_handle s → delivery_handles s' = delivery_handles s → cleanup_pending_runs s' = cleanup_pending_runs s →
  (∀ e, e ∈ log s → e ∈ log s') → cleanups s s' → chan_but X s → chan_but X s'.
Proof.
  intros Hh Hn Hd Hp Hl Hc []. assert (∀ h, revoked s h → revoked s' h) as Hr by (intros h (a & ? & ?); exists a; auto).
  split.
  - by rewrite Hh, Hn.
  - unfold is_scrubbed. rewrite Hh. auto.
  - rewrite Hh. intros h [?|[?|?]]%ch_kept0; auto. right. right. unfold tracked, owned. by rewrite Hd, Hp.
  - intros rid r' Hr' Hcc. destruct (Hc rid r' Hr' Hcc) as (r & ? & ?). unfold owned. rewrite Hd. by eapply ch_confirmed0.
Qed.
Lemma cleanups_same s s' : runs s' = runs s → cleanups s s'.
Proof. intros H rid r'. rewrite H. eauto. Qed.
Lemma cleanups_set s rid r :
  (r_cleanup r = CS_confirmed → ∃ r0, od_get (runs s) rid = Some r0 ∧ r_cleanup r0 = CS_confirmed) → cleanups s (set_runs (od_set (runs s) rid r) s).
Proof.
  intros H rid' r'. cbn. destruct (decide (rid = rid')) as [->|Hne]; [rewrite od_get_set_eq; intros [= ->]; auto|].
  rewrite od_get_set_ne by done. eauto.
Qed.
Lemma chan_runs X s rid r :
  (r_cleanup r = CS_confirmed → ∃ r0, od_get (runs s) rid = Some r0 ∧ r_cleanup r0 = CS_confirmed) →
  chan_but X s → chan_but X (set_runs (od_set (runs s) rid r) s).
Proof. intros H. apply chan_frame; try done. by apply cleanups_set. Qed.
Lemma chan_update X rid f c w s : (∀ r, r_cleanup (f r) = CS_confirmed → r_cleanup r = CS_confirmed) → chan_but X s → chan_but X (update_run rid f c w s).1.
Proof.
  intros Hf Hs. unfold update_run, modify. cbn. destruct (od_get (runs s) rid) as [r|] eqn:Hr; [|done]. apply chan_runs; [|done]. intros. exists r. auto.
Qed.
Lemma chan_call X o c w s : chan_but X s → chan_but X (call o c w s).1.
Proof. apply chan_frame; try done; [intros e ?; by right|by apply cleanups_same]. Qed.

Lemma chans_call o : keeps chans (call o).
Proof. intros c w s Hs. by apply chan_call. Qed.
#[local] Hint Resolve chans_call : keeps.
Lemma chans_same s s' :
  heap s' = heap s → next_handle s' = next_handle s → delivery_handles s' = delivery_handles s → cleanup_pending_runs s' = cleanup_pending_runs s →
  log s' = log s → runs s' = runs s → chans s s'.
Proof. intros ? ? ? ? Hl Hr Hs. eapply chan_frame; try done; [by rewrite Hl|by apply cleanups_same]. Qed.
#[local] Hint Extern 2 (keeps chans (modify _)) => apply keeps_modify; intros ?; solve [apply chans_same; done | case_match; apply chans_same; done] : keeps.
#[local] Hint Extern 2 (keeps chans (update_run _ _)) => intros ? ? ? ?; apply chan_update; [intros ?; solve [done]|assumption] : keeps.

Lemma chans_audit a : keeps chans (audit a).
Proof. unfold audit. auto 20 with keeps. Qed.
#[local] Hint Resolve chans_audit : keeps.
Lemma chans_clear_relay rid name : keeps chans (clear_relay rid name).
Proof. unfold clear_relay. auto 20 with keeps. Qed.
#[local] Hint Resolve chans_clear_relay : keeps.

(** ** Revoking *)

Lemma chan_scrubbed s h : chan s → revoked s h → chan (set_heap (alter with_scrubbed h (heap s)) (next_handle s) s).
Proof.
  intros [] Hr. split; cbn; rewrite ?dom_alter_L; try done. intros h'. unfold is_scrubbed. cbn. destruct (decide (h' = h)) as [->|Hne]; [done|].
  rewrite lookup_alter_ne by done. apply ch_scrubbed0.
Qed.
Lemma chan_ref s h r : chan s → chan (set_heap (alter (with_ref r) h (heap s)) (next_handle s) s).
Proof.
  intros []. split; cbn; rewrite ?dom_alter_L; try done. intros h' Hs. apply (ch_scrubbed0 h'). revert Hs. unfold is_scrubbed. cbn.
  destruct (decide (h' = h)) as [->|Hne]; [|by rewrite lookup_alter_ne]. rewrite lookup_alter_eq. by destruct (heap s !! h).
Qed.
Lemma scrub_chan c w s s' h x : chan s → scrub h c w s = (s', x) → chan s' ∧ (is_ok x = true → revoked s' h).
Proof.
  intros Hs. unfold scrub. rewrite wf_bind_gets. destruct (is_scrubbed h s) eqn:Hd; [intros [-> ->]%run_ret; split; [done|intros _; by apply Hs]|].
  intros H. pose proof (chan_call _ (O_revoke h) c w s Hs) as Hc. apply wf_bind in H as [(ex & H & ->)|(a & s1 & H & H1)]; rewrite H in Hc; [done|].
  assert (revoked s1 h) as Hr.
  { unfold call in H. exists (w (log s) (O_revoke h)). destruct (w (log s) (O_revoke h)) eqn:Hw; try done; injection H as <- _; split; try done; left. }
  injection H1 as <- <-. split; [by apply chan_scrubbed|]. intros _. exact Hr.
Qed.

Lemma elem_of_remove_first h h' l : h' ∈ l → h' ≠ h → h' ∈ remove_first h l.
Proof. induction l as [|x l IH]; cbn; [done|]. intros [->|Hin]%elem_of_cons Hne; case_bool_decide; subst; [done|left|done|right; auto]. Qed.

(** Giving up a handle that was revoked *)
Lemma chan_removed s rid h s' :
  chan s → revoked s h → heap s' = heap s → next_handle s' = next_handle s → cleanup_pending_runs s' = cleanup_pending_runs s → log s' = log s → runs s' = runs s →
  delivery_handles s' = match delivery_handles s !! rid with Some l => <[rid := remove_first h l]> (delivery_handles s) | None => delivery_handles s end → chan s'.
Proof.
  intros [] Hrev Hh Hn Hp Hl Hr Hd. assert (∀ h, revoked s h → revoked s' h) as Hrv by (unfold revoked; by rewrite Hl).
  assert (∀ rid', owned rid' s' = owned rid' s ∨ owned rid' s' = remove_first h (owned rid' s)) as Ho.
  { intros rid'. unfold owned. rewrite Hd. destruct (delivery_handles s !! rid) as [l|] eqn:E; [|by left].
    destruct (decide (rid' = rid)) as [->|?]; [rewrite lookup_insert_eq, E; by right|rewrite lookup_insert_ne by done; by left]. }
  split.
  - by rewrite Hh, Hn.
  - unfold is_scrubbed. rewrite Hh. auto.
  - rewrite Hh. intros h' [[]|[?|(rid' & Hin & ?)]]%ch_kept0; [by auto|]. destruct (decide (h' = h)) as [->|Hne]; [by auto|]. right. right. exists rid'. rewrite Hp.
    split; [|done]. destruct (Ho rid') as [->| ->]; [done|by apply elem_of_remove_first].
  - rewrite Hr. intros rid' r Hr' Hc. specialize (ch_confirmed0 _ _ Hr' Hc). destruct (Ho rid') as [->| ->]; rewrite ch_confirmed0; done.
Qed.

Lemma chans_clean_handle rid secrets ih : keeps chans (clean_handle rid secrets ih).
Proof.
  destruct ih as [i h]. unfold clean_handle. apply keeps_bind; [typeclasses eauto|auto with keeps|intros []]. intros c w s Hs. wf_run.
  destruct ((MAX_ATTEMPTS <=? _) && _); [done|]. wf_run. set (m := mbind _ _). destruct (m c w s) as [s1 x] eqn:Hm. cbn [fst snd].
  assert (chan s1 ∧ (is_ok x = true → revoked s1 h)) as [Hs1 Hrev].
  { unfold m in Hm. destruct (is_scrubbed h s) eqn:Hd; cbn [negb when] in Hm.
    - rewrite wf_bind_ret in Hm. pose proof (chans_audit (A_scrub rid (default "" (cleanup_items s !! h)) h) c w s Hs) as Ha. rewrite Hm in Ha.
      split; [done|]. intros _. apply (ch_scrubbed _ _ Ha). rewrite (surjective_pairing (audit _ c w s)), audit_log in Hm. by injection Hm as <- _.
    - apply wf_bind in Hm as [(ex & Hm & ->)|([] & s2 & Hm & Hm2)]; rewrite wf_bind_modify in Hm;
        apply scrub_chan in Hm as [Hc Hr]; [by split|by apply (chans_same s)| |by apply (chans_same s)].
      pose proof (chans_audit (A_scrub rid (default "" (cleanup_items s !! h)) h) c w s2 Hc) as Ha. rewrite Hm2 in Ha. split; [done|]. intros _.
      rewrite (surjective_pairing (audit _ c w s2)), audit_log in Hm2. injection Hm2 as <- _. destruct (Hr eq_refl) as (a & Hin & Hn). exists a. split; [|done].
      cbn. destruct (evolves_audit (λ _, False) (A_scrub rid (default "" (cleanup_items s !! h)) h) c w s2) as (_ & _ & _ & _ & Hl & _). by apply Hl. }
  destruct x as [[]|ex]; [|done]. wf_run. eapply (chan_removed s1 rid h); try done. by apply Hrev.
Qed.
#[local] Hint Resolve chans_clean_handle : keeps.

Lemma audit_owned a c w s rid : owned rid (audit a c w s).1 = owned rid s.
Proof. by rewrite audit_log. Qed.
Lemma update_owned rid' f c w s rid : owned rid (update_run rid' f c w s).1 = owned rid s.
Proof. unfold update_run, modify, owned. cbn. by destruct (od_get (runs s) rid'). Qed.

(** Forgetting a run that owns nothing *)
Lemma chan_forgotten s rid : chan s → owned rid s = [] → chan (set_secrets (delete rid (delivered_secrets s)) (delete rid (delivery_handles s))
  (cleanup_items s) (cleanup_attempts s) (cleanup_pending_runs s) s) ∧
  ∀ rid', owned rid' (set_secrets (delete rid (delivered_secrets s)) (delete rid (delivery_handles s)) (cleanup_items s) (cleanup_attempts s) (cleanup_pending_runs s) s) = owned rid' s.
Proof.
  intros [] He. assert (∀ rid', default [] (delete rid (delivery_handles s) !! rid') = default [] (delivery_handles s !! rid')) as Ho.
  { intros rid'. destruct (decide (rid' = rid)) as [->|?]; [rewrite lookup_delete_eq; symmetry; exact He|by rewrite lookup_delete_ne]. }
  split; [|exact Ho]. split; try done.
  - intros h [?|[?|(rid' & ? & ?)]]%ch_kept0; auto. right. right. exists rid'. split; [|done]. unfold owned. cbn. by rewrite Ho.
  - intros rid' r Hr Hc. unfold owned. cbn. rewrite Ho. by eapply ch_confirmed0.
Qed.
Lemma chan_cleanup c w s rid st n : chan s → (st = CS_confirmed → owned rid s = []) → chan (update_run rid (with_cleanup st n) c w s).1.
Proof.
  intros Hs Hst. unfold update_run, modify. cbn. destruct (od_get (runs s) rid) as [r|] eqn:Hr; [|done]. destruct Hs. split; try done.
  intros rid' r'. cbn. destruct (decide (rid = rid')) as [<-|Hne]; [rewrite od_get_set_eq; intros [= <-]; exact Hst|]. rewrite od_get_set_ne by done. apply ch_confirmed0.
Qed.
Lemma chan_pending s s' rid st :
  chan s → (st = CS_confirmed → owned rid s = []) → heap s' = heap s → next_handle s' = next_handle s → delivery_handles s' = delivery_handles s →
  log s' = log s → runs s' = runs s →
  cleanup_pending_runs s' = match st with CS_confirmed => cleanup_pending_runs s ∖ {[rid]} | _ => cleanup_pending_runs s ∪ {[rid]} end → chan s'.
Proof.
  intros [] Hst Hh Hn Hd Hl Hr Hp. assert (∀ h, revoked s h → revoked s' h) as Hrv by (unfold revoked; by rewrite Hl). split.
  - by rewrite Hh, Hn.
  - unfold is_scrubbed. rewrite Hh. auto.
  - rewrite Hh. intros h [[]|[?|(rid' & Hin & Hpend)]]%ch_kept0; [by auto|]. right. right. exists rid'. unfold owned in *. rewrite Hd. split; [done|]. rewrite Hp.
    destruct st; [apply elem_of_union; by left..|]. apply elem_of_difference. split; [done|]. intros ->%elem_of_singleton. rewrite Hst in Hin by done. by apply elem_of_nil in Hin.
  - rewrite Hr. unfold owned. rewrite Hd. exact ch_confirmed0.
Qed.

Lemma chans_finish rid partial errors : keeps chans (finish_cleanup rid partial errors).
Proof.
  intros c w s Hs. unfold finish_cleanup. wf_run. set (n := length (owned rid s)).
  set (m := when _ _). assert (∃ s1, m c w s = (s1, Ok tt) ∧ chan s1 ∧ ∀ rid', owned rid' s1 = owned rid' s) as (s1 & Hm & Hs1 & Ho1).
  { unfold m. case_bool_decide as Hn; [|by exists s]. eexists. split; [done|]. apply chan_forgotten; [done|]. by apply length_zero_iff_nil. }
  unfold mbind at 1, M_bind at 1. rewrite Hm. wf_run. set (st := if errors then _ else _). set (s2 := (update_run _ _ _ _ _).1). set (aud := audit _).
  assert (st = CS_confirmed → owned rid s = []) as Hst.
  { unfold st. destruct errors; [done|]. case_bool_decide as Hn; [intros _; by apply length_zero_iff_nil|by destruct partial]. }
  assert (chan s2) as Hs2 by (apply chan_cleanup; [done|by rewrite Ho1]).
  assert (chan (aud c w s2).1) as Hs3 by (by apply chans_audit).
  assert (owned rid (aud c w s2).1 = owned rid s) as Ho3 by (unfold aud, s2; by rewrite audit_owned, update_owned, Ho1).
  destruct ((aud c w s2).2).
  - rewrite wf_bind_ret. eapply (chan_pending _ _ rid st); [exact Hs3|by rewrite Ho3|done..].
  - unfold mbind at 1, M_bind at 1. rewrite wf_bind_update. eapply (chan_pending (update_run rid (with_cleanup CS_unresolved n) c w (aud c w s2).1).1 _ rid CS_unresolved); [|done..].
    by apply chan_cleanup.
Qed.
#[local] Hint Resolve chans_finish : keeps.
Lemma chans_cleanup rid only : keeps chans (cleanup_owned rid only).
Proof. unfold cleanup_owned, get_run. auto 40 with keeps. Qed.
#[local] Hint Resolve chans_cleanup : keeps.
Lemma chans_scrub_all : keeps chans scrub_all_runs.
Proof. unfold scrub_all_runs. auto 20 with keeps. Qed.

(** ** Opening *)

Lemma chan_owned s s' rid h hd :
  chan s → h = next_handle s → h_scrubbed hd = false → heap s' = <[h := hd]> (heap s) → next_handle s' = S h → log s' = log s →
  delivery_handles s' = <[rid := owned rid s ++ [h]]> (delivery_handles s) → cleanup_pending_runs s' = cleanup_pending_runs s ∪ {[rid]} →
  (∀ rid' r, od_get (runs s') rid' = Some r → r_cleanup r = CS_confirmed → rid' ≠ rid ∧ od_get (runs s) rid' = Some r) → chan s'.
Proof.
  intros [] Hh Hsc Hheap Hn Hl Hd Hp Hr. assert (∀ h, revoked s h → revoked s' h) as Hrv by (unfold revoked; by rewrite Hl). split.
  - rewrite Hheap, Hn. intros h'. rewrite dom_insert, elem_of_union, elem_of_singleton. intros [->|Hin%ch_bound0]; lia.
  - intros h'. unfold is_scrubbed. rewrite Hheap. destruct (decide (h' = h)) as [->|Hne]; [rewrite lookup_insert_eq; congruence|].
    rewrite lookup_insert_ne by done. intros Hs. apply Hrv, ch_scrubbed0, Hs.
  - assert (rid ∈ cleanup_pending_runs s') as Hrid by (rewrite Hp; apply elem_of_union; right; by apply elem_of_singleton).
    rewrite Hheap. intros h'. rewrite dom_insert, elem_of_union, elem_of_singleton. intros [->|[[]|[?|(rid' & Hin & Hpend)]]%ch_kept0]; [|by auto|].
    + right. right. exists rid. split; [|done]. unfold owned at 1. rewrite Hd, lookup_insert_eq. apply elem_of_app. right. left.
    + right. right. exists rid'. split; [|rewrite Hp; apply elem_of_union; by left]. unfold owned at 1. rewrite Hd.
      destruct (decide (rid' = rid)) as [->|Hne]; [rewrite lookup_insert_eq; apply elem_of_app; by left|by rewrite lookup_insert_ne].
  - intros rid' r Hr' Hc. destruct (Hr _ _ Hr' Hc) as [Hne Hr0]. unfold owned. rewrite Hd, lookup_insert_ne by done. by eapply ch_confirmed0.
Qed.

Lemma chans_deliver h : keeps chans (deliver h).
Proof.
  unfold deliver. apply keeps_bind; [typeclasses eauto|auto with keeps|]. intros a c w s Hs. by apply chan_ref.
Qed.
#[local] Hint Resolve chans_deliver : keeps.

Lemma bind_alloc {A} m (k : nat → M A) c w s :
  (alloc m ≫= k) c w s = k (next_handle s) c w (set_heap (<[next_handle s := {| h_method := m; h_ref := None; h_scrubbed := false |}]> (heap s)) (S (next_handle s)) s).
Proof. done. Qed.
Definition own_state (rid : string) (h : nat) (item : string) (s : engine) : engine :=
  set_secrets (delivered_secrets s) (<[rid := owned rid s ++ [h]]> (delivery_handles s)) (<[h := item]> (cleanup_items s))
    (cleanup_attempts s) (cleanup_pending_runs s ∪ {[rid]}) s.
Lemma bind_own {A} rid h item (k : unit → M A) c w s :
  let s' := own_state rid h item s in let n := length (owned rid s') in
  (own_delivery rid h item ≫= k) c w s = (audit (A_cleanup rid CS_pending n) ≫= k) c w (update_run rid (with_cleanup CS_pending n) c w s').1.
Proof. done. Qed.

(** A channel is owned before anything can fail *)
Lemma chans_opened {A} m rid item (k : nat → result exn unit → M A) :
  (∀ h a, keeps chans (k h a)) → keeps chans (h ← alloc m; a ← attempt (own_delivery rid h item;; deliver h); k h a).
Proof.
  intros Hk c w s Hs. rewrite bind_alloc. set (h := next_handle s). set (s1 := set_heap _ _ s). rewrite wf_bind_attempt. apply Hk. rewrite bind_own.
  set (s2 := own_state rid h item s1). set (n := length _).
  assert (keeps chans (audit (A_cleanup rid CS_pending n);; deliver h)) as Hrest by auto with keeps.
  apply Hrest. unfold update_run, modify. cbn [fst].
  destruct (od_get (runs s2) rid) as [r|] eqn:Hr; (eapply (chan_owned s _ rid h {| h_method := m; h_ref := None; h_scrubbed := false |}); [exact Hs|done..|]); cbn.
  - intros rid' r'. change (runs s2) with (runs s). destruct (decide (rid' = rid)) as [->|Hne]; [rewrite od_get_set_eq; by intros [= <-]|].
    by rewrite od_get_set_ne.
  - intros rid' r' Hr' _. split; [|done]. intros ->. change (runs s) with (runs s2) in Hr'. congruence.
Qed.

Lemma chans_publish h config rid : keeps chans (publish_channel h config rid).
Proof. unfold publish_channel. auto 60 with keeps. Qed.
Lemma chans_make config : keeps chans (make_delivery config).
Proof. unfold make_delivery. auto 40 with keeps. Qed.
Lemma chans_consume rid config : keeps chans (consume_channels rid config).
Proof. unfold consume_channels, get_run. auto 40 with keeps. Qed.
#[local] Hint Resolve chans_publish chans_make chans_consume : keeps.
#[local] Hint Extern 1 (keeps chans (h ← alloc _; _)) => apply chans_opened; intros ? ? : keeps.
Lemma chans_handle_deliver wf rid config : keeps chans (handle_deliver_secret wf rid config).
Proof. unfold handle_deliver_secret. auto 80 with keeps. Qed.
#[local] Hint Resolve chans_handle_deliver : keeps.
Lemma chans_execute wf rid step : keeps chans (execute_step wf rid step).
Proof. unfold execute_step, handle_wait, handle_run_hook, handle_call_dbus, handle_call_broker, get_run. auto 60 with keeps. Qed.
#[local] Hint Resolve chans_execute : keeps.
Lemma chans_phase rid p : keeps chans (run_phase rid p).
Proof.
  assert (∀ r, keeps chans (validate_plan rid r)) by (intros r; unfold validate_plan, plan_matches, invalidate_runs, mark_failed; auto 40 with keeps).
  destruct p; cbn [run_phase]; unfold do_step, mark_failed, get_run; auto 60 with keeps.
Qed.
Lemma chans_channel rid names caller : keeps chans (get_run_channel_env rid names caller).
Proof. unfold get_run_channel_env, run_trigger_uid, get_run. auto 60 with keeps. Qed.

(** ** The threads *)

Lemma chans_add_run rid name ctx t st : keeps chans (add_run rid (new_run name ctx t st)).
Proof. intros c w s Hs. by apply chan_runs. Qed.
Lemma chans_validate rid r : keeps chans (validate_plan rid r).
Proof. unfold validate_plan, plan_matches, invalidate_runs, mark_failed. auto 40 with keeps. Qed.
#[local] Hint Resolve chans_add_run chans_validate chans_scrub_all chans_channel : keeps.
Lemma chans_load wfs : keeps chans (load_workflows wfs).
Proof.
  assert (∀ l, keeps chans (stale_runs l)) by (induction l as [|[rid r] l IH]; cbn [stale_runs]; unfold plan_matches; auto 40 with keeps).
  unfold load_workflows, invalidate_runs, mark_failed. auto 40 with keeps.
Qed.
Lemma chans_release key : keeps chans (release_inflight key).
Proof. unfold release_inflight. auto with keeps. Qed.
#[local] Hint Resolve chans_release : keeps.
Lemma chans_admit name ctx rid : keeps chans (admit_trigger name ctx rid).
Proof. unfold admit_trigger, captured, mark_failed. auto 60 with keeps. Qed.
Lemma chans_enqueue name ctx rid : keeps chans (enqueue_pending name ctx rid).
Proof.
  assert (∀ key l, keeps chans (find_pending name key l)) by (intros key l; induction l as [|[rid' r] l IH]; cbn [find_pending]; auto 40 with keeps).
  unfold enqueue_pending, captured. auto 60 with keeps.
Qed.
Lemma chans_submit rid key : keeps chans (submit_auto rid key).
Proof. unfold submit_auto, mark_failed. auto 60 with keeps. Qed.
Lemma chans_approve rid expected : keeps chans (approve_run rid expected).
Proof. unfold approve_run, get_run. auto 60 with keeps. Qed.
Lemma chans_preview rid : keeps chans (preview_run rid).
Proof. unfold preview_run, get_run. auto 60 with keeps. Qed.
Lemma chans_start name ctx rid : keeps chans (start_run name ctx rid).
Proof. unfold start_run, captured. auto 60 with keeps. Qed.
#[local] Hint Resolve chans_load chans_admit chans_enqueue chans_submit chans_approve chans_preview chans_start chans_phase : keeps.

Lemma chans_run {A} (m : M A) c w s e x : keeps chans m → m c w s = (e, x) → chan s → chan e.
Proof. intros Hm H Hs. specialize (Hm c w s Hs). by rewrite H in Hm. Qed.
Lemma step_chan c s l s' : sstep c s l s' → chan (sy_engine s) → chan (sy_engine s').
Proof.
  intros Hst Hs. destruct Hst; cbn [sy_engine]; try (eapply chans_run; [|eassumption|exact Hs]; auto with keeps); try done.
  all: try match goal with |- chan (?m ?c ?w ?s).1 => assert (keeps chans m) as Hk by auto with keeps; by apply Hk end.
  eapply chans_same; [..|exact Hs]; done.
Qed.
Lemma reached_chan c tr s : reached c tr s → chan (sy_engine s).
Proof. induction 1 as [|tr s l s' _ IH Hst]; [|by eapply step_chan]. split; cbn; try done; set_solver. Qed.

(** C9: A secret channel is never forgotten. Whatever threads interleave and whichever calls
    fail, each channel that was opened either acknowledged its revocation, or is still owned
    by a run on the list whose cleanup is tried again when the engine stops; the engine
    treats a channel as scrubbed only after that acknowledgement, and a run whose cleanup
    is recorded as confirmed owns none. *)
Theorem no_channel_lost c tr s h :
  reached c tr s → h ∈ dom (heap (sy_engine s)) →
  (revoked (sy_engine s) h ∨ tracked (sy_engine s) h) ∧
  (is_scrubbed h (sy_engine s) = true → revoked (sy_engine s) h) ∧
  (∀ rid r, od_get (runs (sy_engine s)) rid = Some r → r_cleanup r = CS_confirmed → owned rid (sy_engine s) = []).
Proof. intros [_ Hs Hk Hc]%reached_chan Hh. split_and!; [by destruct (Hk h Hh) as [[]|?]|apply Hs|apply Hc]. Qed.

Lemma no_channel_lost_witness :
  0 ∈ dom (heap (sy_engine s_delivered)) ∧
  (revoked (sy_engine s_delivered) 0 ∨ tracked (sy_engine s_delivered) 0) ∧
  (is_scrubbed 0 (sy_engine s_delivered) = true → revoked (sy_engine s_delivered) 0) ∧
  (∀ rid r, od_get (runs (sy_engine s_delivered)) rid = Some r → r_cleanup r = CS_confirmed → owned rid (sy_engine s_delivered) = []).
Proof.
  assert (0 ∈ dom (heap (sy_engine s_delivered))) as Hin by (apply (bool_decide_unpack _); by vm_compute).
  split; [exact Hin|]. exact (no_channel_lost _ _ _ _ reach_delivered Hin).
Defined.

End Channels.
