(* ===== verification/SiloEgress.v ===== *)
(** * Egress policies of silos (qdistro_silo_egress.py)

    The policy a silo's [egress] field names, its canonical text, and the addresses a
    [direct] silo's point-to-point link is given. A policy text crosses into [ip] and [wg]
    command lines and into a file name, so its grammar is part of the boundary; the address
    pool keeps two silos from sharing a link. *)

From S2P Require Import Prelude.
From Stdlib Require Import ZArith Lia.

Module Egress.

(** ** Policies *)

Definition EGRESS_NONE : string := "none".
Definition EGRESS_DIRECT : string := "direct".
Definition WG_PREFIX : string := "wg:".

Definition is_lower (c : ascii) : bool := ((97 <=? ord c) && (ord c <=? 122))%N.
Definition is_decimal (c : ascii) : bool := ((48 <=? ord c) && (ord c <=? 57))%N.

(** [_TUNNEL_NAME_RE.fullmatch]: [[a-z0-9][a-z0-9_-]{0,30}] *)
Definition tunnel_char (c : ascii) : bool :=
  is_lower c || is_decimal c || bool_decide (c = "_"%char) || bool_decide (c = "-"%char).
Definition TUNNEL_NAME_RE (s : string) : bool :=
  match s with
  | "" => false
  | String c s' =>
      (is_lower c || is_decimal c) && forall_char tunnel_char s' && (String.length s' <=? 30)%nat
  end.

(** [mode] with the [tunnel] name it carries *)
Inductive EgressPolicy := PolicyNone | PolicyDirect | PolicyWg (tunnel : string).

#[export] Instance EgressPolicy_eq_dec : EqDecision EgressPolicy.
Proof. solve_decision. Defined.

Inductive EgressError :=
| EE_empty
| EE_tunnel (name : string)
| EE_unknown (spec : string)
| EE_uid_low (uid : Z)
| EE_pool (uid : Z)
| EE_no_tunnel.

(** The text after a prefix *)
Fixpoint after (p s : string) : option string :=
  match p, s with
  | "", _ => Some s
  | String a p', String b s' => if bool_decide (a = b) then after p' s' else None
  | String _ _, "" => None
  end.

(** [EgressPolicy.parse] *)
Definition parse (spec : pyval) : result EgressError EgressPolicy :=
  match spec with
  | PStr s =>
      if negb (truthy s) then Err EE_empty
      else if bool_decide (s = EGRESS_NONE) then Ok PolicyNone
      else if bool_decide (s = EGRESS_DIRECT) then Ok PolicyDirect
      else match after WG_PREFIX s with
           | Some name =>
               if negb (TUNNEL_NAME_RE name) || substr_in ".." name then Err (EE_tunnel name)
               else Ok (PolicyWg name)
           | None => Err (EE_unknown s)
           end
  | _ => Err EE_empty
  end.

(** [EgressPolicy.spec] *)
Definition spec (p : EgressPolicy) : string :=
  match p with
  | PolicyNone => EGRESS_NONE
  | PolicyDirect => EGRESS_DIRECT
  | PolicyWg t => WG_PREFIX +:+ t
  end.

(** [validate_egress] *)
Definition validate_egress (value : pyval) : result EgressError (option string) :=
  match value with
  | PNone => Ok None
  | _ => let* p := parse value in Ok (Some (spec p))
  end.

(** ** Names *)

Definition netns_name (silo : string) : string := "qd-" +:+ silo.
Definition wg_ifname (uid : Z) : string := "wg-" +:+ pretty uid.
Definition veth_host_ifname (uid : Z) : string := "veth-" +:+ pretty uid.
Definition veth_silo_ifname (uid : Z) : string := "vpeer-" +:+ pretty uid.

(** ** Addresses *)

Definition SILO_UID_MIN : Z := 2000.

(** [_dotted] *)
Definition dotted (n : Z) : string :=
  pretty (Z.land (Z.shiftr n 24) 255) +:+ "." +:+ pretty (Z.land (Z.shiftr n 16) 255) +:+ "."
  +:+ pretty (Z.land (Z.shiftr n 8) 255) +:+ "." +:+ pretty (Z.land n 255).

(** The network address of [direct_addrs], a number *)
Definition direct_net (uid : Z) : result EgressError Z :=
  let idx := (uid - SILO_UID_MIN)%Z in
  if (idx <? 0)%Z then Err (EE_uid_low uid)
  else
    let base := Z.lor (Z.shiftl 10 24) (Z.shiftl 128 16) in
    let net := (base + idx * 4)%Z in
    if (net + 3 >? Z.lor (Z.lor (Z.lor (Z.shiftl 10 24) (Z.shiftl 255 16)) (Z.shiftl 255 8)) 255)%Z
    then Err (EE_pool uid)
    else Ok net.

(** [direct_addrs]: host address, silo address, subnet *)
Definition direct_addrs (uid : Z) : result EgressError (string * string * string) :=
  let* net := direct_net uid in
  Ok (dotted (net + 1), dotted (net + 2), dotted net +:+ "/30").

(** ** The grammar of policies *)

Lemma after_app p s : after p (p +:+ s) = Some s.
Proof. induction p as [|c p IH]; [by destruct s|]. rewrite str_app_cons. simpl. by rewrite bool_decide_true. Qed.

Lemma after_spec p s r : after p s = Some r → s = p +:+ r.
Proof.
  revert s. induction p as [|c p IH]; intros s; [by intros [= ->]|].
  destruct s as [|d s]; simpl; [done|]. case_bool_decide as Hc; [|done]. subst.
  intros ->%IH. by rewrite str_app_cons.
Qed.

(** A policy names a tunnel only as the grammar allows *)
Definition policy_ok (p : EgressPolicy) : bool :=
  match p with PolicyWg t => TUNNEL_NAME_RE t && negb (substr_in ".." t) | _ => true end.

Lemma parse_spec p : policy_ok p = true → parse (PStr (spec p)) = Ok p.
Proof.
  destruct p as [| |t]; [done|done|]. intros Ht. unfold parse, spec.
  rewrite after_app. change (truthy (WG_PREFIX +:+ t)) with true. cbn [negb].
  rewrite !bool_decide_false by done. simpl in Ht. apply andb_true_iff in Ht as [-> ->%negb_true_iff]. done.
Qed.

Lemma parse_inv s p : parse (PStr s) = Ok p → s = spec p ∧ policy_ok p = true.
Proof.
  unfold parse. destruct (negb (truthy s)); [done|].
  case_bool_decide as H1; [intros [= <-]; subst; done|].
  case_bool_decide as H2; [intros [= <-]; subst; done|].
  destruct (after WG_PREFIX s) as [t|] eqn:Ha; [|done]. apply after_spec in Ha.
  destruct (negb (TUNNEL_NAME_RE t) || substr_in ".." t) eqn:Ht; [done|]. intros [= <-].
  apply orb_false_iff in Ht as [H3%negb_false_iff H4]. simpl. by rewrite H3, H4.
Qed.

(** the policy grammar is exact. A text is accepted exactly when it is the canonical
    text of a policy whose tunnel name matches the pattern; parsing gives that policy back,
    so a stored policy reads back as itself and [validate_egress] changes no text it
    accepts. *)
Theorem egress_grammar s :
  (∀ p, parse (PStr s) = Ok p ↔ s = spec p ∧ policy_ok p = true) ∧
  (∀ v, validate_egress (PStr s) = Ok v → v = Some s).
Proof.
  split.
  - intros p. split; [apply parse_inv|]. intros [-> Hp]. by apply parse_spec.
  - intros v. unfold validate_egress. destruct (parse (PStr s)) as [p|] eqn:Hp; [|done].
    apply parse_inv in Hp as [-> _]. by intros [= <-].
Qed.

(** ** The address pool *)

Definition POOL_FIRST : Z := 10 * 2 ^ 24 + 128 * 2 ^ 16.
Definition POOL_LAST : Z := 11 * 2 ^ 24 - 1.

Lemma direct_net_eq uid :
  direct_net uid =
    (if (uid <? 2000)%Z then Err (EE_uid_low uid)
     else if (2099151 <? uid)%Z then Err (EE_pool uid)
     else Ok (POOL_FIRST + (uid - 2000) * 4)%Z).
Proof.
  unfold direct_net, SILO_UID_MIN, POOL_FIRST.
  change (Z.lor (Z.shiftl 10 24) (Z.shiftl 128 16)) with (10 * 2 ^ 24 + 128 * 2 ^ 16)%Z.
  change (Z.lor (Z.lor (Z.lor (Z.shiftl 10 24) (Z.shiftl 255 16)) (Z.shiftl 255 8)) 255)
    with (11 * 2 ^ 24 - 1)%Z.
  destruct (Z.ltb_spec (uid - 2000) 0), (Z.ltb_spec uid 2000); try lia; [done|].
  rewrite Z.gtb_ltb. destruct (Z.ltb_spec (11 * 2 ^ 24 - 1) (10 * 2 ^ 24 + 128 * 2 ^ 16 + (uid - 2000) * 4 + 3)),
    (Z.ltb_spec 2099151 uid); try lia; done.
Qed.

(** the pool of point-to-point links. Every uid from 2000 to 2099151, so every uid a
    silo may have, gets an aligned block of four addresses inside 10.128.0.0/9; any other
    uid is refused, with the error that names the bound it passed. *)
Theorem direct_pool_bounds uid :
  match direct_net uid with
  | Ok net => (2000 ≤ uid ≤ 2099151)%Z ∧ (POOL_FIRST ≤ net)%Z ∧ (net + 3 ≤ POOL_LAST)%Z ∧ (net mod 4 = 0)%Z
  | Err (EE_uid_low u) => u = uid ∧ (uid < 2000)%Z
  | Err (EE_pool u) => u = uid ∧ (2099151 < uid)%Z
  | Err _ => False
  end.
Proof.
  rewrite direct_net_eq. destruct (Z.ltb_spec uid 2000); [done|].
  destruct (Z.ltb_spec 2099151 uid); [done|]. unfold POOL_FIRST, POOL_LAST.
  repeat split; try lia. rewrite Z.add_mod, Z.mod_mul by lia. done.
Qed.

(** Dotted texts of addresses are distinct *)
Lemma dot_free_split a b r t :
  has_char "." a = false → has_char "." b = false →
  a +:+ "." +:+ r = b +:+ "." +:+ t → a = b ∧ r = t.
Proof.
  revert b. induction a as [|c a IH]; intros [|d b]; simpl; intros Ha Hb;
    rewrite ?str_app_nil_l, ?str_app_cons; intros [=]; subst; [done|..].
  - by apply orb_false_iff in Hb as [Hb%bool_decide_eq_false _].
  - by apply orb_false_iff in Ha as [Ha%bool_decide_eq_false _].
  - apply orb_false_iff in Ha as [_ Ha], Hb as [_ Hb].
    destruct (IH b) as [-> ->]; done.
Qed.

Lemma byte_no_dot b : (0 ≤ b < 256)%Z → has_char "." (pretty b) = false.
Proof.
  intros Hb. assert (forallb (λ n, negb (has_char "." (pretty (Z.of_nat n)))) (seq 0 256) = true) as Hall
    by (vm_compute; reflexivity).
  rewrite forallb_forall in Hall. specialize (Hall (Z.to_nat b)).
  rewrite Z2Nat.id, negb_true_iff in Hall by lia. apply Hall, in_seq. lia.
Qed.

Definition byte (k n : Z) : Z := Z.land (Z.shiftr n k) 255.

Lemma byte_eq k n : (0 ≤ k)%Z → byte k n = ((n / 2 ^ k) mod 256)%Z.
Proof.
  intros Hk. unfold byte. change 255%Z with (Z.ones 8). rewrite Z.land_ones by lia.
  by rewrite Z.shiftr_div_pow2.
Qed.

Lemma byte_range k n : (0 ≤ k)%Z → (0 ≤ byte k n < 256)%Z.
Proof. intros Hk. rewrite byte_eq by done. by apply Z.mod_pos_bound. Qed.

Lemma bytes_recompose n : (0 ≤ n < 2 ^ 32)%Z →
  n = (byte 24 n * 2 ^ 24 + byte 16 n * 2 ^ 16 + byte 8 n * 2 ^ 8 + byte 0 n)%Z.
Proof. intros Hn. rewrite !byte_eq by lia. change (2 ^ 0)%Z with 1%Z. rewrite Z.div_1_r. Z.div_mod_to_equations. lia. Qed.

Lemma dotted_inj m n : (0 ≤ m < 2 ^ 32)%Z → (0 ≤ n < 2 ^ 32)%Z → dotted m = dotted n → m = n.
Proof.
  intros Hm Hn. unfold dotted.
  change (Z.land m 255) with (byte 0 m). change (Z.land n 255) with (byte 0 n).
  fold (byte 24 m) (byte 16 m) (byte 8 m) (byte 24 n) (byte 16 n) (byte 8 n). intros Heq.
  assert (∀ k x, (0 ≤ k)%Z → has_char "." (pretty (byte k x)) = false) as Hd
    by (intros; by apply byte_no_dot, byte_range).
  apply dot_free_split in Heq as [H24%(inj pretty) Heq]; [|apply Hd; lia..].
  apply dot_free_split in Heq as [H16%(inj pretty) Heq]; [|apply Hd; lia..].
  apply dot_free_split in Heq as [H8%(inj pretty) H0%(inj pretty)]; [|apply Hd; lia..].
  rewrite (bytes_recompose m Hm), (bytes_recompose n Hn). congruence.
Qed.

Lemma str_app_inj_r a b s : a +:+ s = b +:+ s → a = b.
Proof.
  revert b. induction a as [|c a IH]; intros [|d b] Heq; [done|..].
  1,2: apply (f_equal String.length) in Heq; rewrite !str_app_length in Heq; simpl in Heq; lia.
  rewrite !str_app_cons in Heq. injection Heq as -> ?. f_equal. auto.
Qed.

(** two silos never share a link. The addresses and subnets of different uids are
    different texts, and the two ends of one link differ. *)
Theorem direct_links_disjoint uid uid' h s n h' s' n' :
  direct_addrs uid = Ok (h, s, n) → direct_addrs uid' = Ok (h', s', n') → uid ≠ uid' →
  h ≠ s ∧ n ≠ n' ∧ ∀ a, a ∈ [h; s] → a ∉ [h'; s'].
Proof.
  unfold direct_addrs. rewrite !direct_net_eq. unfold POOL_FIRST. intros H1 H2 Hne.
  repeat match goal with H : context [Z.ltb ?a ?b] |- _ => destruct (Z.ltb_spec a b); [discriminate H|] end.
  cbn [result_bind] in H1, H2. injection H1 as <- <- <-. injection H2 as <- <- <-.
  split; [intros Hd%dotted_inj; lia|]. split; [intros Hd%str_app_inj_r%dotted_inj; lia|].
  intros a Ha Ha'. rewrite !elem_of_cons in Ha, Ha'.
  destruct Ha as [->|[->|[]%not_elem_of_nil]];
    destruct Ha' as [Hd|[Hd|[]%not_elem_of_nil]]; apply dotted_inj in Hd; lia.
Qed.

Lemma direct_links_disjoint_witness :
  direct_addrs 2000 = Ok ("10.128.0.1", "10.128.0.2", "10.128.0.0/30") ∧
  ("10.128.0.1" ≠ "10.128.0.2" ∧ "10.128.0.0/30" ≠ "10.131.138.64/30" ∧
   ∀ a, a ∈ ["10.128.0.1"; "10.128.0.2"] → a ∉ ["10.131.138.65"; "10.131.138.66"]).
Proof.
  split; [vm_compute; reflexivity|].
  apply (direct_links_disjoint 2000 60000); [vm_compute; reflexivity..|lia].
Defined.

End Egress.
