(* ===== verification/SiloNetns.v ===== *)
(** * The egress of a silo (qdistro_silo_egress.py, class EgressBackend, and the store's use of it)

    Bringing a silo's network namespace to its policy, taking it down again, and the watcher
    that re-attaches a tunnel's route. Every call of the system layer may raise. What the
    calls amount to is read off their log, pessimistically: a call that raised may have had
    its effect, and a device is gone only when its deletion was acknowledged. *)

From S2P Require Import Prelude SiloEgress.
From Stdlib Require Import ZArith.

Module Netns.
Import Egress.

(** ** Calls *)

(** [TunnelConfig] *)
Record TunnelConfig := {
  tc_name : string;
  tc_peer : string;
  tc_endpoint : string;
  tc_address : string;
  tc_dns : option string;
  tc_allowed_ips : string;
  tc_keepalive : option Z;
}.

(** The calls the egress code makes; [None] is the init namespace. [N_tunnel] and [N_key]
    are the two providers the store is given. *)
Inductive netop :=
| N_netns_create (ns : string)
| N_netns_remove (ns : string)
| N_link_up (ns : option string) (dev : string)
| N_link_del (ns : option string) (dev : string)
| N_link_set_netns (dev ns : string)
| N_addr_add (ns : option string) (dev addr : string)
| N_route_dev (ns dev : string)
| N_route_via (ns ip : string)
| N_ipv6_disable (ns dev : string)
| N_wg_add_dev (dev : string)
| N_wg_configure (dev key : string) (t : TunnelConfig)
| N_veth_create (host peer : string)
| N_enable_ip_forward
| N_nat_masquerade (subnet : string) (on : bool)
| N_dns_start (ns dev ip : string)
| N_dns_stop (ns : string)
| N_write_resolv (ns : string) (servers : list string)
| N_remove_resolv (ns : string)
| N_skuid_drop (uid : Z) (on : bool)
| N_watch (ns dev : string)
| N_unwatch (handle : nat)
| N_audit (silo reason : string)
| N_tunnel (name : string)
| N_key (name : string).

Inductive exn := KeyUnavailable (why : string) | EgressErr (e : EgressError) | Failed (what : string).

Inductive answer :=
| R_done
| R_tunnel (t : TunnelConfig)
| R_key (k : option string)
| R_handle (h : option nat)
| R_raise (e : exn).

Record event := Ev { ev_op : netop; ev_answer : answer }.
Definition world : Type := list event → netop → answer.

(** The watchers of the store, with the generation of each name; the log is latest first *)
Record egress := { eg_watchers : gmap string nat; eg_gen : gmap string nat; eg_log : list event }.
Definition set_log (l : list event) (s : egress) : egress :=
  {| eg_watchers := eg_watchers s; eg_gen := eg_gen s; eg_log := l |}.
Definition set_watchers (m : gmap string nat) (s : egress) : egress :=
  {| eg_watchers := m; eg_gen := eg_gen s; eg_log := eg_log s |}.
Definition set_gen (m : gmap string nat) (s : egress) : egress :=
  {| eg_watchers := eg_watchers s; eg_gen := m; eg_log := eg_log s |}.

Definition M (A : Type) : Type := world → egress → egress * result exn A.
#[export] Instance M_ret : MRet M := λ A a w s, (s, Ok a).
#[export] Instance M_bind : MBind M := λ A B f m w s,
  match m w s with (s', Ok a) => f a w s' | (s', Err e) => (s', Err e) end.
Definition raise {A} (e : exn) : M A := λ w s, (s, Err e).
Definition modify (f : egress → egress) : M unit := λ w s, (f s, Ok tt).
Definition gets {A} (f : egress → A) : M A := λ w s, (s, Ok (f s)).
Definition attempt {A} (m : M A) : M (result exn A) := λ w s, let '(s', r) := m w s in (s', Ok r).

Definition call (o : netop) : M answer := λ w s,
  let a := w (eg_log s) o in
  (set_log (Ev o a :: eg_log s) s, match a with R_raise e => Err e | _ => Ok a end).
Definition call_ (o : netop) : M unit := _ ← call o; mret tt.
Definition quietly (m : M unit) : M unit := _ ← attempt m; mret tt.
Definition lift {A} (r : result EgressError A) : M A :=
  match r with Ok a => mret a | Err e => raise (EgressErr e) end.

(** ** The backend *)

(** [EgressResult] *)
Record EgressResult := { er_mode : string; er_dark : bool; er_pending : option string }.

(** [_teardown_devices] *)
Definition teardown_devices (ns : string) (uid : Z) : M unit :=
  call_ (N_link_del None (wg_ifname uid));;
  call_ (N_link_del (Some ns) (wg_ifname uid));;
  call_ (N_link_del (Some ns) (veth_silo_ifname uid));;
  call_ (N_link_del None (veth_host_ifname uid));;
  call_ (N_dns_stop ns).

(** [_bring_up_wg] *)
Definition bring_up_wg (ns ifn : string) (t : TunnelConfig) : M unit :=
  call_ (N_addr_add (Some ns) ifn (tc_address t));;
  call_ (N_link_up (Some ns) ifn);;
  call_ (N_route_dev ns ifn).

(** [_dark_wg] *)
Definition dark_wg (ns : string) (uid : Z) (pending : string) : M EgressResult :=
  call_ (N_write_resolv ns []);;
  call_ (N_skuid_drop uid true);;
  mret {| er_mode := "wg"; er_dark := true; er_pending := Some pending |}.

(** [keyfn(tunnel.name)] *)
Definition key_of (name : string) : M (option string) :=
  a ← call (N_key name); match a with R_key k => mret k | _ => raise (Failed "key") end.

(** [_apply_wg], with the tunnel the policy names *)
Definition apply_wg (ns : string) (uid : Z) (tunnel : option TunnelConfig) : M EgressResult :=
  match tunnel with
  | None => raise (EgressErr EE_no_tunnel)
  | Some t =>
      k ← attempt (key_of (tc_name t));
      match k with
      | Err (KeyUnavailable why) => dark_wg ns uid (if truthy why then why else "vault-locked")
      | Err e => raise e
      | Ok key =>
          let key := default "" key in
          if negb (truthy key) then dark_wg ns uid "no-key"
          else
            let ifn := wg_ifname uid in
            call_ (N_wg_add_dev ifn);;
            call_ (N_wg_configure ifn key t);;
            call_ (N_link_set_netns ifn ns);;
            bring_up_wg ns ifn t;;
            call_ (N_write_resolv ns (match tc_dns t with Some d => if truthy d then [d] else [] | None => [] end));;
            call_ (N_skuid_drop uid true);;
            mret {| er_mode := "wg"; er_dark := false; er_pending := None |}
      end
  end.

(** [_apply_direct] *)
Definition apply_direct (ns : string) (uid : Z) : M EgressResult :=
  let host_if := veth_host_ifname uid in
  let peer_if := veth_silo_ifname uid in
  '(host_ip, silo_ip, subnet) ← lift (direct_addrs uid);
  call_ N_enable_ip_forward;;
  call_ (N_veth_create host_if peer_if);;
  call_ (N_addr_add None host_if (host_ip +:+ "/30"));;
  call_ (N_link_up None host_if);;
  call_ (N_link_set_netns peer_if ns);;
  call_ (N_ipv6_disable ns peer_if);;
  call_ (N_addr_add (Some ns) peer_if (silo_ip +:+ "/30"));;
  call_ (N_link_up (Some ns) peer_if);;
  call_ (N_route_via ns host_ip);;
  call_ (N_nat_masquerade subnet true);;
  call_ (N_dns_start ns host_if host_ip);;
  call_ (N_write_resolv ns [host_ip]);;
  call_ (N_skuid_drop uid true);;
  mret {| er_mode := "direct"; er_dark := false; er_pending := None |}.

(** [EgressBackend.apply] *)
Definition apply (ns : string) (uid : Z) (p : EgressPolicy) (tunnel : option TunnelConfig) : M EgressResult :=
  teardown_devices ns uid;;
  call_ (N_link_up (Some ns) "lo");;
  match p with
  | PolicyNone =>
      call_ (N_write_resolv ns []);;
      call_ (N_skuid_drop uid true);;
      mret {| er_mode := "none"; er_dark := true; er_pending := None |}
  | PolicyDirect => apply_direct ns uid
  | PolicyWg _ => apply_wg ns uid tunnel
  end.

(** [EgressBackend.reattach] *)
Definition reattach (ns : string) (uid : Z) (p : EgressPolicy) (tunnel : option TunnelConfig) : M unit :=
  match p, tunnel with
  | PolicyWg _, Some t => bring_up_wg ns (wg_ifname uid) t
  | _, _ => mret tt
  end.

(** [EgressBackend.teardown] *)
Definition teardown (ns : string) (uid : Z) (p : option EgressPolicy) : M unit :=
  teardown_devices ns uid;;
  call_ (N_skuid_drop uid false);;
  (match p with
   | Some PolicyDirect => '(_, _, subnet) ← lift (direct_addrs uid); call_ (N_nat_masquerade subnet false)
   | _ => mret tt
   end);;
  call_ (N_remove_resolv ns).

(** ** The store's side *)

(** [_stop_egress_watcher_locked]: the generation moves before the watcher is stopped *)
Definition stop_watcher (name : string) : M unit :=
  modify (λ s, set_gen (<[name := S (default 0 (eg_gen s !! name))]> (eg_gen s)) s);;
  h ← gets (λ s, eg_watchers s !! name);
  modify (λ s, set_watchers (delete name (eg_watchers s)) s);;
  match h with None => mret tt | Some h => quietly (call_ (N_unwatch h)) end.

(** [stop_all_egress_watchers] over the names it snapshots *)
Fixpoint stop_watchers (names : list string) : M unit :=
  match names with [] => mret tt | n :: ns => stop_watcher n;; stop_watchers ns end.
Definition stop_all_egress_watchers : M unit :=
  names ← gets (λ s, (map_to_list (eg_watchers s)).*1); stop_watchers names.

(** [_start_egress_watcher]: the generation the callback carries *)
Definition start_watcher (name ns : string) (uid : Z) : M nat :=
  stop_watcher name;;
  gen ← gets (λ s, default 0 (eg_gen s !! name));
  r ← attempt (a ← call (N_watch ns (wg_ifname uid)); match a with R_handle h => mret h | _ => raise (Failed "watch") end);
  (match r with
   | Ok (Some h) => modify (λ s, set_watchers (<[name := h]> (eg_watchers s)) s)
   | _ => mret tt
   end);;
  mret gen.

(** [_on_up]: a callback with a stale generation does nothing. The check and the calls that
    follow it are one step here; in the code a callback that has passed its check runs on
    without a lock, and a stop waits two seconds for it at most, so one already past its
    check when the generation moves is not covered. *)
Definition on_up (name ns : string) (uid : Z) (p : EgressPolicy) (tunnel : TunnelConfig) (gen : nat) : M unit :=
  g ← gets (λ s, eg_gen s !! name);
  if bool_decide (g = Some gen) then reattach ns uid p (Some tunnel) else mret tt.

Definition audit (silo reason : string) : M unit := quietly (call_ (N_audit silo reason)).

(** [self._tunnel_resolver(policy.tunnel)] *)
Definition resolve_tunnel (name : string) : M TunnelConfig :=
  a ← call (N_tunnel name); match a with R_tunnel t => mret t | _ => raise (Failed "tunnel") end.

(** The second half of [_apply_egress]: apply, and dark when that fails *)
Definition apply_or_dark (name ns : string) (uid : Z) (spec_text : string) (p : EgressPolicy) (tunnel : option TunnelConfig) : M unit :=
  r ← attempt (apply ns uid p tunnel);
  match r with
  | Err _ =>
      quietly (teardown ns uid (Some p));;
      apply ns uid PolicyNone None;;
      audit name "dark:apply-failed"
  | Ok res =>
      match p, tunnel, er_dark res, er_pending res with
      | _, _, true, Some why => audit name ("dark:" +:+ why)
      | PolicyWg _, Some t, false, _ => start_watcher name ns uid;; audit name spec_text
      | _, _, _, _ => audit name spec_text
      end
  end.

(** [_apply_egress], on the text of the silo's policy *)
Definition apply_egress (name : string) (uid : Z) (spec_text : string) : M unit :=
  let ns := netns_name name in
  p ← lift (parse (PStr spec_text));
  stop_watcher name;;
  call_ (N_netns_create ns);;
  match p with
  | PolicyWg tun =>
      t ← attempt (resolve_tunnel tun);
      match t with
      | Err _ => apply ns uid PolicyNone None;; audit name "dark:no-tunnel-config"
      | Ok t => apply_or_dark name ns uid spec_text p (Some t)
      end
  | _ => apply_or_dark name ns uid spec_text p None
  end.

(** [_teardown_egress] and [_force_clear_egress] *)
Definition clear_egress (name : string) (uid : Z) (p : option EgressPolicy) : M unit :=
  stop_watcher name;;
  quietly (teardown (netns_name name) uid p);;
  quietly (call_ (N_netns_remove (netns_name name))).
Definition teardown_egress (name : string) (uid : Z) (egress : option string) : M unit :=
  match egress with
  | None => stop_watcher name
  | Some text => clear_egress name uid (match parse (PStr text) with Ok p => Some p | Err _ => None end)
  end.
Definition force_clear_egress (name : string) (uid : Z) : M unit := clear_egress name uid None.

(** ** What the calls amount to *)

Definition acked (a : answer) : bool := match a with R_raise _ => false | _ => true end.

(** Whether the device may be at the place *)
Definition device_after (at_ : option string) (dev : string) (e : event) (before : bool) : bool :=
  match ev_op e with
  | N_wg_add_dev d => if bool_decide (at_ = None ∧ d = dev) then true else before
  | N_veth_create h d => if bool_decide (at_ = None ∧ (h = dev ∨ d = dev)) then true else before
  | N_link_set_netns d ns =>
      if bool_decide (d = dev ∧ at_ = Some ns) then true
      else if bool_decide (d = dev ∧ at_ = None) && acked (ev_answer e) then false else before
  | N_link_del p d => if bool_decide (d = dev ∧ p = at_) && acked (ev_answer e) then false else before
  | N_netns_remove ns => if bool_decide (at_ = Some ns) && acked (ev_answer e) then false else before
  | _ => before
  end.
Fixpoint device (log : list event) (at_ : option string) (dev : string) : bool :=
  match log with [] => true | e :: l => device_after at_ dev e (device l at_ dev) end.

(** Whether the uid's traffic outside its namespace is certainly dropped *)
Definition backstop_after (uid : Z) (e : event) (before : bool) : bool :=
  match ev_op e with
  | N_skuid_drop u on => if bool_decide (u = uid) then if on then acked (ev_answer e) || before else false else before
  | _ => before
  end.
Fixpoint backstop (log : list event) (uid : Z) : bool :=
  match log with [] => false | e :: l => backstop_after uid e (backstop l uid) end.

(** The resolver file of the namespace, when it is known *)
Definition resolv_after (ns : string) (e : event) (before : option (list string)) : option (list string) :=
  match ev_op e with
  | N_write_resolv n l => if bool_decide (n = ns) then if acked (ev_answer e) then Some l else None else before
  | N_remove_resolv n | N_netns_remove n => if bool_decide (n = ns) then None else before
  | _ => before
  end.
Fixpoint resolv (log : list event) (ns : string) : option (list string) :=
  match log with [] => None | e :: l => resolv_after ns e (resolv l ns) end.

(** The key and the tunnel a WireGuard device was last given, when it is known: a new device
    has none, and a configuration that raised may have been applied in part *)
Definition configured_after (dev : string) (e : event) (before : option (string * TunnelConfig)) : option (string * TunnelConfig) :=
  match ev_op e with
  | N_wg_add_dev d => if bool_decide (d = dev) then None else before
  | N_wg_configure d key t => if bool_decide (d = dev) then if acked (ev_answer e) then Some (key, t) else None else before
  | _ => before
  end.
Fixpoint configured (log : list event) (dev : string) : option (string * TunnelConfig) :=
  match log with [] => None | e :: l => configured_after dev e (configured l dev) end.

(** ** Runs *)

Lemma bind_run {A B} (m : M A) (f : A → M B) w s s' r :
  (m ≫= f) w s = (s', r) →
  (∃ e, m w s = (s', Err e) ∧ r = Err e) ∨ (∃ a s1, m w s = (s1, Ok a) ∧ f a w s1 = (s', r)).
Proof.
  unfold mbind, M_bind. destruct (m w s) as [s1 [a|e]]; [by eauto|]. intros [= <- <-]. by eauto.
Qed.

Lemma call_ok o w s s' x : call o w s = (s', Ok x) → acked x = true ∧ s' = set_log (Ev o x :: eg_log s) s.
Proof. unfold call. by destruct (w (eg_log s) o); intros [= <- <-]. Qed.

Lemma call_answer o w s s' x : call o w s = (s', Ok x) → w (eg_log s) o = x.
Proof. unfold call. by destruct (w (eg_log s) o); intros [= _ <-]. Qed.

(** A call that went through, then the rest *)
Lemma call_then {A} o (m : M A) w s s' x :
  (call_ o;; m) w s = (s', Ok x) → ∃ a, acked a = true ∧ m w (set_log (Ev o a :: eg_log s) s) = (s', Ok x).
Proof.
  intros [(e & _ & ?)|([] & s1 & H & Hm)]%bind_run; [done|]. unfold call_ in H.
  apply bind_run in H as [(e & _ & ?)|(a & s2 & Hc & [= <-])]; [done|]. apply call_ok in Hc as [Ha ->]. by eauto.
Qed.

Lemma attempt_run {A} (m : M A) w s s' r : attempt m w s = (s', Ok r) → m w s = (s', r).
Proof. unfold attempt. destruct (m w s). by intros [= <- <-]. Qed.

(** Only the last log counts *)
Ltac flat H :=
  repeat match type of H with
  | context [set_log ?l (set_log ?l' ?s)] => change (set_log l (set_log l' s)) with (set_log l s) in H
  | context [eg_log (set_log ?l ?s)] => change (eg_log (set_log l s)) with l in H
  end.

(** Take a run that returned apart call by call *)
Ltac calls H :=
  repeat (let a := fresh "a" in let Ha := fresh "Ha" in
          apply call_then in H as (a & Ha & H); flat H).

(** ** What a returned [apply] leaves *)

(** The backstop is on, the resolver file holds [servers], and the only device of the silo
    that may be in the namespace is [live] *)
Definition contained (log : list event) (ns : string) (uid : Z) (live : option string) (servers : list string) : Prop :=
  backstop log uid = true ∧ resolv log ns = Some servers ∧
  ∀ dev, dev ∈ [wg_ifname uid; veth_silo_ifname uid] → device log (Some ns) dev = true → live = Some dev.

Lemma wg_veth uid uid' : wg_ifname uid ≠ veth_silo_ifname uid'.
Proof. done. Qed.
Lemma veth_ends uid : veth_host_ifname uid ≠ veth_silo_ifname uid.
Proof. unfold veth_host_ifname, veth_silo_ifname. done. Qed.

(** Decide the views of a log whose head is known *)
Ltac view :=
  repeat match goal with
  | H : acked _ = true |- _ => rewrite H
  end; cbn [device backstop resolv];
  unfold device_after, backstop_after, resolv_after; cbn [ev_op ev_answer];
  repeat match goal with
  | H : acked _ = true |- _ => rewrite H
  end.

(** Events that leave the views alone *)
Definition inert (o : netop) : bool :=
  match o with
  | N_wg_add_dev _ | N_veth_create _ _ | N_link_set_netns _ _ | N_link_del _ _ | N_netns_remove _
  | N_skuid_drop _ _ | N_write_resolv _ _ | N_remove_resolv _ | N_wg_configure _ _ _ => false
  | _ => true
  end.
Definition sets_tunnel (o : netop) : bool :=
  match o with N_wg_add_dev _ | N_wg_configure _ _ _ => true | _ => false end.
Lemma other_configured e l dev : sets_tunnel (ev_op e) = false → configured (e :: l) dev = configured l dev.
Proof. destruct e as [[] ?]; done. Qed.
Lemma inert_configured e l dev : inert (ev_op e) = true → configured (e :: l) dev = configured l dev.
Proof. intros He. apply other_configured. by destruct e as [[] ?]. Qed.
Lemma inert_device e l at_ dev : inert (ev_op e) = true → device (e :: l) at_ dev = device l at_ dev.
Proof. destruct e as [[] ?]; done. Qed.
Lemma inert_backstop e l uid : inert (ev_op e) = true → backstop (e :: l) uid = backstop l uid.
Proof. destruct e as [[] ?]; done. Qed.
Lemma inert_resolv e l ns : inert (ev_op e) = true → resolv (e :: l) ns = resolv l ns.
Proof. destruct e as [[] ?]; done. Qed.
Lemma inert_contained e l ns uid live servers :
  inert (ev_op e) = true → contained l ns uid live servers → contained (e :: l) ns uid live servers.
Proof.
  intros He (Hb & Hr & Hd). split; [by rewrite inert_backstop|]. split; [by rewrite inert_resolv|].
  intros dev. rewrite inert_device by done. apply Hd.
Qed.

(** Devices that are certainly absent *)
Definition bare (log : list event) (ns : string) (uid : Z) : Prop :=
  device log (Some ns) (wg_ifname uid) = false ∧ device log (Some ns) (veth_silo_ifname uid) = false.

Lemma teardown_devices_then {A} ns uid (m : M A) w s s' x :
  (teardown_devices ns uid;; m) w s = (s', Ok x) →
  ∃ l, bare l ns uid ∧ m w (set_log l s) = (s', Ok x).
Proof.
  intros [(e & _ & ?)|([] & s1 & H & Hm)]%bind_run; [done|]. unfold teardown_devices in H. calls H.
  unfold call_ in H. apply bind_run in H as [(e & _ & ?)|(b & s2 & Hc & [= <-])]; [done|]. apply call_ok in Hc as [_ ->].
  flat Hm. eexists. split; [|exact Hm]. clear Hm m. split.
  all: rewrite inert_device by done; view.
  all: rewrite (bool_decide_false (veth_host_ifname uid = _ ∧ None = Some ns)) by naive_solver; cbn [andb].
  - rewrite (bool_decide_false (veth_silo_ifname uid = wg_ifname uid ∧ _)) by (intros [? _]; by eapply wg_veth); cbn [andb].
    by rewrite bool_decide_true.
  - by rewrite bool_decide_true.
Qed.

Lemma bare_contained l a1 a2 ns uid servers :
  bare l ns uid → acked a1 = true → acked a2 = true →
  contained (Ev (N_skuid_drop uid true) a2 :: Ev (N_write_resolv ns servers) a1 :: l) ns uid None servers.
Proof.
  intros [Hw Hv] H1 H2. split; [view; by rewrite bool_decide_true|]. split; [view; by rewrite bool_decide_true|].
  intros dev Hdev. view. assert (dev = wg_ifname uid ∨ dev = veth_silo_ifname uid) as [-> | ->] by set_solver; congruence.
Qed.

Lemma bare_inert e l ns uid : inert (ev_op e) = true → bare l ns uid → bare (e :: l) ns uid.
Proof. intros He [H1 H2]. split; by rewrite inert_device. Qed.

(** After the tail of an apply that moved one device in *)
Lemma moved_contained l a1 a2 ns uid dev servers :
  dev ∈ [wg_ifname uid; veth_silo_ifname uid] →
  (∀ d, d ∈ [wg_ifname uid; veth_silo_ifname uid] → d ≠ dev → device l (Some ns) d = false) →
  acked a1 = true → acked a2 = true →
  contained (Ev (N_skuid_drop uid true) a2 :: Ev (N_write_resolv ns servers) a1 :: l) ns uid (Some dev) servers.
Proof.
  intros Hdev Hd H1 H2. split; [view; by rewrite bool_decide_true|]. split; [view; by rewrite bool_decide_true|].
  intros d Hin. view. destruct (decide (d = dev)) as [->|Hne]; [done|]. by rewrite Hd.
Qed.

Lemma move_device a l ns dev d : d ≠ dev → device (Ev (N_link_set_netns dev ns) a :: l) (Some ns) d = device l (Some ns) d.
Proof. intros Hd. view. rewrite (bool_decide_false (dev = d ∧ Some ns = Some ns)), (bool_decide_false (dev = d ∧ Some ns = None)) by naive_solver. done. Qed.
Lemma veth_device a l ns h p d : device (Ev (N_veth_create h p) a :: l) (Some ns) d = device l (Some ns) d.
Proof. view. by rewrite bool_decide_false by naive_solver. Qed.
Lemma configured_now a l dev key t :
  acked a = true → configured (Ev (N_wg_configure dev key t) a :: l) dev = Some (key, t).
Proof. intros Ha. simpl. unfold configured_after. simpl. by rewrite bool_decide_true, Ha. Qed.
Lemma configure_device a l at_ x k t d : device (Ev (N_wg_configure x k t) a :: l) at_ d = device l at_ d.
Proof. done. Qed.
Lemma wg_device a l ns x d : device (Ev (N_wg_add_dev x) a :: l) (Some ns) d = device l (Some ns) d.
Proof. view. by rewrite bool_decide_false by naive_solver. Qed.

(** The end of an apply: resolver, backstop, result *)
Lemma finish_run ns uid servers (res : EgressResult) w s s' x :
  (call_ (N_write_resolv ns servers);; call_ (N_skuid_drop uid true);; mret res) w s = (s', Ok x) →
  ∃ a1 a2, acked a1 = true ∧ acked a2 = true ∧ x = res ∧
    eg_log s' = Ev (N_skuid_drop uid true) a2 :: Ev (N_write_resolv ns servers) a1 :: eg_log s.
Proof. intros H. calls H. injection H as <- <-. by eauto 10. Qed.

Definition dns_servers (t : TunnelConfig) : list string :=
  match tc_dns t with Some d => if truthy d then [d] else [] | None => [] end.

Lemma apply_direct_ok ns uid w s s' res :
  bare (eg_log s) ns uid → apply_direct ns uid w s = (s', Ok res) →
  er_dark res = false ∧ ∃ h x sub, direct_addrs uid = Ok (h, x, sub) ∧
    contained (eg_log s') ns uid (Some (veth_silo_ifname uid)) [h].
Proof.
  intros [Hw _] H. unfold apply_direct in H. apply bind_run in H as [(e & _ & ?)|([[h x] sub] & s1 & Hl & H)]; [done|].
  destruct (direct_addrs uid) as [v|] eqn:Hda; [|done]. simpl in Hl. injection Hl as <- ->.
  do 11 (apply call_then in H as (? & ? & H); flat H). apply finish_run in H as (a1 & a2 & Hk1 & Hk2 & -> & ->); cbn [eg_log set_log].
  split; [done|]. exists h, x, sub. split; [done|]. apply moved_contained; [by right; left|..|done|done].
  intros d Hd Hne. assert (d = wg_ifname uid) as -> by set_solver. flat Hw.
  do 6 (rewrite inert_device by done). rewrite move_device by done. do 2 (rewrite inert_device by done).
  rewrite veth_device, inert_device by done. done.
Qed.

(** The device of the silo carries the tunnel, under the key the provider gives for it *)
Definition tunnelled (w : world) (log : list event) (uid : Z) (t : TunnelConfig) : Prop :=
  ∃ l key, w l (N_key (tc_name t)) = R_key (Some key) ∧ truthy key = true ∧ configured log (wg_ifname uid) = Some (key, t).

Lemma apply_wg_ok ns uid tunnel w s s' res :
  bare (eg_log s) ns uid → apply_wg ns uid tunnel w s = (s', Ok res) →
  (er_dark res = true ∧ is_Some (er_pending res) ∧ contained (eg_log s') ns uid None []) ∨
  (er_dark res = false ∧ ∃ t, tunnel = Some t ∧ tunnelled w (eg_log s') uid t ∧
     contained (eg_log s') ns uid (Some (wg_ifname uid)) (dns_servers t)).
Proof.
  intros Hb H. unfold apply_wg in H. destruct tunnel as [t|]; [|done].
  apply bind_run in H as [(e & _ & ?)|(k & s1 & Hk & H)]; [done|]. apply attempt_run in Hk.
  assert (∃ a, s1 = set_log (Ev (N_key (tc_name t)) a :: eg_log s) s ∧
    ∀ key, k = Ok key → w (eg_log s) (N_key (tc_name t)) = R_key key) as (a & -> & Hkey).
  { unfold key_of in Hk. apply bind_run in Hk as [(e & Hc & ->)|(a & s2 & Hc & Hk)].
    - unfold call in Hc. injection Hc as <- _. eexists. split; [done|]. by intros key.
    - pose proof (call_answer _ _ _ _ _ Hc) as Ha. apply call_ok in Hc as [_ ->]. exists a.
      destruct a; injection Hk as <- <-; (split; [done|]); intros key; [done|done|intros [= ->]; done|done..]. }
  assert (∀ why, dark_wg ns uid why w (set_log (Ev (N_key (tc_name t)) a :: eg_log s) s) = (s', Ok res) →
    er_dark res = true ∧ is_Some (er_pending res) ∧ contained (eg_log s') ns uid None []) as Hdark.
  { intros why Hd. apply finish_run in Hd as (a1 & a2 & Hk1 & Hk2 & -> & ->); cbn [eg_log set_log]. split; [done|]. split; [by eauto|].
    apply bare_contained; [by apply bare_inert|done|done]. }
  destruct k as [key|[why|e|e]]; [|left; by eapply Hdark|done|done]. simpl in H.
  destruct (truthy (default "" key)) eqn:Htk; cbn [negb] in H; [|left; by eapply Hdark]. right.
  destruct key as [key|]; [|done]. simpl in Htk, H.
  do 3 (apply call_then in H as (? & ? & H); flat H).
  apply bind_run in H as [(e & _ & ?)|([] & s2 & Hup & H)]; [done|]. unfold bring_up_wg in Hup.
  do 2 (apply call_then in Hup as (? & ? & Hup); flat Hup). unfold call_ in Hup.
  apply bind_run in Hup as [(e & _ & ?)|(b & s3 & Hc & [= <-])]; [done|]. apply call_ok in Hc as [_ ->]. flat H.
  apply finish_run in H as (a1 & a2 & Hk1 & Hk2 & -> & ->); cbn [eg_log set_log]. split; [done|]. exists t. split; [done|]. split.
  { exists (eg_log s), key. split; [by apply Hkey|]. split; [done|].
    do 6 (rewrite other_configured by done). by apply configured_now. }
  apply moved_contained; [by left|..|done|done].
  intros d Hd Hne. assert (d = veth_silo_ifname uid) as -> by set_solver.
  do 3 (rewrite inert_device by done). rewrite move_device, configure_device, wg_device, inert_device by done. apply Hb.
Qed.

(** A returned [apply]: dark, or live on the device of its policy *)
Lemma apply_ok ns uid p tunnel w s s' res :
  apply ns uid p tunnel w s = (s', Ok res) →
  (contained (eg_log s') ns uid None [] ∧ (er_dark res = true)) ∨
  (p = PolicyDirect ∧ er_dark res = false ∧ ∃ h x sub, direct_addrs uid = Ok (h, x, sub) ∧
     contained (eg_log s') ns uid (Some (veth_silo_ifname uid)) [h]) ∨
  (∃ tun t, p = PolicyWg tun ∧ tunnel = Some t ∧ tunnelled w (eg_log s') uid t ∧
     contained (eg_log s') ns uid (Some (wg_ifname uid)) (dns_servers t)).
Proof.
  intros H. apply teardown_devices_then in H as (l & Hb & H). apply call_then in H as (a & Ha & H). flat H.
  apply (bare_inert (Ev (N_link_up (Some ns) "lo") a)) in Hb; [|done]. destruct p as [| |tun].
  - left. apply finish_run in H as (a1 & a2 & Hk1 & Hk2 & -> & ->); cbn [eg_log set_log]. split; [|done]. by apply bare_contained.
  - right. left. apply apply_direct_ok in H as [Hd H]; [|done]. by eauto.
  - apply apply_wg_ok in H as [(Hd & _ & H)|(_ & t & -> & Ht & H)]; [by left|right; right; by eauto 10|done].
Qed.

(** ** Computations that leave the views alone *)

Definition harmless {A} (m : M A) : Prop :=
  ∀ w s, ∃ l, Forall (λ e, inert (ev_op e) = true) l ∧ eg_log (m w s).1 = l ++ eg_log s.

Lemma harmless_ret {A} (a : A) : harmless (mret a).
Proof. intros w s. by exists []. Qed.
Lemma harmless_raise {A} e : harmless (raise e : M A).
Proof. intros w s. by exists []. Qed.
Lemma harmless_gets {A} (f : egress → A) : harmless (gets f).
Proof. intros w s. by exists []. Qed.
Lemma harmless_modify f : (∀ s, eg_log (f s) = eg_log s) → harmless (modify f).
Proof. intros Hf w s. exists []. split; [done|]. simpl. apply Hf. Qed.
Lemma harmless_bind {A B} (m : M A) (f : A → M B) : harmless m → (∀ a, harmless (f a)) → harmless (m ≫= f).
Proof.
  intros Hm Hf w s. destruct (Hm w s) as (l & Hl & Heq). unfold mbind, M_bind. destruct (m w s) as [s1 [a|e]]; [|by eauto].
  destruct (Hf a w s1) as (l2 & Hl2 & Heq2). exists (l2 ++ l). split; [by apply Forall_app|].
  rewrite Heq2. simpl in Heq. by rewrite Heq, app_assoc.
Qed.
Lemma harmless_attempt {A} (m : M A) : harmless m → harmless (attempt m).
Proof. intros Hm w s. unfold attempt. specialize (Hm w s). by destruct (m w s). Qed.
Lemma harmless_call o : inert o = true → harmless (call o).
Proof. intros Ho w s. eexists [_]. split; [|done]. by constructor. Qed.

Create HintDb harmless discriminated.
#[local] Hint Resolve harmless_ret harmless_raise harmless_gets harmless_attempt : harmless.
#[local] Hint Extern 2 (harmless (modify _)) => apply harmless_modify; done : harmless.
#[local] Hint Extern 2 (harmless (call _)) => apply harmless_call; done : harmless.
#[local] Hint Extern 3 (harmless (mbind _ _)) => apply harmless_bind; [|intros ?] : harmless.
#[local] Hint Extern 4 (harmless (match ?x with _ => _ end)) => destruct x : harmless.

Lemma harmless_stop name : harmless (stop_watcher name).
Proof. unfold stop_watcher, quietly, call_. auto 20 with harmless. Qed.
#[local] Hint Resolve harmless_stop : harmless.
Lemma harmless_start name ns uid : harmless (start_watcher name ns uid).
Proof. unfold start_watcher. auto 20 with harmless. Qed.
Lemma harmless_audit name why : harmless (audit name why).
Proof. unfold audit, quietly, call_. auto 20 with harmless. Qed.
#[local] Hint Resolve harmless_start harmless_audit : harmless.

Lemma harmless_contained {A} (m : M A) w s s' r ns uid live servers :
  harmless m → m w s = (s', r) → contained (eg_log s) ns uid live servers → contained (eg_log s') ns uid live servers.
Proof.
  intros Hm H Hc. destruct (Hm w s) as (l & Hl & Heq). rewrite H in Heq. simpl in Heq. rewrite Heq.
  clear Heq. induction Hl as [|e l He _ IH]; [done|]. by apply inert_contained.
Qed.

Lemma harmless_tunnelled {A} (m : M A) w s s' r uid t :
  harmless m → m w s = (s', r) → tunnelled w (eg_log s) uid t → tunnelled w (eg_log s') uid t.
Proof.
  intros Hm H (l & key & Hk & Ht & Hc). destruct (Hm w s) as (l' & Hl & Heq). rewrite H in Heq. simpl in Heq.
  exists l, key. split; [done|]. split; [done|]. rewrite Heq. clear Heq. induction Hl as [|e l' He _ IH]; [done|].
  simpl app. by rewrite inert_configured.
Qed.

(** ** Containment *)

Lemma lift_run {A} (r : result EgressError A) w s s' a : lift r w s = (s', Ok a) → r = Ok a ∧ s' = s.
Proof. destruct r; simpl; [by intros [= <- <-]|done]. Qed.

(** What the store's apply may leave *)
Definition lands (w : world) (p : EgressPolicy) (log : list event) (ns : string) (uid : Z) : Prop :=
  contained log ns uid None [] ∨
  (p = PolicyDirect ∧ ∃ h x sub, direct_addrs uid = Ok (h, x, sub) ∧ contained log ns uid (Some (veth_silo_ifname uid)) [h]) ∨
  (∃ tun t l, p = PolicyWg tun ∧ w l (N_tunnel tun) = R_tunnel t ∧ tunnelled w log uid t ∧
     contained log ns uid (Some (wg_ifname uid)) (dns_servers t)).

Lemma lands_harmless {A} (m : M A) w s s' r p ns uid :
  harmless m → m w s = (s', r) → lands w p (eg_log s) ns uid → lands w p (eg_log s') ns uid.
Proof.
  intros Hm H [Hc|[(-> & h & x & sub & Hd & Hc)|(tun & t & l & -> & Ht & Hu & Hc)]].
  - left. by eapply harmless_contained.
  - right. left. split; [done|]. exists h, x, sub. split; [done|]. by eapply harmless_contained.
  - right. right. exists tun, t, l. split; [done|]. split; [done|].
    split; [by eapply harmless_tunnelled|by eapply harmless_contained].
Qed.

Lemma dark_audit_run ns uid name why w s s' :
  (apply ns uid PolicyNone None;; audit name why) w s = (s', Ok tt) → contained (eg_log s') ns uid None [].
Proof.
  intros [(e & _ & ?)|(res & s1 & H & Ha)]%bind_run; [done|]. eapply harmless_contained; [apply harmless_audit|exact Ha|].
  by apply apply_ok in H as [[? _]|[[? _]|(? & ? & ? & _)]].
Qed.

Lemma apply_or_dark_run name ns uid text p tunnel w s s' :
  (∀ tun t, p = PolicyWg tun → tunnel = Some t → ∃ l, w l (N_tunnel tun) = R_tunnel t) →
  apply_or_dark name ns uid text p tunnel w s = (s', Ok tt) → lands w p (eg_log s') ns uid.
Proof.
  intros Htun H. unfold apply_or_dark in H. apply bind_run in H as [(e & _ & ?)|(res & s1 & H1 & H)]; [done|].
  apply attempt_run in H1. destruct res as [res|e].
  - assert (lands w p (eg_log s1) ns uid) as Hl.
    { apply apply_ok in H1 as [[? _]|[(-> & _ & h & x & sub & ? & ?)|(tun & t & -> & -> & Hu & Hc)]]; [by left|right; left; by eauto 10|].
      right. right. destruct (Htun tun t eq_refl eq_refl) as [l Ht]. by eauto 10. }
    eapply lands_harmless; [|exact H|exact Hl]. repeat case_match; auto with harmless.
  - left. apply bind_run in H as [(e' & _ & ?)|([] & s2 & _ & H)]; [done|]. by eapply dark_audit_run.
Qed.

(** C19: A silo is never launched with more network than its policy. When [_apply_egress]
    returns, so that the launch goes on, the uid's traffic outside the namespace is dropped,
    the resolver file is the one of the outcome, and the namespace holds no device of the
    silo (dark, with an empty resolver file), or, for a wg policy, only its WireGuard device,
    which was last given the peer, endpoint, allowed addresses and keepalive the provider
    answered for the tunnel the policy names and a key the key provider answered for it; or,
    for the direct policy, only the silo's end of its own link. This holds whatever the
    namespace held before and wherever the bring-up failed on the way. *)
Theorem egress_contained name uid text w s s' :
  apply_egress name uid text w s = (s', Ok tt) →
  ∃ p, parse (PStr text) = Ok p ∧ lands w p (eg_log s') (netns_name name) uid.
Proof.
  intros H. unfold apply_egress in H. apply bind_run in H as [(e & _ & ?)|(p & s1 & Hp & H)]; [done|].
  apply lift_run in Hp as [Hp ->]. exists p. split; [done|].
  apply bind_run in H as [(e & _ & ?)|([] & s2 & _ & H)]; [done|]. apply call_then in H as (a & _ & H).
  destruct p as [| |tun].
  - by apply apply_or_dark_run in H.
  - by apply apply_or_dark_run in H.
  - apply bind_run in H as [(e & _ & ?)|(t & s3 & Ht & H)]; [done|]. apply attempt_run in Ht.
    destruct t as [t|e]; [|left; by eapply dark_audit_run].
    eapply apply_or_dark_run; [|exact H]. intros tun' t' [= <-] [= <-]. unfold resolve_tunnel in Ht.
    apply bind_run in Ht as [(e & _ & ?)|(a' & s4 & Hc & Ht)]; [done|]. apply call_answer in Hc.
    destruct a'; unfold raise, mret, M_ret in Ht; simplify_eq; by eauto.
Qed.

(** A tunnel whose setup fails half-way *)
Definition tunnel_cfg : TunnelConfig :=
  {| tc_name := "work"; tc_peer := "PK"; tc_endpoint := "vpn.example:51820"; tc_address := "10.7.0.2/32";
     tc_dns := Some "10.7.0.1"; tc_allowed_ips := "0.0.0.0/0, ::/0"; tc_keepalive := Some 25%Z |}.
Definition flaky : world := λ _ o,
  match o with
  | N_tunnel _ => R_tunnel tunnel_cfg
  | N_key _ => R_key (Some "sk")
  | N_wg_configure _ _ _ => R_raise (Failed "endpoint")
  | N_watch _ _ => R_handle (Some 7)
  | _ => R_done
  end.
Definition steady : world := λ l o, match o with N_wg_configure _ _ _ => R_done | _ => flaky l o end.
Definition blank : egress := {| eg_watchers := ∅; eg_gen := ∅; eg_log := [] |}.

Lemma flaky_run : apply_egress "dev" 2001 "wg:work" flaky blank = ((apply_egress "dev" 2001 "wg:work" flaky blank).1, Ok tt).
Proof. by vm_compute. Qed.
Lemma egress_contained_witness :
  ∃ p, parse (PStr "wg:work") = Ok p ∧
    lands flaky p (eg_log (apply_egress "dev" 2001 "wg:work" flaky blank).1) (netns_name "dev") 2001.
Proof. exact (egress_contained "dev" 2001 "wg:work" flaky blank _ flaky_run). Defined.

(** ** Starts survive *)

(** The calls a dark bring-up needs *)
Definition essential (ns : string) (uid : Z) (o : netop) : bool :=
  match o with
  | N_netns_create n | N_dns_stop n => bool_decide (n = ns)
  | N_link_del _ d => bool_decide (d ∈ [wg_ifname uid; veth_silo_ifname uid; veth_host_ifname uid])
  | N_link_up (Some n) d => bool_decide (n = ns ∧ d = "lo")
  | N_write_resolv n l => bool_decide (n = ns ∧ l = [])
  | N_skuid_drop u on => bool_decide (u = uid) && on
  | _ => false
  end.
Definition reliable (w : world) (ns : string) (uid : Z) : Prop :=
  ∀ l o, essential ns uid o = true → acked (w l o) = true.

(** Computations that return whatever state they start in *)
Definition returns {A} (w : world) (m : M A) : Prop := ∀ s, ∃ s' a, m w s = (s', Ok a).

Lemma returns_ret {A} w (a : A) : returns w (mret a).
Proof. intros s. by exists s, a. Qed.
Lemma returns_gets {A} w (f : egress → A) : returns w (gets f).
Proof. intros s. by exists s, (f s). Qed.
Lemma returns_modify w f : returns w (modify f).
Proof. intros s. by exists (f s), tt. Qed.
Lemma returns_attempt {A} w (m : M A) : returns w (attempt m).
Proof. intros s. unfold attempt. destruct (m w s) as [s' r]. by eauto. Qed.
Lemma returns_bind {A B} w (m : M A) (f : A → M B) : returns w m → (∀ a, returns w (f a)) → returns w (m ≫= f).
Proof. intros Hm Hf s. destruct (Hm s) as (s1 & a & H1). unfold mbind, M_bind. rewrite H1. apply Hf. Qed.
Lemma returns_call w ns uid o : reliable w ns uid → essential ns uid o = true → returns w (call_ o).
Proof.
  intros Hw Ho s. specialize (Hw (eg_log s) o Ho). unfold call_, call, mbind, M_bind.
  destruct (w (eg_log s) o); simpl in *; try done; by eauto.
Qed.

Create HintDb returns discriminated.
#[local] Hint Resolve returns_ret returns_gets returns_modify returns_attempt : returns.
#[local] Hint Extern 3 (returns _ (mbind _ _)) => apply returns_bind; [|intros ?] : returns.
#[local] Hint Extern 4 (returns _ (match ?x with _ => _ end)) => destruct x : returns.

Lemma returns_dark w ns uid : reliable w ns uid → returns w (apply ns uid PolicyNone None).
Proof.
  intros Hw. unfold apply, teardown_devices.
  repeat first [eapply returns_call; [exact Hw|] | apply returns_ret | apply returns_bind; [|intros ?] ].
  all: cbn [essential]; rewrite ?andb_true_r; apply bool_decide_eq_true; by (set_solver || done).
Qed.
Lemma returns_audit w name why : returns w (audit name why).
Proof. unfold audit, quietly. auto with returns. Qed.
Lemma returns_start w name ns uid : returns w (start_watcher name ns uid).
Proof. unfold start_watcher, stop_watcher, quietly. auto 20 with returns. Qed.
Lemma returns_stop w name : returns w (stop_watcher name).
Proof. unfold stop_watcher, quietly. auto 20 with returns. Qed.
#[local] Hint Resolve returns_dark returns_audit returns_start returns_stop : returns.
Lemma returns_apply_or_dark w name ns uid text p t :
  reliable w ns uid → returns w (apply_or_dark name ns uid text p t).
Proof. intros Hw. unfold apply_or_dark, quietly. auto 20 with returns. Qed.
#[local] Hint Resolve returns_apply_or_dark : returns.

(** A locked vault, a missing tunnel or a failing link never fails a start. As long as
    the namespace can be created and the handful of calls a dark bring-up makes go through,
    [_apply_egress] returns for every policy, whatever the tunnel and key providers, the
    WireGuard and veth setup, the address and route calls, the link watcher and the audit do. *)
Theorem egress_never_fails_start name uid text p w s :
  parse (PStr text) = Ok p → reliable w (netns_name name) uid →
  ∃ s', apply_egress name uid text w s = (s', Ok tt).
Proof.
  intros Hp Hw. assert (returns w (apply_egress name uid text)) as Hr.
  { unfold apply_egress. rewrite Hp. apply returns_bind; [apply returns_ret|]. intros q.
    apply returns_bind; [auto with returns|]. intros _. apply returns_bind; [|intros _; auto 20 with returns].
    eapply returns_call; [exact Hw|]. by apply bool_decide_eq_true. }
  destruct (Hr s) as (s' & [] & H). by eauto.
Qed.
Lemma flaky_reliable : reliable flaky (netns_name "dev") 2001.
Proof. intros l o. by destruct o. Qed.
Lemma egress_never_fails_start_witness : ∃ s', apply_egress "dev" 2001 "wg:work" flaky blank = (s', Ok tt).
Proof. by apply (egress_never_fails_start _ _ _ (PolicyWg "work")); [vm_compute|exact flaky_reliable]. Defined.

(** ** Watchers *)

Definition gen_of (s : egress) (name : string) : nat := default 0 (eg_gen s !! name).

(** Computations that take no generation back *)
Definition rises {A} (m : M A) : Prop := ∀ w s n, gen_of s n ≤ gen_of (m w s).1 n.

Lemma rises_same {A} (m : M A) : (∀ w s, eg_gen (m w s).1 = eg_gen s) → rises m.
Proof. intros Hm w s n. unfold gen_of. by rewrite Hm. Qed.
Lemma rises_bind {A B} (m : M A) (f : A → M B) : rises m → (∀ a, rises (f a)) → rises (m ≫= f).
Proof.
  intros Hm Hf w s n. specialize (Hm w s n). unfold mbind, M_bind. destruct (m w s) as [s1 [a|e]]; [|done].
  etransitivity; [exact Hm|apply Hf].
Qed.
Lemma rises_attempt {A} (m : M A) : rises m → rises (attempt m).
Proof. intros Hm w s n. unfold attempt. specialize (Hm w s n). by destruct (m w s). Qed.

Create HintDb rises discriminated.
#[local] Hint Resolve rises_attempt : rises.
#[local] Hint Extern 1 (rises (mret _)) => apply rises_same; done : rises.
#[local] Hint Extern 1 (rises (raise _)) => apply rises_same; done : rises.
#[local] Hint Extern 1 (rises (gets _)) => apply rises_same; done : rises.
#[local] Hint Extern 1 (rises (call _)) => apply rises_same; done : rises.
#[local] Hint Extern 2 (rises (modify _)) => apply rises_same; done : rises.
#[local] Hint Extern 3 (rises (mbind _ _)) => apply rises_bind; [|intros ?] : rises.
#[local] Hint Extern 4 (rises (match ?x with _ => _ end)) => destruct x : rises.

(** [stop_watcher] moves the generation of its name *)
Lemma bump_gen name w s n :
  gen_of (modify (λ s, set_gen (<[name := S (default 0 (eg_gen s !! name))]> (eg_gen s)) s) w s).1 n =
  if bool_decide (n = name) then S (gen_of s name) else gen_of s n.
Proof.
  unfold gen_of. simpl. case_bool_decide as Hn; [subst; by rewrite lookup_insert_eq|by rewrite lookup_insert_ne].
Qed.
Lemma rises_bump name : rises (modify (λ s, set_gen (<[name := S (default 0 (eg_gen s !! name))]> (eg_gen s)) s)).
Proof. intros w s n. rewrite bump_gen. case_bool_decide; [subst; lia|done]. Qed.
#[local] Hint Resolve rises_bump : rises.
Lemma rises_stop name : rises (stop_watcher name).
Proof. unfold stop_watcher, quietly, call_. auto 20 with rises. Qed.
#[local] Hint Resolve rises_stop : rises.
Lemma bump_then {B} name (f : unit → M B) w s :
  (∀ u, rises (f u)) →
  gen_of s name < gen_of ((modify (λ s, set_gen (<[name := S (default 0 (eg_gen s !! name))]> (eg_gen s)) s) ≫= f) w s).1 name.
Proof.
  intros Hf. pose proof (bump_gen name w s name) as Hb. rewrite bool_decide_true in Hb by done. unfold mbind, M_bind.
  destruct (modify _ w s) as [s1 r] eqn:Hm. injection Hm as <- <-. simpl in Hb.
  match goal with |- context [f tt w ?s1] => pose proof (Hf tt w s1 name) end. lia.
Qed.
Lemma stop_watcher_gen name w s : gen_of s name < gen_of (stop_watcher name w s).1 name.
Proof. apply bump_then. intros _. unfold quietly, call_. auto 20 with rises. Qed.

(** What can happen to the egress of silos: a start, a stop or delete, a forced clear, the
    shutdown, and callbacks of watchers *)
Inductive act :=
| A_apply (name : string) (uid : Z) (text : string)
| A_teardown (name : string) (uid : Z) (egress : option string)
| A_clear (name : string) (uid : Z)
| A_stop_all
| A_up (name ns : string) (uid : Z) (p : EgressPolicy) (t : TunnelConfig) (gen : nat).
Definition run_act (a : act) : M unit :=
  match a with
  | A_apply name uid text => apply_egress name uid text
  | A_teardown name uid egress => teardown_egress name uid egress
  | A_clear name uid => force_clear_egress name uid
  | A_stop_all => stop_all_egress_watchers
  | A_up name ns uid p t gen => on_up name ns uid p t gen
  end.
Fixpoint run_acts (l : list (world * act)) (s : egress) : egress :=
  match l with [] => s | (w, a) :: l' => run_acts l' (run_act a w s).1 end.

Lemma rises_apply ns uid p t : rises (apply ns uid p t).
Proof.
  unfold apply, apply_direct, apply_wg, dark_wg, key_of, bring_up_wg, teardown_devices, lift, call_. auto 40 with rises.
Qed.
Lemma rises_teardown ns uid p : rises (teardown ns uid p).
Proof. unfold teardown, teardown_devices, lift, call_. auto 20 with rises. Qed.
#[local] Hint Resolve rises_apply rises_teardown : rises.
Lemma rises_clear name uid p : rises (clear_egress name uid p).
Proof. unfold clear_egress, quietly, call_. auto 20 with rises. Qed.
Lemma rises_stop_watchers names : rises (stop_watchers names).
Proof. induction names; simpl; auto with rises. Qed.
#[local] Hint Resolve rises_clear rises_stop_watchers : rises.
Lemma rises_act a : rises (run_act a).
Proof.
  destruct a; simpl; unfold apply_egress, apply_or_dark, start_watcher, resolve_tunnel, audit, quietly, teardown_egress,
    force_clear_egress, stop_all_egress_watchers, on_up, reattach, bring_up_wg, lift, call_; auto 40 with rises.
Qed.

Lemma run_acts_rise l s n : gen_of s n ≤ gen_of (run_acts l s) n.
Proof.
  revert s. induction l as [|[w a] l IH]; intros s; simpl; [done|].
  pose proof (rises_act a w s n). specialize (IH (run_act a w s).1). lia.
Qed.

Lemma run_acts_app l1 l2 s : run_acts (l1 ++ l2) s = run_acts l2 (run_acts l1 s).
Proof. revert s. induction l1 as [|[w a] l1 IH]; intros s; simpl; [done|apply IH]. Qed.

(** The acts that end the watching of a name *)
Definition ends_watch (name : string) (a : act) : bool :=
  match a with
  | A_teardown n _ _ | A_clear n _ => bool_decide (n = name)
  | A_apply n _ text => bool_decide (n = name) && is_ok (parse (PStr text))
  | _ => false
  end.

Lemma stop_first {A} name (f : unit → M A) w s :
  (∀ u, rises (f u)) → gen_of s name < gen_of ((stop_watcher name ≫= f) w s).1 name.
Proof.
  intros Hf. pose proof (stop_watcher_gen name w s) as Hs. unfold mbind, M_bind.
  destruct (stop_watcher name w s) as [s1 [u|e]]; [|done]. simpl in Hs. pose proof (Hf u w s1 name). lia.
Qed.

Lemma ends_watch_gen name a w s : ends_watch name a = true → gen_of s name < gen_of (run_act a w s).1 name.
Proof.
  destruct a as [n uid text|n uid eg|n uid| |]; cbn [ends_watch run_act]; try done.
  - intros [->%bool_decide_eq_true Hok]%andb_true_iff. unfold apply_egress. destruct (parse (PStr text)) as [p|]; [|done].
    apply stop_first. intros _. pose proof (rises_act (A_apply name uid text)) as Hr. unfold apply_or_dark, start_watcher, resolve_tunnel,
      audit, quietly, call_; auto 40 with rises.
  - intros ->%bool_decide_eq_true. unfold teardown_egress. destruct eg; [|apply stop_watcher_gen].
    apply stop_first. intros _. unfold quietly, call_. auto 20 with rises.
  - intros ->%bool_decide_eq_true. apply stop_first. intros _. unfold quietly, call_. auto 20 with rises.
Qed.

Lemma start_watcher_run name ns uid w s s1 gen :
  start_watcher name ns uid w s = (s1, Ok gen) → gen = gen_of s1 name ∧ gen_of s name < gen.
Proof.
  unfold start_watcher. intros H. pose proof (stop_watcher_gen name w s) as Hs.
  apply bind_run in H as [(e & _ & ?)|([] & s2 & Hst & H)]; [done|]. rewrite Hst in Hs. simpl in Hs.
  apply bind_run in H as [(e & _ & ?)|(g & s3 & [= <- <-] & H)]; [done|].
  apply bind_run in H as [(e & _ & ?)|(r & s4 & H4 & H)]; [done|].
  assert (eg_gen s4 = eg_gen s2) as Hg4.
  { apply attempt_run, bind_run in H4 as [(e & Hc & _)|(a & s0 & Hc & H4)].
    - unfold call in Hc. by injection Hc as <- _.
    - apply call_ok in Hc as [_ ->]. by destruct a; injection H4 as <- _. }
  apply bind_run in H as [(e & _ & ?)|([] & s5 & H5 & [= <- <-])]; [done|].
  assert (eg_gen s5 = eg_gen s4) as Hg5 by (by destruct r as [[h|]|e]; injection H5 as <-).
  unfold gen_of in *. rewrite Hg5, Hg4. done.
Qed.

(** C20: A stale watcher never touches a namespace. A callback carries the generation its
    watcher was started with; once the silo was stopped, cleared, deleted or started again,
    however often and with whatever in between, the callback changes nothing and makes no
    call. *)
Theorem stale_watcher_silent name ns uid p t gen w s s1 l1 a l2 w' w'' :
  start_watcher name ns uid w s = (s1, Ok gen) → ends_watch name a = true →
  let s2 := run_acts (l1 ++ (w', a) :: l2) s1 in on_up name ns uid p t gen w'' s2 = (s2, Ok tt).
Proof.
  intros [-> _]%start_watcher_run Ha. cbv zeta. rewrite (run_acts_app l1). simpl.
  pose proof (run_acts_rise l1 s1 name) as H1. pose proof (ends_watch_gen name a w' (run_acts l1 s1) Ha) as H2.
  pose proof (run_acts_rise l2 (run_act a w' (run_acts l1 s1)).1 name) as H3.
  set (s2 := run_acts l2 _) in *. unfold on_up, mbind, M_bind, gets. rewrite bool_decide_false; [done|].
  intros Hg. unfold gen_of in H3 at 2. rewrite Hg in H3. simpl in H3. lia.
Qed.

Lemma steady_start :
  start_watcher "dev" "qd-dev" 2001 steady blank = ((start_watcher "dev" "qd-dev" 2001 steady blank).1, Ok 1).
Proof. by vm_compute. Qed.
Lemma stale_watcher_silent_witness :
  let s2 := run_acts [(steady, A_stop_all); (steady, A_teardown "dev" 2001 (Some "wg:work")); (steady, A_apply "dev" 2001 "wg:work")]
              (start_watcher "dev" "qd-dev" 2001 steady blank).1 in
  on_up "dev" "qd-dev" 2001 (PolicyWg "work") tunnel_cfg 1 steady s2 = (s2, Ok tt).
Proof.
  exact (stale_watcher_silent "dev" "qd-dev" 2001 (PolicyWg "work") tunnel_cfg 1 steady blank _ [(steady, A_stop_all)]
    (A_teardown "dev" 2001 (Some "wg:work")) [(steady, A_apply "dev" 2001 "wg:work")] steady steady steady_start eq_refl).
Defined.

End Netns.
