(* ===== verification/SiloData.v ===== *)
(** * The silo registry's data (qdistro_session_manager.py)

    States and their legal transitions, the [Silo] row, the validators every row passes
    whether it comes from a caller or from silos.yaml, and the loader. The yaml parser is
    not modelled: the loader starts from the value it returns. *)

From S2P Require Import Prelude Json LineageStore SiloEgress.
From Stdlib Require Import ZArith.
Import Json.

Module Silos.

(** ** States *)

Inductive State := CREATED | ACTIVE | FROZEN | STOPPING | STOPPED | DELETING.

#[export] Instance State_eq_dec : EqDecision State.
Proof. solve_decision. Defined.

Definition state_text (s : State) : string :=
  match s with
  | CREATED => "Created" | ACTIVE => "Active" | FROZEN => "Frozen"
  | STOPPING => "Stopping" | STOPPED => "Stopped" | DELETING => "Deleting"
  end.

(** [State.ALL] *)
Definition ALL : list State := [CREATED; ACTIVE; FROZEN; STOPPING; STOPPED; DELETING].

Definition state_of_text (s : string) : option State :=
  head (filter (λ x, state_text x = s) ALL).

(** [_STATE_TRANSITIONS] *)
Definition STATE_TRANSITIONS (s : State) : list State :=
  match s with
  | CREATED => [ACTIVE; DELETING]
  | ACTIVE => [FROZEN; STOPPING; STOPPED]
  | FROZEN => [ACTIVE; STOPPING; STOPPED]
  | STOPPING => [STOPPED]
  | STOPPED => [ACTIVE; DELETING]
  | DELETING => []
  end.

(** [KIND_TIER3_USER], [KIND_TIER2_TEMPLATE], [KIND_TIER3S] *)
Inductive Kind := KIND_TIER3_USER | KIND_TIER2_TEMPLATE | KIND_TIER3S.

#[export] Instance Kind_eq_dec : EqDecision Kind.
Proof. solve_decision. Defined.

Definition kind_text (k : Kind) : string :=
  match k with
  | KIND_TIER3_USER => "tier3-user" | KIND_TIER2_TEMPLATE => "tier2-template" | KIND_TIER3S => "tier3s"
  end.
Definition SILO_KINDS : list Kind := [KIND_TIER3_USER; KIND_TIER2_TEMPLATE; KIND_TIER3S].

(** [kind in _ADMIN_OWNED_KINDS] *)
Definition admin_owned (k : Kind) : bool := negb (bool_decide (k = KIND_TIER3_USER)).

(** ** Rows *)

Record Launch := {
  la_workload : string;
  la_template_silo : string;
  la_network : string;
  la_argv : list string;
}.

(** [Silo]: the persisted fields, then the observation, which never is. [observed_at] and
    [observed_monotonic] are clock readings. *)
Record Silo := {
  si_name : string;
  si_uid : Z;
  si_state : State;
  si_autostart : bool;
  si_created_at : Z;
  si_last_change : Z;
  si_kind : Kind;
  si_launch : option Launch;
  si_egress : option string;
  si_observed : string * string;
  si_observed_at : Z;
  si_observed_monotonic : Z;
  si_generation : nat;
  si_start_unresolved : bool;
}.

(** The fields [_silos_yaml_render] writes *)
Record Row := {
  ro_name : string; ro_uid : Z; ro_state : State; ro_autostart : bool; ro_created_at : Z;
  ro_last_change : Z; ro_kind : Kind; ro_launch : option Launch; ro_egress : option string;
}.

Definition to_row (s : Silo) : Row :=
  {| ro_name := si_name s; ro_uid := si_uid s; ro_state := si_state s; ro_autostart := si_autostart s;
     ro_created_at := si_created_at s; ro_last_change := si_last_change s; ro_kind := si_kind s;
     ro_launch := si_launch s; ro_egress := si_egress s |}.

(** A fresh [Silo(...)]: the dataclass defaults for the observation *)
Definition new_silo (r : Row) : Silo :=
  {| si_name := ro_name r; si_uid := ro_uid r; si_state := ro_state r; si_autostart := ro_autostart r;
     si_created_at := ro_created_at r; si_last_change := ro_last_change r; si_kind := ro_kind r;
     si_launch := ro_launch r; si_egress := ro_egress r;
     si_observed := ("unknown", "not observed since daemon start"); si_observed_at := 0;
     si_observed_monotonic := 0; si_generation := 0; si_start_unresolved := false |}.

(** ** Errors

    The subclasses of [SessionError], with what their messages interpolate, and every other
    exception, which the handlers tell apart from them. *)

Inductive bad_argument :=
| BA_name (n : string) | BA_reserved (n : string) | BA_uid (u : Z) | BA_kind | BA_owner_uid (k : Kind) (u : Z)
| BA_egress (e : Egress.EgressError) | BA_launch_present | BA_launch_table (k : Kind)
| BA_required (key : string) | BA_unsafe (key : string) | BA_network (k : Kind)
| BA_argv_json (k : Kind) | BA_argv_list (k : Kind) | BA_argv_nul (k : Kind) | BA_argv_lines (k : Kind)
| BA_workload | BA_template | BA_egress_kind | BA_profile (p : string) | BA_freeze_tier3s.

Inductive exists_why :=
| Ex_name (n : string) | Ex_uid (u : Z) (by_ : string) | Ex_uid_creating (u : Z)
| Ex_user (n : string) | Ex_system_uid (u : Z).

Inductive busy_why :=
| Busy_creating (n : string) | Busy_inflight (n : string) | Busy_state (n : string) (s : State) | Busy_accounts.

Inductive session_why :=
| SE_unverified (reason : string)       (* start: cannot verify whether the silo runs *)
| SE_unsettled (n : string)             (* start: the state changed in every round *)
| SE_start_failed (n : string)
| SE_start_refused (n refusal : string)
| SE_stop_failed (n : string)
| SE_stop_survived (n : string)
| SE_stop_unacknowledged (n : string)
| SE_delete_failed (n : string)
| SE_unsafe_fragments (names : list string)
| SE_relay_policy (n : string)
| SE_launcher_link (n : string) (leftover : list string)
| SE_provisioning (n : string) (leftover : list string).

Inductive exn :=
| UnknownSilo (n : string)
| SiloExists (why : exists_why)
| SiloBusy (why : busy_why)
| BadState (n : string) (from to : State)
| BadArgument (why : bad_argument)
| SessionError (why : session_why)
| StartNotCancelled (n : string)
| OSError (what : string)
| OtherError (what : string).

(** [isinstance(e, SessionError)] *)
Definition is_session_error (e : exn) : bool := match e with OSError _ | OtherError _ => false | _ => true end.

(** ** Validators *)

Definition SILO_UID_MIN : Z := 2000.
Definition SILO_UID_MAX : Z := 60000.

(** [_VALID_NAME_RE.fullmatch]: [[a-z_][a-z0-9_-]{0,31}] *)
Definition name_char (c : ascii) : bool := Egress.tunnel_char c.
Definition VALID_NAME_RE (s : string) : bool :=
  match s with
  | "" => false
  | String c s' =>
      (Egress.is_lower c || bool_decide (c = "_"%char)) && forall_char name_char s' &&
      (String.length s' <=? 31)%nat
  end.

(** [_SAFE_TOKEN_RE.fullmatch] *)
Definition is_upper (c : ascii) : bool := ((65 <=? ord c) && (ord c <=? 90))%N.
Definition alnum (c : ascii) : bool := Egress.is_lower c || is_upper c || Egress.is_decimal c.
Definition safe_char (c : ascii) : bool :=
  alnum c || bool_decide (c ∈ ["_"; "."; ":"; "/"; "="; "+"; "-"]%char).
Definition SAFE_TOKEN_RE (s : string) : bool :=
  match s with "" => false | String c s' => alnum c && forall_char safe_char s' end.

(** [_TIER3S_WORKLOAD_RE.fullmatch]: [[a-z0-9][a-z0-9-]{0,40}] *)
Definition workload_char (c : ascii) : bool :=
  Egress.is_lower c || Egress.is_decimal c || bool_decide (c = "-"%char).
Definition TIER3S_WORKLOAD_RE (s : string) : bool :=
  match s with
  | "" => false
  | String c s' =>
      (Egress.is_lower c || Egress.is_decimal c) && forall_char workload_char s' && (String.length s' <=? 40)%nat
  end.

Definition validate_name (name : string) : result exn string :=
  if negb (VALID_NAME_RE name) then Err (BadArgument (BA_name name))
  else if bool_decide (name ∈ ["admin"; "root"; "qdistro"]) then Err (BadArgument (BA_reserved name))
  else Ok name.

Definition validate_uid (uid : Z) : result exn Z :=
  if (uid <? SILO_UID_MIN)%Z || (uid >? SILO_UID_MAX)%Z then Err (BadArgument (BA_uid uid)) else Ok uid.

(** A kind is one of three texts; any other value is refused *)
Definition validate_kind (kind : pyval) : result exn Kind :=
  match kind with
  | PStr s => match head (filter (λ k, kind_text k = s) SILO_KINDS) with
              | Some k => Ok k
              | None => Err (BadArgument BA_kind)
              end
  | _ => Err (BadArgument BA_kind)
  end.

(** [_validate_egress_field] *)
Definition validate_egress_field (value : pyval) : result exn (option string) :=
  match Egress.validate_egress value with Ok v => Ok v | Err e => Err (BadArgument (BA_egress e)) end.

(** [validate_silo_uid]; [admin] is [ADMIN_UID], which is [TIER2_LAUNCH_OWNER_UID] *)
Definition validate_silo_uid (admin uid : Z) (kind : Kind) : result exn Z :=
  if admin_owned kind then
    if negb (uid =? admin)%Z then Err (BadArgument (BA_owner_uid kind uid)) else Ok admin
  else validate_uid uid.

(** [d.get(key, default)] *)
Fixpoint dict_find (d : list (pyval * pyval)) (key : string) : option pyval :=
  match d with
  | [] => None
  | (PStr k, v) :: d' => if bool_decide (k = key) then Some v else dict_find d' key
  | _ :: d' => dict_find d' key
  end.
Definition dict_or (d : list (pyval * pyval)) (key : string) (v : pyval) : pyval := default v (dict_find d key).

(** The members of a list when all of them are strings *)
Fixpoint all_strs (l : list pyval) : option (list string) :=
  match l with
  | [] => Some []
  | PStr s :: l' => cons s <$> all_strs l'
  | _ :: _ => None
  end.
Fixpoint all_jstrs (l : list json) : option (list string) :=
  match l with
  | [] => Some []
  | JStr s :: l' => cons s <$> all_jstrs l'
  | _ :: _ => None
  end.

(** Entries of [argv] hold no NUL and no line break *)
Definition check_argv (kind : Kind) (argv : list string) : result exn (list string) :=
  if existsb (has_char "000"%char) argv then Err (BadArgument (BA_argv_nul kind))
  else if existsb (λ a, has_char "010"%char a || has_char "013"%char a) argv
  then Err (BadArgument (BA_argv_lines kind))
  else Ok argv.

(** [_validate_launch_argv]; a text is read as JSON *)
Definition validate_launch_argv (kind : Kind) (argv : pyval) : result exn (list string) :=
  match argv with
  | PStr text =>
      match loads text with
      | Ok (JArr l) =>
          match all_jstrs l with Some a => check_argv kind a | None => Err (BadArgument (BA_argv_list kind)) end
      | Ok _ => Err (BadArgument (BA_argv_list kind))
      | Err JE_wide => Err (OtherError "character beyond 255")
      | Err _ => Err (BadArgument (BA_argv_json kind))
      end
  | PList l =>
      match all_strs l with Some a => check_argv kind a | None => Err (BadArgument (BA_argv_list kind)) end
  | _ => Err (BadArgument (BA_argv_list kind))
  end.

(** [_tok] of [validate_launch], a required token *)
Definition tok (launch : list (pyval * pyval)) (key : string) : result exn string :=
  let v := dict_or launch key (PStr "") in
  if negb (pytruthy v) then Err (BadArgument (BA_required key))
  else match v with
       | PStr s => if negb (SAFE_TOKEN_RE s) || substr_in ".." s then Err (BadArgument (BA_unsafe key)) else Ok s
       | _ => Err (BadArgument (BA_unsafe key))
       end.

(** [_SILO_NETWORK_LEGACY.get(network, network)] *)
Definition legacy_network (n : string) : string := if bool_decide (n = "slirp4netns") then "pasta" else n.

Definition validate_tier3s_launch (launch : pyval) : result exn Launch :=
  match launch with
  | PDict d =>
      let* workload := match dict_get d "workload" with
                       | PStr s => if TIER3S_WORKLOAD_RE s then Ok s else Err (BadArgument BA_workload)
                       | _ => Err (BadArgument BA_workload)
                       end in
      let* template := match dict_get d "template_silo" with
                       | PStr s => if VALID_NAME_RE s then Ok s else Err (BadArgument BA_template)
                       | _ => Err (BadArgument BA_template)
                       end in
      let* _ := match dict_or d "network" (PStr "none") with
                | PStr s => if bool_decide (s = "none") then Ok tt else Err (BadArgument (BA_network KIND_TIER3S))
                | _ => Err (BadArgument (BA_network KIND_TIER3S))
                end in
      let* argv := validate_launch_argv KIND_TIER3S (dict_or d "argv" (PList [])) in
      Ok {| la_workload := workload; la_template_silo := template; la_network := "none"; la_argv := argv |}
  | _ => Err (BadArgument (BA_launch_table KIND_TIER3S))
  end.

(** [validate_launch]; a tier-3 silo has no stanza *)
Definition validate_launch (kind : Kind) (launch : pyval) : result exn (option Launch) :=
  match kind with
  | KIND_TIER3_USER => if pytruthy launch then Err (BadArgument BA_launch_present) else Ok None
  | KIND_TIER3S => let* l := validate_tier3s_launch launch in Ok (Some l)
  | KIND_TIER2_TEMPLATE =>
      match launch with
      | PDict d =>
          let* workload := tok d "workload" in
          let* template := tok d "template_silo" in
          let* network := match dict_or d "network" (PStr "none") with
                          | PStr s => Ok (legacy_network s)
                          | _ => Err (BadArgument (BA_network KIND_TIER2_TEMPLATE))
                          end in
          let* _ := guard_else (bool_decide (network ∈ ["none"; "pasta"]))
                      (BadArgument (BA_network KIND_TIER2_TEMPLATE)) (Ok tt) in
          let* argv := validate_launch_argv KIND_TIER2_TEMPLATE (dict_or d "argv" (PList [])) in
          Ok (Some {| la_workload := workload; la_template_silo := template; la_network := network; la_argv := argv |})
      | _ => Err (BadArgument (BA_launch_table KIND_TIER2_TEMPLATE))
      end
  end.

(** ** Loading *)

(** A row that is kept but not activated: one found in the quarantine section, with its
    reason if the section gives one, or a row of another admin's *)
Inductive Quarantined :=
| Q_kept (row : json) (reason : option string)
| Q_owner (row : list (pyval * pyval)) (launch : option Launch) (egress : option string) (k : Kind) (uid : Z).

Inductive load_error := LE_not_iterable | LE_unhashable_state | LE_bad_int | LE_wide.

(** [for x in v] *)
Definition iter_value (v : pyval) : result load_error (list pyval) :=
  match v with
  | PList l => Ok l
  | PDict d => Ok d.*1
  | PStr s => Ok ((λ c, PStr (String c "")) <$> String.list_ascii_of_string s)
  | _ => Err LE_not_iterable
  end.
(** [d.get(key) or []], iterated *)
Definition rows_of (d : list (pyval * pyval)) (key : string) : result load_error (list pyval) :=
  let v := dict_get d key in if pytruthy v then iter_value v else Ok [].

(** [_load_quarantined_silo_rows], one item *)
Definition load_quarantined_row (item : pyval) : result load_error (option Quarantined) :=
  match item with
  | PDict d =>
      match dict_get d "row_json" with
      | PStr raw =>
          match loads raw with
          | Ok (JObj kvs) =>
              Ok (Some (Q_kept (JObj kvs) (as_str (dict_get d "reason"))))
          | Ok _ => Ok None
          | Err JE_wide => Err LE_wide
          | Err _ => Ok None
          end
      | _ => Ok None
      end
  | _ => Ok None
  end.

(** [int(row.get(key, 0) or 0)]; [float_int] is [int] of a float *)
Definition int_field (float_int : string → option Z) (d : list (pyval * pyval)) (key : string) : result load_error Z :=
  let v := dict_or d key (PInt 0) in
  if negb (pytruthy v) then Ok 0%Z
  else match v with
       | PInt z => Ok z
       | PBool b => Ok (if b then 1 else 0)%Z
       | PFloat x => match float_int x with Some z => Ok z | None => Err LE_bad_int end
       | PStr s => match Lineage.py_int s with Some z => Ok z | None => Err LE_bad_int end
       | _ => Err LE_bad_int
       end.

(** [row.get("state", State.STOPPED)], replaced by Stopped when it is not a state *)
Definition state_field (d : list (pyval * pyval)) : result load_error State :=
  let v := dict_or d "state" (PStr (state_text STOPPED)) in
  if negb (hashable v) then Err LE_unhashable_state
  else match v with PStr s => Ok (default STOPPED (state_of_text s)) | _ => Ok STOPPED end.

Inductive checked_row :=
| CR_dropped (e : exn)
| CR_quarantined (q : Quarantined)
| CR_good (kind : Kind) (launch : option Launch) (egress : option string).

(** The validation block of [load] *)
Definition check_row (admin : Z) (d : list (pyval * pyval)) (name : string) (uid : Z) : checked_row :=
  let r := (let* _ := validate_name name in
            let* kind := validate_kind (dict_or d "kind" (PStr (kind_text KIND_TIER3_USER))) in
            let launch_value := let v := dict_or d "launch" (PDict []) in if pytruthy v then v else PDict [] in
            if admin_owned kind && negb (uid =? admin)%Z then
              let* launch := validate_launch kind launch_value in
              let* egress := validate_egress_field (dict_get d "egress") in
              Ok (CR_quarantined (Q_owner d launch egress kind uid))
            else
              let* _ := validate_silo_uid admin uid kind in
              let* launch := validate_launch kind launch_value in
              let* egress := validate_egress_field (dict_get d "egress") in
              Ok (CR_good kind launch egress)) in
  match r with Ok c => c | Err e => CR_dropped e end.

Record loaded := { ld_silos : list (string * Silo); ld_quarantined : list Quarantined }.

(** One iteration of the row loop of [load] *)
Definition load_row (float_int : string → option Z) (admin : Z) (acc : loaded) (row : pyval) : result load_error loaded :=
  match row with
  | PDict d =>
      match as_str (dict_get d "name"), as_int (dict_get d "uid") with
      | Some name, Some uid =>
          match check_row admin d name uid with
          | CR_dropped (OtherError _) => Err LE_wide
          | CR_dropped _ => Ok acc
          | CR_quarantined q => Ok {| ld_silos := ld_silos acc; ld_quarantined := ld_quarantined acc ++ [q] |}
          | CR_good kind launch egress =>
              let* state := state_field d in
              let* created := int_field float_int d "created_at" in
              let* changed := int_field float_int d "last_change" in
              let s := new_silo {| ro_name := name; ro_uid := uid; ro_state := state;
                                   ro_autostart := pytruthy (dict_or d "autostart" (PBool false));
                                   ro_created_at := created; ro_last_change := changed;
                                   ro_kind := kind; ro_launch := launch; ro_egress := egress |} in
              Ok {| ld_silos := od_set (ld_silos acc) name s; ld_quarantined := ld_quarantined acc |}
          end
      | _, _ => Ok acc
      end
  | _ => Ok acc
  end.

Fixpoint load_rows (float_int : string → option Z) (admin : Z) (acc : loaded) (rows : list pyval) : result load_error loaded :=
  match rows with
  | [] => Ok acc
  | r :: rows' => let* acc' := load_row float_int admin acc r in load_rows float_int admin acc' rows'
  end.

Fixpoint load_quarantined (items : list pyval) : result load_error (list Quarantined) :=
  match items with
  | [] => Ok []
  | x :: items' =>
      let* q := load_quarantined_row x in
      let* qs := load_quarantined items' in
      Ok (option_list q ++ qs)
  end.

(** [load]; [None] when there is no configuration file *)
Definition load (float_int : string → option Z) (admin : Z) (data : option pyval) : result load_error loaded :=
  match data with
  | Some (PDict d) =>
      let* items := rows_of d "quarantined_silos" in
      let* qs := load_quarantined items in
      let* rows := rows_of d "silos" in
      load_rows float_int admin {| ld_silos := []; ld_quarantined := qs |} rows
  | _ => Ok {| ld_silos := []; ld_quarantined := [] |}
  end.

(** ** What the validators establish *)

(** The value a saved stanza reads back as *)
Definition launch_value (l : option Launch) : pyval :=
  match l with
  | None => PDict []
  | Some l => PDict [(PStr "workload", PStr (la_workload l)); (PStr "template_silo", PStr (la_template_silo l));
                     (PStr "network", PStr (la_network l)); (PStr "argv", PList (PStr <$> la_argv l))]
  end.

Definition egress_value (e : option string) : pyval := match e with Some s => PStr s | None => PNone end.

(** A row whose name, uid, kind, launch stanza and egress text each pass their validator. The
    check that only a tier3-user silo has an egress is not among them: [create] makes it on
    its own, and [load] does not make it. *)
Record valid_row (admin : Z) (r : Row) : Prop := {
  vr_name : validate_name (ro_name r) = Ok (ro_name r);
  vr_uid : validate_silo_uid admin (ro_uid r) (ro_kind r) = Ok (ro_uid r);
  vr_launch : validate_launch (ro_kind r) (launch_value (ro_launch r)) = Ok (ro_launch r);
  vr_egress : validate_egress_field (egress_value (ro_egress r)) = Ok (ro_egress r);
}.

Lemma all_strs_fmap l : all_strs (PStr <$> l) = Some l.
Proof. induction l as [|s l IH]; [done|]. rewrite fmap_cons. simpl. by rewrite IH. Qed.

Lemma validate_argv_again k v a : validate_launch_argv k v = Ok a → check_argv k a = Ok a.
Proof.
  assert (∀ b, check_argv k b = Ok a → b = a) as Hsame by (intros b; unfold check_argv; intros; by inv_ok).
  unfold validate_launch_argv. intros Hv. inv_ok; by rewrite <- (Hsame _ Hv) at 1.
Qed.

Lemma tok_inv d key s : tok d key = Ok s → truthy s = true ∧ SAFE_TOKEN_RE s = true ∧ substr_in ".." s = false.
Proof.
  unfold tok. intros H. inv_ok. simplify_eq/=. bool_hyps. split_and!; try done.
Qed.

Lemma tok_again d key s d' :
  tok d key = Ok s → dict_find d' key = Some (PStr s) → tok d' key = Ok s.
Proof.
  intros (H1 & H2 & H3)%tok_inv Hd. unfold tok, dict_or. rewrite Hd. simpl.
  rewrite H1. simpl. by rewrite H2, H3.
Qed.

Lemma legacy_network_again s : legacy_network (legacy_network s) = legacy_network s.
Proof.
  unfold legacy_network. destruct (decide (s = "slirp4netns")) as [->|Hs]; [done|].
  by rewrite !(bool_decide_false (s = _)).
Qed.

(** A stanza that was accepted is accepted again, unchanged *)
Lemma validate_launch_again k v l :
  validate_launch k v = Ok l → validate_launch k (launch_value l) = Ok l.
Proof.
  destruct k; simpl; intros Hv.
  - inv_ok. done.
  - destruct v; inv_ok. simpl. erewrite !tok_again by done. cbn [result_bind].
    rewrite legacy_network_again.
    match goal with H : bool_decide (legacy_network _ ∈ _) = true |- _ => rewrite H end. simpl.
    match goal with H : validate_launch_argv _ _ = Ok _ |- _ => apply validate_argv_again in H; rewrite all_strs_fmap, H end. done.
  - inv_ok. match goal with H : validate_tier3s_launch v = Ok _ |- _ => rename H into Ht end.
    destruct v; cbn [validate_tier3s_launch] in Ht; inv_ok.
    match goal with H : validate_launch_argv _ _ = Ok _ |- _ => apply validate_argv_again in H; rename H into Ha end.
    simpl. rewrite all_strs_fmap, Ha, Heqb1. simpl. by rewrite Heqb0.
Qed.

Lemma validate_egress_again v e :
  validate_egress_field v = Ok e → validate_egress_field (egress_value e) = Ok e.
Proof.
  unfold validate_egress_field. destruct (Egress.validate_egress v) as [w|] eqn:Hv; [|done]. intros [= ->].
  destruct e as [s|]; [|done]. destruct v as [| | | |s0| |]; try (by inversion Hv).
  cbn [Egress.validate_egress egress_value] in *.
  destruct (Egress.parse (PStr s0)) as [p|] eqn:Hp; [|done]. cbn [result_bind] in Hv. injection Hv as <-.
  apply Egress.parse_inv in Hp as [_ Hp]. by rewrite Egress.parse_spec.
Qed.

(** ** The loader *)

Lemma validate_name_inv n m : validate_name n = Ok m → m = n.
Proof. unfold validate_name. intros H. by inv_ok. Qed.

Lemma validate_silo_uid_inv admin u k v : validate_silo_uid admin u k = Ok v → v = u.
Proof.
  unfold validate_silo_uid, validate_uid. intros H. inv_ok; try done. bool_hyps.
  by apply Z.eqb_eq in Heqb0.
Qed.

Lemma check_row_good admin d name uid k l e :
  check_row admin d name uid = CR_good k l e →
  ∀ r, ro_name r = name → ro_uid r = uid → ro_kind r = k → ro_launch r = l → ro_egress r = e → valid_row admin r.
Proof.
  unfold check_row. intros Hc r <- <- <- <- <-.
  match type of Hc with match ?x with _ => _ end = _ => destruct x as [c|] eqn:Hr end; [subst c|done].
  inv_ok; try discriminate; simplify_eq. split.
  - match goal with H : validate_name _ = Ok _ |- _ => by pose proof (validate_name_inv _ _ H); subst end.
  - match goal with H : validate_silo_uid _ _ _ = Ok _ |- _ => by pose proof (validate_silo_uid_inv _ _ _ _ H); subst end.
  - eapply validate_launch_again; done.
  - eapply validate_egress_again; done.
Qed.

(** Every entry is filed under its name and passes the validators *)
Definition loaded_ok (admin : Z) (ld : loaded) : Prop :=
  NoDup (keys (ld_silos ld)) ∧
  ∀ n s, (n, s) ∈ ld_silos ld → si_name s = n ∧ valid_row admin (to_row s).

Lemma load_row_ok fi admin acc row acc' :
  load_row fi admin acc row = Ok acc' → loaded_ok admin acc → loaded_ok admin acc'.
Proof.
  intros Hl [Hnd Hok]. unfold load_row in Hl. inv_ok; try done. split; [by apply od_set_NoDup|].
  intros n s' [[= -> ->]|Hin]%od_set_elem; [|by apply Hok].
  split; [done|]. eapply check_row_good; [done|done..].
Qed.

Lemma load_rows_ok fi admin rows acc acc' :
  load_rows fi admin acc rows = Ok acc' → loaded_ok admin acc → loaded_ok admin acc'.
Proof.
  revert acc. induction rows as [|r rows IH]; simpl; intros acc Hl Hok; inv_ok; [done|].
  eapply IH; [done|]. by eapply load_row_ok.
Qed.

(** C18: Every row from disk is validated field by field. Whatever the file holds, every row
    [load] activates is filed under its own name, once, and its name, its uid for its kind,
    its launch stanza for its kind and its egress text pass the validators [create] runs on
    these fields. One more check of [create], that only a tier3-user silo may have an egress,
    is not repeated on load. *)
Theorem load_validates fi admin data ld :
  load fi admin data = Ok ld →
  NoDup (keys (ld_silos ld)) ∧
  ∀ n s, (n, s) ∈ ld_silos ld → si_name s = n ∧ valid_row admin (to_row s).
Proof.
  unfold load. intros Hl. assert (∀ qs, loaded_ok admin {| ld_silos := []; ld_quarantined := qs |}) as H0.
  { intros qs. split; [constructor|]. by intros n s ?%not_elem_of_nil. }
  destruct data as [[]|]; inv_ok; try apply H0. by eapply load_rows_ok, H0.
Qed.

(** *** Reading back what was saved *)

(** The value of a row [_silos_yaml_render] writes: the egress line and the launch stanza
    only where the silo has them *)
Definition row_value (r : Row) : pyval :=
  PDict ([(PStr "name", PStr (ro_name r)); (PStr "uid", PInt (ro_uid r));
          (PStr "state", PStr (state_text (ro_state r))); (PStr "autostart", PBool (ro_autostart r));
          (PStr "created_at", PInt (ro_created_at r)); (PStr "last_change", PInt (ro_last_change r));
          (PStr "kind", PStr (kind_text (ro_kind r)))] ++
         (if ro_egress r is Some e then [(PStr "egress", PStr e)] else []) ++
         (if ro_launch r is Some _ then [(PStr "launch", launch_value (ro_launch r))] else [])).
Definition saved_value (rows : list Row) : pyval := PDict [(PStr "silos", PList (row_value <$> rows))].

Lemma state_of_text_text st : state_of_text (state_text st) = Some st.
Proof. by destruct st. Qed.

Lemma validate_kind_text k : validate_kind (PStr (kind_text k)) = Ok k.
Proof. by destruct k. Qed.

Lemma int_field_int fi d key z : dict_find d key = Some (PInt z) → int_field fi d key = Ok z.
Proof.
  intros Hd. unfold int_field, dict_or. rewrite Hd. simpl.
  destruct (Z.eqb_spec z 0) as [->|]; done.
Qed.

Lemma check_row_saved admin r d :
  valid_row admin r → dict_find d "kind" = Some (PStr (kind_text (ro_kind r))) →
  dict_get d "egress" = egress_value (ro_egress r) →
  (let v := dict_or d "launch" (PDict []) in if pytruthy v then v else PDict []) = launch_value (ro_launch r) →
  check_row admin d (ro_name r) (ro_uid r) = CR_good (ro_kind r) (ro_launch r) (ro_egress r).
Proof.
  intros [Hn Hu Hl He] Hk Heg Hla. unfold check_row. rewrite Hn. unfold dict_or at 1. rewrite Hk. cbn [default from_option id result_bind].
  rewrite validate_kind_text. cbn [result_bind]. simpl in Hla. rewrite Hla, Heg, Hl, He, Hu. cbn [result_bind].
  unfold validate_silo_uid in Hu. destruct (admin_owned (ro_kind r)); [|done].
  by destruct (ro_uid r =? admin)%Z.
Qed.

Lemma load_row_saved fi admin acc r :
  valid_row admin r →
  load_row fi admin acc (row_value r) =
    Ok {| ld_silos := od_set (ld_silos acc) (ro_name r) (new_silo r); ld_quarantined := ld_quarantined acc |}.
Proof.
  intros Hv. unfold row_value, load_row. set (d := _ ++ _).
  assert (dict_get d "name" = PStr (ro_name r)) as -> by done.
  assert (dict_get d "uid" = PInt (ro_uid r)) as -> by done. cbn [as_str as_int].
  rewrite (check_row_saved admin r d); [|done|done|by subst d; destruct (ro_egress r), (ro_launch r)..].
  assert (state_field d = Ok (ro_state r)) as -> by (by subst d; unfold state_field, row_value; destruct r as [? ? [] ? ? ? ? ? ?]).
  rewrite (int_field_int fi d "created_at" (ro_created_at r)), (int_field_int fi d "last_change" (ro_last_change r)) by done.
  cbn [result_bind]. destruct r; done.
Qed.

Lemma load_rows_saved fi admin rows acc :
  Forall (valid_row admin) rows → NoDup (keys (ld_silos acc) ++ (ro_name <$> rows)) →
  load_rows fi admin acc (row_value <$> rows) =
    Ok {| ld_silos := ld_silos acc ++ ((λ r, (ro_name r, new_silo r)) <$> rows); ld_quarantined := ld_quarantined acc |}.
Proof.
  revert acc. induction rows as [|r rows IH]; intros acc Hv Hnd.
  { simpl. rewrite app_nil_r. by destruct acc. }
  apply Forall_cons in Hv as [Hr Hv]. rewrite !fmap_cons. cbn [load_rows]. rewrite load_row_saved by done.
  cbn [result_bind]. rewrite fmap_cons in Hnd.
  assert (ro_name r ∉ keys (ld_silos acc)) as Hfresh.
  { apply NoDup_app in Hnd as (_ & Hd & _). intros Hin. apply (Hd _ Hin). by constructor. }
  rewrite IH; [|done|].
  - cbn [ld_silos ld_quarantined]. rewrite od_set_fresh by done. by rewrite <- app_assoc.
  - cbn [ld_silos]. rewrite od_set_fresh by done. unfold keys in *. rewrite fmap_app. simpl. by rewrite <- app_assoc.
Qed.

(** a restart loses nothing. Loading what a save wrote gives back every row that passes
    the validators, in order, with the persisted fields unchanged and the observation
    reset. *)
Theorem load_saved_rows fi admin rows :
  Forall (valid_row admin) rows → NoDup (ro_name <$> rows) →
  load fi admin (Some (saved_value rows)) =
    Ok {| ld_silos := (λ r, (ro_name r, new_silo r)) <$> rows; ld_quarantined := [] |}.
Proof.
  intros Hv Hnd. unfold load, saved_value. change (rows_of _ "quarantined_silos") with (Ok [] : result load_error (list pyval)).
  cbn [load_quarantined result_bind].
  assert (rows_of [(PStr "silos", PList (row_value <$> rows))] "silos" = Ok (row_value <$> rows)) as -> by (by destruct rows).
  cbn [result_bind]. by rewrite load_rows_saved.
Qed.

(** ** The two theorems on a concrete file *)

Definition sample_row : Row :=
  {| ro_name := "web"; ro_uid := 2001; ro_state := STOPPED; ro_autostart := true; ro_created_at := 7;
     ro_last_change := 9; ro_kind := KIND_TIER3_USER; ro_launch := None; ro_egress := Some "direct" |}.

Lemma sample_row_valid : valid_row 1000 sample_row.
Proof. split; by vm_compute. Qed.

(** A file with a good row, a row with a bad name and a row that is no mapping *)
Definition sample_file : pyval :=
  PDict [(PStr "silos", PList [row_value sample_row; PDict [(PStr "name", PStr "../x"); (PStr "uid", PInt 2002)]; PNone])].

Lemma load_validates_witness :
  load (λ _, None) 1000 (Some sample_file) =
    Ok {| ld_silos := [("web", new_silo sample_row)]; ld_quarantined := [] |} ∧
  valid_row 1000 sample_row.
Proof.
  assert (load (λ _, None) 1000 (Some sample_file) =
    Ok {| ld_silos := [("web", new_silo sample_row)]; ld_quarantined := [] |}) as Hl by (vm_compute; reflexivity).
  split; [exact Hl|].
  apply (proj2 (load_validates (λ _, None) 1000 (Some sample_file) _ Hl) "web" (new_silo sample_row)). by left.
Defined.

Lemma load_saved_rows_witness :
  load (λ _, None) 1000 (Some (saved_value [sample_row])) =
    Ok {| ld_silos := [("web", new_silo sample_row)]; ld_quarantined := [] |}.
Proof.
  apply (load_saved_rows (λ _, None) 1000 [sample_row]).
  - apply Forall_singleton, sample_row_valid.
  - apply NoDup_singleton.
Defined.

End Silos.
