(* ===== verification/SiloStore.v ===== *)
(** * The silo store (qdistro_session_manager.py, class _SiloStore)

    The registry of silos with its lifecycle operations. Several threads call it. Every
    operation is written as the regions the code runs under the store lock and the work it
    does between them without the lock; a region is one step, and what a thread carries from
    one region to the next is its program counter. A silo row is an object: threads keep
    references to it while the table may be changed under them.

    Every call of the system layer, [self._ops], is logged with the answer it got, and so
    are the saves of silos.yaml and the change signals. Answers are arbitrary: a [world]
    gives one for every call, and may give an exception. *)

From S2P Require Import Prelude SiloEgress SiloData.
From Stdlib Require Import ZArith.

Module Store.
Import Silos.

(** ** The system layer *)

(** The calls of [_SystemOps] the store makes. [O_start], [O_stop] and [O_running] name the
    launcher unit of a silo by kind and name: [systemctl_start] or [tier3s_systemctl_start],
    [systemctl_stop], and [tier2_silo_running] or [tier3s_silo_running]. The egress
    sequences, which never touch the registry, are one call each. *)
Inductive sysop :=
| O_save
| O_emit (n what : string)
| O_audit (action n : string)
| O_profile
| O_observe (k : Kind) (n : string)
| O_start (k : Kind) (n : string)
| O_stop (k : Kind) (n : string)
| O_running (k : Kind) (n : string)
| O_tier3s_cleanup (n : string)
| O_start_refusal (n : string)
| O_write_env (k : Kind) (n : string)
| O_remove_env (k : Kind) (n : string)
| O_cgroup_create (n : string)
| O_cgroup_remove (n : string)
| O_cgroup_freeze (n : string) (frozen : bool)
| O_cgroup_pids (n : string)
| O_kill (pids : list Z) (hard : bool)
| O_nft_clear (uid : Z)
| O_netns_exists (n : string)
| O_apply_egress (n : string)
| O_teardown_egress (n : string)
| O_force_clear_egress (n : string)
| O_freeze_unresolved (n : string)
| O_thaw_unresolved (n : string)
| O_user_exists (n : string)
| O_uid_exists (uid : Z)
| O_user_uid_matches (n : string) (uid : Z)
| O_useradd (n : string) (uid : Z)
| O_userdel (n : string)
| O_install_skill (n : string)
| O_list_policies
| O_policy_uids (n : string)
| O_write_policy (n : string) (uid : Z)
| O_remove_policy (n : string) (reload : bool)
| O_reload_dbus
| O_link (n : string)
| O_restore_link (n : string)
| O_unlink (n : string)
| O_make_state_dir (n : string)
| O_remove_state_dir (n : string).

Inductive answer :=
| A_done
| A_bool (b : bool)
| A_text (s : string)
| A_status (status reason : string)
| A_names (l : list string)
| A_uids (l : option (list Z))
| A_pids (l : list Z)
| A_raise (e : exn).

Record event := Ev { ev_op : sysop; ev_answer : answer }.

(** What a step meets: the answers, which may depend on all that was called before, the
    clocks, the uid of the admin account, a drawn launch token and how often a grace or
    reap deadline lets the stop path poll. *)
Record world := {
  w_answer : list event → sysop → answer;
  w_now : Z;
  w_mono : Z;
  w_admin : Z;
  w_token : string;
  w_polls : nat;
}.

(** ** Threads *)

Inductive start_outcome :=
| L_done (reason : string)
| L_unresolved
| L_survived
| L_refused (refusal : string)
| L_failed (e : exn).

(** What the lock-free half of a stop asks the locked half to record: Stopped, or Active with
    the error, or Stopped with the error *)
Inductive stop_outcome := X_done | X_active (e : exn) | X_stopped (e : exn).

Inductive pc :=
| P_round (r : nat)
| P_probe (o gen r : nat)
| P_probed (o gen r : nat) (status reason : string) (dead : bool)
| P_launch (o claim : nat)
| P_launched (o claim : nat) (out : start_outcome)
| P_stop (o claim : nat)
| P_stopped (o claim : nat) (out : stop_outcome)
| P_freeze (frozen : bool) (o claim : nat)
| P_froze (frozen : bool) (o claim : nat) (err : option exn)
| P_backstop (claim : nat) (r : result exn string)
| P_create (row : Row)
| P_create_commit (row : Row)
| P_create_undo (row : Row) (e : exn)
| P_create_exit (r : result exn string)
| P_delete
| P_delete_purge (o : nat)
| P_delete_commit (o : nat)
| P_deleting (o : nat)
| P_delete_done (o : nat) (failed : option exn)
| P_observe (targets : list (nat * nat))
| P_observed (o gen : nat) (status reason : string) (began : Z) (targets : list (nat * nat)).

Inductive action := ACreate | ADelete | AEgress | AStart | AStop | AFreeze | AResume | AObserve.

Record thread := { t_action : action; t_name : string; t_pc : pc }.

(** A thread goes on at a program counter, or its call ends *)
Inductive next := Go (p : pc) | End (r : result exn string).

(** ** The store *)

Inductive audit_reason := AR_text (s : string) | AR_error (e : exn).
Record audit_row := { au_action : action; au_silo : string; au_decision : string; au_reason : audit_reason }.

(** [_silos] maps names to objects; [_stopping_inflight] maps names to claim tokens and
    [_creating_inflight] names to uids; [st_accounts] is the thread that holds
    [_accounts_lock]. [st_disk] is the content of silos.yaml, [st_log] the calls made,
    latest first. *)
Record store := {
  st_table : list (string * nat);
  st_heap : gmap nat Silo;
  st_inflight : gmap string nat;
  st_creating : gmap string Z;
  st_accounts : option nat;
  st_fresh : nat;
  st_disk : list Row;
  st_log : list event;
  st_audit : list audit_row;
  st_threads : gmap nat thread;
}.

Definition set_table (t : list (string * nat)) (s : store) : store :=
  {| st_table := t; st_heap := st_heap s; st_inflight := st_inflight s; st_creating := st_creating s;
     st_accounts := st_accounts s; st_fresh := st_fresh s; st_disk := st_disk s; st_log := st_log s;
     st_audit := st_audit s; st_threads := st_threads s |}.
Definition set_heap (h : gmap nat Silo) (s : store) : store :=
  {| st_table := st_table s; st_heap := h; st_inflight := st_inflight s; st_creating := st_creating s;
     st_accounts := st_accounts s; st_fresh := st_fresh s; st_disk := st_disk s; st_log := st_log s;
     st_audit := st_audit s; st_threads := st_threads s |}.
Definition set_inflight (i : gmap string nat) (s : store) : store :=
  {| st_table := st_table s; st_heap := st_heap s; st_inflight := i; st_creating := st_creating s;
     st_accounts := st_accounts s; st_fresh := st_fresh s; st_disk := st_disk s; st_log := st_log s;
     st_audit := st_audit s; st_threads := st_threads s |}.
Definition set_creating (c : gmap string Z) (s : store) : store :=
  {| st_table := st_table s; st_heap := st_heap s; st_inflight := st_inflight s; st_creating := c;
     st_accounts := st_accounts s; st_fresh := st_fresh s; st_disk := st_disk s; st_log := st_log s;
     st_audit := st_audit s; st_threads := st_threads s |}.
Definition set_accounts (a : option nat) (s : store) : store :=
  {| st_table := st_table s; st_heap := st_heap s; st_inflight := st_inflight s; st_creating := st_creating s;
     st_accounts := a; st_fresh := st_fresh s; st_disk := st_disk s; st_log := st_log s;
     st_audit := st_audit s; st_threads := st_threads s |}.
Definition set_fresh (n : nat) (s : store) : store :=
  {| st_table := st_table s; st_heap := st_heap s; st_inflight := st_inflight s; st_creating := st_creating s;
     st_accounts := st_accounts s; st_fresh := n; st_disk := st_disk s; st_log := st_log s;
     st_audit := st_audit s; st_threads := st_threads s |}.
Definition set_disk (d : list Row) (s : store) : store :=
  {| st_table := st_table s; st_heap := st_heap s; st_inflight := st_inflight s; st_creating := st_creating s;
     st_accounts := st_accounts s; st_fresh := st_fresh s; st_disk := d; st_log := st_log s;
     st_audit := st_audit s; st_threads := st_threads s |}.
Definition set_log (l : list event) (s : store) : store :=
  {| st_table := st_table s; st_heap := st_heap s; st_inflight := st_inflight s; st_creating := st_creating s;
     st_accounts := st_accounts s; st_fresh := st_fresh s; st_disk := st_disk s; st_log := l;
     st_audit := st_audit s; st_threads := st_threads s |}.
Definition set_audit (a : list audit_row) (s : store) : store :=
  {| st_table := st_table s; st_heap := st_heap s; st_inflight := st_inflight s; st_creating := st_creating s;
     st_accounts := st_accounts s; st_fresh := st_fresh s; st_disk := st_disk s; st_log := st_log s;
     st_audit := a; st_threads := st_threads s |}.
Definition set_threads (t : gmap nat thread) (s : store) : store :=
  {| st_table := st_table s; st_heap := st_heap s; st_inflight := st_inflight s; st_creating := st_creating s;
     st_accounts := st_accounts s; st_fresh := st_fresh s; st_disk := st_disk s; st_log := st_log s;
     st_audit := st_audit s; st_threads := t |}.

(** ** Effects: the store, the world and exceptions *)

Definition M (A : Type) : Type := world → store → store * result exn A.

#[export] Instance M_ret : MRet M := λ A a w st, (st, Ok a).
#[export] Instance M_bind : MBind M := λ A B f m w st,
  match m w st with
  | (st', Ok a) => f a w st'
  | (st', Err e) => (st', Err e)
  end.

Definition raise {A} (e : exn) : M A := λ w st, (st, Err e).
Definition ask {A} (f : world → A) : M A := λ w st, (st, Ok (f w)).
Definition gets {A} (f : store → A) : M A := λ w st, (st, Ok (f st)).
Definition modify (f : store → store) : M unit := λ w st, (f st, Ok tt).
(** [try: m except Exception as e: ...], the outcome as a value *)
Definition attempt {A} (m : M A) : M (result exn A) := λ w st, let '(st', r) := m w st in (st', Ok r).

(** One call of the system layer *)
Definition ops (o : sysop) : M answer := λ w st,
  let a := w_answer w (st_log st) o in
  (set_log (Ev o a :: st_log st) st, match a with A_raise e => Err e | _ => Ok a end).
Definition ops_ (o : sysop) : M unit := _ ← ops o; mret tt.
Definition ops_bool (o : sysop) : M bool :=
  a ← ops o; match a with A_bool b => mret b | _ => raise (OtherError "bool") end.
Definition ops_text (o : sysop) : M string :=
  a ← ops o; match a with A_text s => mret s | _ => raise (OtherError "str") end.
Definition ops_status (o : sysop) : M (string * string) :=
  a ← ops o; match a with A_status s r => mret (s, r) | _ => raise (OtherError "tuple") end.
Definition ops_names (o : sysop) : M (list string) :=
  a ← ops o; match a with A_names l => mret l | _ => raise (OtherError "list") end.
Definition ops_uids (o : sysop) : M (option (list Z)) :=
  a ← ops o; match a with A_uids l => mret l | _ => raise (OtherError "list") end.
Definition ops_pids (o : sysop) : M (list Z) :=
  a ← ops o; match a with A_pids l => mret l | _ => raise (OtherError "list") end.

(** A best-effort call: a failure is logged by the code and ignored *)
Definition best_effort (o : sysop) : M unit := _ ← attempt (ops_ o); mret tt.

(** ** Rows *)

Definition with_state (s : State) (changed : Z) (x : Silo) : Silo :=
  {| si_name := si_name x; si_uid := si_uid x; si_state := s; si_autostart := si_autostart x;
     si_created_at := si_created_at x; si_last_change := changed; si_kind := si_kind x;
     si_launch := si_launch x; si_egress := si_egress x; si_observed := si_observed x;
     si_observed_at := si_observed_at x; si_observed_monotonic := si_observed_monotonic x;
     si_generation := si_generation x; si_start_unresolved := si_start_unresolved x |}.
Definition with_egress (e : option string) (x : Silo) : Silo :=
  {| si_name := si_name x; si_uid := si_uid x; si_state := si_state x; si_autostart := si_autostart x;
     si_created_at := si_created_at x; si_last_change := si_last_change x; si_kind := si_kind x;
     si_launch := si_launch x; si_egress := e; si_observed := si_observed x;
     si_observed_at := si_observed_at x; si_observed_monotonic := si_observed_monotonic x;
     si_generation := si_generation x; si_start_unresolved := si_start_unresolved x |}.
Definition with_observed (o : string * string) (at_ mono : Z) (x : Silo) : Silo :=
  {| si_name := si_name x; si_uid := si_uid x; si_state := si_state x; si_autostart := si_autostart x;
     si_created_at := si_created_at x; si_last_change := si_last_change x; si_kind := si_kind x;
     si_launch := si_launch x; si_egress := si_egress x; si_observed := o;
     si_observed_at := at_; si_observed_monotonic := mono;
     si_generation := si_generation x; si_start_unresolved := si_start_unresolved x |}.
Definition with_generation (g : nat) (u : bool) (x : Silo) : Silo :=
  {| si_name := si_name x; si_uid := si_uid x; si_state := si_state x; si_autostart := si_autostart x;
     si_created_at := si_created_at x; si_last_change := si_last_change x; si_kind := si_kind x;
     si_launch := si_launch x; si_egress := si_egress x; si_observed := si_observed x;
     si_observed_at := si_observed_at x; si_observed_monotonic := si_observed_monotonic x;
     si_generation := g; si_start_unresolved := u |}.

(** The object a reference names *)
Definition obj (o : nat) : M Silo :=
  h ← gets st_heap; match h !! o with Some s => mret s | None => raise (OtherError "object") end.
(** An assignment to fields of an object *)
Definition assign (o : nat) (f : Silo → Silo) : M unit := modify (λ st, set_heap (alter f o (st_heap st)) st).

(** The rows [save] writes: the objects of the table, in its order *)
Definition table_rows (st : store) : list Row :=
  omap (λ p, to_row <$> st_heap st !! p.2) (st_table st).

(** [save]: the new file replaces the old one, or an error leaves the old one in place *)
Definition save : M unit :=
  ops_ O_save;; modify (λ st, set_disk (table_rows st) st).

(** [_emit_change] *)
Definition emit_change (n what : string) : M unit := best_effort (O_emit n what).

(** [get] *)
Definition get (n : string) : M nat :=
  t ← gets st_table; match od_get t n with Some o => mret o | None => raise (UnknownSilo n) end.

(** [_invalidate_observation] *)
Definition invalidate_observation (o : nat) : M unit :=
  now ← ask w_now; mono ← ask w_mono;
  assign o (λ s, with_observed ("unknown", "lifecycle operation changed; observation pending") now mono
                   (with_generation (S (si_generation s))
                      (si_start_unresolved s && negb (bool_decide (si_state s = STOPPED))) s)).

(** [_transition] *)
Definition transition (o : nat) (new : State) : M unit :=
  s ← obj o;
  if negb (bool_decide (new ∈ STATE_TRANSITIONS (si_state s))) then raise (BadState (si_name s) (si_state s) new)
  else
    now ← ask w_now;
    assign o (with_state new now);;
    r ← attempt save;
    match r with
    | Err e => assign o (with_state (si_state s) (si_last_change s));; raise e
    | Ok _ => invalidate_observation o;; emit_change (si_name s) (state_text new)
    end.

(** [_force_state] *)
Definition force_state (o : nat) (new : State) : M unit :=
  s ← obj o;
  now ← ask w_now;
  assign o (with_state new now);;
  save;;
  invalidate_observation o;;
  emit_change (si_name s) (state_text new).

(** [_claim_stop_inflight] *)
Definition claim_stop_inflight (n : string) : M nat :=
  c ← gets st_fresh;
  modify (set_fresh (S c));;
  modify (λ st, set_inflight (<[n := c]> (st_inflight st)) st);;
  mret c.

(** [_clear_stop_inflight]: only the claim's owner releases it *)
Definition clear_stop_inflight (n : string) (claim : nat) : M unit :=
  modify (λ st, if bool_decide (st_inflight st !! n = Some claim)
                then set_inflight (delete n (st_inflight st)) st else st).

(** [_await_inflight_locked]: a waiter either comes back when the slot is free or gives up
    with the slot still claimed *)
Definition await_inflight_locked (n : string) : M nat :=
  o ← get n;
  i ← gets st_inflight;
  match i !! n with None => mret o | Some _ => raise (SiloBusy (Busy_inflight n)) end.

(** [_refuse_unless_deletable] *)
Definition refuse_unless_deletable (o : nat) : M unit :=
  s ← obj o;
  if bool_decide (si_state s ∈ [CREATED; STOPPED]) then mret tt
  else raise (SiloBusy (Busy_state (si_name s) (si_state s))).

(** [_is_netns_backed] *)
Definition is_netns_backed (s : Silo) : bool :=
  bool_decide (si_kind s = KIND_TIER3_USER) && bool_decide (is_Some (si_egress s)).

(** [_require_tier3s_profile] *)
Definition require_tier3s_profile : M unit :=
  p ← ops_text O_profile;
  if bool_decide (p = "dev") then mret tt else raise (BadArgument (BA_profile p)).

(** ** Starting *)

(** [_claim_start_locked] *)
Definition claim_start_locked (o : nat) : M nat :=
  s ← obj o;
  (if bool_decide (si_kind s = KIND_TIER3S) then require_tier3s_profile else mret tt);;
  transition o ACTIVE;;
  claim_stop_inflight (si_name s).

(** [_launch_silo_body] *)
Definition launch_silo_body (s : Silo) : M string :=
  let n := si_name s in
  match si_kind s with
  | KIND_TIER3S =>
      token ← ask w_token;
      ops_ (O_write_env KIND_TIER3S n);;
      ops_ (O_start KIND_TIER3S n);;
      mret ("started (tier3s token " +:+ token +:+ ")")
  | KIND_TIER2_TEMPLATE =>
      ops_ (O_write_env KIND_TIER2_TEMPLATE n);;
      ops_ (O_start KIND_TIER2_TEMPLATE n);;
      mret "started"
  | KIND_TIER3_USER =>
      ops_ (O_cgroup_create n);;
      best_effort (O_cgroup_freeze n false);;
      (if is_netns_backed s then ops_ (O_apply_egress n)
       else
         ops_ (O_nft_clear (si_uid s));;
         stale ← ops_bool (O_netns_exists n);
         if stale : bool then best_effort (O_force_clear_egress n) else mret tt);;
      ops_ (O_start KIND_TIER3_USER n);;
      mret "started"
  end.

(** The lock-free half of a start: [body()] of [_run_start_body], and on a failure the checks
    and the teardown [_handle_start_failure] and [_fail_tier3s_start] do before they take
    the lock *)
Definition start_body (s : Silo) : M start_outcome :=
  let n := si_name s in
  r ← attempt (launch_silo_body s);
  match r with
  | Ok reason => mret (L_done reason)
  | Err (StartNotCancelled _) => mret L_unresolved
  | Err e =>
      if bool_decide (si_kind s = KIND_TIER3S) then
        v ← attempt (ops_bool (O_running KIND_TIER3S n));
        match v with
        | Ok false =>
            f ← attempt (ops_text (O_start_refusal n));
            mret (L_refused (match f with Ok t => t | Err _ => "" end))
        | _ => mret L_survived
        end
      else
        (if is_netns_backed s then best_effort (O_teardown_egress n) else mret tt);;
        mret (L_failed e)
  end.

Definition set_reason (status : option string) (reason : string) (s : Silo) : Silo :=
  with_observed (default (si_observed s).1 status, reason) (si_observed_at s) (si_observed_monotonic s) s.
Definition set_unresolved (s : Silo) : Silo := with_generation (si_generation s) true s.

(** The locked half: the tail of [_run_start_body], and the commits of
    [_handle_start_failure] and [_fail_tier3s_start] *)
Definition start_commit (n : string) (o claim : nat) (out : start_outcome) : M string :=
  match out with
  | L_done reason =>
      invalidate_observation o;;
      clear_stop_inflight n claim;;
      mret reason
  | L_unresolved =>
      clear_stop_inflight n claim;;
      force_state o ACTIVE;;
      assign o set_unresolved;;
      assign o (set_reason None "start outcome unresolved; stop before retry");;
      raise (StartNotCancelled n)
  | L_survived =>
      clear_stop_inflight n claim;;
      force_state o ACTIVE;;
      assign o set_unresolved;;
      assign o (set_reason None "start failed, teardown unverified; stop before retry");;
      raise (StartNotCancelled n)
  | L_refused refusal =>
      clear_stop_inflight n claim;;
      force_state o STOPPED;;
      assign o (set_reason (Some "failed")
                  (str_take 200 (if truthy refusal then refusal else "launch refused or failed before it ran")));;
      raise (SessionError (SE_start_refused n refusal))
  | L_failed e =>
      clear_stop_inflight n claim;;
      force_state o STOPPED;;
      assign o (set_reason (Some "failed") "launcher start failed");;
      raise (if is_session_error e then e else SessionError (SE_start_failed n))
  end.

(** [_dead_confirmed] *)
Definition dead_confirmed (s : Silo) (observed : string) : M (bool * string) :=
  match si_kind s with
  | KIND_TIER3_USER => mret (true, observed)
  | k =>
      r ← attempt (ops_bool (O_running k (si_name s)));
      match r with
      | Ok false => mret (true, observed)
      | Ok true => mret (false, match k with
                                | KIND_TIER3S => "launcher is down but teardown evidence survives"
                                | _ => "launcher is down but the container may still exist"
                                end)
      | Err _ => mret (false, "liveness verifier failed")
      end
  end.

(** One round of [start] under the lock: the first half of its loop *)
Definition start_round (n : string) (r : nat) : M next :=
  o ← await_inflight_locked n;
  s ← obj o;
  if negb (bool_decide (si_state s = ACTIVE)) then
    c ← claim_start_locked o; mret (Go (P_launch o c))
  else mret (Go (P_probe o (si_generation s) r)).

(** The probe of an Active silo, without the lock *)
Definition start_probe (o gen r : nat) : M next :=
  s ← obj o;
  p ← attempt (ops_status (O_observe (si_kind s) (si_name s)));
  let '(status, reason) := match p with Ok x => x | Err _ => ("unknown", "runtime probe failed") end in
  d ← (if bool_decide (status ∈ ["stopped"; "failed"]) then dead_confirmed s reason else mret (false, reason));
  mret (Go (P_probed o gen r status d.2 d.1)).

(** [if not (row is the probed object at the probed generation, its slot free): continue] *)
Definition probe_raced (n : string) (o gen : nat) (st : store) : bool :=
  negb (bool_decide (od_get (st_table st) n = Some o)) ||
  negb (bool_decide (si_generation <$> st_heap st !! o = Some gen)) ||
  bool_decide (is_Some (st_inflight st !! n)).

(** The second half of the loop, under the lock *)
Definition start_verdict (n : string) (o gen r : nat) (status reason : string) (dead : bool) : M next :=
  raced ← gets (probe_raced n o gen);
  if raced : bool then
    if (r <? 3)%nat then mret (Go (P_round (S r))) else raise (SessionError (SE_unsettled n))
  else if bool_decide (status ∈ ["launcher-running"; "starting"]) then
    mret (End (Ok "already active (idempotent)"))
  else if dead then
    force_state o STOPPED;;
    c ← claim_start_locked o; mret (Go (P_launch o c))
  else raise (SessionError (SE_unverified reason)).

(** ** Stopping *)

(** [_stop_impl], phase 1 *)
Definition stop_begin (n : string) : M next :=
  o ← await_inflight_locked n;
  s ← obj o;
  if bool_decide (si_state s = STOPPED) then mret (End (Ok "stopped"))
  else if negb (bool_decide (si_state s ∈ [ACTIVE; FROZEN])) then raise (BadState (si_name s) (si_state s) STOPPING)
  else
    transition o STOPPING;;
    c ← claim_stop_inflight (si_name s);
    mret (Go (P_stop o c)).

(** A poll of the cgroup until it is empty, unreadable, or the deadline has passed *)
Fixpoint poll_cgroup (n : string) (polls : nat) : M unit :=
  match polls with
  | 0 => mret tt
  | S k =>
      r ← attempt (ops_pids (O_cgroup_pids n));
      match r with Ok (_ :: _) => poll_cgroup n k | _ => mret tt end
  end.

Definition pids_or_none (n : string) : M (list Z) :=
  r ← attempt (ops_pids (O_cgroup_pids n)); mret (match r with Ok l => l | Err _ => [] end).

(** The kill sweep of a cgroup-backed stop and the removal of the cgroup *)
Definition stop_sweep (n : string) : M unit :=
  polls ← ask w_polls;
  pids ← pids_or_none n;
  (match pids with
   | [] => mret tt
   | _ =>
       ops_ (O_kill pids false);;
       poll_cgroup n polls;;
       remaining ← pids_or_none n;
       match remaining with [] => mret tt | _ => ops_ (O_kill remaining true) end
   end);;
  poll_cgroup n polls;;
  r ← attempt (ops_ (O_cgroup_remove n));
  match r with
  | Ok _ | Err (OSError _) => mret tt
  | Err e => raise e
  end.

Definition typed (n : string) (e : exn) : exn := if is_session_error e then e else SessionError (SE_stop_failed n).

(** Phase 2 for a cgroup-backed silo *)
Definition stop_tier3_user (n : string) : M stop_outcome :=
  best_effort (O_cgroup_freeze n false);;
  d ← attempt (ops_bool (O_stop KIND_TIER3_USER n));
  match d with
  | Err e => mret (X_active (typed n e))
  | Ok done =>
      r ← attempt (stop_sweep n;; if done : bool then best_effort (O_teardown_egress n) else mret tt);
      match r with
      | Err e => mret (if done : bool then X_stopped (typed n e) else X_active (typed n e))
      | Ok _ => mret (if done : bool then X_done else X_active (SessionError (SE_stop_unacknowledged n)))
      end
  end.

(** The verdict of the two container-backed branches: Stopped only when the stop was
    acknowledged and nothing survives *)
Definition stop_verdict (k : Kind) (n : string) (r : result exn (bool * bool)) : M stop_outcome :=
  match r with
  | Err _ => mret (X_active (SessionError (SE_stop_failed n)))
  | Ok (done, survived) =>
      if survived : bool then mret (X_active (SessionError (SE_stop_survived n)))
      else if negb done then mret (X_active (SessionError (SE_stop_unacknowledged n)))
      else best_effort (O_remove_env k n);; mret X_done
  end.

Definition stop_tier2 (n : string) : M stop_outcome :=
  r ← attempt (d ← ops_bool (O_stop KIND_TIER2_TEMPLATE n);
               s ← ops_bool (O_running KIND_TIER2_TEMPLATE n); mret (d, s));
  stop_verdict KIND_TIER2_TEMPLATE n r.

(** [_stop_tier3s] *)
Definition stop_tier3s (n : string) : M stop_outcome :=
  r ← attempt (d ← ops_bool (O_stop KIND_TIER3S n);
               s ← ops_bool (O_running KIND_TIER3S n);
               if s && d then
                 ops_ (O_tier3s_cleanup n);;
                 s' ← ops_bool (O_running KIND_TIER3S n); mret (d, s')
               else mret (d, s));
  stop_verdict KIND_TIER3S n r.

Definition stop_body (s : Silo) : M stop_outcome :=
  match si_kind s with
  | KIND_TIER3_USER => stop_tier3_user (si_name s)
  | KIND_TIER2_TEMPLATE => stop_tier2 (si_name s)
  | KIND_TIER3S => stop_tier3s (si_name s)
  end.

(** Phase 3, and the commits of the failure branches *)
Definition stop_commit (n : string) (o claim : nat) (out : stop_outcome) : M string :=
  clear_stop_inflight n claim;;
  match out with
  | X_done => transition o STOPPED;; mret "stopped"
  | X_active e => force_state o ACTIVE;; raise e
  | X_stopped e => force_state o STOPPED;; raise e
  end.

(** ** Freezing *)

(** [freeze] and [resume] under the lock; [frozen] says which *)
Definition freeze_begin (frozen : bool) (n : string) : M next :=
  o ← await_inflight_locked n;
  s ← obj o;
  let here := if frozen then FROZEN else ACTIVE in
  let from := if frozen then ACTIVE else FROZEN in
  let pending := if frozen then O_thaw_unresolved n else O_freeze_unresolved n in
  if bool_decide (si_kind s = KIND_TIER3S) then raise (BadArgument BA_freeze_tier3s)
  else if bool_decide (si_state s = here) then
    u ← ops_bool pending;
    if u : bool then c ← claim_stop_inflight (si_name s); mret (Go (P_freeze frozen o c))
    else mret (End (Ok (if frozen then "already frozen (idempotent)" else "already active (idempotent)")))
  else if negb (bool_decide (si_state s = from)) then raise (BadState (si_name s) (si_state s) here)
  else c ← claim_stop_inflight (si_name s); mret (Go (P_freeze frozen o c)).

(** The [finally] block and what follows it *)
Definition freeze_commit (n : string) (frozen : bool) (o claim : nat) (err : option exn) : M next :=
  clear_stop_inflight n claim;;
  t ← gets st_table;
  h ← gets st_heap;
  let from := if frozen then ACTIVE else FROZEN in
  (if (match err with None => true | Some _ => false end) && bool_decide (od_get t n = Some o)
      && bool_decide (si_state <$> h !! o = Some from)
   then transition o (if frozen then FROZEN else ACTIVE) else mret tt);;
  match err with
  | Some e => raise e
  | None => mret (End (Ok (if frozen then "frozen" else "resumed")))
  end.

(** ** Relay grants *)

(** The uids of the tier-3 rows by name *)
Definition relay_want (st : store) : list (string * Z) :=
  omap (λ p, match st_heap st !! p.2 with
             | Some s => if bool_decide (si_kind s = KIND_TIER3_USER) then Some (si_name s, si_uid s) else None
             | None => None
             end) (st_table st).

(** [[u for u in uids if not uid_exists(u)]], whether it is not empty *)
Fixpoint names_bad_uid (uids : list Z) : M bool :=
  match uids with
  | [] => mret false
  | u :: us => b ← ops_bool (O_uid_exists u); bad ← names_bad_uid us; mret (negb b || bad)
  end.

(** Whether the fragment of [n] has to go; a check that fails says yes *)
Definition fragment_unsafe (want : list (string * Z)) (n : string) : M bool :=
  match od_get want n with
  | None => mret true
  | Some uid =>
      m ← attempt (ops_bool (O_user_uid_matches n uid));
      match m with
      | Ok true =>
          r ← attempt (us ← ops_uids (O_policy_uids n);
                       match us with None | Some [] => mret true | Some l => names_bad_uid l end);
          mret (match r with Ok b => b | Err _ => true end)
      | _ => mret true
      end
  end.

Fixpoint purge_fragments (want : list (string * Z)) (have : list string) : M (list string * list string) :=
  match have with
  | [] => mret ([], [])
  | n :: have' =>
      bad ← fragment_unsafe want n;
      if bad : bool then
        r ← attempt (ops_ (O_remove_policy n false));
        p ← purge_fragments want have';
        mret (match r with Ok _ => (n :: p.1, p.2) | Err _ => (p.1, n :: p.2) end)
      else purge_fragments want have'
  end.

(** [_purge_unsafe_relay_fragments]: the names removed and the names that could not be *)
Definition purge_unsafe_relay_fragments : M (list string * list string) :=
  want ← gets relay_want;
  r ← attempt (ops_names O_list_policies);
  match r with
  | Err _ => mret ([], [])
  | Ok l => purge_fragments want (py_sorted l)
  end.

(** ** Creating *)

Definition row_of (n : string) (uid : Z) (autostart : bool) (k : Kind) (l : option Launch) (e : option string) : Row :=
  {| ro_name := n; ro_uid := uid; ro_state := CREATED; ro_autostart := autostart; ro_created_at := 0;
     ro_last_change := 0; ro_kind := k; ro_launch := l; ro_egress := e |}.
Definition stamped (now : Z) (r : Row) : Row :=
  {| ro_name := ro_name r; ro_uid := ro_uid r; ro_state := ro_state r; ro_autostart := ro_autostart r;
     ro_created_at := now; ro_last_change := now; ro_kind := ro_kind r; ro_launch := ro_launch r;
     ro_egress := ro_egress r |}.

(** The row commit: the new object enters the table and the file, or neither *)
Definition commit_row (row : Row) : M unit :=
  now ← ask w_now;
  o ← gets st_fresh;
  modify (set_fresh (S o));;
  modify (λ st, set_heap (<[o := new_silo (stamped now row)]> (st_heap st)) st);;
  modify (λ st, set_table (od_set (st_table st) (ro_name row) o) st);;
  r ← attempt save;
  match r with
  | Err e => modify (λ st, set_table (od_del (st_table st) (ro_name row)) st);; raise e
  | Ok _ => emit_change (ro_name row) (state_text CREATED)
  end.

Definition name_taken (n : string) (st : store) : bool :=
  bool_decide (is_Some (od_get (st_table st) n)) || bool_decide (is_Some (st_creating st !! n)).

(** The name of the first tier-3 row with the uid *)
Definition uid_holder (uid : Z) (st : store) : option string :=
  head (omap (λ p, match st_heap st !! p.2 with
                   | Some s => if bool_decide (si_uid s = uid) && bool_decide (si_kind s = KIND_TIER3_USER)
                               then Some (si_name s) else None
                   | None => None
                   end) (st_table st)).

(** The validation and the locked first part of [create]; [launch] and [egress] are the
    untyped arguments *)
Definition create_begin (n : string) (uid : Z) (autostart : bool) (kind launch egress : pyval) : M next :=
  admin ← ask w_admin;
  let checked :=
    (let* _ := validate_name n in
     let* k := validate_kind kind in
     let* _ := validate_silo_uid admin uid k in
     let* l := validate_launch k (if pytruthy launch then launch else PDict []) in
     let* e := validate_egress_field egress in
     if bool_decide (is_Some e) && negb (bool_decide (k = KIND_TIER3_USER)) then Err (BadArgument BA_egress_kind)
     else Ok (row_of n uid autostart k l e)) in
  match checked with
  | Err e => raise e
  | Ok row =>
      (if bool_decide (ro_kind row = KIND_TIER3S) then require_tier3s_profile else mret tt);;
      taken ← gets (name_taken n);
      if taken : bool then raise (SiloExists (Ex_name n))
      else if negb (bool_decide (ro_kind row = KIND_TIER3_USER)) then
        commit_row row;; mret (End (Ok ("uid=" +:+ pretty uid)))
      else
        h ← gets (uid_holder uid);
        match h with
        | Some by_ => raise (SiloExists (Ex_uid uid by_))
        | None =>
            c ← gets st_creating;
            if bool_decide (uid ∈ (map_to_list c).*2) then raise (SiloExists (Ex_uid_creating uid))
            else
              modify (set_creating (<[n := uid]> c));;
              mret (Go (P_create row))
        end
  end.

(** [_rollback_account_transaction]: what could not be removed; the account goes only when
    the grant is gone *)
Definition rollback_account_transaction (n : string) : M (list string) :=
  d ← attempt (ops_ (O_remove_state_dir n));
  l ← attempt (ops_ (O_unlink n));
  let left := (if is_ok d then [] else ["state dir"]) ++ (if is_ok l then [] else ["launcher link"]) in
  p ← attempt (ops_ (O_remove_policy n true));
  if is_ok p then
    u ← attempt (ops_ (O_userdel n));
    mret (left ++ (if is_ok u then [] else ["system user"]))
  else mret (left ++ ["relay fragment"; "system user (kept)"]).

(** The account transaction up to the state directory *)
Definition provision_account (n : string) (uid : Z) : M unit :=
  b ← ops_bool (O_user_exists n);
  if b : bool then raise (SiloExists (Ex_user n)) else
  b' ← ops_bool (O_uid_exists uid);
  if b' : bool then raise (SiloExists (Ex_system_uid uid)) else
  p ← purge_unsafe_relay_fragments;
  match p.2 with
  | _ :: _ => raise (SessionError (SE_unsafe_fragments p.2))
  | [] =>
      ops_ (O_useradd n uid);;
      best_effort (O_install_skill n);;
      w ← attempt (ops_ (O_write_policy n uid));
      match w with
      | Err _ => best_effort (O_userdel n);; raise (SessionError (SE_relay_policy n))
      | Ok _ =>
          k ← attempt (ops_ (O_link n));
          match k with
          | Err _ =>
              left ← rollback_account_transaction n;
              raise (SessionError (SE_launcher_link n left))
          | Ok _ => mret tt
          end
      end
  end.

Definition take_accounts (me : nat) : M unit := modify (set_accounts (Some me)).
Definition release_accounts : M unit := modify (set_accounts None).

(** The part of [_create_tier3_user] under [_accounts_lock]; a thread that finds the lock
    taken waits for it *)
Definition create_provision (me : nat) (row : Row) : M next :=
  a ← gets st_accounts;
  match a with
  | Some _ => mret (Go (P_create row))
  | None =>
      take_accounts me;;
      r ← attempt (provision_account (ro_name row) (ro_uid row));
      match r with
      | Err e => release_accounts;; mret (Go (P_create_exit (Err e)))
      | Ok _ =>
          d ← attempt (ops_ (O_make_state_dir (ro_name row)));
          match d with
          | Err e => mret (Go (P_create_undo row e))
          | Ok _ => mret (Go (P_create_commit row))
          end
      end
  end.

Definition create_commit (row : Row) : M next :=
  r ← attempt (commit_row row);
  match r with
  | Err e => mret (Go (P_create_undo row e))
  | Ok _ => release_accounts;; mret (Go (P_create_exit (Ok ("uid=" +:+ pretty (ro_uid row)))))
  end.

Definition create_undo (row : Row) : M next :=
  left ← rollback_account_transaction (ro_name row);
  release_accounts;;
  mret (Go (P_create_exit (Err (SessionError (SE_provisioning (ro_name row) left))))).

(** [finally: self._creating_inflight.pop(name, None)] *)
Definition create_exit (n : string) (r : result exn string) : M next :=
  modify (λ st, set_creating (delete n (st_creating st)) st);; mret (End r).

(** ** Deleting *)

Definition refuse_creating (n : string) : M unit :=
  c ← gets st_creating;
  match c !! n with Some _ => raise (SiloBusy (Busy_creating n)) | None => mret tt end.

(** A region whose exceptions leave the [with self._accounts_locked()] block *)
Definition releasing {A} (m : M A) : M A :=
  r ← attempt m;
  match r with Ok a => mret a | Err e => release_accounts;; raise e end.

(** The acquisition of [_accounts_lock], which gives up when the lock stays taken, and the
    recheck *)
Definition delete_recheck (me : nat) (n : string) : M next :=
  a ← gets st_accounts;
  match a with
  | Some _ => raise (SiloBusy Busy_accounts)
  | None =>
      take_accounts me;;
      releasing (refuse_creating n;;
                 o ← get n;
                 refuse_unless_deletable o;;
                 mret (Go (P_delete_purge o)))
  end.

Definition delete_purge (o : nat) : M next :=
  releasing (p ← purge_unsafe_relay_fragments;
             match p.2 with
             | _ :: _ => raise (SessionError (SE_unsafe_fragments p.2))
             | [] =>
                 (match p.1 with [] => mret tt | _ => ops_ O_reload_dbus end);;
                 mret (Go (P_delete_commit o))
             end).

Definition delete_commit (n : string) : M next :=
  releasing (o ← await_inflight_locked n;
             refuse_unless_deletable o;;
             transition o DELETING;;
             mret (Go (P_deleting o))).

(** The teardown, and on a failure the grants a surviving silo needs back *)
Definition delete_teardown (o : nat) : M next :=
  s ← obj o;
  let n := si_name s in
  let tier3 := bool_decide (si_kind s = KIND_TIER3_USER) in
  r ← attempt (ops_ (O_cgroup_remove n);;
               best_effort (O_teardown_egress n);;
               ops_ (O_remove_state_dir n);;
               ops_ (O_remove_policy n true);;
               (if tier3 then ops_ (O_unlink n) else mret tt);;
               ops_ (O_userdel n));
  match r with
  | Ok _ => mret (Go (P_delete_done o None))
  | Err e =>
      (if tier3 then best_effort (O_write_policy n (si_uid s));; best_effort (O_restore_link n) else mret tt);;
      mret (Go (P_delete_done o (Some e)))
  end.

Definition delete_finish (n : string) (o : nat) (failed : option exn) : M next :=
  r ← attempt (match failed with
               | Some _ => force_state o STOPPED;; raise (SessionError (SE_delete_failed n))
               | None =>
                   modify (λ st, set_table (od_del (st_table st) n) st);;
                   save;;
                   emit_change n "Deleted"
               end);
  release_accounts;;
  match r with Ok _ => mret (End (Ok "deleted")) | Err e => raise e end.

(** ** Egress policy *)

Definition set_egress (n : string) (egress : pyval) : M next :=
  match validate_egress_field egress with
  | Err e => raise e
  | Ok norm =>
      o ← get n;
      s ← obj o;
      if negb (bool_decide (si_kind s = KIND_TIER3_USER)) then raise (BadArgument BA_egress_kind)
      else if negb (bool_decide (si_state s ∈ [CREATED; STOPPED])) then
        raise (SiloBusy (Busy_state (si_name s) (si_state s)))
      else
        assign o (with_egress norm);;
        r ← attempt save;
        match r with
        | Err e => assign o (with_egress (si_egress s));; raise e
        | Ok _ => mret (End (Ok (if bool_decide (norm = si_egress s) then "no-change" else "changed")))
        end
  end.

(** ** Observing *)

(** [observe_runtime_once]: the snapshot *)
Definition observe_begin : M next :=
  t ← gets st_table;
  h ← gets st_heap;
  mret (Go (P_observe (omap (λ p, (λ s, (p.2, si_generation s)) <$> h !! p.2) t))).

(** One probe, without the lock *)
Definition observe_probe (targets : list (nat * nat)) : M next :=
  match targets with
  | [] => mret (End (Ok ""))
  | (o, gen) :: ts =>
      began ← ask w_mono;
      s ← obj o;
      p ← attempt (ops_status (O_observe (si_kind s) (si_name s)));
      let '(status, reason) := match p with Ok x => x | Err _ => ("unknown", "runtime probe failed or timed out") end in
      mret (Go (P_observed o gen status reason began ts))
  end.

(** Its publication, under the lock *)
Definition observe_publish (o gen : nat) (status reason : string) (began : Z) (ts : list (nat * nat)) : M next :=
  s ← obj o;
  raced ← gets (probe_raced (si_name s) o gen);
  if raced : bool then mret (Go (P_observe ts))
  else
    now ← ask w_now;
    mono ← ask w_mono;
    let seen := if (30 <=? mono - began)%Z then ("unknown", "runtime probe evidence expired")
                else if si_start_unresolved s then ("unknown", "start outcome unresolved; stop before retry")
                else (status, reason) in
    assign o (with_observed seen now began);;
    (if bool_decide (si_observed s = seen) then mret tt else emit_change (si_name s) (state_text (si_state s)));;
    mret (Go (P_observe ts)).

(** ** Calls and steps *)

Inductive call :=
| C_create (n : string) (uid : Z) (autostart : bool) (kind launch egress : pyval)
| C_delete (n : string)
| C_set_egress (n : string) (egress : pyval)
| C_start (n : string)
| C_stop (n : string)
| C_freeze (n : string)
| C_resume (n : string)
| C_observe.

Definition call_action (c : call) : action :=
  match c with
  | C_create _ _ _ _ _ _ => ACreate | C_delete _ => ADelete | C_set_egress _ _ => AEgress
  | C_start _ => AStart | C_stop _ => AStop | C_freeze _ => AFreeze | C_resume _ => AResume
  | C_observe => AObserve
  end.
Definition call_name (c : call) : string :=
  match c with
  | C_create n _ _ _ _ _ | C_delete n | C_set_egress n _ | C_start n | C_stop n | C_freeze n | C_resume n => n
  | C_observe => ""
  end.

(** The first region of a call *)
Definition begin (c : call) : M next :=
  match c with
  | C_create n uid autostart kind launch egress => create_begin n uid autostart kind launch egress
  | C_delete n => refuse_creating n;; mret (Go P_delete)
  | C_set_egress n e => set_egress n e
  | C_start n => start_round n 0
  | C_stop n => stop_begin n
  | C_freeze n => freeze_begin true n
  | C_resume n => freeze_begin false n
  | C_observe => observe_begin
  end.

(** The region at a program counter; [me] is the running thread *)
Definition region (me : nat) (n : string) (p : pc) : M next :=
  match p with
  | P_round r => start_round n r
  | P_probe o gen r => start_probe o gen r
  | P_probed o gen r status reason dead => start_verdict n o gen r status reason dead
  | P_launch o c => s ← obj o; out ← start_body s; mret (Go (P_launched o c out))
  | P_launched o c (L_done reason) => r ← start_commit n o c (L_done reason); mret (End (Ok r))
  | P_launched o c out => r ← attempt (start_commit n o c out); mret (Go (P_backstop c r))
  | P_stop o c => s ← obj o; out ← stop_body s; mret (Go (P_stopped o c out))
  | P_stopped o c out => r ← attempt (stop_commit n o c out); mret (Go (P_backstop c r))
  | P_freeze frozen o c =>
      r ← attempt (ops_ (O_cgroup_freeze n frozen));
      mret (Go (P_froze frozen o c (match r with Ok _ => None | Err e => Some e end)))
  | P_froze frozen o c err => freeze_commit n frozen o c err
  | P_backstop c r => clear_stop_inflight n c;; mret (End r)
  | P_create row => create_provision me row
  | P_create_commit row => create_commit row
  | P_create_undo row _ => create_undo row
  | P_create_exit r => create_exit n r
  | P_delete => delete_recheck me n
  | P_delete_purge o => delete_purge o
  | P_delete_commit _ => delete_commit n
  | P_deleting o => delete_teardown o
  | P_delete_done o failed => delete_finish n o failed
  | P_observe ts => observe_probe ts
  | P_observed o gen status reason began ts => observe_publish o gen status reason began ts
  end.

(** The decision a failed call is audited with, if it is *)
Definition audit_decision (a : action) (e : exn) : option string :=
  let denied := match a, e with
                | ACreate, _ => is_session_error e
                | ADelete, (UnknownSilo _ | SiloBusy _) => true
                | AEgress, (UnknownSilo _ | SiloBusy _ | BadArgument _) => true
                | (AStart | AStop), (UnknownSilo _ | BadState _ _ _) => true
                | (AFreeze | AResume), (UnknownSilo _ | BadState _ _ _ | BadArgument _) => true
                | _, _ => false
                end in
  let audited := match a with
                 | ACreate | AFreeze | AResume => true
                 | ADelete | AEgress | AStart | AStop => is_session_error e
                 | AObserve => false
                 end in
  if audited then Some (if denied then "deny" else "error") else None.

(** [_audit_record]: a failing sink loses the row and nothing else *)
Definition audit_record (a : action) (n decision : string) (why : audit_reason) : M unit :=
  r ← attempt (ops_ (O_audit decision n));
  if is_ok r
  then modify (λ st, set_audit ({| au_action := a; au_silo := n; au_decision := decision; au_reason := why |} :: st_audit st) st)
  else mret tt.

Definition audit_end (a : action) (n : string) (r : result exn string) : M unit :=
  match r with
  | Ok reason => match a with AObserve => mret tt | _ => audit_record a n "allow" (AR_text reason) end
  | Err e => match audit_decision a e with Some d => audit_record a n d (AR_error e) | None => mret tt end
  end.

(** Run one region of thread [me] and park the thread, or audit and retire it *)
Definition run_region (w : world) (me : nat) (a : action) (n : string) (m : M next) (st : store) : store :=
  let '(st', r) := m w st in
  match r with
  | Ok (Go p) => set_threads (<[me := {| t_action := a; t_name := n; t_pc := p |}]> (st_threads st')) st'
  | Ok (End r) => let st'' := (audit_end a n r w st').1 in set_threads (delete me (st_threads st'')) st''
  | Err e => let st'' := (audit_end a n (Err e) w st').1 in set_threads (delete me (st_threads st'')) st''
  end.

(** A call arrives; a thread goes on *)
Definition spawn (w : world) (me : nat) (c : call) (st : store) : store :=
  run_region w me (call_action c) (call_name c) (begin c) st.
Definition advance (w : world) (me : nat) (st : store) : store :=
  match st_threads st !! me with
  | Some t => run_region w me (t_action t) (t_name t) (region me (t_name t) (t_pc t)) st
  | None => st
  end.

End Store.
