(* ===== verification/SiloRuns.v ===== *)
(** * What the log shows, and how regions run

    [evidence]: what the calls made so far say about the workload of a silo. Then the
    inversion of a run of a region into its parts, and what each primitive of the store does
    up to the parts no other thread can see: the file, the audit rows, and calls that say
    nothing about a workload. *)

From S2P Require Import Prelude SiloData SiloStore.
From Stdlib Require Import ZArith.

Module Runs.
Import Silos Store.

(** ** Evidence *)

(** [Down]: the launcher unit of the silo is stopped with no start queued, and a container
    it ran is gone. [Pending]: it would be down if the verifier confirms it. [Up]: it may be
    running. Processes that outlive the unit of a tier-3 silo are the business of
    [leftover] below. *)
Inductive evidence := Down | Pending | Up.

#[export] Instance evidence_eq_dec : EqDecision evidence.
Proof. solve_decision. Defined.

(** What one call adds.

    - A start leaves a workload, or may have left one when its cancellation is not
      confirmed. A start that failed left none; that of a tier-3s unit has to be verified,
      since the unit may die after it made a container.
    - A stop that was not acknowledged says nothing. An acknowledged one stops the unit of a
      tier-3 silo; a container outlives its unit and has to be verified.
    - A probe that reads stopped or failed is the same: enough for the unit, to be verified
      for a container.
    - The verifier's negative answer confirms what is pending, and nothing else. *)
Definition after_event (n : string) (e : event) (before : evidence) : evidence :=
  match ev_op e, ev_answer e with
  | O_start k m, a =>
      if bool_decide (m = n) then
        match a with
        | A_raise (StartNotCancelled _) => Up
        | A_raise _ => if bool_decide (k = KIND_TIER3S) then Pending else Down
        | _ => Up
        end
      else before
  | O_stop k m, a =>
      if bool_decide (m = n) then
        match a with
        | A_bool true => if bool_decide (k = KIND_TIER3_USER) then Down else Pending
        | _ => Up
        end
      else before
  | O_observe k m, A_status status _ =>
      if bool_decide (m = n) && bool_decide (status ∈ ["stopped"; "failed"]) then
        if bool_decide (k = KIND_TIER3_USER) then Down
        else match before with Down => Down | _ => Pending end
      else before
  | O_running _ m, A_bool false =>
      if bool_decide (m = n) then match before with Up => Up | _ => Down end else before
  | _, _ => before
  end.

(** The evidence after the calls of a log, latest first *)
Fixpoint evidence_of (log : list event) (n : string) : evidence :=
  match log with
  | [] => Down
  | e :: log' => after_event n e (evidence_of log' n)
  end.

(** Whether processes may remain in the cgroup of the silo. The launcher of a tier-3 silo
    joins /sys/fs/cgroup/qdistro-silos/<name>, outside its unit (qdshell-session-launcher),
    so a stop of the unit does not end them. Once the unit is stopped they are gone when the
    cgroup could be removed, since the kernel removes only an empty one, or when a probe read
    stopped or failed, which it does only when [cgroup.events] says the cgroup is empty. *)
Fixpoint leftover (log : list event) (n : string) : bool :=
  match log with
  | [] => false
  | Ev o a :: log' =>
      match o, a with
      | O_start KIND_TIER3_USER m, _ => bool_decide (m = n) || leftover log' n
      | O_observe KIND_TIER3_USER m, A_status status _ =>
          negb (bool_decide (m = n) && bool_decide (status ∈ ["stopped"; "failed"])) && leftover log' n
      | O_cgroup_remove _, A_raise _ => leftover log' n
      | O_cgroup_remove m, _ =>
          negb (bool_decide (m = n) && bool_decide (evidence_of log' n = Down)) && leftover log' n
      | _, _ => leftover log' n
      end
  end.

(** The calls that must not meet a workload: a second launch, and the removal of the silo's
    state or of its account *)
Definition removal (o : sysop) : option string :=
  match o with O_userdel n | O_remove_state_dir n => Some n | _ => None end.
Definition needs_down (o : sysop) : option string :=
  match o with O_start _ n => Some n | _ => removal o end.

(** Every such call was made on a silo that was down, and no removal met processes of it *)
Fixpoint log_safe (log : list event) : Prop :=
  match log with
  | [] => True
  | e :: log' =>
      (∀ n, needs_down (ev_op e) = Some n → evidence_of log' n = Down) ∧
      (∀ n, removal (ev_op e) = Some n → leftover log' n = false) ∧ log_safe log'
  end.

(** Calls that say nothing about any workload and remove nothing *)
Definition neutral (o : sysop) : bool :=
  match o with
  | O_start _ _ | O_stop _ _ | O_observe _ _ | O_running _ _ | O_userdel _ | O_remove_state_dir _ => false
  | _ => true
  end.

Lemma neutral_event n o a before : neutral o = true → after_event n (Ev o a) before = before.
Proof. by destruct o. Qed.

Lemma neutral_needs o : neutral o = true → needs_down o = None.
Proof. by destruct o. Qed.
Lemma needs_none o : needs_down o = None → removal o = None.
Proof. by destruct o. Qed.

(** No call but a start leaves processes behind *)
Lemma leftover_kept n o a log :
  (∀ k, o ≠ O_start k n) → leftover log n = false → leftover (Ev o a :: log) n = false.
Proof.
  intros Ho Hl. simpl. rewrite Hl.
  destruct o; try match goal with k : Kind |- _ => destruct k end; destruct a; rewrite ?andb_false_r; try done.
  all: case_bool_decide; [subst; by destruct (Ho KIND_TIER3_USER)|done].
Qed.

(** ** Inverting runs *)

Lemma bind_inv {A B} (m : M A) (f : A → M B) w st st' r :
  (m ≫= f) w st = (st', r) →
  (∃ e, m w st = (st', Err e) ∧ r = Err e) ∨
  (∃ a st1, m w st = (st1, Ok a) ∧ f a w st1 = (st', r)).
Proof.
  unfold mbind, M_bind. destruct (m w st) as [st1 [a|e]].
  - intros H. right. eauto.
  - intros [= <- <-]. left. eauto.
Qed.

Lemma attempt_inv {A} (m : M A) w st st' r :
  attempt m w st = (st', r) → ∃ r', m w st = (st', r') ∧ r = Ok r'.
Proof. unfold attempt. destruct (m w st) as [st1 r1]. intros [= <- <-]. eauto. Qed.

Lemma mret_inv {A} (a : A) w st st' r : (mret a : M A) w st = (st', r) → st' = st ∧ r = Ok a.
Proof. by intros [= <- <-]. Qed.
Lemma raise_inv {A} e w st st' (r : result exn A) : raise e w st = (st', r) → st' = st ∧ r = Err e.
Proof. by intros [= <- <-]. Qed.
Lemma gets_inv {A} (f : store → A) w st st' r : gets f w st = (st', r) → st' = st ∧ r = Ok (f st).
Proof. by intros [= <- <-]. Qed.
Lemma ask_inv {A} (f : world → A) w st st' r : ask f w st = (st', r) → st' = st ∧ r = Ok (f w).
Proof. by intros [= <- <-]. Qed.
Lemma modify_inv f w st st' r : modify f w st = (st', r) → st' = f st ∧ r = Ok tt.
Proof. by intros [= <- <-]. Qed.

Lemma assign_inv o f w st st' r :
  assign o f w st = (st', r) → st' = set_heap (alter f o (st_heap st)) st ∧ r = Ok tt.
Proof. by intros [= <- <-]. Qed.

(** Take the run [H : m w st = (st', r)] apart, one construct at a time *)
Ltac run_done H :=
  let E := fresh in
  destruct H as [H E]; try subst;
  first [discriminate E | injection E as E; try subst | subst | idtac].
Ltac run_step :=
  match goal with
  | H : attempt ?m ?w ?st = (_, _) |- _ =>
      let E := fresh in
      apply attempt_inv in H as (? & H & E); first [discriminate E | injection E as E; try subst | subst]
  | H : mret ?a ?w ?st = (_, _) |- _ => apply mret_inv in H; run_done H
  | H : raise ?e ?w ?st = (_, _) |- _ => apply raise_inv in H; run_done H
  | H : gets ?f ?w ?st = (_, _) |- _ => apply gets_inv in H; run_done H
  | H : ask ?f ?w ?st = (_, _) |- _ => apply ask_inv in H; run_done H
  | H : modify ?f ?w ?st = (_, _) |- _ => apply modify_inv in H; run_done H
  | H : assign ?o ?f ?w ?st = (_, _) |- _ => apply assign_inv in H; run_done H
  | H : mbind ?f ?m ?w ?st = (_, _) |- _ =>
      let E := fresh in
      apply bind_inv in H as [(? & H & E)|(? & ? & E & H)]; [try subst|]
  end.

(** ** What other threads can tell apart *)

(** The two stores differ only in the file, the audit rows and neutral calls *)
Record eqv (st st' : store) : Prop := {
  ev_table : st_table st' = st_table st;
  ev_heap : st_heap st' = st_heap st;
  ev_inflight : st_inflight st' = st_inflight st;
  ev_creating : st_creating st' = st_creating st;
  ev_accounts : st_accounts st' = st_accounts st;
  ev_fresh : st_fresh st' = st_fresh st;
  ev_threads : st_threads st' = st_threads st;
  ev_evidence : ∀ n, evidence_of (st_log st') n = evidence_of (st_log st) n;
  ev_left : ∀ n, leftover (st_log st) n = false → leftover (st_log st') n = false;
  ev_safe : log_safe (st_log st) → log_safe (st_log st');
}.

Lemma eqv_refl st : eqv st st.
Proof. by split. Qed.

Lemma eqv_trans st1 st2 st3 : eqv st1 st2 → eqv st2 st3 → eqv st1 st3.
Proof. intros [] []. split; try congruence; auto. Qed.

#[export] Hint Resolve eqv_refl : qd.

(** A neutral computation *)
Definition quiet {A} (m : M A) : Prop := ∀ w st, eqv st (m w st).1.

Lemma quiet_run {A} (m : M A) w st st' r : quiet m → m w st = (st', r) → eqv st st'.
Proof. intros Hm Heq. specialize (Hm w st). by rewrite Heq in Hm. Qed.

Lemma quiet_ret {A} (a : A) : quiet (mret a).
Proof. intros w st. apply eqv_refl. Qed.
Lemma quiet_raise {A} e : quiet (raise e : M A).
Proof. intros w st. apply eqv_refl. Qed.
Lemma quiet_gets {A} (f : store → A) : quiet (gets f).
Proof. intros w st. apply eqv_refl. Qed.
Lemma quiet_ask {A} (f : world → A) : quiet (ask f).
Proof. intros w st. apply eqv_refl. Qed.
Lemma quiet_bind {A B} (m : M A) (f : A → M B) : quiet m → (∀ a, quiet (f a)) → quiet (m ≫= f).
Proof.
  intros Hm Hf w st. unfold mbind, M_bind. specialize (Hm w st). destruct (m w st) as [st1 [a|e]]; [|done].
  eapply eqv_trans; [exact Hm|apply Hf].
Qed.
Lemma quiet_attempt {A} (m : M A) : quiet m → quiet (attempt m).
Proof. intros Hm w st. unfold attempt. specialize (Hm w st). by destruct (m w st). Qed.
Lemma quiet_ops o : neutral o = true → quiet (ops o).
Proof.
  intros Ho w st. unfold ops. split; try done.
  - intros n. simpl. by apply neutral_event.
  - intros n. apply leftover_kept. intros k ->. done.
  - pose proof (neutral_needs o Ho) as Hn. simpl. rewrite Hn, needs_none by done. by intros ?; split_and!.
Qed.

#[export] Hint Resolve quiet_ret quiet_raise quiet_gets quiet_ask : qd.

(** Decide quietness by the shape of the computation *)
Ltac quiet_go :=
  repeat first
    [ apply quiet_ops; reflexivity
    | apply quiet_ret | apply quiet_raise | apply quiet_gets | apply quiet_ask
    | apply quiet_bind; [|intros ?]
    | apply quiet_attempt
    | case_match ].

Lemma quiet_ops_ o : neutral o = true → quiet (ops_ o).
Proof. intros Ho. unfold ops_. apply quiet_bind; [by apply quiet_ops|]. intros _. apply quiet_ret. Qed.
Lemma quiet_best_effort o : neutral o = true → quiet (best_effort o).
Proof. intros Ho. unfold best_effort. apply quiet_bind; [by apply quiet_attempt, quiet_ops_|]. intros _. apply quiet_ret. Qed.
Lemma quiet_ops_bool o : neutral o = true → quiet (ops_bool o).
Proof. intros Ho. unfold ops_bool. apply quiet_bind; [by apply quiet_ops|]. intros a. destruct a; quiet_go. Qed.
Lemma quiet_ops_text o : neutral o = true → quiet (ops_text o).
Proof. intros Ho. unfold ops_text. apply quiet_bind; [by apply quiet_ops|]. intros a. destruct a; quiet_go. Qed.
Lemma quiet_ops_pids o : neutral o = true → quiet (ops_pids o).
Proof. intros Ho. unfold ops_pids. apply quiet_bind; [by apply quiet_ops|]. intros a. destruct a; quiet_go. Qed.
Lemma quiet_ops_names o : neutral o = true → quiet (ops_names o).
Proof. intros Ho. unfold ops_names. apply quiet_bind; [by apply quiet_ops|]. intros a. destruct a; quiet_go. Qed.
Lemma quiet_ops_uids o : neutral o = true → quiet (ops_uids o).
Proof. intros Ho. unfold ops_uids. apply quiet_bind; [by apply quiet_ops|]. intros a. destruct a; quiet_go. Qed.

Lemma eqv_disk st d : eqv st (set_disk d st).
Proof. by split. Qed.
Lemma eqv_audit st a : eqv st (set_audit a st).
Proof. by split. Qed.

Lemma quiet_save : quiet save.
Proof. unfold save. apply quiet_bind; [by apply quiet_ops_|]. intros _ w st. apply eqv_disk. Qed.
Lemma quiet_emit n what : quiet (emit_change n what).
Proof. by apply quiet_best_effort. Qed.
Lemma quiet_obj o : quiet (obj o).
Proof. unfold obj. quiet_go. Qed.
Lemma quiet_get n : quiet (get n).
Proof. unfold get. quiet_go. Qed.
Lemma quiet_await n : quiet (await_inflight_locked n).
Proof. unfold await_inflight_locked. apply quiet_bind; [apply quiet_get|]. intros o. quiet_go. Qed.
Lemma quiet_profile : quiet require_tier3s_profile.
Proof. unfold require_tier3s_profile. apply quiet_bind; [by apply quiet_ops_text|]. intros p. quiet_go. Qed.

Lemma quiet_audit a n r : quiet (audit_end a n r).
Proof.
  assert (∀ d why, quiet (audit_record a n d why)) as Hrec.
  { intros d why. unfold audit_record. apply quiet_bind; [by apply quiet_attempt, quiet_ops_|].
    intros x. destruct (is_ok x); [|apply quiet_ret]. intros w st. apply eqv_audit. }
  unfold audit_end. destruct r as [s|e]; [destruct a; auto using quiet_ret|].
  destruct (audit_decision a e); auto using quiet_ret.
Qed.

(** ** The primitives *)

Lemma set_heap_eqv st st' h : eqv st st' → eqv (set_heap h st) (set_heap h st').
Proof. intros []. by split. Qed.
Lemma set_inflight_eqv st st' i : eqv st st' → eqv (set_inflight i st) (set_inflight i st').
Proof. intros []. by split. Qed.
Lemma set_table_eqv st st' t : eqv st st' → eqv (set_table t st) (set_table t st').
Proof. intros []. by split. Qed.
Lemma set_accounts_eqv st st' a : eqv st st' → eqv (set_accounts a st) (set_accounts a st').
Proof. intros []. by split. Qed.
Lemma set_creating_eqv st st' c : eqv st st' → eqv (set_creating c st) (set_creating c st').
Proof. intros []. by split. Qed.
Lemma set_threads_eqv st st' t : eqv st st' → eqv (set_threads t st) (set_threads t st').
Proof. intros []. by split. Qed.

Lemma obj_inv o w st st' r :
  obj o w st = (st', r) → st' = st ∧ ((∃ s, r = Ok s ∧ st_heap st !! o = Some s) ∨ (∃ e, r = Err e ∧ st_heap st !! o = None)).
Proof.
  unfold obj. intros H. repeat run_step. destruct (st_heap st !! o) eqn:Ho; run_step; eauto.
Qed.

Lemma get_inv n w st st' r :
  get n w st = (st', r) →
  st' = st ∧ ((∃ o, r = Ok o ∧ od_get (st_table st) n = Some o) ∨ (∃ e, r = Err e ∧ od_get (st_table st) n = None)).
Proof.
  unfold get. intros H. repeat run_step. destruct (od_get (st_table st) n) eqn:Ho; run_step; eauto.
Qed.

Lemma await_inv n w st st' r :
  await_inflight_locked n w st = (st', r) →
  st' = st ∧ ((∃ o, r = Ok o ∧ od_get (st_table st) n = Some o ∧ st_inflight st !! n = None) ∨ ∃ e, r = Err e).
Proof.
  unfold await_inflight_locked. intros H. run_step.
  - apply get_inv in H as [-> _]. eauto.
  - match goal with H : get _ _ _ = _ |- _ => apply get_inv in H as [-> [(o & [= ->] & Ho)|(e & ? & _)]]; [|done] end.
    repeat run_step. destruct (st_inflight st !! n) eqn:Hi; run_step; eauto 10.
Qed.

(** The object after an accepted change of state, and after a forced one whose save failed *)
Record kept (s s' : Silo) : Prop := {
  kp_name : si_name s' = si_name s;
  kp_uid : si_uid s' = si_uid s;
  kp_kind : si_kind s' = si_kind s;
  kp_gen : si_generation s ≤ si_generation s';
}.
Definition bumped (new : State) (s s' : Silo) : Prop :=
  kept s s' ∧ si_state s' = new ∧ si_generation s' = S (si_generation s).
Definition forced (new : State) (s s' : Silo) : Prop :=
  kept s s' ∧ si_state s' = new ∧ si_generation s' = si_generation s.

Definition invalidated (now mono : Z) (s : Silo) : Silo :=
  with_observed ("unknown", "lifecycle operation changed; observation pending") now mono
    (with_generation (S (si_generation s)) (si_start_unresolved s && negb (bool_decide (si_state s = STOPPED))) s).

Lemma invalidate_run o w st :
  invalidate_observation o w st = (set_heap (alter (invalidated (w_now w) (w_mono w)) o (st_heap st)) st, Ok tt).
Proof. done. Qed.

Lemma invalidate_inv o w st st' r :
  invalidate_observation o w st = (st', r) →
  st' = set_heap (alter (invalidated (w_now w) (w_mono w)) o (st_heap st)) st ∧ r = Ok tt.
Proof. rewrite invalidate_run. by intros [= <- <-]. Qed.

Lemma best_effort_inv o w st st' r :
  neutral o = true → best_effort o w st = (st', r) → r = Ok tt ∧ eqv st st'.
Proof.
  intros Ho H. split; [unfold best_effort in H; by repeat run_step|]. by eapply quiet_run, H; apply quiet_best_effort.
Qed.

Lemma emit_inv n what w st st' r : emit_change n what w st = (st', r) → r = Ok tt ∧ eqv st st'.
Proof. by apply best_effort_inv. Qed.

Lemma alter_insert_same {A} (f : A → A) (m : gmap nat A) o a : m !! o = Some a → alter f o m = <[o := f a]> m.
Proof. intros Ho. apply map_eq. intros i. destruct (decide (o = i)) as [<-|]; simplify_map_eq; done. Qed.

Lemma with_state_back s new now : with_state (si_state s) (si_last_change s) (with_state new now s) = s.
Proof. by destruct s. Qed.

Lemma set_heap_id st : set_heap (st_heap st) st = st.
Proof. by destruct st. Qed.

(** [_transition]: accepted and saved, or refused, or rolled back *)
Lemma transition_inv o new w st st' r s :
  st_heap st !! o = Some s → transition o new w st = (st', r) →
  (r = Ok tt ∧ new ∈ STATE_TRANSITIONS (si_state s) ∧
     ∃ s', bumped new s s' ∧ eqv (set_heap (<[o := s']> (st_heap st)) st) st') ∨
  (∃ e, r = Err e ∧ eqv st st').
Proof.
  intros Ho. unfold transition. intros H. run_step; [apply obj_inv in H as [-> _]; eauto with qd|].
  match goal with H : obj _ _ _ = _ |- _ => apply obj_inv in H as [-> [(x' & [= ->] & Hx)|(? & ? & _)]]; [|done] end.
  rewrite Ho in Hx. injection Hx as <-.
  case_bool_decide as Hnew; cbn [negb] in H; [|run_step; eauto with qd].
  repeat run_step. match goal with H : save _ _ = (_, ?x) |- _ => rename H into Hs, x into r' end.
  apply (quiet_run _ _ _ _ _ quiet_save) in Hs. rewrite (alter_insert_same _ _ _ s) in Hs by done.
  destruct r' as [[]|e].
  - left. repeat run_step; [by apply invalidate_inv in H as [_ ?]|].
    match goal with H : invalidate_observation _ _ _ = _ |- _ => apply invalidate_inv in H as [-> _] end.
    apply emit_inv in H as [-> Hem]. rewrite (ev_heap _ _ Hs) in Hem. cbn [st_heap set_heap] in Hem.
    rewrite (alter_insert_same _ _ _ (with_state new (w_now w) s)), insert_insert_eq in Hem by (by rewrite lookup_insert_eq).
    split; [done|]. split; [done|]. eexists (invalidated (w_now w) (w_mono w) (with_state new (w_now w) s)).
    split; [by repeat split; simpl; auto|].
    eapply eqv_trans; [|exact Hem]. apply (set_heap_eqv _ _ (<[o := invalidated (w_now w) (w_mono w) (with_state new (w_now w) s)]> (st_heap st))) in Hs.
    exact Hs.
  - right. repeat run_step. eexists. split; [done|].
    rewrite (ev_heap _ _ Hs). cbn [st_heap set_heap].
    rewrite (alter_insert_same _ _ _ (with_state new (w_now w) s)), insert_insert_eq, with_state_back, insert_id by (done || by rewrite lookup_insert_eq).
    apply (set_heap_eqv _ _ (st_heap st)) in Hs. cbn [st_heap set_heap] in Hs.
    eapply eqv_trans; [|exact Hs]. by destruct st.
Qed.

(** [_force_state]: saved, or changed in memory only *)
Lemma force_inv o new w st st' r s :
  st_heap st !! o = Some s → force_state o new w st = (st', r) →
  ∃ s', eqv (set_heap (<[o := s']> (st_heap st)) st) st' ∧
        ((r = Ok tt ∧ bumped new s s') ∨ (∃ e, r = Err e ∧ forced new s s')).
Proof.
  intros Ho. unfold force_state. intros H. run_step.
  { apply obj_inv in H as [-> [(? & ? & _)|(? & _ & ?)]]; [done|congruence]. }
  match goal with H : obj _ _ _ = _ |- _ => apply obj_inv in H as [-> [(x' & [= ->] & Hx)|(? & ? & _)]]; [|done] end.
  rewrite Ho in Hx. injection Hx as <-. repeat run_step.
  - apply (quiet_run _ _ _ _ _ quiet_save) in H. rewrite (alter_insert_same _ _ _ s) in H by done.
    eexists. split; [exact H|]. right. eexists. split; [done|]. by repeat split; simpl; auto.
  - by apply invalidate_inv in H as [_ ?].
  - match goal with H : invalidate_observation _ _ _ = _ |- _ => apply invalidate_inv in H as [-> _] end.
    match goal with H : save _ _ = _ |- _ => apply (quiet_run _ _ _ _ _ quiet_save) in H; rename H into Hs end.
    apply emit_inv in H as [-> Hem]. rewrite (ev_heap _ _ Hs) in Hem. cbn [st_heap set_heap] in Hs, Hem.
    rewrite (alter_insert_same _ _ _ s) in Hs, Hem by done.
    rewrite (alter_insert_same _ _ _ (with_state new (w_now w) s)), insert_insert_eq in Hem by (by rewrite lookup_insert_eq).
    eexists. split; [eapply eqv_trans; [|exact Hem]; exact (set_heap_eqv _ _ _ Hs)|].
    left. split; [done|]. by repeat split; simpl; auto.
Qed.

Lemma claim_inv n w st st' r :
  claim_stop_inflight n w st = (st', r) →
  r = Ok (st_fresh st) ∧
  st' = set_inflight (<[n := st_fresh st]> (st_inflight st)) (set_fresh (S (st_fresh st)) st).
Proof. unfold claim_stop_inflight. intros H. by repeat run_step. Qed.

Lemma clear_inv n c w st st' r :
  clear_stop_inflight n c w st = (st', r) →
  r = Ok tt ∧ st' = if bool_decide (st_inflight st !! n = Some c) then set_inflight (delete n (st_inflight st)) st else st.
Proof. unfold clear_stop_inflight. intros H. by repeat run_step. Qed.

Lemma set_fresh_eqv st st' k : eqv st st' → eqv (set_fresh k st) (set_fresh k st').
Proof. intros []. by split. Qed.

(** [_claim_start_locked]: the row is Active, the slot claimed; or nothing happened *)
Lemma claim_start_inv o w st st' r s :
  st_heap st !! o = Some s → claim_start_locked o w st = (st', r) →
  (∃ e, r = Err e ∧ eqv st st') ∨
  (∃ s', r = Ok (st_fresh st) ∧ ACTIVE ∈ STATE_TRANSITIONS (si_state s) ∧ bumped ACTIVE s s' ∧
     eqv (set_inflight (<[si_name s := st_fresh st]> (st_inflight st))
            (set_fresh (S (st_fresh st)) (set_heap (<[o := s']> (st_heap st)) st))) st').
Proof.
  intros Ho. unfold claim_start_locked. intros H. run_step.
  { apply obj_inv in H as [-> _]. eauto with qd. }
  match goal with H : obj _ _ _ = _ |- _ => apply obj_inv in H as [-> [(x' & [= ->] & Hx)|(? & ? & _)]]; [|done] end.
  rewrite Ho in Hx. injection Hx as <-.
  assert (quiet (if bool_decide (si_kind s = KIND_TIER3S) then require_tier3s_profile else mret tt)) as Hq
    by (case_bool_decide; [apply quiet_profile|apply quiet_ret]).
  run_step; [left; apply (quiet_run _ _ _ _ _ Hq) in H; eauto|].
  match goal with H : (if _ then _ else _) _ _ = _ |- _ => apply (quiet_run _ _ _ _ _ Hq) in H; rename H into Hp end.
  assert (Ho' := Ho). rewrite <- (ev_heap _ _ Hp) in Ho'. run_step.
  { left. destruct (transition_inv _ _ _ _ _ _ _ Ho' H) as [(? & _)|(e & _ & He)]; [done|].
    eexists. split; [done|]. by eapply eqv_trans. }
  match goal with H : transition _ _ _ _ = _ |- _ => destruct (transition_inv _ _ _ _ _ _ _ Ho' H) as [(_ & Ht & s' & Hb & He)|(e & ? & _)]; [|done] end.
  right. exists s'. apply claim_inv in H as [-> ->]. rewrite (ev_fresh _ _ He), (ev_inflight _ _ He). simpl.
  rewrite (ev_fresh _ _ Hp), (ev_inflight _ _ Hp). repeat (split; [done|]).
  apply set_inflight_eqv, set_fresh_eqv. eapply eqv_trans; [|exact He]. rewrite (ev_heap _ _ Hp). by apply set_heap_eqv.
Qed.

(** ** Lock-free work on one silo *)

(** Only the log changed, and for other silos it says what it said *)
Record logged (n : string) (st st' : store) : Prop := {
  lg_table : st_table st' = st_table st;
  lg_heap : st_heap st' = st_heap st;
  lg_inflight : st_inflight st' = st_inflight st;
  lg_creating : st_creating st' = st_creating st;
  lg_accounts : st_accounts st' = st_accounts st;
  lg_fresh : st_fresh st' = st_fresh st;
  lg_threads : st_threads st' = st_threads st;
  lg_evidence : ∀ m, m ≠ n → evidence_of (st_log st') m = evidence_of (st_log st) m;
  lg_left : ∀ m, m ≠ n → leftover (st_log st) m = false → leftover (st_log st') m = false;
  lg_safe : log_safe (st_log st) → log_safe (st_log st');
}.

Lemma eqv_logged n st st' : eqv st st' → logged n st st'.
Proof. intros []. split; auto. Qed.

Lemma logged_trans n st1 st2 st3 : logged n st1 st2 → logged n st2 st3 → logged n st1 st3.
Proof.
  intros [] []. split; try congruence; auto.
  intros m Hm. transitivity (evidence_of (st_log st2) m); auto.
Qed.

(** The silo a call that is not neutral is about *)
Definition concerns (o : sysop) : option string :=
  match o with
  | O_start _ n | O_stop _ n | O_observe _ n | O_running _ n | O_userdel n | O_remove_state_dir n => Some n
  | _ => None
  end.

Lemma after_other n m o a before : concerns o = Some n → m ≠ n → after_event m (Ev o a) before = before.
Proof.
  intros Hc Hm. destruct o; simplify_eq/=; unfold after_event; simpl; try done; rewrite ?(bool_decide_false (n = m)) by congruence.
  all: by destruct a as [|[]| | | | | |].
Qed.

Lemma leftover_other n m o a log :
  concerns o = Some n → m ≠ n → leftover log m = false → leftover (Ev o a :: log) m = false.
Proof.
  intros Hc Hm Hl. destruct o; simplify_eq/=; try match goal with k : Kind |- _ => destruct k end; rewrite Hl; try done.
  all: rewrite ?andb_false_r, ?bool_decide_false by done; by destruct a.
Qed.

Lemma ops_inv n o w st st' r :
  ops o w st = (st', r) → concerns o = Some n → (needs_down o = None ∨ evidence_of (st_log st) n = Down) → removal o = None →
  ∃ a, st_log st' = Ev o a :: st_log st ∧ logged n st st' ∧ r = match a with A_raise e => Err e | _ => Ok a end.
Proof.
  unfold ops. intros [= <- <-] Hc Hd Hrm. eexists. split; [done|]. split; [|done].
  split; try done; simpl.
  - intros m Hm. by eapply after_other.
  - intros m Hm. by apply (leftover_other n).
  - intros Hs. rewrite Hrm. split_and!; try done. intros m Hn. destruct o; simplify_eq/=; by destruct Hd.
Qed.

Lemma ops__inv n o w st st' r :
  ops_ o w st = (st', r) → concerns o = Some n → (needs_down o = None ∨ evidence_of (st_log st) n = Down) → removal o = None →
  ∃ a, st_log st' = Ev o a :: st_log st ∧ logged n st st' ∧ r = match a with A_raise e => Err e | _ => Ok tt end.
Proof.
  unfold ops_. intros H Hc Hd Hrm. run_step.
  - apply (ops_inv n) in H as (a & ? & ? & Hr); [|done..]. exists a. repeat (split; [done|]).
    destruct a; simplify_eq; done.
  - match goal with H : ops _ _ _ = _ |- _ => apply (ops_inv n) in H as (a & ? & ? & Hr); [|done..] end.
    run_step. exists a. repeat (split; [done|]). by destruct a.
Qed.

Lemma ops_bool_inv n o w st st' r :
  ops_bool o w st = (st', r) → concerns o = Some n → needs_down o = None →
  ∃ a, st_log st' = Ev o a :: st_log st ∧ logged n st st' ∧ (∀ b, r = Ok b → a = A_bool b).
Proof.
  unfold ops_bool. intros H Hc Hd. pose proof (needs_none o Hd). run_step.
  - apply (ops_inv n) in H as (a & ? & ? & Hr); [|by auto..]. exists a. by repeat (split; [done|]).
  - match goal with H : ops _ _ _ = _ |- _ => apply (ops_inv n) in H as (a & ? & ? & Hr); [|by auto..] end.
    exists a. destruct a; simplify_eq; run_step; by repeat (split; [done|]); naive_solver.
Qed.

(** ** Automation for neutral runs *)

Lemma run_quiet {A} (m : M A) w st st' r : m w st = (st', r) → quiet m → eqv st st'.
Proof. intros Heq Hm. by eapply quiet_run. Qed.

Lemma quiet_if {A} (b : bool) (m1 m2 : M A) : quiet m1 → quiet m2 → quiet (if b then m1 else m2).
Proof. by destruct b. Qed.

Create HintDb quiet discriminated.
#[export] Hint Resolve quiet_ret quiet_raise quiet_gets quiet_ask quiet_attempt quiet_if quiet_save quiet_emit
  quiet_obj quiet_get quiet_await quiet_profile quiet_audit : quiet.
#[export] Hint Extern 2 (quiet (ops _)) => apply quiet_ops; reflexivity : quiet.
#[export] Hint Extern 2 (quiet (ops_ _)) => apply quiet_ops_; reflexivity : quiet.
#[export] Hint Extern 2 (quiet (best_effort _)) => apply quiet_best_effort; reflexivity : quiet.
#[export] Hint Extern 2 (quiet (ops_bool _)) => apply quiet_ops_bool; reflexivity : quiet.
#[export] Hint Extern 2 (quiet (ops_text _)) => apply quiet_ops_text; reflexivity : quiet.
#[export] Hint Extern 2 (quiet (ops_pids _)) => apply quiet_ops_pids; reflexivity : quiet.
#[export] Hint Extern 2 (quiet (ops_names _)) => apply quiet_ops_names; reflexivity : quiet.
#[export] Hint Extern 2 (quiet (ops_uids _)) => apply quiet_ops_uids; reflexivity : quiet.
#[export] Hint Extern 3 (quiet (mbind _ _)) => apply quiet_bind; [|intros ?] : quiet.
#[export] Hint Extern 4 (quiet (match ?x with _ => _ end)) => destruct x : quiet.

Ltac quiet_run_in H := apply run_quiet in H; [|solve [auto 20 with quiet]].
Ltac quiets := repeat match goal with H : _ = (_, _) |- _ => quiet_run_in H end.
(** Chain what the neutral runs of the context left alone *)
Ltac chain :=
  repeat match goal with H : eqv ?a ?b |- eqv ?a ?c => first [exact H | eapply eqv_trans; [exact H|clear H]] end; try done.

End Runs.
