(* ===== verification/SiloWork.v ===== *)
(** * The lock-free halves of the lifecycle operations

    What the launch, stop, probe, provisioning and teardown sequences leave behind: they
    change nothing but the log, and their outcome says what the log shows of the workload. *)

From S2P Require Import Prelude SiloData SiloStore SiloRuns.
From Stdlib Require Import ZArith.

Module Work.
Import Silos Store Runs.

(** ** Launching *)

(** A launch fails before it reached the unit, or its last call is the unit's start *)
Lemma launch_inv s w st st' r :
  launch_silo_body s w st = (st', r) →
  (∃ e, r = Err e ∧ eqv st st') ∨
  (∃ st1, eqv st st1 ∧
     ((∃ e, ops_ (O_start (si_kind s) (si_name s)) w st1 = (st', Err e) ∧ r = Err e) ∨
      (∃ reason, ops_ (O_start (si_kind s) (si_name s)) w st1 = (st', Ok tt) ∧ r = Ok reason))).
Proof.
  assert (∀ st1 st' r (reason : string), (ops_ (O_start (si_kind s) (si_name s));; mret reason) w st1 = (st', r) →
    (∃ e, ops_ (O_start (si_kind s) (si_name s)) w st1 = (st', Err e) ∧ r = Err e) ∨
    (∃ reason, ops_ (O_start (si_kind s) (si_name s)) w st1 = (st', Ok tt) ∧ r = Ok reason)) as Hlast.
  { clear. intros st1 st' r reason H. repeat run_step; [eauto|]. right. destruct x, x0; eauto. }
  unfold launch_silo_body. destruct (si_kind s); intros H.
  - run_step; [quiets; eauto|]. run_step; [by apply best_effort_inv in H as [? _]|].
    match goal with H : mbind _ ?m _ _ = _ |- _ => assert (quiet m) as Hq by auto 20 with quiet end.
    apply bind_inv in H as [(e & H & ->)|(a & st3 & H3 & H)].
    + left. apply (quiet_run _ _ _ _ _ Hq) in H. eexists. split; [done|]. quiets. chain.
    + apply (quiet_run _ _ _ _ _ Hq) in H3. right. exists st3. quiets. split; [chain|]. eauto.
  - run_step; [quiets; eauto|]. quiets. right. eexists. split; [done|]. eauto.
  - do 2 run_step. run_step; [quiets; eauto|]. quiets. right. eexists. split; [done|]. eauto.
Qed.

(** What the silo-specific calls leave in the log *)
Lemma start_call k n w st st' r :
  ops_ (O_start k n) w st = (st', r) → evidence_of (st_log st) n = Down →
  logged n st st' ∧
  (∀ e, r = Err e → (∀ x, e ≠ StartNotCancelled x) →
     evidence_of (st_log st') n = if bool_decide (k = KIND_TIER3S) then Pending else Down).
Proof.
  intros H Hd. apply (ops__inv n) in H as (a & Hl & Hg & Hr); [|by auto..]. split; [done|].
  intros e -> He. rewrite Hl. simpl. unfold after_event. simpl. rewrite bool_decide_true by done.
  destruct a as [| | | | | | |[]]; simplify_eq; try done. by destruct (He n0).
Qed.

(** No evidence about [n] was lost *)
Definition confirms (n : string) (st st' : store) : Prop :=
  (evidence_of (st_log st) n = Down → evidence_of (st_log st') n = Down) ∧
  (leftover (st_log st) n = false → leftover (st_log st') n = false).

Lemma confirms_refl n st : confirms n st st.
Proof. by split. Qed.
Lemma confirms_trans n st1 st2 st3 : confirms n st1 st2 → confirms n st2 st3 → confirms n st1 st3.
Proof. intros [] []. split; auto. Qed.

Lemma running_call k n w st st' r :
  ops_bool (O_running k n) w st = (st', r) →
  logged n st st' ∧ confirms n st st' ∧
  (evidence_of (st_log st) n ≠ Up → r = Ok false → evidence_of (st_log st') n = Down).
Proof.
  intros H. apply (ops_bool_inv n) in H as (a & Hl & Hg & Hr); [|done..]. split; [done|].
  unfold confirms. rewrite Hl. split; [split; [|by apply leftover_kept]|]; simpl; unfold after_event; simpl.
  - intros ->. destruct a as [|[]| | | | | |]; try done. by rewrite bool_decide_true.
  - intros Hup ->. rewrite (Hr false eq_refl), bool_decide_true by done.
    by destruct (evidence_of (st_log st) n).
Qed.

Lemma running_not_up k n w st st' r :
  ops_bool (O_running k n) w st = (st', r) →
  evidence_of (st_log st) n ≠ Up → evidence_of (st_log st') n ≠ Up.
Proof.
  intros H. apply (ops_bool_inv n) in H as (a & Hl & _ & _); [|done..]. rewrite Hl. simpl. unfold after_event. simpl.
  rewrite bool_decide_true by done. by destruct a as [|[]| | | | | |], (evidence_of (st_log st) n).
Qed.

Lemma stop_call k n w st st' r :
  ops_bool (O_stop k n) w st = (st', r) →
  logged n st st' ∧
  (r = Ok true → evidence_of (st_log st') n = if bool_decide (k = KIND_TIER3_USER) then Down else Pending).
Proof.
  intros H. apply (ops_bool_inv n) in H as (a & Hl & Hg & Hr); [|done..]. split; [done|]. intros ->.
  rewrite Hl. simpl. unfold after_event. simpl. by rewrite (Hr true eq_refl), bool_decide_true.
Qed.

Definition start_failed (out : start_outcome) : bool :=
  match out with L_refused _ | L_failed _ => true | _ => false end.

(** A start that is recorded as Stopped left no workload *)
Lemma start_body_inv s w st st' r :
  start_body s w st = (st', r) → evidence_of (st_log st) (si_name s) = Down →
  logged (si_name s) st st' ∧
  ∃ out, r = Ok out ∧ (start_failed out = true → evidence_of (st_log st') (si_name s) = Down).
Proof.
  unfold start_body. intros H Hd. run_step; [by run_step|]. run_step.
  match goal with H : launch_silo_body _ _ _ = (?a, ?b) |- _ =>
    apply launch_inv in H; rename H into Hrun0, a into st0, b into res end.
  assert (logged (si_name s) st st0 ∧
    ∀ e, res = Err e → (∀ y, e ≠ StartNotCancelled y) →
      evidence_of (st_log st0) (si_name s) = Down ∨
      (si_kind s = KIND_TIER3S ∧ evidence_of (st_log st0) (si_name s) = Pending)) as [Hlg Hev].
  { destruct Hrun0 as [(e & -> & He)|(st1 & He & [(e & Hs & ->)|(reason & Hs & ->)])].
    - split; [by apply eqv_logged|]. intros _ _ _. left. by rewrite (ev_evidence _ _ He).
    - apply start_call in Hs as [Hl Hf]; [|by rewrite (ev_evidence _ _ He)].
      split; [eapply logged_trans; [by apply eqv_logged|done]|]. intros e' [= <-] Hn. specialize (Hf _ eq_refl Hn).
      case_bool_decide; auto.
    - apply start_call in Hs as [Hl _]; [|by rewrite (ev_evidence _ _ He)].
      split; [eapply logged_trans; [by apply eqv_logged|done]|]. done. }
  clear Hrun0. destruct res as [reason|e]; [run_step; split; [done|]; by eexists|].
  assert ((∃ y, e = StartNotCancelled y) ∨ ∀ y, e ≠ StartNotCancelled y) as [[y ->]|Hn]
    by (destruct e; eauto).
  { run_step. split; [done|]. by eexists. }
  specialize (Hev _ eq_refl Hn).
  assert ((if bool_decide (si_kind s = KIND_TIER3S) then
     v ← attempt (ops_bool (O_running KIND_TIER3S (si_name s)));
     match v with
     | Ok false => f ← attempt (ops_text (O_start_refusal (si_name s))); mret (L_refused (match f with Ok t => t | Err _ => "" end))
     | _ => mret L_survived
     end
   else (if is_netns_backed s then best_effort (O_teardown_egress (si_name s)) else mret tt);; mret (L_failed e)) w st0 = (st', r)) as Hrun
    by (destruct e; try done; by destruct (Hn n)).
  clear H. case_bool_decide as Hk.
  - run_step; [by run_step|]. run_step.
    match goal with H : ops_bool _ _ _ = (?a, ?b) |- _ =>
      apply running_call in H as (Hl2 & _ & Hf); rename a into st2, b into v end.
    assert (evidence_of (st_log st0) (si_name s) ≠ Up) as Hup by (destruct Hev as [->|[_ ->]]; done).
    assert (logged (si_name s) st st2) by (by eapply logged_trans).
    destruct v as [[]|]; try (run_step; split; [done|]; by eexists). specialize (Hf Hup eq_refl).
    repeat run_step. quiets. split.
    + eapply logged_trans; [done|]. by apply eqv_logged.
    + eexists. split; [done|]. intros _. match goal with H : eqv _ _ |- _ => by rewrite (ev_evidence _ _ H) end.
  - destruct Hev as [Hev|[? _]]; [|done]. run_step.
    + destruct (is_netns_backed s); [by apply best_effort_inv in Hrun as [? _]|by run_step].
    + repeat run_step. quiets. split; [eapply logged_trans; [done|by apply eqv_logged]|].
      eexists. split; [done|]. intros _. match goal with H : eqv _ _ |- _ => by rewrite (ev_evidence _ _ H) end.
Qed.

(** ** Stopping *)

Lemma quiet_poll n k : quiet (poll_cgroup n k).
Proof.
  induction k as [|k IH]; [apply quiet_ret|]. cbn [poll_cgroup]. apply quiet_bind; [auto with quiet|].
  intros [[|]|]; auto with quiet.
Qed.
#[local] Hint Resolve quiet_poll : quiet.

Lemma quiet_pids n : quiet (pids_or_none n).
Proof. unfold pids_or_none. auto with quiet. Qed.
#[local] Hint Resolve quiet_pids : quiet.

Lemma quiet_sweep n : quiet (stop_sweep n).
Proof. unfold stop_sweep. auto 30 with quiet. Qed.
#[local] Hint Resolve quiet_sweep : quiet.

(** The outcomes the locked half records as Stopped *)
Definition stop_settled (out : stop_outcome) : bool :=
  match out with X_active _ => false | _ => true end.

Lemma stop_verdict_inv k n w st st' r x :
  stop_verdict k n x w st = (st', r) →
  eqv st st' ∧ ∃ out, r = Ok out ∧ (stop_settled out = true → x = Ok (true, false)).
Proof.
  unfold stop_verdict. destruct x as [[[] []]|e]; intros H; simpl in H; try (run_step; split; [apply eqv_refl|by eexists]).
  run_step; [by apply best_effort_inv in H as [? _]|]. run_step. quiets. split; [done|]. by eexists.
Qed.

Lemma stop_tier2_inv n w st st' r :
  stop_tier2 n w st = (st', r) →
  logged n st st' ∧ ∃ out, r = Ok out ∧ (stop_settled out = true → evidence_of (st_log st') n = Down).
Proof.
  unfold stop_tier2. intros H. run_step; [by run_step|]. run_step.
  apply stop_verdict_inv in H as (He & out & -> & Hout).
  match goal with H : mbind _ _ w st = (?a, ?b) |- _ => rename H into Hrun, a into st1, b into x end.
  assert (logged n st st1 ∧ (x = Ok (true, false) → evidence_of (st_log st1) n = Down)) as [Hl Hx].
  { repeat run_step.
    - apply stop_call in Hrun as [? _]. done.
    - apply running_call in Hrun as (? & _). match goal with H : ops_bool (O_stop _ _) _ _ = _ |- _ => apply stop_call in H as [? _] end.
      split; [by eapply logged_trans|done].
    - match goal with H : ops_bool (O_stop _ _) _ _ = _ |- _ => apply stop_call in H as [? Hs] end.
      match goal with H : ops_bool (O_running _ _) _ _ = _ |- _ => apply running_call in H as (? & _ & Hr) end.
      split; [by eapply logged_trans|]. intros [= -> ->]. apply Hr; [|done]. by rewrite Hs. }
  split; [eapply logged_trans; [done|by apply eqv_logged]|]. exists out. split; [done|]. intros Hs.
  rewrite (ev_evidence _ _ He). auto.
Qed.

Lemma stop_tier3s_inv n w st st' r :
  stop_tier3s n w st = (st', r) →
  logged n st st' ∧ ∃ out, r = Ok out ∧ (stop_settled out = true → evidence_of (st_log st') n = Down).
Proof.
  unfold stop_tier3s. intros H. run_step; [by run_step|]. run_step.
  apply stop_verdict_inv in H as (He & out & -> & Hout).
  match goal with H : mbind _ _ w st = (?a, ?b) |- _ => rename H into Hrun, a into st1, b into x end.
  assert (logged n st st1 ∧ (x = Ok (true, false) → evidence_of (st_log st1) n = Down)) as [Hl Hx].
  { run_step; [apply stop_call in Hrun as [? _]; done|].
    match goal with H : ops_bool (O_stop _ _) _ _ = (_, Ok ?d) |- _ => apply stop_call in H as [Hl1 Hs]; rename d into dn end.
    run_step; [apply running_call in Hrun as (? & _); split; [by eapply logged_trans|done]|].
    match goal with H : ops_bool (O_running _ _) _ _ = (?a, Ok ?d) |- _ =>
      pose proof (running_not_up _ _ _ _ _ _ H) as Hnu; apply running_call in H as (Hl2 & _ & Hr); rename d into sv, a into st2 end.
    assert (logged n st st2) as Hl by (by eapply logged_trans).
    destruct sv, dn; cbn [andb] in Hrun; try (run_step; split; [done|]; intros Hx; first [discriminate Hx | apply Hr; [by rewrite Hs|done]]).
    run_step; [quiets; split; [eapply logged_trans; [done|by apply eqv_logged]|done]|].
    match goal with H : ops_ (O_tier3s_cleanup n) _ _ = (?a, _) |- _ => quiet_run_in H; rename H into Hc, a into st3 end.
    assert (logged n st st3) as Hl3 by (eapply logged_trans; [done|by apply eqv_logged]).
    assert (evidence_of (st_log st3) n ≠ Up) as Hup.
    { rewrite (ev_evidence _ _ Hc). apply Hnu. by rewrite Hs. }
    run_step; [apply running_call in Hrun as (? & _); split; [by eapply logged_trans|done]|].
    match goal with H : ops_bool (O_running _ _) _ _ = _ |- _ => apply running_call in H as (Hl4 & _ & Hr') end.
    run_step. split; [by eapply logged_trans|]. intros [= ->]. by apply Hr'. }
  split; [eapply logged_trans; [done|by apply eqv_logged]|]. exists out. split; [done|]. intros Hs.
  rewrite (ev_evidence _ _ He). auto.
Qed.

Lemma stop_tier3_user_inv n w st st' r :
  stop_tier3_user n w st = (st', r) →
  logged n st st' ∧ ∃ out, r = Ok out ∧ (stop_settled out = true → evidence_of (st_log st') n = Down).
Proof.
  unfold stop_tier3_user. intros H. run_step; [by apply best_effort_inv in H as [? _]|].
  match goal with H : best_effort _ _ _ = (?a, _) |- _ => quiet_run_in H; rename H into He, a into st1 end.
  run_step; [by run_step|]. run_step.
  match goal with H : ops_bool (O_stop _ _) _ _ = (?a, ?b) |- _ => apply stop_call in H as [Hl Hs]; rename b into d, a into st2 end.
  assert (logged n st st2) as Hl2 by (eapply logged_trans; [by apply eqv_logged|done]).
  destruct d as [dn|e]; [|run_step; split; [done|]; by eexists].
  run_step; [by run_step|]. run_step.
  match goal with H : mbind _ _ w st2 = (?a, ?b) |- _ => rename H into Hw, a into st3, b into y end.
  quiet_run_in Hw. assert (logged n st st3) as Hl3 by (eapply logged_trans; [done|by apply eqv_logged]).
  assert (dn = true → evidence_of (st_log st3) n = Down) as Hd.
  { intros ->. rewrite (ev_evidence _ _ Hw). by apply Hs. }
  destruct y; run_step; (split; [done|]); eexists; (split; [done|]); by destruct dn; auto.
Qed.

(** A stop that is recorded as Stopped ended the workload *)
Lemma stop_body_inv s w st st' r :
  stop_body s w st = (st', r) →
  logged (si_name s) st st' ∧
  ∃ out, r = Ok out ∧ (stop_settled out = true → evidence_of (st_log st') (si_name s) = Down).
Proof.
  unfold stop_body. destruct (si_kind s); [apply stop_tier3_user_inv|apply stop_tier2_inv|apply stop_tier3s_inv].
Qed.

(** ** Probing *)

Lemma observe_call k n w st st' r :
  ops_status (O_observe k n) w st = (st', r) →
  logged n st st' ∧ confirms n st st' ∧
  (∀ x y, r = Ok (x, y) → x ∈ ["stopped"; "failed"] →
     if bool_decide (k = KIND_TIER3_USER) then evidence_of (st_log st') n = Down
     else evidence_of (st_log st') n ≠ Up).
Proof.
  unfold ops_status. intros H.
  assert (∃ a, st_log st' = Ev (O_observe k n) a :: st_log st ∧ logged n st st' ∧ ∀ x y, r = Ok (x, y) → a = A_status x y)
    as (a & Hl & Hg & Ha).
  { run_step.
    - apply (ops_inv n) in H as (a & ? & ? & ?); [|by auto..]. by exists a.
    - match goal with H : ops _ _ _ = _ |- _ => apply (ops_inv n) in H as (a & ? & ? & Hr); [|by auto..] end.
      exists a. destruct a; simplify_eq; run_step; split_and!; try done; naive_solver. }
  split; [done|]. unfold confirms. rewrite Hl. split; [split; [simpl|by apply leftover_kept]|simpl].
  - intros ->. unfold after_event. simpl. destruct a; try done. by repeat case_bool_decide.
  - intros x y -> Hx. rewrite (Ha x y eq_refl). unfold after_event. simpl.
    rewrite (bool_decide_true (n = n)), (bool_decide_true (x ∈ _)) by done. simpl.
    case_bool_decide; [done|]. by destruct (evidence_of (st_log st) n).
Qed.

Lemma dead_confirmed_inv s observed w st st' r :
  dead_confirmed s observed w st = (st', r) →
  (si_kind s = KIND_TIER3_USER → evidence_of (st_log st) (si_name s) = Down) →
  (evidence_of (st_log st) (si_name s) ≠ Up) →
  logged (si_name s) st st' ∧ confirms (si_name s) st st' ∧
  ∃ d x, r = Ok (d, x) ∧ (d = true → evidence_of (st_log st') (si_name s) = Down).
Proof.
  intros H Hd Hup. unfold dead_confirmed in H. destruct (si_kind s).
  { run_step. split; [apply eqv_logged, eqv_refl|]. split; [apply confirms_refl|]. eexists _, _. split; [done|]. auto. }
  all: run_step; [by run_step|]; run_step.
  all: match goal with H : ops_bool _ _ _ = (_, ?b) |- _ => apply running_call in H as (Hl & Hk & Hr); rename b into v end.
  all: destruct v as [[]|]; run_step; (split; [done|]); (split; [done|]); eexists _, _; (split; [done|]); auto; done.
Qed.

(** A probe's verdict that the silo is dead is evidence, and no probe takes any away *)
Lemma start_probe_inv o gen rd w st st' r s :
  st_heap st !! o = Some s → start_probe o gen rd w st = (st', r) →
  logged (si_name s) st st' ∧ confirms (si_name s) st st' ∧
  ∃ status reason dead, r = Ok (Go (P_probed o gen rd status reason dead)) ∧
    (dead = true → evidence_of (st_log st') (si_name s) = Down).
Proof.
  intros Ho H. unfold start_probe in H. run_step; [apply obj_inv in H as (-> & [(? & ? & _)|(? & ? & ?)]); congruence|].
  match goal with H : obj _ _ _ = _ |- _ => apply obj_inv in H as [-> [(x' & [= ->] & Hx)|(? & ? & _)]]; [|done] end.
  rewrite Ho in Hx. injection Hx as <-. run_step; [by run_step|]. run_step.
  match goal with H : ops_status _ _ _ = (?a, ?b) |- _ => apply observe_call in H as (Hl & Hk & Hs); rename b into p, a into st1 end.
  destruct (match p with Ok x => x | Err _ => ("unknown", "runtime probe failed") end) as [status reason] eqn:Hp.
  destruct (decide (status ∈ ["stopped"; "failed"])) as [Hst|Hst].
  - rewrite bool_decide_true in H by done. assert (p = Ok (status, reason)) as ->.
    { destruct p as [[]|]; simplify_eq; [done|]. set_solver. }
    specialize (Hs status reason eq_refl Hst).
    assert (evidence_of (st_log st1) (si_name s) ≠ Up) by (case_bool_decide; congruence).
    assert (si_kind s = KIND_TIER3_USER → evidence_of (st_log st1) (si_name s) = Down) by (intros; by case_bool_decide).
    run_step.
    { apply dead_confirmed_inv in H as (_ & _ & ? & ? & ? & _); done. }
    match goal with H : dead_confirmed _ _ _ _ = _ |- _ => apply dead_confirmed_inv in H as (Hl2 & Hk2 & d & y & [= ->] & Hd); [|done..] end.
    run_step. split; [by eapply logged_trans|]. split; [by eapply confirms_trans|]. eexists _, _, _. split; [done|]. done.
  - rewrite bool_decide_false in H by done. repeat run_step. split; [done|]. split; [done|]. eexists _, _, _. by split.
Qed.

Lemma observe_probe_inv o gen ts w st st' r s :
  st_heap st !! o = Some s → observe_probe ((o, gen) :: ts) w st = (st', r) →
  logged (si_name s) st st' ∧ confirms (si_name s) st st' ∧
  ∃ status reason began, r = Ok (Go (P_observed o gen status reason began ts)).
Proof.
  intros Ho H. unfold observe_probe in H. run_step; [by run_step|]. run_step.
  run_step; [apply obj_inv in H as (-> & [(? & ? & _)|(? & ? & ?)]); congruence|].
  match goal with H : obj _ _ _ = _ |- _ => apply obj_inv in H as [-> [(x' & [= ->] & Hx)|(? & ? & _)]]; [|done] end.
  rewrite Ho in Hx. injection Hx as <-. run_step; [by run_step|]. run_step.
  match goal with H : ops_status _ _ _ = (?a, ?b) |- _ => apply observe_call in H as (Hl & Hk & _); rename b into p end.
  destruct (match p with Ok x => x | Err _ => _ end) as [status reason]. run_step. eauto 10.
Qed.

(** ** Accounts *)

Lemma quiet_bad_uid us : quiet (names_bad_uid us).
Proof. induction us as [|u us IH]; simpl; auto with quiet. Qed.
#[local] Hint Resolve quiet_bad_uid : quiet.
Lemma quiet_unsafe want n : quiet (fragment_unsafe want n).
Proof.
  unfold fragment_unsafe. destruct (od_get want n); [|apply quiet_ret]. apply quiet_bind; [auto with quiet|].
  intros [[]|]; auto with quiet. apply quiet_bind; [|auto with quiet]. apply quiet_attempt, quiet_bind; [auto with quiet|].
  intros [[]|]; auto with quiet.
Qed.
#[local] Hint Resolve quiet_unsafe : quiet.
Lemma quiet_purge_fragments want have : quiet (purge_fragments want have).
Proof. induction have as [|n have IH]; simpl; auto 20 with quiet. Qed.
#[local] Hint Resolve quiet_purge_fragments : quiet.
Lemma quiet_purge : quiet purge_unsafe_relay_fragments.
Proof. unfold purge_unsafe_relay_fragments. auto 20 with quiet. Qed.
#[export] Hint Resolve quiet_purge : quiet.

(** The silo is down and has no process left *)
Definition gone (st : store) (n : string) : Prop :=
  evidence_of (st_log st) n = Down ∧ leftover (st_log st) n = false.

Lemma gone_eqv st st' n : eqv st st' → gone st n → gone st' n.
Proof. intros He [Hd Hl]. split; [by rewrite (ev_evidence _ _ He)|by apply (ev_left _ _ He)]. Qed.

(** Neutral on a silo that is gone: it may remove the account or the state directory *)
Definition calm {A} (n : string) (m : M A) : Prop := ∀ w st, gone st n → eqv st (m w st).1.

Lemma calm_run {A} n (m : M A) w st st' r : m w st = (st', r) → calm n m → gone st n → eqv st st'.
Proof. intros Heq Hm Hd. specialize (Hm w st Hd). by rewrite Heq in Hm. Qed.
Lemma calm_quiet {A} n (m : M A) : quiet m → calm n m.
Proof. intros Hm w st _. apply Hm. Qed.
Lemma calm_bind {A B} n (m : M A) (f : A → M B) : calm n m → (∀ a, calm n (f a)) → calm n (m ≫= f).
Proof.
  intros Hm Hf w st Hd. unfold mbind, M_bind. specialize (Hm w st Hd). destruct (m w st) as [st1 [a|e]]; [|done].
  eapply eqv_trans; [exact Hm|apply Hf]. by eapply gone_eqv.
Qed.
Lemma calm_attempt {A} n (m : M A) : calm n m → calm n (attempt m).
Proof. intros Hm w st Hd. unfold attempt. specialize (Hm w st Hd). by destruct (m w st). Qed.
Lemma calm_removal n o : o = O_userdel n ∨ o = O_remove_state_dir n → calm n (ops_ o).
Proof.
  intros Ho w st [Hd Hl]. unfold ops_, mbind, M_bind, ops. assert (eqv st (set_log (Ev o (w_answer w (st_log st) o) :: st_log st) st)).
  { split; try done.
    - intros m. by destruct Ho as [-> | ->].
    - intros m. apply leftover_kept. intros k. by destruct Ho as [-> | ->].
    - intros Hs. simpl. split_and!; [..|done]; destruct Ho as [-> | ->]; by intros m [= <-]. }
  by destruct (w_answer w (st_log st) o).
Qed.
Lemma calm_if {A} n (b : bool) (m1 m2 : M A) : calm n m1 → calm n m2 → calm n (if b then m1 else m2).
Proof. by destruct b. Qed.
Lemma calm_best_effort n o : calm n (ops_ o) → calm n (best_effort o).
Proof.
  intros Ho. unfold best_effort. apply calm_bind; [by apply calm_attempt|]. intros _. apply calm_quiet, quiet_ret.
Qed.

Create HintDb calm discriminated.
#[export] Hint Resolve calm_attempt calm_if calm_best_effort : calm.
#[export] Hint Extern 1 (calm _ (ops_ (O_userdel _))) => apply calm_removal; by left : calm.
#[export] Hint Extern 1 (calm _ (ops_ (O_remove_state_dir _))) => apply calm_removal; by right : calm.
#[export] Hint Extern 3 (calm _ (mbind _ _)) => apply calm_bind; [|intros ?] : calm.
#[export] Hint Extern 2 (calm _ _) => apply calm_quiet; solve [auto 10 with quiet] : calm.
#[export] Hint Extern 4 (calm _ (match ?x with _ => _ end)) => destruct x : calm.

Lemma calm_rollback n : calm n (rollback_account_transaction n).
Proof. unfold rollback_account_transaction. auto 20 with calm. Qed.
#[export] Hint Resolve calm_rollback : calm.

Lemma calm_provision n uid : calm n (provision_account n uid).
Proof. unfold provision_account. auto 40 with calm. Qed.

(** A cgroup that could be removed was empty *)
Lemma cgroup_remove_call n w st st' :
  ops_ (O_cgroup_remove n) w st = (st', Ok tt) → evidence_of (st_log st) n = Down → eqv st st' ∧ gone st' n.
Proof.
  intros H Hd. assert (eqv st st') as He by (by quiet_run_in H). split; [done|].
  split; [by rewrite (ev_evidence _ _ He)|]. unfold ops_, ops, mbind, M_bind, mret, M_ret in H.
  destruct (w_answer w (st_log st) (O_cgroup_remove n)) eqn:Ha; simplify_eq; simpl; by rewrite Hd, !bool_decide_true.
Qed.

(** The teardown of a delete goes on to [P_delete_done]; when nothing failed, the silo has no
    process left *)
Lemma delete_teardown_inv o w st st' r s :
  st_heap st !! o = Some s → evidence_of (st_log st) (si_name s) = Down →
  delete_teardown o w st = (st', r) →
  eqv st st' ∧ ∃ f, r = Ok (Go (P_delete_done o f)) ∧ (f = None → leftover (st_log st') (si_name s) = false).
Proof.
  intros Ho Hd. unfold delete_teardown. intros H.
  run_step; [apply obj_inv in H as (-> & [(? & ? & _)|(? & ? & ?)]); congruence|].
  match goal with H : obj _ _ _ = _ |- _ => apply obj_inv in H as [-> [(x' & [= ->] & Hx)|(? & ? & _)]]; [|done] end.
  rewrite Ho in Hx. injection Hx as <-. run_step; [by run_step|]. run_step.
  rename H into Hrest. match goal with H : mbind _ _ w st = (?a, ?b) |- _ => rename H into Hrun, a into st1, b into res end.
  assert (eqv st st1 ∧ (is_ok res = true → leftover (st_log st1) (si_name s) = false)) as [He Hl].
  { apply bind_inv in Hrun as [(e & Hrun & ->)|([] & st2 & H2 & Hrun)]; [quiet_run_in Hrun; by split|].
    apply cgroup_remove_call in H2 as [He Hg]; [|done]. apply (calm_run (si_name s)) in Hrun; [|auto 20 with calm|done].
    split; [by eapply eqv_trans|]. intros _. by apply (gone_eqv st2). }
  clear Hrun. destruct res as [u|e].
  - apply mret_inv in Hrest as [-> ->]. split; [done|]. eauto.
  - apply bind_inv in Hrest as [(e' & Hrest & ->)|([] & st2 & H2 & Hrest)].
    + repeat case_bool_decide; repeat run_step; by apply best_effort_inv in Hrest as [? _].
    + quiet_run_in H2. apply mret_inv in Hrest as [-> ->]. split; [by eapply eqv_trans|]. eexists. by split.
Qed.

End Work.
