(* ===== verification/SiloInv.v ===== *)
(** * The invariant of the silo store

    What holds between two regions: facts about the rows, facts each parked thread relies on,
    and which threads can be parked on one silo together. A region is judged by what it does
    to the silo it works on; [region_ok] is enough for the invariant to survive it. *)

From S2P Require Import Prelude SiloData SiloStore SiloRuns SiloWork.
From Stdlib Require Import ZArith.

Module Inv.
Import Silos Store Runs Work.

(** ** Program counters *)

(** Parked while owning the silo's slot: the object and the claim *)
Definition holder (p : pc) : option (nat * nat) :=
  match p with
  | P_launch o c | P_launched o c _ | P_stop o c | P_stopped o c _ | P_freeze _ o c | P_froze _ o c _ => Some (o, c)
  | _ => None
  end.
(** Parked before the calls that start or stop the workload *)
Definition writer (p : pc) : option nat :=
  match p with P_launch o _ | P_stop o _ => Some o | _ => None end.
(** Parked with a probed object and the generation it was probed at *)
Definition prober (p : pc) : option (nat * nat) :=
  match p with P_probe o g _ | P_probed o g _ _ _ _ => Some (o, g) | _ => None end.
(** Parked with exclusive business on the silo's name *)
Definition strong (p : pc) : bool :=
  match p with
  | P_launch _ _ | P_launched _ _ _ | P_stop _ _ | P_stopped _ _ _ | P_freeze _ _ _ | P_froze _ _ _ _
  | P_create _ | P_create_commit _ | P_create_undo _ _ | P_deleting _ | P_delete_done _ _ => true
  | _ => false
  end.
(** Parked with the name listed in [_creating_inflight] *)
Definition creator (p : pc) : bool :=
  match p with P_create _ | P_create_commit _ | P_create_undo _ _ | P_create_exit _ => true | _ => false end.

Definition deletable (s : State) : Prop := s = CREATED ∨ s = STOPPED ∨ s = DELETING.

Definition down (st : store) (n : string) : Prop := evidence_of (st_log st) n = Down.

(** The row of [n] is the object [o], whose state satisfies [P] *)
Definition row_at (st : store) (n : string) (o : nat) (P : State → Prop) : Prop :=
  od_get (st_table st) n = Some o ∧ ∃ s, st_heap st !! o = Some s ∧ si_name s = n ∧ P (si_state s).

Definition held (st : store) (n : string) (o c : nat) (P : State → Prop) : Prop :=
  st_inflight st !! n = Some c ∧ c < st_fresh st ∧ row_at st n o P.

(** What the thread [me], parked at [p] on the silo [n], relies on *)
Definition pcok (st : store) (me : nat) (n : string) (p : pc) : Prop :=
  match p with
  | P_round _ | P_delete => True
  | P_probe o g _ =>
      ∃ s, st_heap st !! o = Some s ∧ si_name s = n ∧ g ≤ si_generation s ∧ (si_generation s = g → si_state s ≠ DELETING)
  | P_probed o g _ _ _ dead =>
      ∃ s, st_heap st !! o = Some s ∧ si_name s = n ∧ g ≤ si_generation s ∧ (si_generation s = g → si_state s ≠ DELETING) ∧
           (dead = true → od_get (st_table st) n = Some o → si_generation s = g → down st n)
  | P_launch o c => held st n o c (λ x, x = ACTIVE) ∧ down st n
  | P_launched o c out => held st n o c (λ x, x = ACTIVE) ∧ (start_failed out = true → down st n)
  | P_stop o c => held st n o c (λ x, x = STOPPING)
  | P_stopped o c out => held st n o c (λ x, x = STOPPING) ∧ (stop_settled out = true → down st n)
  | P_freeze _ o c | P_froze _ o c _ => held st n o c (λ x, x = ACTIVE ∨ x = FROZEN)
  | P_backstop c _ => c < st_fresh st ∧ st_inflight st !! n ≠ Some c
  | P_create row => ro_name row = n ∧ st_creating st !! n = Some (ro_uid row) ∧ od_get (st_table st) n = None ∧ ro_state row = CREATED
  | P_create_commit row | P_create_undo row _ =>
      ro_name row = n ∧ st_creating st !! n = Some (ro_uid row) ∧ od_get (st_table st) n = None ∧ ro_state row = CREATED
      ∧ st_accounts st = Some me
  | P_create_exit _ => is_Some (st_creating st !! n)
  | P_delete_purge o | P_delete_commit o => st_accounts st = Some me
  | P_deleting o => st_accounts st = Some me ∧ row_at st n o (λ x, x = DELETING)
  | P_delete_done o failed =>
      st_accounts st = Some me ∧ row_at st n o (λ x, x = DELETING) ∧ (failed = None → leftover (st_log st) n = false)
  | P_observe ts => Forall (λ x, is_Some (st_heap st !! x.1)) ts
  | P_observed o _ _ _ _ ts => is_Some (st_heap st !! o) ∧ Forall (λ x, is_Some (st_heap st !! x.1)) ts
  end.

(** ** The rows *)

Record base (st : store) : Prop := {
  b_keys : NoDup (keys (st_table st));
  b_table : ∀ n o, od_get (st_table st) n = Some o → ∃ s, st_heap st !! o = Some s ∧ si_name s = n;
  b_heap : ∀ o, is_Some (st_heap st !! o) → o < st_fresh st;
  b_down : ∀ n o, row_at st n o deletable → down st n;
  b_absent : ∀ n, od_get (st_table st) n = None → gone st n;
  b_claims : ∀ n c, st_inflight st !! n = Some c → c < st_fresh st;
  b_safe : log_safe (st_log st);
}.

Record inv (st : store) : Prop := {
  i_base : base st;
  i_pc : ∀ t th, st_threads st !! t = Some th → pcok st t (t_name th) (t_pc th);
  i_strong : ∀ t1 t2 th1 th2, st_threads st !! t1 = Some th1 → st_threads st !! t2 = Some th2 →
    t_name th1 = t_name th2 → strong (t_pc th1) = true → strong (t_pc th2) = true → t1 = t2;
  i_creator : ∀ t1 t2 th1 th2, st_threads st !! t1 = Some th1 → st_threads st !! t2 = Some th2 →
    t_name th1 = t_name th2 → creator (t_pc th1) = true → creator (t_pc th2) = true → t1 = t2;
  i_probe : ∀ t1 t2 th1 th2 o g s, st_threads st !! t1 = Some th1 → st_threads st !! t2 = Some th2 →
    prober (t_pc th1) = Some (o, g) → writer (t_pc th2) = Some o → st_heap st !! o = Some s → g < si_generation s;
  i_owner : ∀ n c, st_inflight st !! n = Some c →
    ∃ t th o, st_threads st !! t = Some th ∧ t_name th = n ∧ holder (t_pc th) = Some (o, c);
}.

(** ** Regions *)

(** No other thread has exclusive business on [n] *)
Definition alone (st : store) (me : nat) (n : string) : Prop :=
  ∀ t th, st_threads st !! t = Some th → t ≠ me → t_name th = n → strong (t_pc th) = true → False.

Definition accounts_moved (me : nat) (a a' : option nat) : Prop :=
  a' = a ∨ (a = None ∧ a' = Some me) ∨ (a = Some me ∧ a' = None).

(** Nothing another thread relies on moved *)
Record still (me : nat) (st st' : store) : Prop := {
  sl_table : st_table st' = st_table st;
  sl_inflight : st_inflight st' = st_inflight st;
  sl_creating : st_creating st' = st_creating st;
  sl_threads : st_threads st' = st_threads st;
  sl_fresh : st_fresh st' = st_fresh st;
  sl_accounts : accounts_moved me (st_accounts st) (st_accounts st');
  sl_heap : ∀ o s, st_heap st !! o = Some s →
    ∃ s', st_heap st' !! o = Some s' ∧ si_name s' = si_name s ∧ si_state s' = si_state s ∧ si_generation s' = si_generation s;
  sl_new : ∀ o, is_Some (st_heap st' !! o) → is_Some (st_heap st !! o);
  sl_down : ∀ n, down st n → down st' n;
  sl_left : ∀ n, leftover (st_log st) n = false → leftover (st_log st') n = false;
  sl_safe : log_safe (st_log st) → log_safe (st_log st');
}.

(** Only the silo [n] moved *)
Record frame (me : nat) (n : string) (st st' : store) : Prop := {
  fr_table : ∀ m, m ≠ n → od_get (st_table st') m = od_get (st_table st) m;
  fr_inflight : ∀ m, m ≠ n → st_inflight st' !! m = st_inflight st !! m;
  fr_creating : ∀ m, m ≠ n → st_creating st' !! m = st_creating st !! m;
  fr_threads : st_threads st' = st_threads st;
  fr_fresh : st_fresh st ≤ st_fresh st';
  fr_accounts : accounts_moved me (st_accounts st) (st_accounts st');
  fr_heap : ∀ o s, st_heap st !! o = Some s →
    ∃ s', st_heap st' !! o = Some s' ∧ si_name s' = si_name s ∧ si_generation s ≤ si_generation s' ∧
          (si_name s ≠ n → si_state s' = si_state s ∧ si_generation s' = si_generation s);
  fr_down : ∀ m, m ≠ n → down st m → down st' m;
  fr_left : ∀ m, m ≠ n → leftover (st_log st) m = false → leftover (st_log st') m = false;
}.

(** The silo [n] moved in a way that parked probes and spent claims survive: the slot is as
    it was, free, or freshly claimed; and a probe whose generation is still current finds
    the evidence it found, unless a start or stop was pending on the object *)
Record mild (p : pc) (n : string) (st st' : store) : Prop := {
  md_inflight : st_inflight st' !! n = st_inflight st !! n ∨ st_inflight st' !! n = None ∨
                (∃ c, st_inflight st' !! n = Some c ∧ st_fresh st ≤ c);
  md_state : ∀ o s s', st_heap st !! o = Some s → st_heap st' !! o = Some s' →
    si_generation s' = si_generation s → si_state s' = DELETING → si_state s = DELETING;
  md_creating : is_Some (st_creating st !! n) → is_Some (st_creating st' !! n);
  md_probe : ∀ o s s', od_get (st_table st') n = Some o → st_heap st !! o = Some s → st_heap st' !! o = Some s' →
    si_generation s' = si_generation s →
    od_get (st_table st) n = Some o ∧ (writer p = Some o ∨ (down st n → down st' n));
}.

Definition next_pc (nx : next) : option pc := match nx with Go p => Some p | End _ => None end.

(** A region of [me] on [n], from [p] to [nx] *)
Inductive region_ok (me : nat) (n : string) (p : pc) (nx : next) (st st' : store) : Prop :=
| region_still :
    still me st st' →
    (∀ q, next_pc nx = Some q → pcok st' me n q) →
    (∀ q, next_pc nx = Some q → strong q = true → strong p = true ∨ alone st me n) →
    (∀ o c, holder p = Some (o, c) → ∃ q o', next_pc nx = Some q ∧ holder q = Some (o', c)) →
    (∀ q o g, next_pc nx = Some q → prober q = Some (o, g) →
       prober p = Some (o, g) ∨ (od_get (st_table st) n = Some o ∧ st_inflight st !! n = None)) →
    (∀ q, next_pc nx = Some q → writer q = None) →
    (∀ q, next_pc nx = Some q → creator q = true → creator p = true) →
    region_ok me n p nx st st'
| region_moves :
    alone st me n → frame me n st st' → mild p n st st' → base st' →
    (∀ q, next_pc nx = Some q → pcok st' me n q) →
    (∀ c, st_inflight st' !! n = Some c → ∃ q o, next_pc nx = Some q ∧ holder q = Some (o, c)) →
    (∀ q, next_pc nx = Some q → prober q = None) →
    (∀ q o s s', next_pc nx = Some q → writer q = Some o → st_heap st !! o = Some s → st_heap st' !! o = Some s' →
       si_generation s < si_generation s') →
    (∀ q, next_pc nx = Some q → creator q = true → creator p = true ∨ st_creating st !! n = None) →
    region_ok me n p nx st st'
| region_exit r st0 :
    p = P_create_exit r → next_pc nx = None → still me st st0 →
    st' = set_creating (delete n (st_creating st0)) st0 →
    region_ok me n p nx st st'.

(** ** Other threads *)

Lemma accounts_kept me t a a' : accounts_moved me a a' → t ≠ me → a = Some t → a' = Some t.
Proof. intros [->|[[-> ->]|[-> ->]]] Ht Ha; congruence. Qed.

Lemma row_at_still me st st' n o P : still me st st' → row_at st n o P → row_at st' n o P.
Proof.
  intros Hs [Ht (s & Ho & Hn & HP)]. split; [by rewrite (sl_table _ _ _ Hs)|].
  destruct (sl_heap _ _ _ Hs o s Ho) as (s' & Ho' & Hn' & Hst & _). exists s'. rewrite Hst, Hn'. done.
Qed.

Lemma held_still me st st' n o c P : still me st st' → held st n o c P → held st' n o c P.
Proof.
  intros Hs (Hi & Hc & Hr). split; [by rewrite (sl_inflight _ _ _ Hs)|].
  split; [by rewrite (sl_fresh _ _ _ Hs)|]. by eapply row_at_still.
Qed.

Lemma heap_still me st st' o : still me st st' → is_Some (st_heap st !! o) → is_Some (st_heap st' !! o).
Proof. intros Hs [s Ho]. destruct (sl_heap _ _ _ Hs o s Ho) as (s' & Ho' & _). eauto. Qed.

Lemma pcok_still me st st' t n p : still me st st' → t ≠ me → pcok st t n p → pcok st' t n p.
Proof.
  intros Hs Ht. pose proof (sl_down _ _ _ Hs n) as Hd.
  assert (∀ o, is_Some (st_heap st !! o) → is_Some (st_heap st' !! o)) as Hh by (intros; by eapply heap_still).
  destruct p; simpl; try done.
  - intros (s & Ho & Hn & Hg & Hst). destruct (sl_heap _ _ _ Hs _ _ Ho) as (s' & Ho' & Hn' & Hst' & Hg').
    exists s'. rewrite Hn', Hg', Hst'. done.
  - intros (s & Ho & Hn & Hg & Hst & Hdd). destruct (sl_heap _ _ _ Hs _ _ Ho) as (s' & Ho' & Hn' & Hst' & Hg').
    exists s'. rewrite Hn', Hg', Hst', (sl_table _ _ _ Hs). split_and!; auto.
  - intros [Hh1 ?]. split; [by eapply held_still|auto].
  - intros [Hh1 ?]. split; [by eapply held_still|auto].
  - intros. by eapply held_still.
  - intros [Hh1 ?]. split; [by eapply held_still|auto].
  - intros. by eapply held_still.
  - intros. by eapply held_still.
  - by rewrite (sl_fresh _ _ _ Hs), (sl_inflight _ _ _ Hs).
  - by rewrite (sl_table _ _ _ Hs), (sl_creating _ _ _ Hs).
  - rewrite (sl_table _ _ _ Hs), (sl_creating _ _ _ Hs). intros (? & ? & ? & ? & Ha). split_and!; try done.
    by eapply accounts_kept; [apply Hs|..].
  - rewrite (sl_table _ _ _ Hs), (sl_creating _ _ _ Hs). intros (? & ? & ? & ? & Ha). split_and!; try done.
    by eapply accounts_kept; [apply Hs|..].
  - by rewrite (sl_creating _ _ _ Hs).
  - intros Ha. by eapply accounts_kept; [apply Hs|..].
  - intros Ha. by eapply accounts_kept; [apply Hs|..].
  - intros [Ha Hr]. split; [by eapply accounts_kept; [apply Hs|..]|by eapply row_at_still].
  - intros (Ha & Hr & Hf). split_and!; [by eapply accounts_kept; [apply Hs|..]|by eapply row_at_still|].
    intros Hz. by apply (sl_left _ _ _ Hs), Hf.
  - intros Hf. eapply Forall_impl; [exact Hf|]. simpl. auto.
  - intros [Ho Hf]. split; [auto|]. eapply Forall_impl; [exact Hf|]. simpl. auto.
Qed.

Lemma row_at_frame me n st st' m o P : frame me n st st' → m ≠ n → row_at st m o P → row_at st' m o P.
Proof.
  intros Hf Hm [Ht (s & Ho & Hn & HP)]. split; [by rewrite (fr_table _ _ _ _ Hf)|].
  destruct (fr_heap _ _ _ _ Hf o s Ho) as (s' & Ho' & Hn' & _ & Hst). exists s'.
  destruct Hst as [Hst _]; [congruence|]. rewrite Hst, Hn'. done.
Qed.

Lemma held_frame me n st st' m o c P : frame me n st st' → m ≠ n → held st m o c P → held st' m o c P.
Proof.
  intros Hf Hm (Hi & Hc & Hr). split; [by rewrite (fr_inflight _ _ _ _ Hf)|].
  split; [pose proof (fr_fresh _ _ _ _ Hf); lia|]. by eapply row_at_frame.
Qed.

Lemma targets_frame me n st st' (ts : list (nat * nat)) :
  frame me n st st' → Forall (λ x, is_Some (st_heap st !! x.1)) ts → Forall (λ x, is_Some (st_heap st' !! x.1)) ts.
Proof.
  intros Hf Hts. eapply Forall_impl; [exact Hts|]. simpl. intros [o g] [s Ho].
  destruct (fr_heap _ _ _ _ Hf o s Ho) as (s' & Ho' & _). eauto.
Qed.

Lemma pcok_frame me n st st' t m p : frame me n st st' → t ≠ me → m ≠ n → pcok st t m p → pcok st' t m p.
Proof.
  intros Hf Ht Hm. pose proof (fr_down _ _ _ _ Hf m Hm) as Hd.
  assert (st_accounts st = Some t → st_accounts st' = Some t) as Ha
    by (eapply accounts_kept; [apply Hf|done]).
  destruct p; simpl; try done.
  - intros (s & Ho & Hn & Hg & Hst). destruct (fr_heap _ _ _ _ Hf _ _ Ho) as (s' & Ho' & Hn' & Hg' & Hk).
    destruct Hk as [Hk1 Hk]; [congruence|]. exists s'. by rewrite Hn', Hk, Hk1.
  - intros (s & Ho & Hn & Hg & Hst & Hdd). destruct (fr_heap _ _ _ _ Hf _ _ Ho) as (s' & Ho' & Hn' & Hg' & Hk).
    destruct Hk as [Hk1 Hk]; [congruence|]. exists s'. rewrite Hn', Hk, Hk1, (fr_table _ _ _ _ Hf) by done. split_and!; auto.
  - intros [Hh1 ?]. split; [by eapply held_frame|auto].
  - intros [Hh1 ?]. split; [by eapply held_frame|auto].
  - intros. by eapply held_frame.
  - intros [Hh1 ?]. split; [by eapply held_frame|auto].
  - intros. by eapply held_frame.
  - intros. by eapply held_frame.
  - rewrite (fr_inflight _ _ _ _ Hf) by done. pose proof (fr_fresh _ _ _ _ Hf). intros [? ?]. split; [lia|done].
  - by rewrite (fr_table _ _ _ _ Hf), (fr_creating _ _ _ _ Hf).
  - rewrite (fr_table _ _ _ _ Hf), (fr_creating _ _ _ _ Hf) by done. intros (? & ? & ? & ? & ?). split_and!; auto.
  - rewrite (fr_table _ _ _ _ Hf), (fr_creating _ _ _ _ Hf) by done. intros (? & ? & ? & ? & ?). split_and!; auto.
  - by rewrite (fr_creating _ _ _ _ Hf).
  - intros [? Hr]. split; [auto|by eapply row_at_frame].
  - intros (? & Hr & Hfl). split_and!; [auto|by eapply row_at_frame|]. intros Hz. by apply (fr_left _ _ _ _ Hf), Hfl.
  - by eapply targets_frame.
  - intros [[s Ho] Hts]. split; [|by eapply targets_frame].
    destruct (fr_heap _ _ _ _ Hf _ _ Ho) as (s' & Ho' & _). eauto.
Qed.

(** A thread without exclusive business on the silo that moved *)
Lemma pcok_mild me n p st st' t q :
  frame me n st st' → mild p n st st' → t ≠ me → strong q = false →
  (∀ o g s, prober q = Some (o, g) → writer p = Some o → st_heap st !! o = Some s → g < si_generation s) →
  pcok st t n q → pcok st' t n q.
Proof.
  intros Hf Hmd Ht Hq Hw.
  assert (st_accounts st = Some t → st_accounts st' = Some t) as Ha
    by (eapply accounts_kept; [apply Hf|done]).
  destruct q; simpl in *; try done.
  - intros (s & Ho & Hn & Hg & Hst). destruct (fr_heap _ _ _ _ Hf _ _ Ho) as (s' & Ho' & Hn' & Hg' & _).
    exists s'. rewrite Hn'. split_and!; try done; [lia|]. intros Hgen Hdel.
    apply Hst; [lia|]. eapply (md_state _ _ _ _ Hmd o s s'); try done. lia.
  - intros (s & Ho & Hn & Hg & Hst & Hdd). destruct (fr_heap _ _ _ _ Hf _ _ Ho) as (s' & Ho' & Hn' & Hg' & _).
    exists s'. rewrite Hn'. split_and!; try done; [lia| |].
    { intros Hgen Hdel. apply Hst; [lia|]. eapply (md_state _ _ _ _ Hmd o s s'); try done. lia. }
    intros -> Htb Hgen.
    assert (si_generation s' = si_generation s) as Hsame by lia.
    destruct (md_probe _ _ _ _ Hmd _ _ _ Htb Ho Ho' Hsame) as [Htb0 [Hwr|Hkd]].
    + specialize (Hw _ _ s eq_refl Hwr Ho). lia.
    + apply Hkd, Hdd; [done|done|lia].
  - intros [Hc Hi]. pose proof (fr_fresh _ _ _ _ Hf). split; [lia|].
    destruct (md_inflight _ _ _ _ Hmd) as [->|[->|(c & -> & Hfr)]]; [done|done|]. intros [= ->]. lia.
  - apply (md_creating _ _ _ _ Hmd).
  - by eapply targets_frame.
  - intros [[s Ho] Hts]. split; [|by eapply targets_frame].
    destruct (fr_heap _ _ _ _ Hf _ _ Ho) as (s' & Ho' & _). eauto.
Qed.

(** Dropping a name from [_creating_inflight] *)
Lemma pcok_exit n st t m q :
  (m = n → creator q = false) → pcok st t m q → pcok (set_creating (delete n (st_creating st)) st) t m q.
Proof.
  intros Hc. destruct (decide (m = n)) as [->|Hm].
  - specialize (Hc eq_refl). by destruct q.
  - destruct q; simpl; rewrite ?lookup_delete_ne by done; done.
Qed.

Lemma base_exit st c : base st → base (set_creating c st).
Proof. intros []. by split. Qed.

Lemma base_still me st st' : still me st st' → base st → base st'.
Proof.
  intros Hs [Hk Ht Hh Hd Ha Hc Hl]. split.
  - by rewrite (sl_table _ _ _ Hs).
  - intros n o. rewrite (sl_table _ _ _ Hs). intros (s & Ho & Hn)%Ht.
    destruct (sl_heap _ _ _ Hs _ _ Ho) as (s' & Ho' & Hn' & _). exists s'. by rewrite Hn'.
  - intros o Ho%(sl_new _ _ _ Hs). rewrite (sl_fresh _ _ _ Hs). auto.
  - intros n o [Htb (s' & Ho' & Hn' & Hst')]. rewrite (sl_table _ _ _ Hs) in Htb.
    apply (sl_down _ _ _ Hs), (Hd n o). destruct (Ht n o Htb) as (s & Ho & Hn). split; [done|].
    destruct (sl_heap _ _ _ Hs _ _ Ho) as (s2 & Ho2 & _ & Hst2 & _). simplify_eq. exists s. split_and!; try done. by rewrite <- Hst2.
  - intros n. rewrite (sl_table _ _ _ Hs). intros [? ?]%Ha. split; [by apply (sl_down _ _ _ Hs)|by apply (sl_left _ _ _ Hs)].
  - intros n c. rewrite (sl_inflight _ _ _ Hs), (sl_fresh _ _ _ Hs). apply Hc.
  - by apply (sl_safe _ _ _ Hs).
Qed.

(** ** The invariant survives a region *)

(** The thread after its region *)
Definition parked (a : action) (n : string) (nx : next) : option thread :=
  (λ p, {| t_action := a; t_name := n; t_pc := p |}) <$> next_pc nx.

Lemma base_threads st f : base st → base (set_threads f st).
Proof. intros []. by split. Qed.
Lemma pcok_threads st f t n p : pcok (set_threads f st) t n p ↔ pcok st t n p.
Proof. by destruct p. Qed.

Section survives.
Context (me : nat) (a : action) (n : string) (p : pc) (nx : next) (st st' : store).
Context (Hinv : inv st) (Hok : region_ok me n p nx st st').
(** The thread was parked at [p], or is new and [p] has no business on any silo *)
Context (Hme : (∃ th, st_threads st !! me = Some th ∧ t_name th = n ∧ t_pc th = p) ∨
               (st_threads st !! me = None ∧ p = P_round 0)).

Let th' : gmap nat thread := partial_alter (λ _, parked a n nx) me (st_threads st').

Lemma region_threads : st_threads st' = st_threads st.
Proof.
  destruct Hok as [Hs|_ Hf|r st0 _ _ Hs ->]; [apply (sl_threads _ _ _ Hs)|apply (fr_threads _ _ _ _ Hf)|apply (sl_threads _ _ _ Hs)].
Qed.

Lemma parked_me : th' !! me = parked a n nx.
Proof. unfold th'. by rewrite lookup_partial_alter_eq. Qed.
Lemma parked_other t : t ≠ me → th' !! t = st_threads st !! t.
Proof. intros Ht. unfold th'. rewrite lookup_partial_alter_ne by done. by rewrite region_threads. Qed.

Lemma parked_inv t th :
  th' !! t = Some th →
  (t = me ∧ t_name th = n ∧ next_pc nx = Some (t_pc th)) ∨ (t ≠ me ∧ st_threads st !! t = Some th).
Proof.
  destruct (decide (t = me)) as [->|Ht]; [|rewrite parked_other by done; auto].
  rewrite parked_me. unfold parked. destruct (next_pc nx) as [q|]; simpl; [|done]. intros [= <-]. auto.
Qed.

Lemma me_writer t2 th2 o g s :
  st_threads st !! t2 = Some th2 → prober (t_pc th2) = Some (o, g) → writer p = Some o → st_heap st !! o = Some s →
  g < si_generation s.
Proof.
  intros Ht Hp Hw Ho. destruct Hme as [(th & Hth & _ & <-)|[_ ->]]; [|done].
  by eapply (i_probe _ Hinv t2 me).
Qed.

Lemma region_alone q : next_pc nx = Some q → strong q = true → alone st me n.
Proof.
  intros Hq Hsq. destruct Hok as [Hs _ Hst|Hal|r st0 _ Hno]; [|done|congruence].
  destruct (Hst q Hq Hsq) as [Hp|]; [|done].
  intros t th Ht Hne Hn Hth. destruct Hme as [(thm & Hthm & Hnm & Hpm)|[_ ->]]; [|done].
  apply Hne. eapply (i_strong _ Hinv t me th thm); [done|done|congruence|done|congruence].
Qed.

Lemma survives_pc t th : th' !! t = Some th → pcok st' t (t_name th) (t_pc th).
Proof.
  intros [(-> & -> & Hq)|(Ht & Hth)]%parked_inv.
  - destruct Hok; [auto..|congruence].
  - pose proof (i_pc _ Hinv t th Hth) as Hpc. destruct Hok as [Hs|Hal Hf Hmd|r st0 Hp _ Hs ->]; [by eapply pcok_still|..].
    2: { apply pcok_exit; [|by eapply pcok_still]. intros Hn. destruct (creator (t_pc th)) eqn:Hc; [|done].
         destruct Hme as [(thm & Hthm & Hnm & Hpm)|[_ Hpr]]; [|congruence]. exfalso. apply Ht.
         eapply (i_creator _ Hinv t me th thm); [done|done|congruence|done|]. by rewrite Hpm, Hp. }
    destruct (decide (t_name th = n)) as [Hn|Hn]; [|by eapply pcok_frame].
    rewrite Hn in *. eapply pcok_mild; [done|done|done| | |done].
    + destruct (strong (t_pc th)) eqn:Hst; [|done]. by destruct (Hal t th).
    + intros o g s Hp Hw Ho. by eapply me_writer.
Qed.

Lemma survives_strong t1 t2 th1 th2 :
  th' !! t1 = Some th1 → th' !! t2 = Some th2 → t_name th1 = t_name th2 →
  strong (t_pc th1) = true → strong (t_pc th2) = true → t1 = t2.
Proof.
  intros [(-> & Hn1 & Hq1)|(Ht1 & Hth1)]%parked_inv [(-> & Hn2 & Hq2)|(Ht2 & Hth2)]%parked_inv Hn Hs1 Hs2; [done|..].
  - exfalso. eapply (region_alone _ Hq1 Hs1); [exact Hth2|done|congruence|done].
  - exfalso. eapply (region_alone _ Hq2 Hs2); [exact Hth1|done|congruence|done].
  - by eapply (i_strong _ Hinv).
Qed.

(** A new creator is the only one on its name *)
Lemma region_creator q t th :
  next_pc nx = Some q → creator q = true → st_threads st !! t = Some th → t ≠ me → t_name th = n →
  creator (t_pc th) = true → False.
Proof.
  intros Hq Hc Hth Ht Hn Hct.
  assert (creator p = true ∨ st_creating st !! n = None) as [Hp|Hnone].
  { destruct Hok as [_ _ _ _ _ _ Hcr|_ _ _ _ _ _ _ _ Hcr|r st0 _ Hno]; [eauto|eauto|congruence]. }
  - destruct Hme as [(thm & Hthm & Hnm & Hpm)|[_ ->]]; [|done].
    apply Ht. eapply (i_creator _ Hinv t me th thm); [done|done|congruence|done|congruence].
  - pose proof (i_pc _ Hinv t th Hth) as Hpc. rewrite Hn in Hpc.
    destruct (t_pc th); simplify_eq/=; rewrite Hnone in Hpc; first [naive_solver|by destruct Hpc].
Qed.

Lemma survives_creator t1 t2 th1 th2 :
  th' !! t1 = Some th1 → th' !! t2 = Some th2 → t_name th1 = t_name th2 →
  creator (t_pc th1) = true → creator (t_pc th2) = true → t1 = t2.
Proof.
  intros [(-> & Hn1 & Hq1)|(Ht1 & Hth1)]%parked_inv [(-> & Hn2 & Hq2)|(Ht2 & Hth2)]%parked_inv Hn Hs1 Hs2; [done|..].
  - exfalso. eapply (region_creator _ t2 th2 Hq1 Hs1); [done|done|congruence|done].
  - exfalso. eapply (region_creator _ t1 th1 Hq2 Hs2); [done|done|congruence|done].
  - by eapply (i_creator _ Hinv).
Qed.

Lemma prober_object t th o g :
  st_threads st !! t = Some th → prober (t_pc th) = Some (o, g) →
  ∃ s, st_heap st !! o = Some s ∧ g ≤ si_generation s.
Proof.
  intros Hth Hp. pose proof (i_pc _ Hinv t th Hth) as Hpc. destruct (t_pc th); simplify_eq/=; naive_solver.
Qed.

Lemma writer_holds t th o :
  st_threads st !! t = Some th → writer (t_pc th) = Some o →
  od_get (st_table st) (t_name th) = Some o ∧ is_Some (st_inflight st !! t_name th).
Proof.
  intros Hth Hw. pose proof (i_pc _ Hinv t th Hth) as Hpc. destruct (t_pc th); simplify_eq/=.
  - destruct Hpc as [(Hi & _ & Ht & _) _]. eauto.
  - destruct Hpc as (Hi & _ & Ht & _). eauto.
Qed.

Lemma survives_probe t1 t2 th1 th2 o g s' :
  th' !! t1 = Some th1 → th' !! t2 = Some th2 → prober (t_pc th1) = Some (o, g) → writer (t_pc th2) = Some o →
  st_heap st' !! o = Some s' → g < si_generation s'.
Proof.
  intros [(-> & Hn1 & Hq1)|(Ht1 & Hth1)]%parked_inv [(-> & Hn2 & Hq2)|(Ht2 & Hth2)]%parked_inv Hp Hw Ho'.
  - rewrite Hq1 in Hq2. injection Hq2 as Hq2. rewrite Hq2 in Hp. by destruct (t_pc th2).
  - destruct Hok as [Hs _ _ _ Hpr _ _|_ _ _ _ _ _ Hno _ _|r st0 _ Hno]; [|rewrite (Hno _ Hq1) in Hp; done|congruence].
    assert (∃ s, st_heap st !! o = Some s) as [s Ho] by (eapply (sl_new _ _ _ Hs); eauto).
    destruct (sl_heap _ _ _ Hs _ _ Ho) as (s2 & Ho2 & _ & _ & Hg). simplify_eq. rewrite Hg.
    destruct (Hpr _ _ _ Hq1 Hp) as [Hpp|[Htb Hfree]].
    + destruct Hme as [(thm & Hthm & _ & Hpm)|[_ ->]]; [|done]. rewrite <- Hpm in Hpp. by eapply (i_probe _ Hinv me t2).
    + destruct (writer_holds _ _ _ Hth2 Hw) as [Htb2 Hcl].
      destruct (b_table _ (i_base _ Hinv) _ _ Htb) as (s1 & Hs1 & Hnm1).
      destruct (b_table _ (i_base _ Hinv) _ _ Htb2) as (s3 & Hs3 & Hnm3).
      rewrite Hs1 in Hs3. injection Hs3 as <-. rewrite <- Hnm3, Hnm1, Hfree in Hcl. by destruct Hcl.
  - destruct Hok as [_ _ _ _ _ Hnw _|_ _ _ _ _ _ _ Hwr _|r st0 _ Hno]; [rewrite (Hnw _ Hq2) in Hw; done| |congruence].
    destruct (prober_object _ _ _ _ Hth1 Hp) as (s & Ho & Hg). specialize (Hwr _ _ _ _ Hq2 Hw Ho Ho'). lia.
  - destruct (prober_object _ _ _ _ Hth1 Hp) as (s & Ho & Hg).
    pose proof (i_probe _ Hinv _ _ _ _ _ _ _ Hth1 Hth2 Hp Hw Ho) as Hlt.
    destruct Hok as [Hs|_ Hf|r st0 _ _ Hs ->].
    1,3: destruct (sl_heap _ _ _ Hs _ _ Ho) as (s2 & Ho2 & _ & _ & Hg2); simplify_eq/=; lia.
    + destruct (fr_heap _ _ _ _ Hf _ _ Ho) as (s2 & Ho2 & _ & Hg2 & _). simplify_eq. lia.
Qed.

Lemma survives_owner m c :
  st_inflight st' !! m = Some c → ∃ t th o, th' !! t = Some th ∧ t_name th = m ∧ holder (t_pc th) = Some (o, c).
Proof.
  intros Hi.
  assert (∀ q o, next_pc nx = Some q → holder q = Some (o, c) → m = n →
    ∃ t th o, th' !! t = Some th ∧ t_name th = m ∧ holder (t_pc th) = Some (o, c)) as Hnx.
  { intros q o Hq Hh ->. exists me, {| t_action := a; t_name := n; t_pc := q |}, o.
    split; [|done]. rewrite parked_me. unfold parked. by rewrite Hq. }
  assert (∀ t th o, st_threads st !! t = Some th → t ≠ me → t_name th = m → holder (t_pc th) = Some (o, c) →
    ∃ t th o, th' !! t = Some th ∧ t_name th = m ∧ holder (t_pc th) = Some (o, c)) as Hother.
  { intros t th o Hth Ht Hn Hh. exists t, th, o. by rewrite parked_other. }
  destruct Hok as [Hs _ _ Hh _ _ _|_ Hf _ _ _ Hh _ _ _|r st0 Hp _ Hs ->].
  - rewrite (sl_inflight _ _ _ Hs) in Hi. destruct (i_owner _ Hinv _ _ Hi) as (t & th & o & Hth & Hn & Hho).
    destruct (decide (t = me)) as [->|Ht]; [|eauto].
    destruct Hme as [(thm & Hthm & Hnm & Hpm)|[Hnone _]]; [|congruence]. simplify_eq.
    destruct (Hh _ _ Hho) as (q & o' & Hq & Hhq). eauto.
  - destruct (decide (m = n)) as [->|Hm].
    { destruct (Hh _ Hi) as (q & o & Hq & Hhq). eauto. }
    rewrite (fr_inflight _ _ _ _ Hf) in Hi by done. destruct (i_owner _ Hinv _ _ Hi) as (t & th & o & Hth & Hn & Hho).
    destruct (decide (t = me)) as [->|Ht]; [|eauto].
    destruct Hme as [(thm & Hthm & Hnm & Hpm)|[Hnone _]]; congruence.
  - simpl in Hi. rewrite (sl_inflight _ _ _ Hs) in Hi. destruct (i_owner _ Hinv _ _ Hi) as (t & th & o & Hth & Hn & Hho).
    destruct (decide (t = me)) as [->|Ht]; [|eauto].
    destruct Hme as [(thm & Hthm & Hnm & Hpm)|[Hnone _]]; [|congruence].
    assert (th = thm) as -> by congruence. by rewrite Hpm, Hp in Hho.
Qed.

Lemma survives_base : base st'.
Proof.
  destruct Hok as [Hs| |r st0 _ _ Hs ->]; [eapply base_still; [done|apply Hinv]|done|].
  apply base_exit. eapply base_still; [done|apply Hinv].
Qed.

(** The invariant after the region, with the thread parked or retired *)
Lemma region_survives : inv (set_threads th' st').
Proof.
  split.
  - apply base_threads, survives_base.
  - intros t th Hth. apply pcok_threads. by apply survives_pc.
  - intros t1 t2 th1 th2. apply survives_strong.
  - intros t1 t2 th1 th2. apply survives_creator.
  - intros t1 t2 th1 th2 o g s. apply survives_probe.
  - intros m c. apply survives_owner.
Qed.

End survives.

End Inv.
