(* ===== verification/SiloRegions.v ===== *)
(** * Every region keeps the invariant *)

From S2P Require Import Prelude SiloEgress SiloData SiloStore SiloRuns SiloWork SiloInv.
From Stdlib Require Import ZArith.

Module Regions.
Import Silos Store Runs Work Inv.

(** What a region's result makes of its thread *)
Definition nx_of (r : result exn next) : next := match r with Ok nx => nx | Err e => End (Err e) end.

(** ** Up to neutral runs *)

Lemma eqv_still me st st' : eqv st st' → still me st st'.
Proof.
  intros He. split.
  - apply (ev_table _ _ He).
  - apply (ev_inflight _ _ He).
  - apply (ev_creating _ _ He).
  - apply (ev_threads _ _ He).
  - apply (ev_fresh _ _ He).
  - left. apply (ev_accounts _ _ He).
  - intros o s Ho. exists s. by rewrite (ev_heap _ _ He).
  - intros o. by rewrite (ev_heap _ _ He).
  - intros n. unfold down. by rewrite (ev_evidence _ _ He).
  - apply (ev_left _ _ He).
  - apply (ev_safe _ _ He).
Qed.

Lemma accounts_moved_refl me a : accounts_moved me a a.
Proof. by left. Qed.

Lemma still_eqv me st st1 st2 : still me st st1 → eqv st1 st2 → still me st st2.
Proof.
  intros Hs He. split.
  - rewrite (ev_table _ _ He). apply Hs.
  - rewrite (ev_inflight _ _ He). apply Hs.
  - rewrite (ev_creating _ _ He). apply Hs.
  - rewrite (ev_threads _ _ He). apply Hs.
  - rewrite (ev_fresh _ _ He). apply Hs.
  - rewrite (ev_accounts _ _ He). apply Hs.
  - rewrite (ev_heap _ _ He). apply Hs.
  - rewrite (ev_heap _ _ He). apply Hs.
  - intros n Hd%(sl_down _ _ _ Hs). unfold down. by rewrite (ev_evidence _ _ He).
  - intros n Hl%(sl_left _ _ _ Hs). by apply (ev_left _ _ He).
  - intros Hl. by apply (ev_safe _ _ He), (sl_safe _ _ _ Hs).
Qed.

(** Calls about one silo that take no evidence away *)
Lemma logged_still me n st st' : logged n st st' → confirms n st st' → still me st st'.
Proof.
  intros Hl [Hd Hlf]. split; rewrite ?(lg_table _ _ _ Hl), ?(lg_inflight _ _ _ Hl), ?(lg_creating _ _ _ Hl), ?(lg_threads _ _ _ Hl),
      ?(lg_fresh _ _ _ Hl), ?(lg_accounts _ _ _ Hl), ?(lg_heap _ _ _ Hl); try done.
  - by left.
  - intros o s Ho. by exists s.
  - intros m Hm. destruct (decide (m = n)) as [->|Hne]; [by apply Hd|]. unfold down in *. by rewrite (lg_evidence _ _ _ Hl).
  - intros m Hm. destruct (decide (m = n)) as [->|Hne]; [auto|]. by apply (lg_left _ _ _ Hl).
  - apply Hl.
Qed.

Lemma pcok_eqv st st' t n p : eqv st st' → pcok st t n p → pcok st' t n p.
Proof. intros He. apply (pcok_still (S t)); [by apply eqv_still|lia]. Qed.

Lemma base_eqv st st' : eqv st st' → base st → base st'.
Proof. intros He. apply (base_still 0). by apply eqv_still. Qed.

Lemma frame_eqv me n st st1 st2 : frame me n st st1 → eqv st1 st2 → frame me n st st2.
Proof.
  intros [] He. split; rewrite ?(ev_table _ _ He), ?(ev_inflight _ _ He), ?(ev_creating _ _ He), ?(ev_threads _ _ He),
    ?(ev_fresh _ _ He), ?(ev_accounts _ _ He), ?(ev_heap _ _ He); try done.
  - intros m Hm Hd. unfold down. rewrite (ev_evidence _ _ He). by apply fr_down0.
  - intros m Hm Hd. by apply (ev_left _ _ He), fr_left0.
Qed.

Lemma mild_eqv p n st st1 st2 : mild p n st st1 → eqv st1 st2 → mild p n st st2.
Proof.
  intros [] He. split; rewrite ?(ev_table _ _ He), ?(ev_inflight _ _ He), ?(ev_creating _ _ He), ?(ev_heap _ _ He); try done.
  intros o s s' H1 H2 H3 H4. destruct (md_probe0 o s s' H1 H2 H3 H4) as [? [?|Hk]]; split; auto.
  right. intros Hd. unfold down. rewrite (ev_evidence _ _ He). by apply Hk.
Qed.

Lemma region_ok_eqv me n p nx st st1 st2 : region_ok me n p nx st st1 → eqv st1 st2 → region_ok me n p nx st st2.
Proof.
  intros Hok He. destruct Hok as [Hs H1 H2 H3 H4 H5 H6|Hal Hf Hm Hb H1 H2 H3 H4 H5|r st0 Hp Hn Hs ->].
  - apply region_still; try done; [by eapply still_eqv|]. intros q Hq. eapply pcok_eqv; eauto.
  - apply region_moves; try done; [by eapply frame_eqv|by eapply mild_eqv|by eapply base_eqv|..].
    + intros q Hq. eapply pcok_eqv; eauto.
    + intros c. rewrite (ev_inflight _ _ He). auto.
    + intros q o s s' Hq Hw Ho. rewrite (ev_heap _ _ He). eauto.
  - eapply (region_exit _ _ _ _ _ _ r (set_creating (st_creating st0) st2)); try done.
    + destruct He as [E1 E2 E3 E4 E5 E6 E7 E8 E9 E10]. simpl in *.
      split; simpl; rewrite ?E1, ?E2, ?E3, ?E5, ?E6, ?E7; try apply Hs.
      * intros m Hd%(sl_down _ _ _ Hs). unfold down. simpl. by rewrite E8.
      * intros m Hd%(sl_left _ _ _ Hs). by apply E9.
      * intros Hl. by apply E10, (sl_safe _ _ _ Hs).
    + pose proof (ev_creating _ _ He) as Hc. simpl in Hc. destruct st2. simpl in *. by rewrite Hc.
Qed.

(** ** Shapes of regions *)

Section shapes.
Context (me : nat) (n : string) (p : pc) (st : store) (Hinv : inv st).
Context (Hme : (∃ th, st_threads st !! me = Some th ∧ t_name th = n ∧ t_pc th = p) ∨
               (st_threads st !! me = None ∧ p = P_round 0)).

Lemma me_ok : pcok st me n p.
Proof. destruct Hme as [(th & Hth & <- & <-)|[_ ->]]; [by apply (i_pc _ Hinv)|done]. Qed.

(** Nothing moved and the call ends, or goes on with no new business *)
Lemma ok_quiet nx st' :
  eqv st st' → (holder p = None ∨ ∃ q o c, next_pc nx = Some q ∧ holder p = Some (o, c) ∧ holder q = Some (o, c)) →
  (∀ q, next_pc nx = Some q → pcok st' me n q ∧ writer q = None ∧ (prober q = None ∨ prober q = prober p) ∧
        (strong q = true → strong p = true) ∧ (creator q = true → creator p = true)) →
  region_ok me n p nx st st'.
Proof.
  intros He Hh Hq. apply region_still.
  - by apply eqv_still.
  - intros q Hn. by apply Hq.
  - intros q Hn Hs. left. by apply (Hq q Hn).
  - intros o c Hpc. destruct Hh as [?|(q & o' & c' & Hn & H1 & H2)]; [congruence|]. simplify_eq. eauto.
  - intros q o g Hn Hp. left. destruct (Hq q Hn) as (_ & _ & [?|?] & _); congruence.
  - intros q Hn. by apply Hq.
  - intros q Hn. by apply Hq.
Qed.

Lemma ok_end nx st' : eqv st st' → next_pc nx = None → holder p = None → region_ok me n p nx st st'.
Proof. intros He Hn Hh. apply ok_quiet; [done|by left|]. intros q. by rewrite Hn. Qed.

(** Exclusive business is kept, or gained on a free row that is not being deleted *)
Lemma alone_strong : strong p = true → alone st me n.
Proof.
  intros Hp t th Hth Ht Hn Hs. destruct Hme as [(thm & Hthm & Hnm & Hpm)|[_ ->]]; [|done].
  apply Ht. eapply (i_strong _ Hinv t me th thm); [done|done|congruence|done|congruence].
Qed.

Lemma alone_free o s :
  od_get (st_table st) n = Some o → st_heap st !! o = Some s → si_state s ≠ DELETING → st_inflight st !! n = None → alone st me n.
Proof.
  intros Ht Ho Hs Hi t th Hth _ Hn Hst. pose proof (i_pc _ Hinv t th Hth) as Hpc. rewrite Hn in Hpc.
  destruct (t_pc th); simplify_eq/=; unfold held, row_at in Hpc; destruct_and?; try congruence.
  all: match goal with H : ∃ _, _ |- _ => destruct H as (s' & ? & _ & ?) end; congruence.
Qed.

Lemma alone_absent : od_get (st_table st) n = None → st_creating st !! n = None → alone st me n.
Proof.
  intros Ht Hc t th Hth _ Hn Hst. pose proof (i_pc _ Hinv t th Hth) as Hpc. rewrite Hn in Hpc.
  destruct (t_pc th); simplify_eq/=; unfold held, row_at in Hpc; destruct_and?; congruence.
Qed.

(** The row's object and the silo's slot after a move *)
Definition row_store (o : nat) (s : Silo) (i : gmap string nat) (k : nat) : store :=
  set_inflight i (set_fresh k (set_heap (<[o := s]> (st_heap st)) st)).

Lemma held_row o s i k c P :
  i !! n = Some c → c < k → od_get (st_table st) n = Some o → si_name s = n → P (si_state s) →
  held (row_store o s i k) n o c P.
Proof.
  intros Hi Hc Ht Hn HP. split; [done|]. split; [done|]. split; [done|]. exists s. simpl. by rewrite lookup_insert_eq.
Qed.

Lemma ok_row nx st' o s s' i k :
  alone st me n → od_get (st_table st) n = Some o → st_heap st !! o = Some s → si_name s = n → kept s s' →
  (deletable (si_state s') → down st n) →
  (si_state s' = DELETING → si_state s = DELETING ∨ si_generation s < si_generation s') →
  (∀ m, m ≠ n → i !! m = st_inflight st !! m) → st_fresh st ≤ k → (∀ c, i !! n = Some c → c < k) →
  (i !! n = st_inflight st !! n ∨ i !! n = None ∨ ∃ c, i !! n = Some c ∧ st_fresh st ≤ c) →
  eqv (row_store o s' i k) st' →
  (∀ q, next_pc nx = Some q →
     pcok (row_store o s' i k) me n q ∧ prober q = None ∧ (creator q = true → creator p = true) ∧
     (∀ o', writer q = Some o' → o' = o ∧ si_generation s < si_generation s')) →
  (∀ c, i !! n = Some c → ∃ q o, next_pc nx = Some q ∧ holder q = Some (o, c)) →
  region_ok me n p nx st st'.
Proof.
  intros Hal Ht Ho Hn Hk Hdel Hdg Hi Hfr Hck Hcn He Hq Hown. eapply region_ok_eqv; [|exact He].
  assert (∀ o2 s2, st_heap st !! o2 = Some s2 → ∃ s3, <[o := s']> (st_heap st) !! o2 = Some s3 ∧ kept s2 s3 ∧
    (si_name s2 ≠ n → s3 = s2)) as Hheap.
  { intros o2 s2 Ho2. destruct (decide (o2 = o)) as [->|Hne].
    - exists s'. rewrite lookup_insert_eq. simplify_eq. split; [done|]. by split.
    - exists s2. rewrite lookup_insert_ne by done. split; [done|]. by repeat split. }
  destruct (i_base _ Hinv) as [Bk Bt Bh Bd Ba Bc Bs].
  apply region_moves.
  - done.
  - split; simpl; try done; [by left|].
    intros o2 s2 Ho2. destruct (Hheap o2 s2 Ho2) as (s3 & H3 & [K1 K2 K3 K4] & Hne). exists s3.
    split_and!; try done. intros Hnn. by rewrite (Hne Hnn).
  - split; simpl; try done.
    + intros o2 s2 s3 H2 H3 Hg Hs3. destruct (decide (o2 = o)) as [->|Hne].
      * rewrite lookup_insert_eq in H3. simplify_eq. destruct (Hdg Hs3); [done|lia].
      * rewrite lookup_insert_ne in H3 by done. congruence.
    + intros o2 s2 s3 Ht2 H2 H3 Hg. split; [done|]. by right.
  - split; simpl; try done.
    + intros m o2 Hm. destruct (Bt m o2 Hm) as (s2 & H2 & Hn2). destruct (Hheap o2 s2 H2) as (s3 & H3 & [K1 K2 K3 K4] & _).
      exists s3. split; [done|congruence].
    + intros o2 [s2 H2]. enough (o2 < st_fresh st) by lia. apply Bh.
      destruct (decide (o2 = o)) as [->|Hne]; [by eauto|]. rewrite lookup_insert_ne in H2 by done. eauto.
    + intros m o2 [Htm (s2 & H2 & Hn2 & Hd2)]. simpl in Htm, H2. change (down st m).
      destruct (decide (o2 = o)) as [->|Hne].
      * rewrite lookup_insert_eq in H2. injection H2 as <-. assert (m = n) as -> by (destruct Hk; congruence). auto.
      * rewrite lookup_insert_ne in H2 by done. apply (Bd m o2). split; [done|]. eauto.
    + intros m c Hm. destruct (decide (m = n)) as [->|Hne]; [auto|]. rewrite Hi in Hm by done. specialize (Bc _ _ Hm). lia.
  - intros q Hn'. by apply Hq.
  - simpl. auto.
  - intros q Hn'. by apply Hq.
  - intros q o2 s2 s3 Hn' Hw H2 H3. destruct (Hq q Hn') as (_ & _ & _ & Hwr). destruct (Hwr _ Hw) as [-> Hlt].
    simpl in H3. rewrite lookup_insert_eq in H3. simplify_eq. done.
  - intros q Hn' Hc. left. by apply (Hq q Hn').
Qed.

(** Lock-free work of the silo's owner *)
Lemma ok_work nx st' o c P :
  logged n st st' → held st n o c P → (∀ x, P x → ¬ deletable x) → holder p = Some (o, c) → writer p = Some o →
  (∀ q, next_pc nx = Some q → pcok st' me n q ∧ prober q = None ∧ creator q = false ∧ writer q = None) →
  (∃ q, next_pc nx = Some q ∧ holder q = Some (o, c)) →
  region_ok me n p nx st st'.
Proof.
  intros Hl (Hi & Hc & Ht & s & Ho & Hn & HP) Hnd Hh Hw Hq (q0 & Hq0 & Hh0).
  destruct (i_base _ Hinv) as [Bk Bt Bh Bd Ba Bc Bs].
  assert (∀ m, m ≠ n → down st m → down st' m) as Hdn.
  { intros m Hm. unfold down. by rewrite (lg_evidence _ _ _ Hl). }
  apply region_moves.
  - apply alone_strong. by destruct p.
  - split; rewrite ?(lg_table _ _ _ Hl), ?(lg_inflight _ _ _ Hl), ?(lg_creating _ _ _ Hl), ?(lg_threads _ _ _ Hl),
      ?(lg_fresh _ _ _ Hl), ?(lg_accounts _ _ _ Hl), ?(lg_heap _ _ _ Hl); try done; [by left|..].
    + intros o2 s2 H2. exists s2. done.
    + apply Hl.
  - split; rewrite ?(lg_table _ _ _ Hl), ?(lg_inflight _ _ _ Hl), ?(lg_creating _ _ _ Hl), ?(lg_heap _ _ _ Hl); [by left|congruence|done|].
    intros o2 s2 s3 H1 H2 H3 Hg. split; [done|]. left. congruence.
  - split; rewrite ?(lg_table _ _ _ Hl), ?(lg_inflight _ _ _ Hl), ?(lg_fresh _ _ _ Hl), ?(lg_heap _ _ _ Hl); try done.
    + intros m o2 [Htm (s2 & H2 & Hn2 & Hd2)]. rewrite (lg_table _ _ _ Hl) in Htm. rewrite (lg_heap _ _ _ Hl) in H2.
      destruct (decide (m = n)) as [->|Hm]; [exfalso; apply (Hnd _ HP); congruence|].
      apply Hdn; [done|]. apply (Bd m o2). split; [done|]. eauto.
    + intros m Hm. destruct (decide (m = n)) as [->|Hne]; [congruence|].
      destruct (Ba m Hm) as [??]. split; [by apply Hdn|by apply (lg_left _ _ _ Hl)].
    + apply (lg_safe _ _ _ Hl), Bs.
  - intros q Hq'. by apply Hq.
  - rewrite (lg_inflight _ _ _ Hl). intros c' Hc'. rewrite Hi in Hc'. injection Hc' as <-. eauto.
  - intros q Hq'. by apply Hq.
  - intros q o2 s2 s3 Hq' Hwq. destruct (Hq q Hq') as (_ & _ & _ & Hno). congruence.
  - intros q Hq' Hcq. destruct (Hq q Hq') as (_ & _ & Hno & _). congruence.
Qed.

End shapes.

(** ** Inverting the common prefixes *)

Lemma obj_bind {A} o s (f : Silo → M A) w st st' r :
  st_heap st !! o = Some s → (s ← obj o; f s) w st = (st', r) → f s w st = (st', r).
Proof.
  intros Ho H. run_step; [apply obj_inv in H as [-> [(? & ? & _)|(? & _ & ?)]]; congruence|].
  match goal with H : obj _ _ _ = _ |- _ => apply obj_inv in H as [-> [(x' & [= ->] & Hx)|(? & ? & _)]]; [|done] end.
  by rewrite Ho in Hx; injection Hx as <-.
Qed.

Lemma claim_bind n (q : nat → pc) w st st' r :
  (c ← claim_stop_inflight n; mret (Go (q c))) w st = (st', r) →
  r = Ok (Go (q (st_fresh st))) ∧
  st' = set_inflight (<[n := st_fresh st]> (st_inflight st)) (set_fresh (S (st_fresh st)) st).
Proof.
  intros H. run_step; [by apply claim_inv in H as [? _]|].
  match goal with H : claim_stop_inflight _ _ _ = _ |- _ => apply claim_inv in H as [[= ->] ->] end. by run_step.
Qed.

(** ** Starting *)

(** The silo's row is Frozen *)
Definition frozen (st : store) (n : string) : Prop := ∃ o, row_at st n o (λ x, x = FROZEN).

Section regions.
Context (me : nat) (n : string) (p : pc) (st : store) (Hinv : inv st).
Context (Hme : (∃ th, st_threads st !! me = Some th ∧ t_name th = n ∧ t_pc th = p) ∨
               (st_threads st !! me = None ∧ p = P_round 0)).
Context (w : world).

Definition okay (st' : store) (r : result exn next) : Prop := region_ok me n p (nx_of r) st st'.

Lemma table_object o : od_get (st_table st) n = Some o → ∃ s, st_heap st !! o = Some s ∧ si_name s = n.
Proof. apply (b_table _ (i_base _ Hinv)). Qed.

Lemma ends st' e : eqv st st' → holder p = None → okay st' (Err e).
Proof. intros He Hh. by apply ok_end. Qed.

(** The claim of a start, on a row that is neither Active nor Frozen *)
Lemma claim_start_ok (st1 : store) o s s1 c st2 :
  alone st me n → od_get (st_table st) n = Some o → st_heap st !! o = Some s → si_name s = n → kept s s1 →
  down st n → st_inflight st !! n = None →
  eqv (set_heap (<[o := s1]> (st_heap st)) st) st1 →
  claim_start_locked o w st1 = (st2, c) → deletable (si_state s1) → si_state s1 ≠ DELETING → holder p = None →
  region_ok me n p (match c with Ok c => Go (P_launch o c) | Err e => End (Err e) end) st st2.
Proof.
  intros Hal Ht Ho Hn Hk Hd Hi He Hc Hdel Hnd Hh.
  assert (st_heap st1 !! o = Some s1) as Ho1 by (rewrite (ev_heap _ _ He); simpl; by rewrite lookup_insert_eq).
  destruct Hk as [K1 K2 K3 K4].
  destruct (claim_start_inv _ _ _ _ _ _ Ho1 Hc) as [(e & -> & He2)|(s2 & -> & _ & ([K1' K2' K3' K4'] & Hst2 & Hg2) & He2)].
  - eapply ok_row with (o := o) (s := s) (s' := s1) (i := st_inflight st) (k := st_fresh st); try done.
    + by rewrite Hi.
    + by left.
    + eapply eqv_trans; [|exact He2]. by destruct st.
    + by rewrite Hi.
  - rewrite (ev_fresh _ _ He), (ev_inflight _ _ He), (ev_heap _ _ He) in *. simpl in *. rewrite insert_insert_eq in He2.
    eapply ok_row with (o := o) (s := s) (s' := s2) (i := <[n := st_fresh st]> (st_inflight st)) (k := S (st_fresh st)); try done.
    + split; try congruence. lia.
    + by rewrite Hst2.
    + intros m Hm. by rewrite lookup_insert_ne.
    + lia.
    + intros c. rewrite lookup_insert_eq. intros [= <-]. lia.
    + right. right. exists (st_fresh st). by rewrite lookup_insert_eq.
    + eapply eqv_trans; [|exact He2]. rewrite K1, Hn. apply set_inflight_eqv, set_fresh_eqv.
      apply (set_heap_eqv _ _ (<[o := s2]> (st_heap st))) in He. exact He.
    + intros q [= <-]. simpl. split_and!; try done.
      * apply held_row; [by rewrite lookup_insert_eq|lia|done|congruence|done].
      * intros o' [= <-]. split; [done|]. lia.
    + intros c. rewrite lookup_insert_eq. intros [= <-]. eexists _, _. by split.
Qed.

Lemma launch_bind st1 o st' r :
  (c ← claim_start_locked o; mret (Go (P_launch o c))) w st1 = (st', r) →
  ∃ c, claim_start_locked o w st1 = (st', c) ∧ nx_of r = match c with Ok c => Go (P_launch o c) | Err e => End (Err e) end.
Proof. intros H. repeat run_step; eauto. Qed.

Lemma start_round_ok rd st' r :
  ¬ frozen st n → holder p = None → start_round n rd w st = (st', r) → okay st' r.
Proof.
  intros Hnf Hh H. unfold start_round in H. run_step.
  { apply await_inv in H as [-> _]. by apply ends. }
  match goal with H : await_inflight_locked _ _ _ = _ |- _ =>
    apply await_inv in H as [-> [(o & [= ->] & Ht & Hi)|(? & ?)]]; [|done] end.
  destruct (table_object o Ht) as (s & Ho & Hn). run_step.
  { apply obj_inv in H as [-> [(? & ? & _)|(? & _ & ?)]]; [done|congruence]. }
  match goal with H : obj _ _ _ = _ |- _ => apply obj_inv in H as [-> [(x' & [= ->] & Hx)|(? & ? & _)]]; [|done] end.
  rewrite Ho in Hx. injection Hx as <-. case_bool_decide as Hst; cbn [negb] in H.
  - run_step. eapply region_still; try done.
    + apply eqv_still, eqv_refl.
    + intros q [= <-]. exists s. split_and!; try done. intros _. by rewrite Hst.
    + by intros q [= <-].
    + intros o' c'. by rewrite Hh.
    + intros q o' g [= <-] [= <- <-]. auto.
    + by intros q [= <-].
    + by intros q [= <-].
  - assert (si_state s ≠ FROZEN) as Hfz by (intros Hf; apply Hnf; exists o; by split; eauto).
    apply launch_bind in H as (c & Hc & Hr). unfold okay. rewrite Hr.
    destruct (claim_start_inv _ _ _ _ _ _ Ho Hc) as [(e & -> & He)|(s2 & Hcc & Htr & _)]; [by apply ok_end|].
    assert (deletable (si_state s) ∧ si_state s ≠ DELETING) as [Hdel Hnd].
    { destruct (si_state s); simpl in Htr; unfold deletable; set_solver. }
    eapply claim_start_ok; [|done|done|done|..|exact Hc|done|done|done].
    + by eapply alone_free.
    + by split.
    + eapply (b_down _ (i_base _ Hinv)). by split; eauto.
    + done.
    + rewrite insert_id by done. by destruct st.
Qed.

(** The verdict on a probed silo *)
Lemma start_verdict_ok o g rd status reason dead st' r :
  p = P_probed o g rd status reason dead →
  start_verdict n o g rd status reason dead w st = (st', r) → okay st' r.
Proof.
  intros Hp H. assert (holder p = None) as Hh by (by rewrite Hp).
  pose proof (me_ok me n p st Hinv Hme) as Hpc. rewrite Hp in Hpc. simpl in Hpc. destruct Hpc as (s & Ho & Hn & Hg & Hnd & Hd).
  unfold start_verdict in H. run_step; [by run_step|]. run_step.
  destruct (probe_raced n o g st) eqn:Hraced.
  { destruct (rd <? 3); run_step; [|by apply ends]. eapply ok_quiet; [apply eqv_refl|by left|]. intros q [= <-]. simpl. split_and!; by auto. }
  unfold probe_raced in Hraced. bool_hyps. case_bool_decide; [run_step; by eapply ok_end|].
  match goal with H : od_get _ _ = Some o |- _ => rename H into Ht end.
  match goal with H : si_generation <$> _ = Some g |- _ => rewrite Ho in H; injection H as Hgen end.
  assert (st_inflight st !! n = None) as Hi by (destruct (st_inflight st !! n); [exfalso; eauto|done]).
  destruct dead; [|run_step; by apply ends].
  specialize (Hd eq_refl Ht Hgen). run_step.
  - destruct (force_inv _ _ _ _ _ _ _ Ho H) as (s1 & He & [[? _]|(e & [= ->] & Hk & Hs1 & _)]); [done|].
    eapply ok_row with (o := o) (s := s) (s' := s1) (i := st_inflight st) (k := st_fresh st); try done.
    + by eapply alone_free; auto.
    + by rewrite Hs1.
    + by rewrite Hi.
    + by left.
    + by rewrite Hi.
  - match goal with H : force_state _ _ _ _ = _ |- _ =>
      destruct (force_inv _ _ _ _ _ _ _ Ho H) as (s1 & He & [[_ (Hk & Hs1 & _)]|(e & ? & _)]); [|done] end.
    apply launch_bind in H as (c & Hc & Hr). unfold okay. rewrite Hr.
    eapply claim_start_ok; [|done|done|done|exact Hk|done|done|exact He|exact Hc|..]; try done.
    + by eapply alone_free; auto.
    + rewrite Hs1. by right; left.
    + by rewrite Hs1.
Qed.

(** The launch itself *)
Lemma launch_ok o c st' r :
  p = P_launch o c → region me n p w st = (st', r) → okay st' r.
Proof.
  intros Hp H. pose proof (me_ok me n p st Hinv Hme) as Hpc. rewrite Hp in Hpc, H. destruct Hpc as [Hheld Hd].
  pose proof Hheld as (Hi & Hc & Ht & s & Ho & Hn & Hst). cbn [region] in H. run_step.
  { apply obj_inv in H as [-> [(? & ? & _)|(? & _ & ?)]]; [done|congruence]. }
  match goal with H : obj _ _ _ = _ |- _ => apply obj_inv in H as [-> [(x' & [= ->] & Hx)|(? & ? & _)]]; [|done] end.
  rewrite Ho in Hx. injection Hx as <-. unfold down in Hd. rewrite <- Hn in Hd. run_step.
  { apply start_body_inv in H as (_ & ? & ? & _); done. }
  match goal with H : start_body _ _ _ = _ |- _ => apply start_body_inv in H as (Hl & out & [= ->] & Hout); [|done] end.
  run_step. rewrite Hn in *. eapply ok_work with (o := o) (c := c); [done|done|exact Hl|exact Hheld|..].
  - intros x ->. by intros [|[|]].
  - by rewrite Hp.
  - by rewrite Hp.
  - intros q [= <-]. split; [|done]. split; [|exact Hout].
    split; [by rewrite (lg_inflight _ _ _ Hl)|]. split; [by rewrite (lg_fresh _ _ _ Hl)|].
    split; [by rewrite (lg_table _ _ _ Hl)|]. exists s. by rewrite (lg_heap _ _ _ Hl).
  - eexists. split; [done|]. done.
Qed.

Lemma stop_work_ok o c st' r :
  p = P_stop o c → region me n p w st = (st', r) → okay st' r.
Proof.
  intros Hp H. pose proof (me_ok me n p st Hinv Hme) as Hheld. rewrite Hp in Hheld, H. simpl in Hheld.
  pose proof Hheld as (Hi & Hc & Ht & s & Ho & Hn & Hst). cbn [region] in H. run_step.
  { apply obj_inv in H as [-> [(? & ? & _)|(? & _ & ?)]]; [done|congruence]. }
  match goal with H : obj _ _ _ = _ |- _ => apply obj_inv in H as [-> [(x' & [= ->] & Hx)|(? & ? & _)]]; [|done] end.
  rewrite Ho in Hx. injection Hx as <-. run_step.
  { apply stop_body_inv in H as (_ & ? & ? & _); done. }
  match goal with H : stop_body _ _ _ = _ |- _ => apply stop_body_inv in H as (Hl & out & [= ->] & Hout) end.
  run_step. rewrite Hn in *. eapply ok_work with (o := o) (c := c); [done|done|exact Hl|exact Hheld|..].
  - intros x ->. by intros [|[|]].
  - by rewrite Hp.
  - by rewrite Hp.
  - intros q [= <-]. split; [|done]. split; [|exact Hout].
    split; [by rewrite (lg_inflight _ _ _ Hl)|]. split; [by rewrite (lg_fresh _ _ _ Hl)|].
    split; [by rewrite (lg_table _ _ _ Hl)|]. exists s. by rewrite (lg_heap _ _ _ Hl).
  - eexists. split; [done|]. done.
Qed.

(** Releasing the slot and recording a state *)
Lemma clear_held c st1 r1 : st_inflight st !! n = Some c → clear_stop_inflight n c w st = (st1, r1) →
  r1 = Ok tt ∧ st1 = set_inflight (delete n (st_inflight st)) st.
Proof. intros Hi [-> ->]%clear_inv. by rewrite bool_decide_true. Qed.

Lemma kept_trans s1 s2 s3 : kept s1 s2 → kept s2 s3 → kept s1 s3.
Proof. intros [] []. split; try congruence. lia. Qed.

(** [row_store], then a benign assignment *)
Lemma assign_row o s1 i k st1 f :
  eqv (row_store st o s1 i k) st1 → eqv (row_store st o (f s1) i k) (set_heap (alter f o (st_heap st1)) st1).
Proof.
  intros He. rewrite (ev_heap _ _ He). simpl. rewrite (alter_insert_same _ _ _ s1), insert_insert_eq by (by rewrite lookup_insert_eq).
  by apply (set_heap_eqv _ _ (<[o := f s1]> (st_heap st))) in He.
Qed.

Lemma start_commit_inv o c out st' r s :
  st_inflight st !! n = Some c → st_heap st !! o = Some s → (∀ x, out ≠ L_done x) →
  start_commit n o c out w st = (st', r) →
  ∃ s' e, r = Err e ∧ kept s s' ∧ si_state s' = (if start_failed out then STOPPED else ACTIVE) ∧
    eqv (row_store st o s' (delete n (st_inflight st)) (st_fresh st)) st'.
Proof.
  intros Hi Ho Hnd H. destruct out as [x| | |x|e]; [by destruct (Hnd x)|..]; cbn [start_commit] in H.
  all: run_step; [by apply clear_held in H as [? _]|].
  all: match goal with H : clear_stop_inflight _ _ _ _ = _ |- _ => apply clear_held in H as [_ ->]; [|done] end.
  all: match goal with H : mbind _ (force_state _ _) _ ?x = _ |- _ => assert (st_heap x !! o = Some s) as Ho1 by done end.
  all: run_step; [destruct (force_inv _ _ _ _ _ _ _ Ho1 H) as (s1 & He & [[? _]|(e1 & [= ->] & Hk & Hs1 & _)]); [done|]; by eexists _, _|].
  all: match goal with H : force_state _ _ _ _ = _ |- _ =>
    destruct (force_inv _ _ _ _ _ _ _ Ho1 H) as (s1 & He & [(_ & Hk & Hs1 & _)|(e1 & ? & _)]); [|done] end.
  all: repeat run_step.
  1,2: eexists _, _; (split; [done|]); (split; [|split; [|apply assign_row, assign_row, He]]); [eapply kept_trans; [exact Hk|by split]|done].
  all: eexists _, _; (split; [done|]); (split; [|split; [|apply assign_row, He]]); [eapply kept_trans; [exact Hk|by split]|done].
Qed.

(** A commit of the owner: the row changed, the slot is free, and the thread goes on to its
    backstop or ends *)
Lemma commit_ok o c s s' nx st' P :
  held st n o c P → holder p = Some (o, c) → st_heap st !! o = Some s → kept s s' →
  (deletable (si_state s') → down st n) → (si_state s' ≠ DELETING) →
  eqv (row_store st o s' (delete n (st_inflight st)) (st_fresh st)) st' →
  (next_pc nx = None ∨ ∃ x, nx = Go (P_backstop c x)) →
  region_ok me n p nx st st'.
Proof.
  intros (Hi & Hc & Ht & s0 & Ho0 & Hn & _) Hh Ho Hk Hdel Hnd He Hnx.
  assert (si_name s = n) as Hns by congruence.
  eapply ok_row with (o := o) (s := s) (s' := s') (i := delete n (st_inflight st)) (k := st_fresh st); try done.
  - eapply alone_strong; [done|done|]. by destruct p.
  - intros m Hm. by rewrite lookup_delete_ne.
  - by rewrite lookup_delete_eq.
  - right. left. by rewrite lookup_delete_eq.
  - intros q Hq. destruct Hnx as [Hno|(x & ->)]; [congruence|]. injection Hq as <-. split_and!; try done. simpl.
    by rewrite lookup_delete_eq.
  - by rewrite lookup_delete_eq.
Qed.

Lemma launched_ok o c out st' r :
  p = P_launched o c out → region me n p w st = (st', r) → okay st' r.
Proof.
  intros Hp H. pose proof (me_ok me n p st Hinv Hme) as Hpc. rewrite Hp in Hpc, H. destruct Hpc as [Hheld Hd].
  pose proof Hheld as (Hi & Hc & Ht & s & Ho & Hn & Hst).
  assert ((∃ x, out = L_done x) ∨ ∀ x, out ≠ L_done x) as [[x ->]|Hnd] by (destruct out; eauto).
  - cbn [region start_commit] in H. run_step.
    { exfalso. run_step; [by apply invalidate_inv in H as [_ ?]|].
      repeat run_step; by apply clear_inv in H as [? _]. }
    repeat run_step; try done. match goal with H : invalidate_observation _ _ _ = _ |- _ => apply invalidate_inv in H as [-> _] end.
    match goal with H : clear_stop_inflight _ _ _ _ = _ |- _ => apply clear_inv in H as [_ ->] end.
    simpl. rewrite bool_decide_true by done. rewrite (alter_insert_same _ _ _ s) by done.
    eapply commit_ok with (o := o) (s := s) (s' := invalidated (w_now w) (w_mono w) s); [done|by rewrite Hp|done|..].
    + split; try done. simpl. lia.
    + simpl. rewrite Hst. by intros [|[|]].
    + simpl. by rewrite Hst.
    + done.
    + by left.
  - assert ((r0 ← attempt (start_commit n o c out); mret (Go (P_backstop c r0))) w st = (st', r)) as H'
      by (destruct out; [by destruct (Hnd reason)|done..]).
    clear H. repeat run_step. match goal with H : start_commit _ _ _ _ _ _ = _ |- _ =>
      destruct (start_commit_inv _ _ _ _ _ _ Hi Ho Hnd H) as (s' & e & -> & Hk & Hs' & He) end.
    eapply commit_ok with (o := o) (s := s) (s' := s'); [done|by rewrite Hp|done|done|..].
    + intros Hdel. destruct (start_failed out); [auto|]. rewrite Hs' in Hdel. by destruct Hdel as [|[|]].
    + rewrite Hs'. by destruct (start_failed out).
    + done.
    + right. eauto.
Qed.

Lemma stop_commit_inv o c out st' r s :
  st_inflight st !! n = Some c → st_heap st !! o = Some s → si_state s = STOPPING →
  stop_commit n o c out w st = (st', r) →
  ∃ s', kept s s' ∧ eqv (row_store st o s' (delete n (st_inflight st)) (st_fresh st)) st' ∧
    (si_state s' = STOPPING ∨ si_state s' = ACTIVE ∨ (si_state s' = STOPPED ∧ stop_settled out = true)).
Proof.
  intros Hi Ho Hst H. unfold stop_commit in H. run_step; [by apply clear_held in H as [? _]|].
  match goal with H : clear_stop_inflight _ _ _ _ = _ |- _ => apply clear_held in H as [_ ->]; [|done] end.
  match type of H with _ _ ?x = _ => assert (st_heap x !! o = Some s) as Ho1 by done end.
  assert (∀ new out, (∃ r1, force_state o new w (set_inflight (delete n (st_inflight st)) st) = (st', r1)) →
    (new = ACTIVE ∨ (new = STOPPED ∧ stop_settled out = true)) →
    ∃ s', kept s s' ∧ eqv (row_store st o s' (delete n (st_inflight st)) (st_fresh st)) st' ∧
      (si_state s' = STOPPING ∨ si_state s' = ACTIVE ∨ (si_state s' = STOPPED ∧ stop_settled out = true))) as Hforce.
  { intros new out' [r1 H1] Hnew.
    destruct (force_inv _ _ _ _ _ _ _ Ho1 H1) as (s1 & He & [(_ & Hk & Hs1 & _)|(? & _ & Hk & Hs1 & _)]);
      exists s1; rewrite Hs1; (split; [done|]); (split; [done|]); by right. }
  destruct out as [|e|e].
  - assert (∃ r1, transition o STOPPED w (set_inflight (delete n (st_inflight st)) st) = (st', r1)) as [r1 Ht1]
      by (run_step; [eauto|]; run_step; eauto).
    destruct (transition_inv _ _ _ _ _ _ _ Ho1 Ht1) as [(_ & _ & s1 & (Hk & Hs1 & _) & He)|(e & _ & He)].
    + exists s1. split; [done|]. split; [done|]. auto.
    + exists s. split; [by split|]. split; [|by auto]. unfold row_store. rewrite insert_id by done. eapply eqv_trans; [|exact He].
      by destruct st.
  - apply (Hforce ACTIVE); [|by left]. run_step; [eauto|]. run_step; eauto.
  - apply (Hforce STOPPED (X_stopped e)); [|by right]. run_step; [eauto|]. run_step; eauto.
Qed.

Lemma stopped_ok o c out st' r :
  p = P_stopped o c out → region me n p w st = (st', r) → okay st' r.
Proof.
  intros Hp H. pose proof (me_ok me n p st Hinv Hme) as Hpc. rewrite Hp in Hpc, H. destruct Hpc as [Hheld Hd].
  cbn [region] in H. repeat run_step. pose proof Hheld as (Hi & Hc & Ht & s & Ho & Hn & Hst).
  match goal with H : stop_commit _ _ _ _ _ _ = _ |- _ =>
    destruct (stop_commit_inv _ _ _ _ _ _ Hi Ho Hst H) as (s' & Hk & He & Hs') end.
  eapply commit_ok with (o := o) (s := s) (s' := s'); [done|by rewrite Hp|done|done|..].
  - intros Hdel. destruct Hs' as [Hs'|[Hs'|[_ Hs']]]; [rewrite Hs' in Hdel; by destruct Hdel as [|[|]]..|auto].
  - destruct Hs' as [->|[->|[-> _]]]; done.
  - done.
  - right. eauto.
Qed.

(** A claim of the slot of a free row *)
Lemma claimed_ok o s s' q st' :
  od_get (st_table st) n = Some o → st_inflight st !! n = None → st_heap st !! o = Some s → si_name s = n →
  si_state s ≠ DELETING → kept s s' → ¬ deletable (si_state s') →
  eqv (row_store st o s' (<[n := st_fresh st]> (st_inflight st)) (S (st_fresh st))) st' →
  holder q = Some (o, st_fresh st) →
  pcok (row_store st o s' (<[n := st_fresh st]> (st_inflight st)) (S (st_fresh st))) me n q →
  (writer q = Some o → si_generation s < si_generation s') →
  region_ok me n p (Go q) st st'.
Proof.
  intros Ht Hi Ho Hn Hnd Hk Hdel He Hh Hq Hw.
  eapply ok_row with (o := o) (s := s) (s' := s') (i := <[n := st_fresh st]> (st_inflight st)) (k := S (st_fresh st)); try done.
  - by eapply alone_free.
  - intros Hs. destruct Hdel. rewrite Hs. by right; right.
  - intros m Hm. by rewrite lookup_insert_ne.
  - lia.
  - intros c. rewrite lookup_insert_eq. intros [= <-]. lia.
  - right. right. exists (st_fresh st). by rewrite lookup_insert_eq.
  - intros q' [= <-]. split; [done|]. split; [by destruct q|]. split; [by destruct q|].
    intros o' Hw'. assert (o' = o) as -> by (destruct q; simplify_eq/=; done). auto.
  - intros c. rewrite lookup_insert_eq. intros [= <-]. eauto.
Qed.

(** The silo's row, once the slot is found free *)
Lemma await_bind {A} (f : nat → M A) st' r :
  (o ← await_inflight_locked n; f o) w st = (st', r) →
  (∃ e, st' = st ∧ r = Err e) ∨
  (∃ o s, od_get (st_table st) n = Some o ∧ st_inflight st !! n = None ∧ st_heap st !! o = Some s ∧ si_name s = n ∧
     f o w st = (st', r)).
Proof.
  intros H. run_step; [apply await_inv in H as [-> _]; eauto|].
  match goal with H : await_inflight_locked _ _ _ = _ |- _ =>
    apply await_inv in H as [-> [(o & [= ->] & Ht & Hi)|(? & ?)]]; [|done] end.
  destruct (table_object o Ht) as (s & Ho & Hn). right. eauto 10.
Qed.

Lemma stop_begin_ok st' r : holder p = None → stop_begin n w st = (st', r) → okay st' r.
Proof.
  intros Hh H. apply await_bind in H as [(e & -> & ->)|(o & s & Ht & Hi & Ho & Hn & H)]; [by apply ends|].
  apply (obj_bind _ _ _ _ _ _ _ Ho) in H; cbv beta in H. case_bool_decide; [run_step; by eapply ok_end|].
  case_bool_decide as Hst; cbn [negb] in H; [|run_step; by apply ends].
  assert (si_state s ≠ DELETING) as Hnd by (intros Heq; rewrite Heq in Hst; set_solver).
  apply bind_inv in H as [(e & H & ->)|([] & st1 & Htr & H)].
  { destruct (transition_inv _ _ _ _ _ _ _ Ho H) as [(? & _)|(? & _ & He)]; [done|by apply ends]. }
  destruct (transition_inv _ _ _ _ _ _ _ Ho Htr) as [(_ & _ & s1 & (Hk & Hs1 & Hg1) & He)|(? & ? & _)]; [|done].
  apply claim_bind in H as [-> ->]. rewrite (ev_fresh _ _ He), (ev_inflight _ _ He). cbn [st_fresh st_inflight set_heap].
  pose proof (kp_name _ _ Hk) as Hn1. unfold okay. simpl nx_of.
  eapply (claimed_ok o s s1); try done.
  - rewrite Hs1. by intros [|[|]].
  - rewrite Hn. by apply set_inflight_eqv, set_fresh_eqv.
  - apply held_row; [by rewrite lookup_insert_eq|lia|done|congruence|done].
  - intros _. lia.
Qed.

Lemma freeze_begin_ok fz st' r : holder p = None → freeze_begin fz n w st = (st', r) → okay st' r.
Proof.
  intros Hh H. apply await_bind in H as [(e & -> & ->)|(o & s & Ht & Hi & Ho & Hn & H)]; [by apply ends|].
  apply (obj_bind _ _ _ _ _ _ _ Ho) in H; cbv beta in H. case_bool_decide; [run_step; by eapply ok_end|].
  assert (∀ st1, eqv st st1 → (si_state s = ACTIVE ∨ si_state s = FROZEN) →
    (c ← claim_stop_inflight (si_name s); mret (Go (P_freeze fz o c))) w st1 = (st', r) → okay st' r) as Hclaim.
  { intros st1 He Hst Hc. apply claim_bind in Hc as [-> ->]. rewrite (ev_fresh _ _ He), (ev_inflight _ _ He).
    unfold okay. simpl nx_of. eapply (claimed_ok o s s); try done.
    - by destruct Hst as [-> | ->].
    - by destruct Hst as [-> | ->]; intros [|[|]].
    - unfold row_store. rewrite Hn, (insert_id (st_heap st)) by done. apply set_inflight_eqv, set_fresh_eqv. by destruct st.
    - apply held_row; [by rewrite lookup_insert_eq|lia|done|done|done]. }
  case_bool_decide as Hhere.
  - assert (quiet (ops_bool (if fz then O_thaw_unresolved n else O_freeze_unresolved n))) as Hq by (destruct fz; auto with quiet).
    apply bind_inv in H as [(e & H & ->)|(u & st1 & Hu & H)]; [apply (quiet_run _ _ _ _ _ Hq) in H; by apply ends|].
    apply (quiet_run _ _ _ _ _ Hq) in Hu. destruct u.
    + eapply Hclaim; [done|destruct fz; auto|done].
    + run_step. by eapply ok_end.
  - case_bool_decide as Hfrom; cbn [negb] in H; [|run_step; by apply ends].
    eapply Hclaim; [apply eqv_refl|destruct fz; auto|done].
Qed.

Lemma freezing_ok fz o c st' r : p = P_freeze fz o c → region me n p w st = (st', r) → okay st' r.
Proof.
  intros Hp H. pose proof (me_ok me n p st Hinv Hme) as Hpc. rewrite Hp in Hpc, H. cbn [region] in H. repeat run_step.
  quiets. unfold okay. simpl nx_of. eapply ok_quiet; [done| |].
  - right. eexists _, o, c. split; [done|]. by rewrite Hp.
  - intros q [= <-]. split; [by eapply (pcok_eqv _ _ _ _ (P_freeze fz o c))|]. by rewrite Hp; auto.
Qed.

Lemma froze_ok fz o c err st' r : p = P_froze fz o c err → freeze_commit n fz o c err w st = (st', r) → okay st' r.
Proof.
  intros Hp H. pose proof (me_ok me n p st Hinv Hme) as Hheld. rewrite Hp in Hheld. simpl in Hheld.
  unfold freeze_commit in H. apply bind_inv in H as [(e & H & _)|([] & st1 & Hcl & H)]; [by apply clear_inv in H as [? _]|].
  pose proof Hheld as (Hi & Hc & Ht & s & Ho & Hn & Hst). apply clear_held in Hcl as [_ ->]; [|done].
  assert (∃ s' nx, nx_of r = End nx ∧ kept s s' ∧ (si_state s' = ACTIVE ∨ si_state s' = FROZEN) ∧
    eqv (row_store st o s' (delete n (st_inflight st)) (st_fresh st)) st') as (s' & nx & Hnx & Hk & Hs' & He).
  { clear Hn. do 2 (run_step; [by run_step|]; run_step).
    match goal with H : mbind _ _ _ ?x = _ |- _ => assert (st_heap x !! o = Some s) as Ho1 by done end.
    assert (eqv (row_store st o s (delete n (st_inflight st)) (st_fresh st)) (set_inflight (delete n (st_inflight st)) st)) as Hrefl.
    { unfold row_store. rewrite insert_id by done. by destruct st. }
    apply bind_inv in H as [(e & H & ->)|([] & st2 & H2 & H)].
    - exists s. eexists. split; [done|]. split; [by split|]. split; [done|].
      match type of H with (if ?b then _ else _) _ _ = _ => destruct b end; [|by run_step].
      destruct (transition_inv _ _ _ _ _ _ _ Ho1 H) as [(? & _)|(? & _ & He)]; [done|]. by eapply eqv_trans.
    - assert (∃ nx, nx_of r = End nx ∧ st' = st2) as (nx & Hr & ->) by (destruct err; run_step; by eauto).
      clear H. match type of H2 with (if ?b then _ else _) _ _ = _ => destruct b end.
      2: { run_step. exists s, nx. split; [done|]. split; [by split|]. by split. }
      destruct (transition_inv _ _ _ _ _ _ _ Ho1 H2) as [(_ & _ & s1 & (Hk & Hs1 & _) & He)|(? & ? & _)]; [|done].
      exists s1, nx. split; [done|]. split; [done|]. rewrite Hs1. split; [destruct fz; auto|done]. }
  unfold okay. rewrite Hnx. eapply commit_ok with (o := o) (s := s) (s' := s'); [done|by rewrite Hp|done|done|..].
  - by destruct Hs' as [-> | ->]; intros [|[|]].
  - by destruct Hs' as [-> | ->].
  - done.
  - by left.
Qed.

Lemma backstop_ok c x st' r : p = P_backstop c x → region me n p w st = (st', r) → okay st' r.
Proof.
  intros Hp H. pose proof (me_ok me n p st Hinv Hme) as Hpc. rewrite Hp in Hpc, H. destruct Hpc as [_ Hi].
  cbn [region] in H. run_step; [by apply clear_inv in H as [? _]|]. run_step.
  match goal with H : clear_stop_inflight _ _ _ _ = _ |- _ => apply clear_inv in H as [_ ->] end.
  rewrite bool_decide_false by done. eapply ok_end; [apply eqv_refl|done|by rewrite Hp].
Qed.

Lemma probing_ok o g rd st' r : p = P_probe o g rd → start_probe o g rd w st = (st', r) → okay st' r.
Proof.
  intros Hp H. pose proof (me_ok me n p st Hinv Hme) as Hpc. rewrite Hp in Hpc. destruct Hpc as (s & Ho & Hn & Hg & Hnd).
  destruct (start_probe_inv _ _ _ _ _ _ _ s Ho H) as (Hl & Hk & status & reason & dead & -> & Hd). rewrite Hn in *.
  unfold okay. simpl nx_of. eapply region_still.
  - by eapply logged_still.
  - intros q [= <-]. exists s. rewrite (lg_heap _ _ _ Hl). split_and!; try done. intros Hdd _ _. by apply Hd.
  - by intros q [= <-].
  - intros o' c'. by rewrite Hp.
  - intros q o' g' [= <-] [= <- <-]. left. by rewrite Hp.
  - by intros q [= <-].
  - by intros q [= <-].
Qed.

End regions.

End Regions.
