(* ===== verification/SiloRegistry.v ===== *)
(** * The regions that change the registry keep the invariant

    Creating, deleting, the egress policy and the observer; with [SiloRegions], every region
    of the store. *)

From S2P Require Import Prelude SiloEgress SiloData SiloStore SiloRuns SiloWork SiloInv SiloRegions.
From Stdlib Require Import ZArith.

Module Registry.
Import Silos Store Runs Work Inv Regions.

(** ** Benign assignments and the accounts lock *)

Definition benign (f : Silo → Silo) : Prop :=
  ∀ s, si_name (f s) = si_name s ∧ si_state (f s) = si_state s ∧ si_generation (f s) = si_generation s.

Lemma assign_still me st o f : benign f → still me st (set_heap (alter f o (st_heap st)) st).
Proof.
  intros Hf. split; try done; [by left|..].
  - intros o' s Ho. destruct (decide (o = o')) as [<-|Hne].
    + exists (f s). simpl. rewrite lookup_alter_eq, Ho. split; [done|]. apply Hf.
    + exists s. simpl. by rewrite lookup_alter_ne.
  - intros o'. simpl. destruct (decide (o = o')) as [<-|Hne].
    + rewrite lookup_alter_eq. by destruct (st_heap st !! o).
    + by rewrite lookup_alter_ne.
Qed.

Lemma still_trans me st1 st2 st3 : still me st1 st2 → still me st2 st3 → still me st1 st3.
Proof.
  intros [] []. split; try congruence; auto.
  - unfold accounts_moved in *. naive_solver congruence.
  - intros o s Ho. destruct (sl_heap0 o s Ho) as (s1 & Ho1 & ? & ? & ?).
    destruct (sl_heap1 o s1 Ho1) as (s2 & Ho2 & ? & ? & ?). exists s2. split_and!; congruence.
Qed.

Lemma still_accounts me st st' a :
  still me st st' → accounts_moved me (st_accounts st) a → still me st (set_accounts a st').
Proof. intros [] Ha. by split. Qed.

Lemma base_accounts st a : base st → base (set_accounts a st).
Proof. intros []. by split. Qed.

(** Releasing the accounts lock at the end of a region *)
Lemma release_ok me n p nx st st' :
  region_ok me n p nx st st' → st_accounts st = Some me →
  (∀ q, next_pc nx = Some q → pcok st' me n q → pcok (set_accounts None st') me n q) →
  region_ok me n p nx st (set_accounts None st').
Proof.
  intros Hok Ha Hq. assert (accounts_moved me (st_accounts st) None) as Hm by (by right; right).
  destruct Hok as [Hs H1 H2 H3 H4 H5 H6|Hal Hf Hmd Hb H1 H2 H3 H4 H5|r st0 Hp Hn Hs ->].
  - apply region_still; auto. by apply still_accounts.
  - apply region_moves; auto; [by destruct Hf; split|by destruct Hmd; split|by apply base_accounts].
  - eapply (region_exit _ _ _ _ _ _ r (set_accounts None st0)); auto. by apply still_accounts.
Qed.

Lemma release_run w st st' r : release_accounts w st = (st', r) → st' = set_accounts None st ∧ r = Ok tt.
Proof. unfold release_accounts. intros H. by run_step. Qed.

Lemma releasing_inv {A} (m : M A) w st st' r :
  releasing m w st = (st', r) →
  (∃ a, m w st = (st', Ok a) ∧ r = Ok a) ∨ (∃ e st1, m w st = (st1, Err e) ∧ st' = set_accounts None st1 ∧ r = Err e).
Proof.
  unfold releasing. intros H. run_step; [by run_step|]. run_step.
  match goal with H : m w st = (_, ?x) |- _ => destruct x end; [run_step; eauto|].
  run_step; [by apply release_run in H as [_ ?]|].
  match goal with H : release_accounts _ _ = _ |- _ => apply release_run in H as [-> _] end. run_step. eauto 10.
Qed.

Section regions.
Context (me : nat) (n : string) (p : pc) (st : store) (Hinv : inv st).
Context (Hme : (∃ th, st_threads st !! me = Some th ∧ t_name th = n ∧ t_pc th = p) ∨
               (st_threads st !! me = None ∧ p = P_round 0)).
Context (w : world).

Local Notation okay := (okay me n p st).

(** A region that moved nothing and goes on with no business on any silo, or ends *)
Lemma still_ok nx st' :
  still me st st' → holder p = None →
  (∀ q, next_pc nx = Some q → pcok st' me n q ∧ writer q = None ∧ prober q = None ∧
        (strong q = true → strong p = true) ∧ (creator q = true → creator p = true)) →
  region_ok me n p nx st st'.
Proof.
  intros Hs Hh Hq. apply region_still; auto.
  - intros q Hn. by apply Hq.
  - intros q Hn Hst. left. by apply (Hq q Hn).
  - intros o c. by rewrite Hh.
  - intros q o g Hn Hp. destruct (Hq q Hn) as (_ & _ & ? & _). congruence.
  - intros q Hn. by apply Hq.
  - intros q Hn. by apply Hq.
Qed.

Lemma still_end nx st' : still me st st' → holder p = None → next_pc nx = None → region_ok me n p nx st st'.
Proof. intros Hs Hh Hn. apply still_ok; [done|done|]. intros q. by rewrite Hn. Qed.

(** ** Observing *)

Lemma observe_begin_ok st' r : holder p = None → observe_begin w st = (st', r) → okay st' r.
Proof.
  intros Hh H. unfold observe_begin in H. do 2 (run_step; [by run_step|]; run_step). run_step.
  apply still_ok; [apply eqv_still, eqv_refl|done|]. intros q [= <-]. split; [|done]. simpl.
  apply Forall_forall. intros x ([n0 o] & _ & Hx)%list_elem_of_omap. simpl in Hx.
  destruct (st_heap st !! o) eqn:Ho; [|done]. injection Hx as <-. simpl. rewrite Ho. by eauto.
Qed.

Lemma observe_ok ts st' r : p = P_observe ts → observe_probe ts w st = (st', r) → okay st' r.
Proof.
  intros Hp H. pose proof (me_ok me n p st Hinv Hme) as Hpc. rewrite Hp in Hpc. simpl in Hpc.
  assert (holder p = None) as Hh by (by rewrite Hp). clear Hp.
  destruct ts as [|[o g] ts]; [cbn [observe_probe] in H; run_step; by apply still_end; [apply eqv_still, eqv_refl|..]|].
  apply Forall_cons in Hpc as [[s Ho] Hts].
  destruct (observe_probe_inv _ _ _ _ _ _ _ s Ho H) as (Hl & Hk & status & reason & began & ->).
  apply still_ok; [by eapply logged_still|done|]. intros q [= <-]. split; [|done]. simpl. rewrite (lg_heap _ _ _ Hl).
  split; [by eauto|done].
Qed.

Lemma observed_ok o g status reason began ts st' r :
  p = P_observed o g status reason began ts → observe_publish o g status reason began ts w st = (st', r) → okay st' r.
Proof.
  intros Hp H. pose proof (me_ok me n p st Hinv Hme) as Hpc. rewrite Hp in Hpc. destruct Hpc as [[s Ho] Hts].
  assert (holder p = None) as Hh by (by rewrite Hp). clear Hp.
  unfold observe_publish in H. apply (obj_bind _ _ _ _ _ _ _ Ho) in H; cbv beta in H.
  run_step; [by run_step|]. run_step. destruct (probe_raced _ _ _ _).
  { run_step. apply still_ok; [apply eqv_still, eqv_refl|done|]. by intros q [= <-]. }
  do 2 (run_step; [by run_step|]; run_step). run_step; [by run_step|]. run_step.
  match goal with H : mbind _ _ _ ?x = _ |- _ => assert (still me st x) as Hst by (by apply assign_still) end.
  assert (∃ st2, st' = st2 ∧ nx_of r = Go (P_observe ts) ∧ still me st st2) as (st2 & -> & Hr & Hs2).
  { run_step.
    - case_bool_decide; [by run_step|]. by apply emit_inv in H as [? _].
    - run_step. eexists. split; [done|]. split; [done|].
      match goal with H : (if _ then _ else _) _ _ = _ |- _ => rename H into Hem end.
      case_bool_decide; [by run_step|]. apply emit_inv in Hem as [_ Hem]. by eapply still_eqv. }
  unfold Regions.okay. rewrite Hr. apply still_ok; [done|done|]. intros q [= <-]. split; [|done]. simpl.
  eapply Forall_impl; [exact Hts|]. simpl. intros x Hx. by eapply heap_still.
Qed.

(** ** The egress policy *)

Lemma set_egress_ok e st' r : holder p = None → set_egress n e w st = (st', r) → okay st' r.
Proof.
  intros Hh H. unfold set_egress in H. destruct (validate_egress_field e); [|run_step; by apply ends].
  run_step; [apply get_inv in H as [-> _]; by apply ends|].
  match goal with H : get _ _ _ = _ |- _ => apply get_inv in H as [-> [(o & [= ->] & Ht)|(? & ? & _)]]; [|done] end.
  destruct (b_table _ (i_base _ Hinv) _ _ Ht) as (s & Ho & _). apply (obj_bind _ _ _ _ _ _ _ Ho) in H; cbv beta in H.
  do 2 (case_match; [run_step; by apply ends|]). run_step; [by run_step|]. run_step.
  match goal with H : mbind _ _ _ ?x = _ |- _ => assert (still me st x) as Hst by (by apply assign_still) end.
  run_step; [by run_step|]. run_step. match goal with H : save _ _ = (_, ?x) |- _ => quiet_run_in H; rename H into Hsv, x into res end.
  destruct res as [[]|e'].
  - run_step. apply still_end; [by eapply still_eqv|done|done].
  - run_step; [by run_step|]. run_step. run_step. apply still_end; [|done|done].
    eapply still_trans; [by eapply still_eqv|]. by apply assign_still.
Qed.

Lemma bind_gets {A B} (f : store → A) (g : A → M B) st1 : (gets f ≫= g) w st1 = g (f st1) w st1.
Proof. done. Qed.

(** ** The table *)

(** Nobody holds the slot of a silo this thread is alone on *)
Lemma alone_slot : alone st me n → holder p = None → st_inflight st !! n = None.
Proof.
  intros Hal Hh. destruct (st_inflight st !! n) as [c|] eqn:Hi; [|done]. exfalso.
  destruct (i_owner _ Hinv _ _ Hi) as (t & th & o & Hth & Hn & Hho).
  destruct (decide (t = me)) as [->|Ht].
  - destruct Hme as [(thm & Hthm & _ & Hpm)|[? _]]; [|congruence]. by simplify_eq.
  - apply (Hal t th); [done|done|done|]. by destruct (t_pc th).
Qed.

(** The store after the name moved in the table or in [_creating_inflight] *)
Definition table_store (t : list (string * nat)) (h : gmap nat Silo) (k : nat) (c : gmap string Z) : store :=
  set_creating c (set_table t (set_heap h (set_fresh k st))).

Lemma ok_table nx st' t h k c :
  alone st me n → holder p = None → gone st n → NoDup (keys t) →
  (∀ m, m ≠ n → od_get t m = od_get (st_table st) m) →
  (∀ o s, st_heap st !! o = Some s → h !! o = Some s) → (∀ o, is_Some (h !! o) → o < k) → st_fresh st ≤ k →
  (∀ o, od_get t n = Some o → st_heap st !! o = None ∧ ∃ s, h !! o = Some s ∧ si_name s = n) →
  (∀ m, m ≠ n → c !! m = st_creating st !! m) → (is_Some (st_creating st !! n) → is_Some (c !! n)) →
  eqv (table_store t h k c) st' →
  (∀ q, next_pc nx = Some q → pcok (table_store t h k c) me n q ∧ prober q = None ∧ writer q = None ∧
     (creator q = true → creator p = true ∨ st_creating st !! n = None)) →
  region_ok me n p nx st st'.
Proof.
  intros Hal Hh Hd Hnd Ht Hheap Hk Hfr Hnew Hc Hcn He Hq. eapply region_ok_eqv; [|exact He].
  pose proof (alone_slot Hal Hh) as Hslot. destruct (i_base _ Hinv) as [Bk Bt Bh Bd Ba Bc Bs]. apply region_moves.
  - done.
  - split; simpl; try done; [by left|]. intros o s Ho. exists s. by rewrite (Hheap _ _ Ho).
  - split; simpl; try done; [by left|..].
    + intros o s s' Ho Ho'. rewrite (Hheap _ _ Ho) in Ho'. congruence.
    + intros o s s' Hto Ho. destruct (Hnew o Hto) as [? _]. congruence.
  - split; simpl; try done.
    + intros m o Hm. destruct (decide (m = n)) as [->|Hne]; [by apply Hnew|]. rewrite Ht in Hm by done.
      destruct (Bt m o Hm) as (s & Ho & ?). exists s. by rewrite (Hheap _ _ Ho).
    + intros m o [Hm (s' & Ho' & Hn' & Hdl)]. simpl in Hm, Ho'. change (down st m).
      destruct (decide (m = n)) as [->|Hne]; [by apply Hd|]. rewrite Ht in Hm by done. destruct (Bt m o Hm) as (s & Ho & ?).
      rewrite (Hheap _ _ Ho) in Ho'. injection Ho' as <-. apply (Bd m o). split; [done|]. by eauto.
    + intros m Hm. change (gone st m). destruct (decide (m = n)) as [->|Hne]; [done|]. rewrite Ht in Hm by done. auto.
    + intros m c' Hm. specialize (Bc _ _ Hm). lia.
  - intros q Hn. by apply Hq.
  - simpl. intros c'. by rewrite Hslot.
  - intros q Hn. by apply Hq.
  - intros q o s s' Hn Hw. destruct (Hq q Hn) as (_ & _ & ? & _). congruence.
  - intros q Hn. by apply Hq.
Qed.

(** ** Deleting *)

Lemma row_down o s : od_get (st_table st) n = Some o → st_heap st !! o = Some s → si_name s = n →
  deletable (si_state s) → down st n.
Proof. intros Ht Ho Hn Hd. apply (b_down _ (i_base _ Hinv) n o). split; [done|]. eauto. Qed.

Lemma refuse_creating_inv st1 st' r : refuse_creating n w st1 = (st', r) → st' = st1.
Proof. unfold refuse_creating. intros H. run_step; [by run_step|]. run_step. case_match; by run_step. Qed.

Lemma refuse_deletable_inv o st1 st' r s :
  st_heap st1 !! o = Some s → refuse_unless_deletable o w st1 = (st', r) →
  st' = st1 ∧ (r = Ok tt → si_state s = CREATED ∨ si_state s = STOPPED).
Proof.
  intros Ho H. unfold refuse_unless_deletable in H. apply (obj_bind _ _ _ _ _ _ _ Ho) in H; cbv beta in H.
  case_bool_decide as Hs; run_step; (split; [done|]); [|done]. intros _. set_solver.
Qed.

Lemma set_accounts_back a : set_accounts (st_accounts st) (set_accounts a st) = st.
Proof. by destruct st. Qed.

Lemma delete_begin_ok st' r : holder p = None → begin (C_delete n) w st = (st', r) → okay st' r.
Proof.
  intros Hh H. cbn [begin] in H. run_step; [apply refuse_creating_inv in H as ->; by apply ends|]. run_step.
  match goal with H : refuse_creating _ _ _ = _ |- _ => apply refuse_creating_inv in H as -> end.
  apply still_ok; [apply eqv_still, eqv_refl|done|]. by intros q [= <-].
Qed.

Lemma delete_recheck_ok st' r : holder p = None → delete_recheck me n w st = (st', r) → okay st' r.
Proof.
  intros Hh H. unfold delete_recheck in H. run_step; [by run_step|]. run_step.
  destruct (st_accounts st) eqn:Ha; [run_step; by apply ends|].
  run_step; [by unfold take_accounts in *; run_step|].
  match goal with H : take_accounts _ _ _ = _ |- _ => unfold take_accounts in H; apply modify_inv in H as [-> _] end.
  assert (still me st (set_accounts (Some me) st)) as Hst.
  { apply still_accounts; [apply eqv_still, eqv_refl|]. right. left. by rewrite Ha. }
  apply releasing_inv in H as [(q & H & ->)|(e & st1 & H & -> & ->)].
  - assert (st' = set_accounts (Some me) st ∧ ∃ o, q = Go (P_delete_purge o)) as [-> [o ->]].
    { run_step; [done|]. match goal with H : refuse_creating _ _ _ = _ |- _ => apply refuse_creating_inv in H as -> end.
      run_step; [done|]. match goal with H : get _ _ _ = _ |- _ => apply get_inv in H as [-> [(o & [= ->] & Ht)|(? & ? & _)]]; [|done] end.
      run_step; [done|]. run_step. destruct (b_table _ (i_base _ Hinv) _ _ Ht) as (s & Ho & _).
      match goal with H : refuse_unless_deletable _ _ _ = _ |- _ => apply (refuse_deletable_inv _ _ _ _ s) in H as [-> _]; [|done] end.
      eauto. }
    apply still_ok; [done|done|]. by intros q [= <-].
  - assert (st1 = set_accounts (Some me) st) as ->.
    { run_step; [by apply refuse_creating_inv in H|].
      match goal with H : refuse_creating _ _ _ = _ |- _ => apply refuse_creating_inv in H as -> end.
      run_step; [by apply get_inv in H as [-> _]|].
      match goal with H : get _ _ _ = _ |- _ => apply get_inv in H as [-> [(o & [= ->] & Ht)|(? & ? & _)]]; [|done] end.
      destruct (b_table _ (i_base _ Hinv) _ _ Ht) as (s & Ho & _).
      run_step; [|by run_step]. by apply (refuse_deletable_inv _ _ _ _ s) in H as [-> _]. }
    rewrite <- Ha. change (set_accounts (st_accounts st) (set_accounts (Some me) st)) with (set_accounts (st_accounts st) st).
    apply still_end; [|done|done]. apply still_accounts; [apply eqv_still, eqv_refl|]. by left.
Qed.

(** The lock is given up by a region that ends *)
Lemma released_end st1 e : eqv st st1 → st_accounts st = Some me → holder p = None → okay (set_accounts None st1) (Err e).
Proof.
  intros He Ha Hh. apply still_end; [|done|done]. apply still_accounts; [by apply eqv_still|]. by right; right.
Qed.

Lemma delete_purge_ok o st' r : p = P_delete_purge o → delete_purge o w st = (st', r) → okay st' r.
Proof.
  intros Hp H. pose proof (me_ok me n p st Hinv Hme) as Ha. rewrite Hp in Ha. simpl in Ha.
  assert (holder p = None) as Hh by (by rewrite Hp). clear Hp.
  apply releasing_inv in H as [(q & H & ->)|(e & st1 & H & -> & ->)].
  - assert (eqv st st' ∧ q = Go (P_delete_commit o)) as [He ->].
    { run_step; [done|]. match goal with H : purge_unsafe_relay_fragments _ _ = (_, Ok ?y) |- _ => quiet_run_in H; destruct (y.2) end; [|by run_step].
      run_step; [done|]. run_step. match goal with H : match ?y with [] => _ | _ => _ end _ _ = _ |- _ => destruct y end; quiets; by split; [chain|]. }
    apply still_ok; [by apply eqv_still|done|]. intros q [= <-]. split; [|done]. simpl. by rewrite (ev_accounts _ _ He).
  - apply released_end; [|done|done]. by quiet_run_in H.
Qed.

Lemma delete_commit_ok o st' r : p = P_delete_commit o → delete_commit n w st = (st', r) → okay st' r.
Proof.
  intros Hp H. pose proof (me_ok me n p st Hinv Hme) as Ha. rewrite Hp in Ha. simpl in Ha.
  assert (holder p = None) as Hh by (by rewrite Hp). clear Hp.
  assert (∀ st1 r1, (o ← await_inflight_locked n; refuse_unless_deletable o;; transition o DELETING;; mret (Go (P_deleting o))) w st = (st1, r1) →
    (∃ e, r1 = Err e ∧ eqv st st1) ∨
    (∃ o s s', r1 = Ok (Go (P_deleting o)) ∧ od_get (st_table st) n = Some o ∧ st_inflight st !! n = None ∧
       st_heap st !! o = Some s ∧ si_name s = n ∧ deletable (si_state s) ∧ si_state s ≠ DELETING ∧ bumped DELETING s s' ∧
       eqv (set_heap (<[o := s']> (st_heap st)) st) st1)) as Hrun.
  { clear H. intros st1 r1 H. apply (await_bind n st Hinv w) in H as [(e & -> & ->)|(o' & s & Ht & Hi & Ho & Hn & H)]; [by eauto with qd|].
    apply bind_inv in H as [(e & H & ->)|([] & st2 & H2 & H)].
    { apply (refuse_deletable_inv _ _ _ _ s) in H as [-> _]; [|done]. by eauto with qd. }
    apply (refuse_deletable_inv _ _ _ _ s) in H2 as [-> Hs]; [|done]. specialize (Hs eq_refl).
    apply bind_inv in H as [(e & H & ->)|([] & st3 & H3 & H)].
    { destruct (transition_inv _ _ _ _ _ _ _ Ho H) as [(? & _)|(? & _ & ?)]; [done|]. by eauto. }
    destruct (transition_inv _ _ _ _ _ _ _ Ho H3) as [(_ & _ & s1 & Hb & He)|(? & ? & _)]; [|done].
    apply mret_inv in H as [-> ->]. right. exists o', s, s1. unfold deletable. by destruct Hs as [-> | ->]; auto 10. }
  apply releasing_inv in H as [(q & H & ->)|(e & st1 & H & -> & ->)].
  - destruct (Hrun _ _ H) as [(e & ? & _)|(o' & s & s' & [= ->] & Ht & Hi & Ho & Hn & Hdel & Hnd & (Hk & Hs' & Hg) & He)]; [done|].
    pose proof (kp_name _ _ Hk) as Hn'.
    eapply ok_row with (o := o') (s := s) (s' := s') (i := st_inflight st) (k := st_fresh st); try done.
    + by eapply alone_free.
    + intros _. by eapply row_down.
    + intros _. right. lia.
    + by rewrite Hi.
    + by left.
    + intros q [= <-]. split; [|done]. split; [done|]. split; [done|]. exists s'. simpl. rewrite lookup_insert_eq. split; [done|].
      split; [congruence|done].
    + by rewrite Hi.
  - destruct (Hrun _ _ H) as [(e' & _ & He)|(? & ? & ? & ? & _)]; [|done]. by apply released_end.
Qed.

Lemma deleting_ok o st' r : p = P_deleting o → delete_teardown o w st = (st', r) → okay st' r.
Proof.
  intros Hp H. pose proof (me_ok me n p st Hinv Hme) as Hpc. rewrite Hp in Hpc. destruct Hpc as [Ha [Ht (s & Ho & Hn & Hs)]].
  assert (down st n) as Hd by (eapply row_down; [done|done|done|]; rewrite Hs; by right; right).
  destruct (delete_teardown_inv o w st st' r s Ho) as (He & f & -> & Hf); [by rewrite Hn|done|]. rewrite Hn in Hf.
  unfold Regions.okay. simpl nx_of. apply still_ok; [by apply eqv_still|by rewrite Hp|]. intros q [= <-].
  assert (pcok st' me n (P_deleting o)) as [Ha' Hr'].
  { eapply (pcok_eqv _ _ _ _ (P_deleting o)); [done|split; [done|split; [done|by eauto]]]. }
  split; [by split_and!|]. by rewrite Hp.
Qed.

Lemma delete_done_ok o failed st' r : p = P_delete_done o failed → delete_finish n o failed w st = (st', r) → okay st' r.
Proof.
  intros Hp H. pose proof (me_ok me n p st Hinv Hme) as Hpc. rewrite Hp in Hpc. destruct Hpc as (Ha & [Ht (s & Ho & Hn & Hs)] & Hleft).
  assert (down st n) as Hd by (eapply row_down; [done|done|done|]; rewrite Hs; by right; right).
  assert (holder p = None) as Hh by (by rewrite Hp).
  assert (alone st me n) as Hal by (eapply alone_strong; [done|done|by rewrite Hp]). clear Hp.
  unfold delete_finish in H. apply bind_inv in H as [(e & H & _)|(res & st1 & H1 & H)]; [by apply attempt_inv in H as (? & _ & ?)|].
  apply attempt_inv in H1 as (res' & H1 & [= ->]).
  apply bind_inv in H as [(e & H & _)|([] & st2 & H2 & H)]; [by apply release_run in H as [_ ?]|].
  apply release_run in H2 as [-> _].
  assert (next_pc (nx_of r) = None ∧ st' = set_accounts None st1) as [Hnx ->].
  { destruct res'; [apply mret_inv in H as [-> ->]|apply raise_inv in H as [-> ->]]; done. }
  apply release_ok; [|done|by rewrite Hnx]. clear H. destruct failed as [e|].
  - assert (∃ r2, force_state o STOPPED w st = (st1, r2)) as [r2 Hf].
    { apply bind_inv in H1 as [(e' & H & _)|(? & ? & H & H1)]; [by eauto|]. apply raise_inv in H1 as [-> _]. by eauto. }
    destruct (force_inv _ _ _ _ _ _ _ Ho Hf) as (s1 & He & Hs1).
    assert (kept s s1 ∧ si_state s1 = STOPPED) as [Hk Hst1].
    { destruct Hs1 as [(_ & ? & ? & _)|(? & _ & ? & ? & _)]; by split. }
    pose proof (alone_slot Hal Hh) as Hi.
    eapply ok_row with (o := o) (s := s) (s' := s1) (i := st_inflight st) (k := st_fresh st); try done.
    + by rewrite Hst1.
    + by rewrite Hi.
    + by left.
    + intros q. by rewrite Hnx.
    + by rewrite Hi.
  - assert (eqv (set_table (od_del (st_table st) n) st) st1) as He.
    { apply bind_inv in H1 as [(? & H & _)|([] & ? & H & H1)]; [by apply modify_inv in H as [_ ?]|].
      apply modify_inv in H as [-> _]. by quiet_run_in H1. }
    eapply ok_table with (t := od_del (st_table st) n) (h := st_heap st) (k := st_fresh st) (c := st_creating st); try done.
    + split; [done|by apply Hleft].
    + apply od_del_NoDup, (b_keys _ (i_base _ Hinv)).
    + intros m Hm. by rewrite od_get_del_ne.
    + apply (b_heap _ (i_base _ Hinv)).
    + by rewrite od_get_del_eq.
    + intros q. by rewrite Hnx.
Qed.

(** ** Creating *)

Definition committed (row : Row) (now : Z) (t : list (string * nat)) : store :=
  table_store t (<[st_fresh st := new_silo (stamped now row)]> (st_heap st)) (S (st_fresh st)) (st_creating st).

Lemma commit_row_inv row st0 st' r :
  eqv st st0 → commit_row row w st0 = (st', r) →
  (r = Ok tt ∧ eqv (committed row (w_now w) (od_set (st_table st) (ro_name row) (st_fresh st))) st') ∨
  (∃ e, r = Err e ∧ eqv (committed row (w_now w) (od_del (od_set (st_table st) (ro_name row) (st_fresh st)) (ro_name row))) st').
Proof.
  intros He0. unfold commit_row. intros H. do 6 (run_step; [by run_step|]; run_step).
  match goal with H : save _ ?x = (_, ?y) |- _ => quiet_run_in H; rename H into Hs, y into res end.
  cbn [st_table st_heap set_heap set_fresh] in Hs. rewrite (ev_fresh _ _ He0), (ev_heap _ _ He0), (ev_table _ _ He0) in Hs.
  eapply eqv_trans in Hs; [|apply set_table_eqv, set_heap_eqv, set_fresh_eqv, He0].
  destruct res as [[]|e].
  - apply emit_inv in H as [-> He]. left. split; [done|]. eapply eqv_trans; [exact Hs|exact He].
  - run_step; [by run_step|]. run_step. run_step. right. eexists. split; [done|].
    pose proof (set_table_eqv _ _ (od_del (od_set (st_table st) (ro_name row) (st_fresh st)) (ro_name row)) Hs) as He.
    simpl in He. rewrite (ev_table _ _ Hs). exact He.
Qed.

(** A commit keeps the invariant, whether the save succeeds or not *)
Lemma commit_row_ok row nx st0 st' r :
  eqv st st0 →
  ro_name row = n → ro_state row = CREATED → od_get (st_table st) n = None → alone st me n → holder p = None →
  commit_row row w st0 = (st', r) →
  (∀ q, next_pc nx = Some q → prober q = None ∧ writer q = None ∧ (creator q = true → creator p = true) ∧
    ∀ st1, st_creating st1 = st_creating st → st_accounts st1 = st_accounts st →
      (∀ e, r = Err e → od_get (st_table st1) n = None) → pcok st1 me n q) →
  region_ok me n p nx st st'.
Proof.
  intros He0 Hn Hst Ht Hal Hh H Hq.
  assert (∃ t, eqv (committed row (w_now w) t) st' ∧ NoDup (keys t) ∧ (∀ m, m ≠ n → od_get t m = od_get (st_table st) m) ∧
    (od_get t n = None ∨ (r = Ok tt ∧ od_get t n = Some (st_fresh st)))) as (t & He & Hnd & Hot & Htn).
  { pose proof (b_keys _ (i_base _ Hinv)) as Hk. rewrite <- Hn. destruct (commit_row_inv _ _ _ _ He0 H) as [[-> He]|(e & -> & He)].
    - eexists. split; [exact He|]. split; [by apply od_set_NoDup|]. split; [intros m Hm; by rewrite od_get_set_ne|].
      right. by rewrite od_get_set_eq.
    - eexists. split; [exact He|]. split; [by apply od_del_NoDup, od_set_NoDup|].
      split; [intros m Hm; by rewrite od_get_del_ne, od_get_set_ne|]. left. by rewrite od_get_del_eq. }
  assert (st_heap st !! st_fresh st = None) as Hnone.
  { destruct (st_heap st !! st_fresh st) eqn:Ho; [|done]. assert (st_fresh st < st_fresh st); [|lia].
    apply (b_heap _ (i_base _ Hinv)). by eauto. }
  eapply ok_table; [done|done|by apply (b_absent _ (i_base _ Hinv))|exact Hnd|exact Hot|..|exact He|].
  - intros o s Ho. rewrite lookup_insert_ne; [done|]. intros <-. congruence.
  - intros o [s Ho]. destruct (decide (o = st_fresh st)) as [->|Hne]; [lia|]. rewrite lookup_insert_ne in Ho by done.
    assert (o < st_fresh st); [|lia]. apply (b_heap _ (i_base _ Hinv)). by eauto.
  - lia.
  - intros o Ho. destruct Htn as [?|[_ Htn]]; [congruence|]. rewrite Ho in Htn. injection Htn as ->. split; [done|].
    eexists. rewrite lookup_insert_eq. by split.
  - done.
  - done.
  - intros q Hn'. destruct (Hq q Hn') as (H1 & H2 & H3 & H4). split_and!; try done; [|by auto]. apply H4; [done|done|].
    intros e ->. by destruct Htn as [?|[? _]].
Qed.

Lemma create_begin_ok uid autostart kind launch egress st' r :
  holder p = None → create_begin n uid autostart kind launch egress w st = (st', r) → okay st' r.
Proof.
  intros Hh H. unfold create_begin in H. run_step; [by run_step|]. run_step. cbv zeta in H.
  match type of H with match ?c with _ => _ end _ _ = _ => destruct c as [row|e] eqn:Hc end; [|run_step; by apply ends].
  assert (ro_name row = n ∧ ro_uid row = uid ∧ ro_state row = CREATED) as (Hn & Hu & Hst).
  { clear -Hc. unfold result_bind in Hc. repeat case_match; by simplify_eq/=. }
  clear Hc.
  assert (quiet (if bool_decide (ro_kind row = KIND_TIER3S) then require_tier3s_profile else mret tt)) as Hq by auto with quiet.
  apply bind_inv in H as [(e & H & ->)|([] & st1 & H1 & H)]; [apply (quiet_run _ _ _ _ _ Hq) in H; by apply ends|].
  apply (quiet_run _ _ _ _ _ Hq) in H1 as He. clear H1 Hq. rewrite bind_gets in H.
  destruct (name_taken n st1) eqn:Htk; [apply raise_inv in H as [-> ->]; by apply ends|].
  unfold name_taken in Htk. rewrite (ev_table _ _ He), (ev_creating _ _ He) in Htk.
  apply orb_false_iff in Htk as [Ht%bool_decide_eq_false Hcr%bool_decide_eq_false].
  apply eq_None_not_Some in Ht, Hcr. pose proof (alone_absent me n p st Hinv Hme Ht Hcr) as Hal.
  case_bool_decide as Hkind; cbn [negb] in H.
  - rewrite bind_gets in H. destruct (uid_holder uid st1); [apply raise_inv in H as [-> ->]; by apply ends|].
    rewrite bind_gets in H. case_bool_decide as Hcu; [apply raise_inv in H as [-> ->]; by apply ends|].
    apply bind_inv in H as [(e & H & _)|([] & st2 & H2 & H)]; [by apply modify_inv in H as [_ ?]|].
    apply modify_inv in H2 as [-> _]. apply mret_inv in H as [-> ->].
    eapply ok_table with (t := st_table st) (h := st_heap st) (k := st_fresh st) (c := <[n := uid]> (st_creating st)); try done.
    + by apply (b_absent _ (i_base _ Hinv)).
    + apply (b_keys _ (i_base _ Hinv)).
    + apply (b_heap _ (i_base _ Hinv)).
    + by rewrite Ht.
    + intros m Hm. by rewrite lookup_insert_ne.
    + intros _. rewrite lookup_insert_eq. by eauto.
    + rewrite (ev_creating _ _ He). apply set_creating_eqv. by destruct st.
    + intros q [= <-]. split_and!; try done; [|by right]. split; [done|]. split; [|done]. simpl. by rewrite lookup_insert_eq, Hu.
  - assert (∃ nx r1, nx_of r = End nx ∧ commit_row row w st1 = (st', r1)) as (nx & r1 & Hr & Hrun).
    { apply bind_inv in H as [(e & H & ->)|([] & st2 & H2 & H)]; [by eauto|]. apply mret_inv in H as [-> ->]. by eauto. }
    unfold Regions.okay. rewrite Hr. by eapply commit_row_ok.
Qed.

Lemma create_ok row st' r : p = P_create row → create_provision me row w st = (st', r) → okay st' r.
Proof.
  intros Hp H. pose proof (me_ok me n p st Hinv Hme) as Hpc. rewrite Hp in Hpc. destruct Hpc as (Hn & Hcr & Ht & Hst).
  assert (holder p = None ∧ strong p = true ∧ creator p = true) as (Hh & Hsp & Hcp) by (by rewrite Hp). clear Hp.
  unfold create_provision in H. run_step; [by run_step|]. apply gets_inv in H0 as [-> [= ->]].
  destruct (st_accounts st) eqn:Ha.
  { apply mret_inv in H as [-> ->]. apply still_ok; [apply eqv_still, eqv_refl|done|]. intros q [= <-]. by split. }
  apply bind_inv in H as [(e & H & _)|([] & st1 & H1 & H)]; [by apply (modify_inv _ w) in H as [_ ?]|]. apply (modify_inv _ w) in H1 as [-> _].
  apply bind_inv in H as [(e & H & _)|(res & st2 & H2 & H)]; [by apply attempt_inv in H as (? & _ & ?)|].
  apply attempt_inv in H2 as (res' & H2 & [= ->]).
  apply (calm_run n _ w) in H2; [|rewrite Hn; apply calm_provision|apply (b_absent _ (i_base _ Hinv)), Ht].
  assert (still me st (set_accounts (Some me) st)) as Hst1.
  { apply still_accounts; [apply eqv_still, eqv_refl|]. right. left. by rewrite Ha. }
  destruct res' as [[]|e].
  - apply bind_inv in H as [(e & H & _)|(d & st3 & H3 & H)]; [by apply attempt_inv in H as (? & _ & ?)|].
    quiet_run_in H3. assert (eqv (set_accounts (Some me) st) st3) as He by (by eapply eqv_trans).
    assert (∃ q, r = Ok (Go q) ∧ st' = st3 ∧ (q = P_create_commit row ∨ ∃ e, q = P_create_undo row e)) as (q & -> & -> & Hq).
    { destruct d; apply mret_inv in H as [-> ->]; eauto 10. }
    apply still_ok; [by eapply still_eqv|done|]. intros q' [= <-].
    assert (pcok st3 me n q) as Hpq.
    { destruct Hq as [->|[e ->]]; simpl; by rewrite (ev_creating _ _ He), (ev_table _ _ He), (ev_accounts _ _ He). }
    by destruct Hq as [->|[e ->]].
  - apply bind_inv in H as [(e' & H & _)|([] & st3 & H3 & H)]; [by apply release_run in H as [_ ?]|].
    apply release_run in H3 as [-> _]. apply mret_inv in H as [-> ->].
    apply still_ok; [|done|].
    + apply still_accounts; [by eapply still_eqv|]. left. by rewrite Ha.
    + intros q [= <-]. split; [|done]. simpl. rewrite (ev_creating _ _ H2). simpl. rewrite Hcr. by eauto.
Qed.

Lemma create_commit_ok row st' r : p = P_create_commit row → create_commit row w st = (st', r) → okay st' r.
Proof.
  intros Hp H. pose proof (me_ok me n p st Hinv Hme) as Hpc. rewrite Hp in Hpc. destruct Hpc as (Hn & Hcr & Ht & Hst & Ha).
  assert (holder p = None ∧ creator p = true) as (Hh & Hcp) by (by rewrite Hp).
  assert (alone st me n) as Hal by (eapply alone_strong; [done|done|by rewrite Hp]). clear Hp.
  unfold create_commit in H. apply bind_inv in H as [(e & H & _)|(res & st1 & H1 & H)]; [by apply attempt_inv in H as (? & _ & ?)|].
  apply attempt_inv in H1 as (res' & H1 & [= ->]). destruct res' as [[]|e].
  - apply bind_inv in H as [(e' & H & _)|([] & st3 & H3 & H)]; [by apply release_run in H as [_ ?]|].
    apply release_run in H3 as [-> _]. apply mret_inv in H as [-> ->]. apply release_ok; [|done|by intros q [= <-]].
    eapply commit_row_ok; try done. intros q [= <-]. split_and!; try done. intros st2 Hc _ _. simpl. rewrite Hc, Hcr. by eauto.
  - apply mret_inv in H as [-> ->]. eapply commit_row_ok; try done. intros q [= <-]. split_and!; try done.
    intros st2 Hc Hac Hno. simpl. rewrite Hc, Hac. by eauto 10.
Qed.

Lemma create_undo_ok row e st' r : p = P_create_undo row e → create_undo row w st = (st', r) → okay st' r.
Proof.
  intros Hp H. pose proof (me_ok me n p st Hinv Hme) as Hpc. rewrite Hp in Hpc. destruct Hpc as (Hn & Hcr & Ht & Hst & Ha).
  assert (holder p = None ∧ creator p = true) as (Hh & Hcp) by (by rewrite Hp). clear Hp.
  assert (gone st (ro_name row)) as Hd by (rewrite Hn; apply (b_absent _ (i_base _ Hinv)), Ht).
  pose proof (calm_rollback (ro_name row)) as Hcalm.
  unfold create_undo in H. apply bind_inv in H as [(e' & H & ->)|(left & st1 & H1 & H)].
  { apply (calm_run _ _ _ _ _ _ H Hcalm) in Hd. by apply ends. }
  apply (calm_run _ _ _ _ _ _ H1 Hcalm) in Hd.
  apply bind_inv in H as [(e' & H & _)|([] & st3 & H3 & H)]; [by apply release_run in H as [_ ?]|].
  apply release_run in H3 as [-> _]. apply mret_inv in H as [-> ->]. apply still_ok; [|done|].
  - apply still_accounts; [by apply eqv_still|]. by right; right.
  - intros q [= <-]. split; [|done]. simpl. rewrite (ev_creating _ _ Hd), Hcr. by eauto.
Qed.

Lemma create_exit_ok x st' r : p = P_create_exit x → create_exit n x w st = (st', r) → okay st' r.
Proof.
  intros Hp H. unfold create_exit in H. apply bind_inv in H as [(e & H & _)|([] & st1 & H1 & H)]; [by apply modify_inv in H as [_ ?]|].
  apply modify_inv in H1 as [-> _]. apply mret_inv in H as [-> ->].
  by eapply (region_exit _ _ _ _ _ _ x st); [done|done|apply eqv_still, eqv_refl|].
Qed.

End regions.
End Registry.
