(* ===== verification/SiloSafety.v ===== *)
(** * What the silo store guarantees

    The invariant holds in every store reachable from a boot by steps that never start a
    Frozen silo. So the unit of a silo that may be deleted or launched is down, an account
    or state directory is removed only when no process is left either, every claimed slot
    has one owner, and the owner's own regions release it. Starting a Frozen silo breaks
    the first guarantee: see [SiloStops]. *)

From S2P Require Import Prelude SiloEgress SiloData SiloStore SiloRuns SiloWork SiloInv SiloRegions SiloRegistry.
From Stdlib Require Import ZArith.

Module Safety.
Import Silos Store Runs Work Inv Regions Registry.

(** ** Steps *)

(** One step, named: a call arrives on a new thread, or a thread goes on *)
Inductive move := Call (w : world) (me : nat) (c : call) | Run (w : world) (me : nat).

Definition exec (m : move) (st : store) : store :=
  match m with
  | Call w me c => match st_threads st !! me with None => spawn w me c st | Some _ => st end
  | Run w me => advance w me st
  end.

(** The move begins a round of [start] on a Frozen silo *)
Definition starts_frozen (m : move) (st : store) : Prop :=
  match m with
  | Call _ _ (C_start n) => frozen st n
  | Run _ me => ∃ th r, st_threads st !! me = Some th ∧ t_pc th = P_round r ∧ frozen st (t_name th)
  | _ => False
  end.

(** The store the daemon has after [load] read the rows, on a machine where the calls of
    [log] were made before *)
Definition boot (rows : list Row) (log : list event) : store :=
  {| st_table := zip (ro_name <$> rows) (seq 0 (length rows));
     st_heap := map_seq 0 (new_silo <$> rows);
     st_inflight := ∅; st_creating := ∅; st_accounts := None; st_fresh := length rows;
     st_disk := rows; st_log := log; st_audit := []; st_threads := ∅ |}.

(** What the daemon finds at boot: names are distinct, a silo with a row that may be deleted
    is down, and one without a row has no process left either *)
Record boot_ok (rows : list Row) (log : list event) : Prop := {
  bo_names : NoDup (ro_name <$> rows);
  bo_rows : ∀ r, r ∈ rows → deletable (ro_state r) → evidence_of log (ro_name r) = Down;
  bo_absent : ∀ n, n ∉ ro_name <$> rows → evidence_of log n = Down ∧ leftover log n = false;
  bo_safe : log_safe log;
}.

(** Reachable without starting a Frozen silo *)
Inductive reachable (rows : list Row) (log : list event) : store → Prop :=
| reach_boot : boot_ok rows log → reachable rows log (boot rows log)
| reach_step st m : reachable rows log st → ¬ starts_frozen m st → reachable rows log (exec m st).

(** ** The invariant holds *)

Lemma begin_ok me c st w st' r :
  inv st → st_threads st !! me = None → ¬ starts_frozen (Call w me c) st →
  begin c w st = (st', r) → region_ok me (call_name c) (P_round 0) (nx_of r) st st'.
Proof.
  intros Hinv Hme Hf H. pose (or_intror (conj Hme eq_refl) : (∃ th, st_threads st !! me = Some th ∧ t_name th = call_name c ∧ t_pc th = P_round 0) ∨
    (st_threads st !! me = None ∧ P_round 0 = P_round 0)) as Hm.
  destruct c; cbn [begin call_name] in *.
  - by eapply create_begin_ok.
  - by eapply delete_begin_ok.
  - by eapply set_egress_ok.
  - by eapply start_round_ok.
  - by eapply stop_begin_ok.
  - by eapply freeze_begin_ok.
  - by eapply freeze_begin_ok.
  - by eapply observe_begin_ok.
Qed.

Lemma every_region_ok me th st w st' r :
  inv st → st_threads st !! me = Some th → ¬ starts_frozen (Run w me) st →
  region me (t_name th) (t_pc th) w st = (st', r) → region_ok me (t_name th) (t_pc th) (nx_of r) st st'.
Proof.
  intros Hinv Hth Hf H.
  assert ((∃ th', st_threads st !! me = Some th' ∧ t_name th' = t_name th ∧ t_pc th' = t_pc th) ∨
    (st_threads st !! me = None ∧ t_pc th = P_round 0)) as Hme by (left; by exists th).
  destruct (t_pc th) eqn:Hp.
  - eapply (start_round_ok me (t_name th) _ st Hinv Hme w); [|done|exact H]. intros Hz. apply Hf. eexists th, _. split; [done|]. by split; [exact Hp|].
  - by eapply (probing_ok me (t_name th) _ st Hinv Hme w).
  - by eapply (start_verdict_ok me (t_name th) _ st Hinv Hme w).
  - by eapply (launch_ok me (t_name th) _ st Hinv Hme w).
  - by eapply (launched_ok me (t_name th) _ st Hinv Hme w).
  - by eapply (stop_work_ok me (t_name th) _ st Hinv Hme w).
  - by eapply (stopped_ok me (t_name th) _ st Hinv Hme w).
  - by eapply (freezing_ok me (t_name th) _ st Hinv Hme w).
  - by eapply (froze_ok me (t_name th) _ st Hinv Hme w).
  - by eapply (backstop_ok me (t_name th) _ st Hinv Hme w).
  - by eapply (create_ok me (t_name th) _ st Hinv Hme w).
  - by eapply (create_commit_ok me (t_name th) _ st Hinv Hme w).
  - by eapply (create_undo_ok me (t_name th) _ st Hinv Hme w).
  - by eapply (create_exit_ok me (t_name th) _ st w).
  - by eapply (delete_recheck_ok me (t_name th) _ st Hinv Hme w).
  - by eapply (delete_purge_ok me (t_name th) _ st Hinv Hme w).
  - by eapply (delete_commit_ok me (t_name th) _ st Hinv Hme w).
  - by eapply (deleting_ok me (t_name th) _ st Hinv Hme w).
  - by eapply (delete_done_ok me (t_name th) _ st Hinv Hme w).
  - by eapply (observe_ok me (t_name th) _ st Hinv Hme w).
  - by eapply (observed_ok me (t_name th) _ st Hinv Hme w).
Qed.

(** A region that is judged fine keeps the invariant when its thread is parked or retired *)
Lemma run_region_inv w me a n m p st :
  inv st →
  ((∃ th, st_threads st !! me = Some th ∧ t_name th = n ∧ t_pc th = p) ∨ (st_threads st !! me = None ∧ p = P_round 0)) →
  (∀ st' r, m w st = (st', r) → region_ok me n p (nx_of r) st st') → inv (run_region w me a n m st).
Proof.
  intros Hinv Hme Hm. unfold run_region. destruct (m w st) as [st' r] eqn:Hr. specialize (Hm _ _ eq_refl).
  assert (∀ x, next_pc (nx_of r) = None → inv (set_threads (delete me (st_threads (audit_end a n x w st').1)) (audit_end a n x w st').1)) as Hend.
  { intros x Hx. pose proof (quiet_audit a n x w st') as He.
    pose proof (region_survives me a n p (nx_of r) st _ Hinv (region_ok_eqv _ _ _ _ _ _ _ Hm He) Hme) as Hs.
    unfold parked in Hs. by rewrite Hx in Hs. }
  destruct r as [[q|x]|e]; [|by apply Hend..].
  exact (region_survives me a n p (Go q) st st' Hinv Hm Hme).
Qed.

Lemma exec_inv m st : inv st → ¬ starts_frozen m st → inv (exec m st).
Proof.
  intros Hinv Hf. destruct m as [w me c|w me]; simpl.
  - destruct (st_threads st !! me) eqn:Hme; [done|]. apply (run_region_inv _ _ _ _ _ (P_round 0)); [done|by right|].
    intros st' r. by eapply begin_ok.
  - unfold advance. destruct (st_threads st !! me) as [th|] eqn:Hth; [|done].
    apply (run_region_inv _ _ _ _ _ (t_pc th)); [done|by left; exists th|]. intros st' r. by eapply every_region_ok.
Qed.

Lemma boot_lookup (names : list string) k n o :
  od_get (zip names (seq k (length names))) n = Some o → ∃ i, o = k + i ∧ names !! i = Some n.
Proof.
  revert k. induction names as [|m names IH]; intros k; simpl; [done|]. case_bool_decide as Hm.
  - intros [= <-]. exists 0. subst. by rewrite Nat.add_0_r.
  - intros (i & -> & Hi)%IH. exists (S i). split; [lia|done].
Qed.

Lemma boot_keys (names : list string) k : keys (zip names (seq k (length names))) = names.
Proof. unfold keys. apply fst_zip. rewrite length_seq. done. Qed.

Lemma boot_base rows log : boot_ok rows log → base (boot rows log).
Proof.
  intros [Bn Br Ba Bs].
  assert (∀ n o, od_get (st_table (boot rows log)) n = Some o →
    ∃ r, r ∈ rows ∧ ro_name r = n ∧ st_heap (boot rows log) !! o = Some (new_silo r)) as Hrow.
  { simpl. intros n o. rewrite <- (length_fmap ro_name rows). intros (i & -> & Hi)%boot_lookup.
    apply list_lookup_fmap_Some in Hi as (r & -> & Hi). exists r. split; [by eapply list_elem_of_lookup_2|]. split; [done|].
    rewrite Nat.add_0_l, lookup_map_seq_0, list_lookup_fmap, Hi. done. }
  split.
  - simpl. rewrite <- (length_fmap ro_name rows), boot_keys. done.
  - intros n o (r & _ & Hn & Ho)%Hrow. by eauto.
  - simpl. intros o [s Hs]. rewrite lookup_map_seq_0 in Hs. apply lookup_lt_Some in Hs. by rewrite length_fmap in Hs.
  - intros n o [(r & Hr & Hn & Ho)%Hrow (s & Hs & _ & Hd)]. rewrite Ho in Hs. injection Hs as <-. unfold down. simpl.
    rewrite <- Hn. by apply Br.
  - intros n Hno. apply Ba. apply od_get_None in Hno. simpl in Hno. by rewrite <- (length_fmap ro_name rows), boot_keys in Hno.
  - simpl. intros n c. by rewrite lookup_empty.
  - done.
Qed.

Lemma boot_inv rows log : boot_ok rows log → inv (boot rows log).
Proof.
  intros Hb. split; [by apply boot_base|..]; simpl; intros *; by rewrite lookup_empty.
Qed.

Lemma reachable_store_inv rows log st : reachable rows log st → inv st.
Proof. induction 1; [by apply boot_inv|by apply exec_inv]. Qed.

(** ** A claimed slot is released *)

(** Computations that leave the slots alone *)
Definition slots_kept {A} (m : M A) : Prop := ∀ w st, st_inflight (m w st).1 = st_inflight st.

Lemma slots_quiet {A} (m : M A) : quiet m → slots_kept m.
Proof. intros Hm w st. apply (ev_inflight _ _ (Hm w st)). Qed.
Lemma slots_bind {A B} (m : M A) (f : A → M B) : slots_kept m → (∀ a, slots_kept (f a)) → slots_kept (m ≫= f).
Proof.
  intros Hm Hf w st. specialize (Hm w st). unfold mbind, M_bind. destruct (m w st) as [st1 [a|e]]; [|done].
  simpl in Hm. rewrite <- Hm. apply Hf.
Qed.
Lemma slots_attempt {A} (m : M A) : slots_kept m → slots_kept (attempt m).
Proof. intros Hm w st. unfold attempt. specialize (Hm w st). by destruct (m w st). Qed.
Lemma slots_assign o f : slots_kept (assign o f).
Proof. by intros w st. Qed.
Lemma slots_if {A} (b : bool) (m1 m2 : M A) : slots_kept m1 → slots_kept m2 → slots_kept (if b then m1 else m2).
Proof. by destruct b. Qed.

Create HintDb slots discriminated.
#[local] Hint Resolve slots_attempt slots_assign slots_if : slots.
#[local] Hint Extern 3 (slots_kept (mbind _ _)) => apply slots_bind; [|intros ?] : slots.
#[local] Hint Extern 2 (slots_kept _) => apply slots_quiet; solve [auto 10 with quiet] : slots.
#[local] Hint Extern 4 (slots_kept (match ?x with _ => _ end)) => destruct x : slots.

Lemma slots_invalidate o : slots_kept (invalidate_observation o).
Proof. by intros w st. Qed.
#[local] Hint Resolve slots_invalidate : slots.
Lemma slots_transition o new : slots_kept (transition o new).
Proof. unfold transition. auto 20 with slots. Qed.
Lemma slots_force o new : slots_kept (force_state o new).
Proof. unfold force_state. auto 20 with slots. Qed.
#[local] Hint Resolve slots_transition slots_force : slots.

(** A computation after which the claim [c] of [n] is gone *)
Definition clears {A} (n : string) (c : nat) (m : M A) : Prop := ∀ w st, st_inflight (m w st).1 !! n ≠ Some c.

Lemma clears_first {A} n c (m : M A) : slots_kept m → clears n c (clear_stop_inflight n c;; m).
Proof.
  intros Hm w st. unfold mbind, M_bind, clear_stop_inflight, modify. rewrite Hm. case_bool_decide; [|done].
  simpl. by rewrite lookup_delete_eq.
Qed.
Lemma clears_then {A B} n c (m : M A) (f : A → M B) : clears n c m → (∀ a, slots_kept (f a)) → clears n c (m ≫= f).
Proof.
  intros Hm Hf w st. specialize (Hm w st). unfold mbind, M_bind. destruct (m w st) as [st1 [a|e]]; [|done].
  by rewrite Hf.
Qed.
Lemma clears_attempt {A} n c (m : M A) : clears n c m → clears n c (attempt m).
Proof. intros Hm w st. unfold attempt. specialize (Hm w st). by destruct (m w st). Qed.

(** The last region of an owner *)
Definition settling (p : pc) : option nat :=
  match p with P_launched _ c _ | P_stopped _ c _ | P_froze _ _ c _ => Some c | _ => None end.

Lemma settling_clears me n p c : settling p = Some c → clears n c (region me n p).
Proof.
  destruct p as [| | | |o c' out| |o c' out| |fz o c' err| | | | | | | | | | | |]; intros [= ->]; cbn [region].
  - assert (clears n c (start_commit n o c out)) as Hc.
    { destruct out; cbn [start_commit]; try (apply clears_first; auto 20 with slots).
      intros w st. apply (clears_first n c (mret reason)). apply slots_quiet, quiet_ret. }
    destruct out; (apply clears_then; [by first [apply clears_attempt|idtac]|auto with slots]).
  - apply clears_then; [|auto with slots]. apply clears_attempt. unfold stop_commit. apply clears_first. auto 20 with slots.
  - unfold freeze_commit. apply clears_first. auto 20 with slots.
Qed.

Lemma run_region_slots w me a n m st : st_inflight (run_region w me a n m st) = st_inflight (m w st).1.
Proof.
  unfold run_region. destruct (m w st) as [st' [[q|x]|e]]; [done|..].
  - exact (ev_inflight _ _ (quiet_audit a n x w st')).
  - exact (ev_inflight _ _ (quiet_audit a n (Err e) w st')).
Qed.

Lemma settling_advance w t th st c :
  st_threads st !! t = Some th → settling (t_pc th) = Some c → st_inflight (advance w t st) !! t_name th ≠ Some c.
Proof. intros Hth Hc. unfold advance. rewrite Hth, run_region_slots. by apply settling_clears. Qed.

(** The first region of an owner leads to its last *)
Lemma working_advance w t th st o c :
  inv st → st_threads st !! t = Some th → holder (t_pc th) = Some (o, c) → settling (t_pc th) = None →
  ∃ th', st_threads (advance w t st) !! t = Some th' ∧ t_name th' = t_name th ∧ settling (t_pc th') = Some c.
Proof.
  intros Hinv Hth Hh Hs. pose proof (i_pc _ Hinv t th Hth) as Hpc. unfold advance. rewrite Hth.
  assert (∃ st' q, region t (t_name th) (t_pc th) w st = (st', Ok (Go q)) ∧ settling q = Some c) as (st' & q & Hr & Hq).
  { destruct (region t (t_name th) (t_pc th) w st) as [st' r] eqn:H. destruct (t_pc th); simplify_eq/=.
    - destruct Hpc as [(_ & _ & _ & s & Ho & Hn & _) Hd]. unfold down in Hd. rewrite <- Hn in Hd.
      apply (obj_bind _ _ _ _ _ _ _ Ho) in H; cbv beta in H.
      apply bind_inv in H as [(e & H & ->)|(out & st1 & H1 & H)]; [by apply start_body_inv in H as (_ & ? & ? & _)|].
      apply mret_inv in H as [-> ->]. by eauto.
    - destruct Hpc as (_ & _ & _ & s & Ho & Hn & _). apply (obj_bind _ _ _ _ _ _ _ Ho) in H; cbv beta in H.
      apply bind_inv in H as [(e & H & ->)|(out & st1 & H1 & H)]; [by apply stop_body_inv in H as (_ & ? & ? & _)|].
      apply mret_inv in H as [-> ->]. by eauto.
    - apply bind_inv in H as [(e & H & ->)|(out & st1 & H1 & H)]; [by apply attempt_inv in H as (? & _ & ?)|].
      apply mret_inv in H as [-> ->]. by eauto. }
  unfold run_region. rewrite Hr. eexists. simpl. by rewrite lookup_insert_eq.
Qed.

(** ** Guarantees *)

(** C12: In every store reachable from a boot_ok boot without starting a Frozen silo,
    whatever the system layer answers and however the calls interleave: the launcher unit of
    a row that may be deleted (Created, Stopped or being Deleted) is down, that is, the calls
    made so far show that it was not started since a stop of it was acknowledged, a probe
    read it stopped or failed, or the verifier found its container gone; and a name without
    a row has no process left in its cgroup either. That the processes of a Stopped tier-3
    row are gone is not claimed: a stop that is acknowledged is recorded although they
    survive the sweep. *)
Theorem deletable_rows_are_down rows log st n :
  reachable rows log st →
  (∀ o s, od_get (st_table st) n = Some o → st_heap st !! o = Some s →
     si_state s ∈ [CREATED; STOPPED; DELETING] → evidence_of (st_log st) n = Down) ∧
  (od_get (st_table st) n = None → evidence_of (st_log st) n = Down ∧ leftover (st_log st) n = false).
Proof.
  intros Hr%reachable_store_inv. split; [|apply (b_absent _ (i_base _ Hr))].
  intros o s Ht Ho Hs. apply (b_down _ (i_base _ Hr) n o). split; [done|].
  destruct (b_table _ (i_base _ Hr) n o Ht) as (s' & Ho' & Hn). simplify_eq. exists s. split_and!; try done.
  unfold deletable. set_solver.
Qed.

Lemma log_safe_at l1 op a l2 :
  log_safe (l1 ++ Ev op a :: l2) →
  (∀ n, needs_down op = Some n → evidence_of l2 n = Down) ∧ (∀ n, removal op = Some n → leftover l2 n = false).
Proof. induction l1 as [|e l1 IH]; simpl; [by intros (? & ? & _)|]. intros (_ & _ & H). auto. Qed.

(** C11: In the same stores, every call that starts a launcher unit was made when the unit
    of the silo was down, and every call that removes a state directory or deletes an
    account was made when the unit was down and no process was left in the silo's cgroup:
    since its last launch the cgroup was removed, which the kernel refuses while a process
    is in it, or a probe read it empty. So there is no second launch over a running unit and
    no removal of the data or account of a live silo. *)
Theorem removals_meet_no_workload rows log st l1 op a l2 :
  reachable rows log st → st_log st = l1 ++ Ev op a :: l2 →
  (∀ n, needs_down op = Some n → evidence_of l2 n = Down) ∧ (∀ n, removal op = Some n → leftover l2 n = false).
Proof. intros Hr%reachable_store_inv Hl. apply (log_safe_at l1 op a). rewrite <- Hl. apply (b_safe _ (i_base _ Hr)). Qed.

(** C14: A claimed slot never outlives its owner. In every store reachable from a boot_ok boot
    without starting a Frozen silo a claim is held by one
    parked thread, no other thread holds one on that silo, and at most two of the owner's
    own regions, whatever they meet, release it. *)
Theorem claimed_slot_released rows log st n c :
  reachable rows log st → st_inflight st !! n = Some c →
  ∃ t th, st_threads st !! t = Some th ∧ t_name th = n ∧
    (∀ t' th', st_threads st !! t' = Some th' → t_name th' = n → is_Some (holder (t_pc th')) → t' = t) ∧
    (∀ w1 w2, st_inflight (advance w1 t st) !! n ≠ Some c ∨ st_inflight (advance w2 t (advance w1 t st)) !! n ≠ Some c).
Proof.
  intros Hr%reachable_store_inv Hi. destruct (i_owner _ Hr n c Hi) as (t & th & o & Hth & Hn & Hh).
  exists t, th. split; [done|]. split; [done|]. split.
  - intros t' th' Hth' Hn' [[o' c'] Hh']. eapply (i_strong _ Hr t' t th' th); [done|done|congruence|..].
    + by destruct (t_pc th').
    + by destruct (t_pc th).
  - intros w1 w2. destruct (settling (t_pc th)) as [c'|] eqn:Hs.
    + left. rewrite <- Hn. apply settling_advance; [done|]. destruct (t_pc th); simplify_eq/=; done.
    + right. destruct (working_advance w1 t th st o c Hr Hth Hh Hs) as (th' & Hth' & Hn' & Hs').
      rewrite <- Hn, <- Hn'. by apply settling_advance.
Qed.

(** ** Runs *)

Fixpoint execs (l : list move) (st : store) : store :=
  match l with [] => st | m :: l' => execs l' (exec m st) end.

Definition frozenb (st : store) (n : string) : bool :=
  match od_get (st_table st) n with
  | Some o => match st_heap st !! o with Some s => bool_decide (si_state s = FROZEN) | None => false end
  | None => false
  end.
Definition starts_frozenb (m : move) (st : store) : bool :=
  match m with
  | Call _ _ (C_start n) => frozenb st n
  | Run _ me => match st_threads st !! me with
                | Some th => match t_pc th with P_round _ => frozenb st (t_name th) | _ => false end
                | None => false
                end
  | _ => false
  end.
Fixpoint careful (l : list move) (st : store) : bool :=
  match l with [] => true | m :: l' => negb (starts_frozenb m st) && careful l' (exec m st) end.

Lemma frozenb_spec st n : frozen st n → frozenb st n = true.
Proof. intros (o & Ht & s & Ho & _ & Hs). unfold frozenb. rewrite Ht, Ho. by case_bool_decide. Qed.

Lemma starts_frozenb_spec m st : starts_frozen m st → starts_frozenb m st = true.
Proof.
  destruct m as [w me []|w me]; simpl; try done; [apply frozenb_spec|].
  intros (th & r & -> & -> & Hz). by apply frozenb_spec.
Qed.

Lemma reach_execs rows log l st : reachable rows log st → careful l st = true → reachable rows log (execs l st).
Proof.
  revert st. induction l as [|m l IH]; intros st Hr; simpl; [done|]. intros [Hm Hl]%andb_true_iff.
  apply IH; [|done]. apply reach_step; [done|]. intros Hf%starts_frozenb_spec. by rewrite Hf in Hm.
Qed.

(** The process in the cgroup of a silo: a launch puts it there, and only SIGKILL ends it *)
Fixpoint cgroup_procs (n : string) (log : list event) : list Z :=
  match log with
  | [] => []
  | Ev (O_start _ m) A_done :: log' => if bool_decide (m = n) then [4242%Z] else cgroup_procs n log'
  | Ev (O_kill _ true) _ :: _ => []
  | _ :: log' => cgroup_procs n log'
  end.

(** A machine on which everything works: a populated cgroup cannot be removed *)
Definition works : world :=
  {| w_answer := λ l o, match o with
       | O_profile => A_text "dev"
       | O_start_refusal _ => A_text ""
       | O_observe _ _ => A_status "launcher-running" "unit active"
       | O_stop _ _ | O_user_uid_matches _ _ => A_bool true
       | O_running _ _ | O_netns_exists _ | O_freeze_unresolved _ | O_thaw_unresolved _
       | O_user_exists _ | O_uid_exists _ => A_bool false
       | O_list_policies => A_names []
       | O_policy_uids _ => A_uids None
       | O_cgroup_pids n => A_pids (cgroup_procs n l)
       | O_cgroup_remove n => match cgroup_procs n l with [] => A_done | _ => A_raise (OSError "EBUSY") end
       | _ => A_done
       end;
     w_now := 100; w_mono := 5; w_admin := 1000; w_token := "t"; w_polls := 1 |}.

Definition web : Row :=
  {| ro_name := "web"; ro_uid := 2001; ro_state := STOPPED; ro_autostart := false; ro_created_at := 1;
     ro_last_change := 1; ro_kind := KIND_TIER3_USER; ro_launch := None; ro_egress := None |}.

Lemma web_boot : boot_ok [web] [].
Proof.
  split.
  - apply NoDup_singleton.
  - done.
  - done.
  - done.
Qed.

(** Start and stop; then begin a delete *)
Definition start_stop : list move :=
  [Call works 0 (C_start "web"); Run works 0; Run works 0;
   Call works 1 (C_stop "web"); Run works 1; Run works 1; Run works 1].
Definition delete_moves : list move :=
  [Call works 2 (C_delete "web"); Run works 2; Run works 2; Run works 2; Run works 2].

Lemma start_stop_reachable : reachable [web] [] (execs start_stop (boot [web] [])).
Proof. apply reach_execs; [apply reach_boot, web_boot|by vm_compute]. Qed.
Lemma start_stop_delete_reachable : reachable [web] [] (execs (start_stop ++ delete_moves) (boot [web] [])).
Proof. apply reach_execs; [apply reach_boot, web_boot|by vm_compute]. Qed.

Definition slot_store : store := execs (take 1 start_stop) (boot [web] []).
Lemma slot_reachable : reachable [web] [] slot_store.
Proof. apply reach_execs; [apply reach_boot, web_boot|by vm_compute]. Qed.

Lemma start_stop_row :
  let st := execs start_stop (boot [web] []) in
  od_get (st_table st) "web" = Some 0 ∧ ∃ s, st_heap st !! 0 = Some s ∧ si_state s = STOPPED.
Proof.
  cbv zeta. split; [by vm_compute|].
  assert (si_state <$> st_heap (execs start_stop (boot [web] [])) !! 0 = Some STOPPED) as Hs by (by vm_compute).
  by apply fmap_Some in Hs as (s & Ho & ->); eauto.
Qed.

Lemma head_log {A} (l : list A) x : head l = Some x → l = x :: tail l.
Proof. destruct l; [done|]. by intros [= ->]. Qed.

Lemma start_stop_delete_log :
  head (st_log (execs (start_stop ++ delete_moves) (boot [web] []))) = Some (Ev (O_userdel "web") A_done).
Proof. by vm_compute. Qed.

(** The guarantees at work: after a start and a stop the row is Stopped and down *)
Lemma deletable_rows_are_down_witness :
  evidence_of (st_log (execs start_stop (boot [web] []))) "web" = Down ∧
  leftover (st_log (execs start_stop (boot [web] []))) "db" = false.
Proof.
  destruct start_stop_row as (Ht & s & Ho & Hs). split.
  - apply (deletable_rows_are_down [web] [] (execs start_stop (boot [web] [])) "web" start_stop_reachable) with (o := 0) (s := s);
      [exact Ht|exact Ho|]. rewrite Hs. by right; left.
  - apply (deletable_rows_are_down [web] [] (execs start_stop (boot [web] [])) "db" start_stop_reachable). by vm_compute.
Defined.

(** The account of a silo that ran and was stopped is removed *)
Lemma removals_meet_no_workload_witness :
  let st := execs (start_stop ++ delete_moves) (boot [web] []) in
  head (st_log st) = Some (Ev (O_userdel "web") A_done) ∧ evidence_of (tail (st_log st)) "web" = Down ∧
  leftover (tail (st_log st)) "web" = false.
Proof.
  cbv zeta. split; [exact start_stop_delete_log|].
  destruct (removals_meet_no_workload [web] [] (execs (start_stop ++ delete_moves) (boot [web] []))
              [] (O_userdel "web") A_done _ start_stop_delete_reachable (head_log _ _ start_stop_delete_log)) as [Hd Hl].
  split; [apply Hd; reflexivity|apply Hl; reflexivity].
Defined.

(** The slot a start has claimed *)
Lemma claimed_slot_released_witness :
  st_inflight slot_store !! "web" = Some 1 ∧
  ∃ t th, st_threads slot_store !! t = Some th ∧ t_name th = "web" ∧
    (∀ t' th', st_threads slot_store !! t' = Some th' → t_name th' = "web" → is_Some (holder (t_pc th')) → t' = t) ∧
    (∀ w1 w2, st_inflight (advance w1 t slot_store) !! "web" ≠ Some 1 ∨
              st_inflight (advance w2 t (advance w1 t slot_store)) !! "web" ≠ Some 1).
Proof.
  assert (st_inflight slot_store !! "web" = Some 1) as Hi by (by vm_compute). split; [done|].
  apply (claimed_slot_released [web] [] slot_store "web" 1); [apply slot_reachable|done].
Defined.

End Safety.
