(* ===== verification/SiloStops.v ===== *)
(** * Ending a workload

    What a stop of a tier-3 silo does to the processes in its cgroup, against a kernel that
    behaves as documented; what it records when the kernel does not answer; and how the
    start of a Frozen silo records Stopped over a workload nobody stopped. *)

From S2P Require Import Prelude SiloEgress SiloData SiloStore SiloRuns SiloWork SiloInv SiloRegions SiloRegistry SiloSafety.
From Stdlib Require Import ZArith.

Module Stops.
Import Silos Store Runs Work Inv Regions Registry Safety.

(** A best-effort call is one call *)
Lemma best_effort_log o w st st' r : best_effort o w st = (st', r) → ∃ a, st_log st' = Ev o a :: st_log st.
Proof.
  unfold best_effort, attempt, ops_, ops, mbind, M_bind, mret, M_ret.
  destruct (w_answer w (st_log st) o) eqn:Ha; intros [= <- _]; simpl; by eexists.
Qed.

(** ** A kernel that behaves *)

(** The documented behaviour of the kernel towards one cgroup that nothing joins or forks
    in, [alive] being the processes in it after the calls of a log: a reading of
    [cgroup.procs] lists them; [rmdir] succeeds exactly on an empty cgroup; a signal can be
    sent; only a start of the unit brings processes in; and a process sent SIGKILL is reaped
    within [delay] readings. *)
Record kernel (w : world) (n : string) (alive : list event → list Z) (delay : nat) : Prop := {
  k_pids : ∀ l, w_answer w l (O_cgroup_pids n) = A_pids (alive l);
  k_remove : ∀ l, w_answer w l (O_cgroup_remove n) = match alive l with [] => A_done | _ => A_raise (OSError "EBUSY") end;
  k_kill : ∀ l ps hard, w_answer w l (O_kill ps hard) = A_done;
  k_join : ∀ l e, (∀ k, ev_op e ≠ O_start k n) → alive (e :: l) ⊆ alive l;
  k_dies : ∀ l l' ps a, delay ≤ length l' → Forall (λ e, ev_op e = O_cgroup_pids n) l' →
    ∀ p, p ∈ ps → p ∉ alive (l' ++ Ev (O_kill ps true) a :: l);
}.

Section kernel.
Context (w : world) (n : string) (alive : list event → list Z) (delay : nat).
Context (Hk : kernel w n alive delay).

(** One reading of the cgroup *)
Definition reading (l : list event) : event := Ev (O_cgroup_pids n) (A_pids (alive l)).

Lemma pids_call st st' r :
  ops_pids (O_cgroup_pids n) w st = (st', r) →
  r = Ok (alive (st_log st)) ∧ st_log st' = reading (st_log st) :: st_log st.
Proof.
  unfold ops_pids, ops, mbind, M_bind. rewrite (k_pids _ _ _ _ Hk). by intros [= <- <-].
Qed.
Lemma pids_read st st' r :
  pids_or_none n w st = (st', r) → r = Ok (alive (st_log st)) ∧ st_log st' = reading (st_log st) :: st_log st.
Proof.
  unfold pids_or_none. intros H. repeat run_step.
  match goal with H : ops_pids _ _ _ = _ |- _ => apply pids_call in H as [-> Hl] end. done.
Qed.
Lemma kill_call ps hard st st' r :
  ops_ (O_kill ps hard) w st = (st', r) → r = Ok tt ∧ st_log st' = Ev (O_kill ps hard) A_done :: st_log st.
Proof. unfold ops_, ops, mbind, M_bind. rewrite (k_kill _ _ _ _ Hk). by intros [= <- <-]. Qed.

Lemma alive_step e l : (∀ k, ev_op e ≠ O_start k n) → alive l = [] → alive (e :: l) = [].
Proof. intros He Hl. apply list_nil_subseteq. rewrite <- Hl. by apply (k_join _ _ _ _ Hk). Qed.
Lemma alive_readings l' l : Forall (λ e, ev_op e = O_cgroup_pids n) l' → alive (l' ++ l) ⊆ alive l.
Proof.
  induction 1 as [|e l' He _ IH]; simpl; [done|]. etransitivity; [|exact IH].
  apply (k_join _ _ _ _ Hk). intros k. by rewrite He.
Qed.

(** A poll reads the cgroup until it is empty or the polls are used up *)
Lemma poll_inv k st st' r :
  poll_cgroup n k w st = (st', r) →
  r = Ok tt ∧ ∃ l', st_log st' = l' ++ st_log st ∧ Forall (λ e, ev_op e = O_cgroup_pids n) l' ∧
    (k ≤ length l' ∨ alive (st_log st') = []).
Proof.
  revert st. induction k as [|k IH]; intros st H; cbn [poll_cgroup] in H.
  { run_step. split; [done|]. exists []. split_and!; [done|done|by left]. }
  repeat run_step. match goal with H : ops_pids _ _ _ = _ |- _ => apply pids_call in H as [-> Hl] end.
  destruct (alive (st_log st)) as [|p ps] eqn:Ha.
  - run_step. split; [done|]. exists [reading (st_log st)]. split; [done|]. split; [by apply Forall_singleton|].
    right. rewrite Hl. by apply alive_step.
  - apply IH in H as (-> & l' & Hl' & Hall & Hend). split; [done|]. exists (l' ++ [reading (st_log st)]).
    rewrite Hl', Hl, <- app_assoc. split; [done|]. rewrite Forall_app, Forall_singleton, length_app. simpl.
    split; [done|]. destruct Hend as [?|Hend]; [left; lia|right]. by rewrite Hl', Hl in Hend.
Qed.
Lemma poll_empty k st st' r :
  poll_cgroup n k w st = (st', r) → alive (st_log st) = [] → r = Ok tt ∧ alive (st_log st') = [].
Proof.
  intros (-> & l' & Hl & Hall & _)%poll_inv Ha. split; [done|]. apply list_nil_subseteq. rewrite <- Ha, Hl.
  by apply alive_readings.
Qed.

Context (Hdelay : delay ≤ w_polls w).

(** Everything the last reading listed is sent SIGKILL, and the poll that follows waits it out *)
Lemma poll_killed a l st st' r :
  poll_cgroup n (w_polls w) w st = (st', r) → st_log st = Ev (O_kill (alive l) true) a :: reading l :: l →
  r = Ok tt ∧ alive (st_log st') = [].
Proof.
  intros (-> & l' & Hl & Hall & [Hlen|?])%poll_inv Hst; [|done]. split; [done|].
  apply list_nil_subseteq. intros p Hp. exfalso. rewrite Hl, Hst in Hp.
  refine (k_dies _ _ _ _ Hk _ l' _ a _ Hall p _ Hp); [lia|].
  apply alive_readings in Hp; [|done]. do 2 (apply (k_join _ _ _ _ Hk) in Hp; [|done]). done.
Qed.

(** What the signals of the sweep leave: nothing, or what the last reading listed, killed *)
Definition swept (st : store) : Prop :=
  alive (st_log st) = [] ∨ ∃ l a, st_log st = Ev (O_kill (alive l) true) a :: reading l :: l.

Lemma signals_inv pids st0 st st' r :
  pids = alive (st_log st0) → st_log st = reading (st_log st0) :: st_log st0 →
  (match pids with
   | [] => mret tt
   | _ =>
       ops_ (O_kill pids false);;
       poll_cgroup n (w_polls w);;
       remaining ← pids_or_none n;
       match remaining with [] => mret tt | _ => ops_ (O_kill remaining true) end
   end : M unit) w st = (st', r) →
  r = Ok tt ∧ swept st'.
Proof.
  intros Hp Hst H. destruct pids as [|p ps]; [run_step; split; [done|]; left; rewrite Hst; by apply alive_step|].
  run_step; [by apply kill_call in H as [? _]|]. run_step; [by apply poll_inv in H as [? _]|].
  run_step; [by apply pids_read in H as [? _]|].
  match goal with H : pids_or_none _ _ ?st1 = _ |- _ => apply pids_read in H as [[= ->] Hl]; destruct (alive (st_log st1)) eqn:Ha end.
  - run_step. split; [done|]. left. rewrite Hl. by apply alive_step.
  - apply kill_call in H as [-> Hl']. split; [done|]. right. eexists _, A_done. by rewrite Hl', Hl, <- Ha.
Qed.

(** The sweep leaves no process in the cgroup, and removes it *)
Lemma sweep_inv st st' r :
  stop_sweep n w st = (st', r) →
  r = Ok tt ∧ alive (st_log st') = [] ∧ ∃ l, st_log st' = Ev (O_cgroup_remove n) A_done :: l.
Proof.
  unfold stop_sweep. intros H. run_step; [by run_step|]. run_step.
  run_step; [by apply pids_read in H as [? _]|].
  match goal with H : pids_or_none _ _ _ = _ |- _ => apply pids_read in H as [[= ->] Hl1] end.
  apply bind_inv in H as [(e & H & ->)|([] & st2 & H2 & H)].
  { by eapply signals_inv in H as [? _]. }
  eapply signals_inv in H2 as [_ Hsw]; [|done|done].
  apply bind_inv in H as [(e & H & ->)|([] & st3 & H3 & H)]; [by apply poll_inv in H as [? _]|].
  assert (alive (st_log st3) = []) as Ha.
  { destruct Hsw as [Hsw|(l & a & Hl)]; [by eapply poll_empty|by eapply poll_killed]. }
  clear Hl1 H3. unfold attempt, ops_, ops, mbind, M_bind in H. rewrite (k_remove _ _ _ _ Hk), Ha in H.
  injection H as <- <-. split; [done|]. split; [by apply alive_step|]. by eexists.
Qed.

(** C13: A stop of a tier-3 silo ends its workload. When the stop of the unit is
    acknowledged and the kernel behaves as documented ([kernel]: in particular nothing forks
    in the cgroup during the sweep, and a killed process is reaped within the polls the
    deadline allows), the stop ends with Stopped to be recorded, no process left in the
    silo's cgroup, and the cgroup removed; whatever the processes do on SIGTERM. *)
Theorem stop_ends_workload st st' r :
  (∀ l, w_answer w l (O_stop KIND_TIER3_USER n) = A_bool true) →
  stop_tier3_user n w st = (st', r) →
  r = Ok X_done ∧ alive (st_log st') = [] ∧
  evidence_of (st_log st') n = Down ∧ leftover (st_log st') n = false.
Proof.
  intros Hstop H. unfold stop_tier3_user in H.
  run_step; [by apply best_effort_inv in H as [? _]|]. run_step; [by run_step|]. run_step.
  match goal with H : ops_bool _ _ ?st1 = (?a, ?b) |- _ =>
    assert (b = Ok true) as -> by (revert H; unfold ops_bool, ops, mbind, M_bind; rewrite Hstop; by intros [= _ <-]);
    apply stop_call in H as [_ Hd]; specialize (Hd eq_refl); rename a into st2 end.
  run_step; [by run_step|]. run_step.
  match goal with H : mbind _ _ w st2 = (?a, ?b) |- _ => rename H into Hrun, a into st3, b into y end.
  apply bind_inv in Hrun as [(e & Hrun & ->)|([] & st4 & H4 & Hrun)]; [by apply sweep_inv in Hrun as [? _]|].
  assert (eqv st2 st4) as He by (eapply run_quiet; [exact H4|apply quiet_sweep]).
  apply sweep_inv in H4 as (_ & Ha & l & Hl).
  assert (evidence_of (st_log st4) n = Down) as Hd4 by (rewrite (ev_evidence _ _ He); by case_bool_decide).
  assert (leftover (st_log st4) n = false) as Hl4.
  { rewrite Hl in Hd4 |- *. simpl. change (evidence_of l n = Down) in Hd4. by rewrite Hd4, !bool_decide_true. }
  pose proof (best_effort_log _ _ _ _ _ Hrun) as [b Hlog]. apply best_effort_inv in Hrun as [-> He3]; [|done].
  run_step. split; [done|]. split; [rewrite Hlog; by apply alive_step|].
  split; [by rewrite (ev_evidence _ _ He3)|by apply (ev_left _ _ He3)].
Qed.

End kernel.
(** The machine of [SiloSafety.works] behaves *)
Lemma works_kernel n : kernel works n (cgroup_procs n) 0.
Proof.
  split; try done.
  - intros l [o a] Ho. destruct o; try done; simpl.
    + destruct a; try done. case_bool_decide; [subst; by destruct (Ho k)|done].
    + destruct hard; [apply list_subseteq_nil|done].
  - intros l l' ps a _ Hall p _ Hp. induction Hall as [|[o b] l' Ho _ IH]; simpl in Hp; [by apply not_elem_of_nil in Hp|].
    simpl in Ho. subst. by apply IH.
Qed.

(** A silo that was started, its unit running and its process alive *)
Definition started : store := execs (take 3 start_stop) (boot [web] []).

Lemma stop_ends_workload_witness :
  cgroup_procs "web" (st_log started) = [4242%Z] ∧ evidence_of (st_log started) "web" = Up ∧
  leftover (st_log started) "web" = true ∧
  let st' := (stop_tier3_user "web" works started).1 in
  (stop_tier3_user "web" works started).2 = Ok X_done ∧ cgroup_procs "web" (st_log st') = [] ∧
  evidence_of (st_log st') "web" = Down ∧ leftover (st_log st') "web" = false.
Proof.
  split; [by vm_compute|]. split; [by vm_compute|]. split; [by vm_compute|]. cbv zeta.
  apply (stop_ends_workload works "web" (cgroup_procs "web") 0 (works_kernel "web") ltac:(simpl; lia) started);
    [done|by destruct (stop_tier3_user _ _ _)].
Defined.

(** ** A stop whose sweep sees nothing *)

Section blind.
Context (w : world) (n : string) (e : exn) (why : string).
Context (Hpids : ∀ l, w_answer w l (O_cgroup_pids n) = A_raise e).
Context (Hremove : ∀ l, w_answer w l (O_cgroup_remove n) = A_raise (OSError why)).

Lemma blind_read st st' r : pids_or_none n w st = (st', r) → r = Ok [] ∧ leftover (st_log st') n = leftover (st_log st) n.
Proof.
  unfold pids_or_none, ops_pids, attempt, ops, mbind, M_bind. rewrite Hpids. by intros [= <- <-].
Qed.
Lemma blind_poll k st st' r : poll_cgroup n k w st = (st', r) → r = Ok tt ∧ leftover (st_log st') n = leftover (st_log st) n.
Proof.
  destruct k; cbn [poll_cgroup]; [by intros [= <- <-]|].
  unfold ops_pids, attempt, ops, mbind, M_bind. rewrite Hpids. by intros [= <- <-].
Qed.

Lemma blind_sweep st st' r : stop_sweep n w st = (st', r) → r = Ok tt ∧ leftover (st_log st') n = leftover (st_log st) n.
Proof.
  unfold stop_sweep. intros H. run_step; [by run_step|]. run_step. run_step; [by apply blind_read in H as [? _]|].
  match goal with H : pids_or_none _ _ _ = _ |- _ => apply blind_read in H as [[= ->] Hl1] end.
  run_step; [by run_step|]. run_step. run_step; [by apply blind_poll in H as [? _]|].
  match goal with H : poll_cgroup _ _ _ _ = _ |- _ => apply blind_poll in H as [_ Hl2] end.
  unfold attempt, ops_, ops, mbind, M_bind in H. rewrite Hremove in H. injection H as <- <-. split; [done|].
  simpl. congruence.
Qed.

(** When the cgroup cannot be read and cannot be removed, an acknowledged stop sends no signal
    to the processes in it and is recorded as Stopped all the same *)
Lemma blind_stop st st' r :
  (∀ l, w_answer w l (O_stop KIND_TIER3_USER n) = A_bool true) →
  stop_tier3_user n w st = (st', r) →
  r = Ok X_done ∧ leftover (st_log st') n = leftover (st_log st) n.
Proof.
  intros Hstop H. unfold stop_tier3_user in H.
  apply bind_inv in H as [(? & H & _)|([] & st1 & H1 & H)]; [by apply best_effort_inv in H as [? _]|].
  apply best_effort_log in H1 as [a1 Hl1].
  apply bind_inv in H as [(? & H & _)|(d & st2 & H2 & H)]; [by apply attempt_inv in H as (? & _ & ?)|].
  apply attempt_inv in H2 as (d' & H2 & [= ->]). unfold ops_bool, ops, mbind, M_bind in H2. rewrite Hstop in H2.
  injection H2 as <- <-.
  apply bind_inv in H as [(? & H & _)|(y & st3 & H3 & H)]; [by apply attempt_inv in H as (? & _ & ?)|].
  apply attempt_inv in H3 as (y' & H3 & [= ->]).
  assert (y' = Ok tt ∧ leftover (st_log st3) n = leftover (st_log st) n) as [-> Hleft].
  { apply bind_inv in H3 as [(e' & H3 & ->)|([] & st4 & H4 & H3)]; [by apply blind_sweep in H3 as [? _]|].
    apply blind_sweep in H4 as [_ Hl4]. simpl in Hl4. pose proof (best_effort_log _ _ _ _ _ H3) as [a3 Hl3].
    apply best_effort_inv in H3 as [-> _]; [|done]. split; [done|]. rewrite Hl3. simpl. rewrite Hl4, Hl1. done. }
  apply mret_inv in H as [-> ->]. done.
Qed.
End blind.

(** ** Starting a Frozen silo *)

Lemma ops_raises w o e st st' r : (∀ l, w_answer w l o = A_raise e) → ops_ o w st = (st', r) → r = Err e.
Proof. intros Hw. unfold ops_, ops, mbind, M_bind. rewrite Hw. by intros [= _ <-]. Qed.
Lemma ops_works w o st st' r : (∀ l e, w_answer w l o ≠ A_raise e) → ops_ o w st = (st', r) → r = Ok tt.
Proof.
  intros Hw. unfold ops_, ops, mbind, M_bind. specialize (Hw (st_log st)).
  destruct (w_answer w (st_log st) o) eqn:Ha; intros [= _ <-]; try done. by destruct (Hw e).
Qed.

(** Saves succeed *)
Definition saves (w : world) : Prop := ∀ l e, w_answer w l O_save ≠ A_raise e.

Lemma transition_total w o new st st' r s :
  saves w → st_heap st !! o = Some s → new ∈ STATE_TRANSITIONS (si_state s) →
  transition o new w st = (st', r) → r = Ok tt.
Proof.
  intros Hs Ho Hnew H. unfold transition in H. apply (obj_bind _ _ _ _ _ _ _ Ho) in H; cbv beta in H.
  rewrite bool_decide_true in H by done. cbn [negb] in H. do 2 (run_step; [by run_step|]; run_step).
  run_step; [by run_step|]. run_step.
  match goal with H : save _ _ = (_, ?b) |- _ => assert (b = Ok tt) as -> end.
  { unfold save in H0. run_step; [by apply ops_works in H0|]. by run_step. }
  run_step; [by apply invalidate_inv in H as [_ ?]|]. by apply emit_inv in H as [-> _].
Qed.

Lemma claim_total w o st st' r s :
  saves w → st_heap st !! o = Some s → si_kind s ≠ KIND_TIER3S → ACTIVE ∈ STATE_TRANSITIONS (si_state s) →
  claim_start_locked o w st = (st', r) → is_ok r = true.
Proof.
  intros Hs Ho Hk Hst H. unfold claim_start_locked in H. apply (obj_bind _ _ _ _ _ _ _ Ho) in H; cbv beta in H.
  rewrite bool_decide_false in H by done. run_step; [by run_step|]. run_step.
  run_step; [by eapply transition_total in H|]. by apply claim_inv in H as [-> _].
Qed.

(** The launch of a cgroup-backed silo whose network cannot be prepared *)
Definition no_network (w : world) (n : string) (uid : Z) (e : exn) : Prop :=
  (∀ l e, w_answer w l (O_cgroup_create n) ≠ A_raise e) ∧
  (∀ l, w_answer w l (O_apply_egress n) = A_raise e) ∧ (∀ l, w_answer w l (O_nft_clear uid) = A_raise e).

Lemma no_network_launch s e w st st' r :
  si_kind s = KIND_TIER3_USER → no_network w (si_name s) (si_uid s) e →
  launch_silo_body s w st = (st', r) → r = Err e ∧ eqv st st'.
Proof.
  intros Hk (Hc & Ha & Hn) H. unfold launch_silo_body in H. rewrite Hk in H.
  run_step; [by apply ops_works in H|]. run_step; [by apply best_effort_inv in H as [? _]|].
  match goal with H : mbind _ (if _ then _ else _) _ ?x = _ |- _ => assert (eqv st x) as He by (quiets; chain) end.
  apply bind_inv in H as [(e' & H & ->)|([] & st3 & H & _)]; destruct (is_netns_backed s).
  - pose proof (ops_raises _ _ _ _ _ _ Ha H) as [= ->]. split; [done|]. quiet_run_in H. by eapply eqv_trans.
  - apply bind_inv in H as [(e2 & H & [= ->])|([] & st4 & H & _)]; [|by pose proof (ops_raises _ _ _ _ _ _ Hn H)].
    pose proof (ops_raises _ _ _ _ _ _ Hn H) as [= ->]. split; [done|]. quiet_run_in H. by eapply eqv_trans.
  - by pose proof (ops_raises _ _ _ _ _ _ Ha H).
  - apply bind_inv in H as [(e2 & H & ?)|([] & st4 & H & _)]; [done|]. by pose proof (ops_raises _ _ _ _ _ _ Hn H).
Qed.

(** The first region of the start of a Frozen silo claims its slot *)
Lemma frozen_claim w st n o s st1 r1 :
  od_get (st_table st) n = Some o → st_heap st !! o = Some s → si_name s = n →
  si_state s = FROZEN → si_kind s = KIND_TIER3_USER → st_inflight st !! n = None → saves w →
  start_round n 0 w st = (st1, r1) →
  ∃ s1 c, r1 = Ok (Go (P_launch o c)) ∧ kept s s1 ∧ si_kind s1 = KIND_TIER3_USER ∧
    eqv (set_inflight (<[n := c]> (st_inflight st)) (set_fresh (S c) (set_heap (<[o := s1]> (st_heap st)) st))) st1.
Proof.
  intros Ht Ho Hn Hfz Hkd Hi Hs H. unfold start_round in H.
  apply bind_inv in H as [(e & H & ->)|(o' & st2 & H2 & H)].
  { unfold await_inflight_locked, get, gets, mbind, M_bind in H. rewrite Ht in H. simpl in H. by rewrite Hi in H. }
  apply await_inv in H2 as [-> [(o2 & [= ->] & Ht2 & _)|(? & ?)]]; [|done].
  assert (o2 = o) as -> by congruence. apply (obj_bind _ _ _ _ _ _ _ Ho) in H; cbv beta in H.
  rewrite bool_decide_false in H by (by rewrite Hfz). cbn [negb] in H.
  apply bind_inv in H as [(e & H & ->)|(c & st2 & H2 & H)].
  { eapply claim_total in H; [done|done|done|by rewrite Hkd|]. rewrite Hfz. simpl. set_solver. }
  apply mret_inv in H as [-> ->]. destruct (claim_start_inv _ _ _ _ _ _ Ho H2) as [(? & ? & _)|(s' & [= ->] & _ & (Hk & Hst & _) & He)]; [done|].
  exists s', (st_fresh st). split; [done|]. split; [done|]. split; [by rewrite (kp_kind _ _ Hk)|]. by rewrite Hn in He.
Qed.

Lemma unprepared_start s e w st st' r :
  si_kind s = KIND_TIER3_USER → no_network w (si_name s) (si_uid s) e → (∀ x, e ≠ StartNotCancelled x) →
  start_body s w st = (st', r) → r = Ok (L_failed e) ∧ eqv st st'.
Proof.
  intros Hk Hnn He H. unfold start_body in H. run_step; [by run_step|]. run_step.
  match goal with H : launch_silo_body _ _ _ = (?a, ?b) |- _ =>
    assert (b = Err e ∧ eqv st a) as [-> Hq]; [|clear H; rename a into st1] end.
  { by match goal with H : launch_silo_body _ _ _ = _ |- _ => apply (no_network_launch _ e) in H end. }
  assert (((if is_netns_backed s then best_effort (O_teardown_egress (si_name s)) else mret tt);; mret (L_failed e)) w st1 = (st', r)) as Hrun.
  { rewrite (bool_decide_false (si_kind s = KIND_TIER3S)) in H by congruence. destruct e; try done. by destruct (He n). }
  clear H. run_step; [destruct (is_netns_backed s); [by apply best_effort_inv in Hrun as [? _]|by run_step]|].
  run_step. split; [done|]. quiets. by eapply eqv_trans.
Qed.

(** The store with a thread parked *)
Definition parked_at (me : nat) (a : action) (n : string) (p : pc) (st : store) : store :=
  set_threads (<[me := {| t_action := a; t_name := n; t_pc := p |}]> (st_threads st)) st.

Lemma run_region_go w me a n m st st' q :
  m w st = (st', Ok (Go q)) → run_region w me a n m st = parked_at me a n q st'.
Proof. unfold run_region. by intros ->. Qed.
Lemma parked_at_thread me a n p st : st_threads (parked_at me a n p st) !! me = Some {| t_action := a; t_name := n; t_pc := p |}.
Proof. simpl. by rewrite lookup_insert_eq. Qed.
Lemma advance_go w me a n p st st' q :
  st_threads st !! me = Some {| t_action := a; t_name := n; t_pc := p |} →
  region me n p w st = (st', Ok (Go q)) → advance w me st = parked_at me a n q st'.
Proof. intros Hth Hr. unfold advance. rewrite Hth. by apply run_region_go. Qed.


(** A silo that was started and frozen, and a machine on which its network cannot be prepared *)
Definition frozen_moves : list move :=
  take 3 start_stop ++ [Call works 1 (C_freeze "web"); Run works 1; Run works 1].
Definition frozen_store : store := execs frozen_moves (boot [web] []).
Definition no_nft : world :=
  {| w_answer := λ l o, match o with
       | O_nft_clear _ | O_apply_egress _ => A_raise (OSError "nft")
       | _ => w_answer works l o
       end;
     w_now := 100; w_mono := 5; w_admin := 1000; w_token := "t"; w_polls := 1 |}.

Lemma frozen_row :
  ∃ s, st_heap frozen_store !! 0 = Some s ∧ si_name s = "web" ∧ si_state s = FROZEN ∧ si_kind s = KIND_TIER3_USER ∧
       si_uid s = 2001%Z.
Proof.
  assert ((λ s, (si_name s, si_state s, si_kind s, si_uid s)) <$> st_heap frozen_store !! 0 =
    Some ("web", FROZEN, KIND_TIER3_USER, 2001%Z)) as (s & Ho & Hs)%fmap_Some by (by vm_compute).
  exists s. by injection Hs as -> -> -> ->.
Qed.


End Stops.
