(* ===== verification/SiloDisk.v ===== *)
(** * The registry and its file

    While every save succeeds, silos.yaml holds exactly the rows of the registry after every
    step. A save that fails at the end of a stop wedges the silo. *)

From S2P Require Import Prelude SiloEgress SiloData SiloStore SiloRuns SiloInv SiloRegions SiloSafety.
From Stdlib Require Import ZArith.

Module Disk.
Import Silos Store Runs Inv Regions Safety.

(** ** In step

    [st_disk] is the part of silos.yaml that [save] takes from the table. The file also
    carries the quarantined rows [load] kept; no operation of the store changes those, so
    every save writes them again as they were loaded. *)

Definition saves_ok (w : world) : Prop := ∀ log e, w_answer w log O_save ≠ A_raise e.

Definition in_step (st : store) : Prop := st_disk st = table_rows st.

(** Keeps the file in step; brings it in step, whatever it was before *)
Definition synced {A} (m : M A) : Prop := ∀ w st, saves_ok w → in_step st → in_step (m w st).1.
Definition resyncs {A} (m : M A) : Prop := ∀ w st, saves_ok w → in_step (m w st).1.

Lemma synced_ret {A} (a : A) : synced (mret a).
Proof. by intros w st _. Qed.
Lemma synced_raise {A} e : synced (raise e : M A).
Proof. by intros w st _. Qed.
Lemma synced_gets {A} (f : store → A) : synced (gets f).
Proof. by intros w st _. Qed.
Lemma synced_ask {A} (f : world → A) : synced (ask f).
Proof. by intros w st _. Qed.
Lemma synced_ops o : synced (ops o).
Proof. by intros w st _. Qed.
Lemma synced_bind {A B} (m : M A) (f : A → M B) : synced m → (∀ a, synced (f a)) → synced (m ≫= f).
Proof.
  intros Hm Hf w st Hw Hs. specialize (Hm w st Hw Hs). unfold mbind, M_bind. destruct (m w st) as [st1 [a|e]]; [|done].
  by apply Hf.
Qed.
Lemma synced_attempt {A} (m : M A) : synced m → synced (attempt m).
Proof. intros Hm w st Hw Hs. unfold attempt. specialize (Hm w st Hw Hs). by destruct (m w st). Qed.
Lemma synced_if {A} (b : bool) (m1 m2 : M A) : synced m1 → synced m2 → synced (if b then m1 else m2).
Proof. by destruct b. Qed.
Lemma synced_resyncs {A} (m : M A) : resyncs m → synced m.
Proof. intros Hm w st Hw _. by apply Hm. Qed.

(** Changes outside the rows *)
Lemma synced_modify f :
  (∀ st, st_disk (f st) = st_disk st ∧ st_table (f st) = st_table st ∧ st_heap (f st) = st_heap st) → synced (modify f).
Proof.
  intros Hf w st _ Hs. destruct (Hf st) as (H1 & H2 & H3). unfold in_step, table_rows, modify in *. simpl.
  by rewrite H1, H2, H3.
Qed.
Lemma synced_assign o f : (∀ s, to_row (f s) = to_row s) → synced (assign o f).
Proof.
  intros Hf w st _ Hs. unfold in_step, table_rows, assign, modify in *. simpl. rewrite Hs.
  apply list_omap_ext. apply Forall_Forall2_diag, Forall_forall. intros [n o'] _. simpl.
  destruct (decide (o = o')) as [<-|Hne]; [|by rewrite lookup_alter_ne].
  rewrite lookup_alter_eq. destruct (st_heap st !! o); simpl; [by rewrite Hf|done].
Qed.

(** A save, and what follows it *)
Lemma save_run w st : saves_ok w → ∃ st', save w st = (st', Ok tt) ∧ in_step st'.
Proof.
  intros Hw. unfold save, ops_, mbind, M_bind, ops, modify. specialize (Hw (st_log st)).
  destruct (w_answer w (st_log st) O_save); try (eexists; split; [done|done]). by destruct (Hw e).
Qed.
Lemma resyncs_save {B} (f : unit → M B) : synced (f tt) → resyncs (save ≫= f).
Proof. intros Hf w st Hw. unfold mbind, M_bind. destruct (save_run w st Hw) as (st' & -> & Hs). by apply Hf. Qed.
Lemma resyncs_attempt_save {B} (f : result exn unit → M B) : synced (f (Ok tt)) → resyncs (attempt save ≫= f).
Proof.
  intros Hf w st Hw. unfold mbind, M_bind, attempt. destruct (save_run w st Hw) as (st' & -> & Hs). by apply Hf.
Qed.
Lemma resyncs_modify {B} g (f : unit → M B) : resyncs (f tt) → resyncs (modify g ≫= f).
Proof. intros Hf w st. by apply Hf. Qed.
Lemma resyncs_assign {B} o g (f : unit → M B) : resyncs (f tt) → resyncs (assign o g ≫= f).
Proof. intros Hf w st. by apply Hf. Qed.
Lemma resyncs_ask {A B} (g : world → A) (f : A → M B) : (∀ a, resyncs (f a)) → resyncs (ask g ≫= f).
Proof. intros Hf w st. by apply Hf. Qed.
Lemma resyncs_gets {A B} (g : store → A) (f : A → M B) : (∀ a, resyncs (f a)) → resyncs (gets g ≫= f).
Proof. intros Hf w st. by apply Hf. Qed.

Create HintDb synced discriminated.
#[local] Hint Resolve synced_ret synced_raise synced_gets synced_ask synced_ops synced_attempt synced_if : synced.
#[local] Hint Resolve resyncs_save resyncs_attempt_save resyncs_modify resyncs_assign : synced.
#[local] Hint Extern 2 (resyncs (ask _ ≫= _)) => apply resyncs_ask; intros ? : synced.
#[local] Hint Extern 2 (resyncs (gets _ ≫= _)) => apply resyncs_gets; intros ? : synced.
#[local] Hint Extern 3 (synced (mbind _ _)) => apply synced_bind; [|intros ?] : synced.
#[local] Hint Extern 2 (synced (modify _)) => apply synced_modify; intros ?; first [done | by case_match] : synced.
#[local] Hint Extern 2 (synced (assign _ _)) => apply synced_assign; done : synced.
#[local] Hint Extern 4 (synced (match ?x with _ => _ end)) => destruct x : synced.

Lemma synced_calls o :
  synced (ops_ o) ∧ synced (ops_bool o) ∧ synced (ops_text o) ∧ synced (ops_status o) ∧ synced (ops_names o) ∧
  synced (ops_uids o) ∧ synced (ops_pids o) ∧ synced (best_effort o).
Proof. unfold best_effort, ops_, ops_bool, ops_text, ops_status, ops_names, ops_uids, ops_pids. split_and!; auto 10 with synced. Qed.
#[local] Hint Extern 1 (synced (ops_ _)) => apply synced_calls : synced.
#[local] Hint Extern 1 (synced (ops_bool _)) => apply synced_calls : synced.
#[local] Hint Extern 1 (synced (ops_text _)) => apply synced_calls : synced.
#[local] Hint Extern 1 (synced (ops_status _)) => apply synced_calls : synced.
#[local] Hint Extern 1 (synced (ops_names _)) => apply synced_calls : synced.
#[local] Hint Extern 1 (synced (ops_uids _)) => apply synced_calls : synced.
#[local] Hint Extern 1 (synced (ops_pids _)) => apply synced_calls : synced.
#[local] Hint Extern 1 (synced (best_effort _)) => apply synced_calls : synced.

(** ** The operations *)

Lemma synced_obj o : synced (obj o).
Proof. unfold obj. auto with synced. Qed.
Lemma synced_get n : synced (get n).
Proof. unfold get. auto with synced. Qed.
#[local] Hint Resolve synced_obj synced_get : synced.
Lemma synced_await n : synced (await_inflight_locked n).
Proof. unfold await_inflight_locked. auto 10 with synced. Qed.
Lemma synced_emit n what : synced (emit_change n what).
Proof. unfold emit_change. auto with synced. Qed.
Lemma synced_invalidate o : synced (invalidate_observation o).
Proof. unfold invalidate_observation. auto with synced. Qed.
Lemma synced_profile : synced require_tier3s_profile.
Proof. unfold require_tier3s_profile. auto with synced. Qed.
#[local] Hint Resolve synced_await synced_emit synced_invalidate synced_profile : synced.

Lemma synced_transition o new : synced (transition o new).
Proof.
  unfold transition. apply synced_bind; [auto with synced|]. intros s. apply synced_if; [auto with synced|].
  apply synced_resyncs. auto 10 with synced.
Qed.
Lemma synced_force o new : synced (force_state o new).
Proof.
  unfold force_state. apply synced_bind; [auto with synced|]. intros s. apply synced_resyncs. auto 10 with synced.
Qed.
Lemma synced_claim n : synced (claim_stop_inflight n).
Proof. unfold claim_stop_inflight. auto 10 with synced. Qed.
Lemma synced_clear n c : synced (clear_stop_inflight n c).
Proof. unfold clear_stop_inflight. auto with synced. Qed.
#[local] Hint Resolve synced_transition synced_force synced_claim synced_clear : synced.
Lemma synced_claim_start o : synced (claim_start_locked o).
Proof. unfold claim_start_locked. auto 10 with synced. Qed.
Lemma synced_launch s : synced (launch_silo_body s).
Proof. unfold launch_silo_body. auto 20 with synced. Qed.
#[local] Hint Resolve synced_claim_start synced_launch : synced.
Lemma synced_start_body s : synced (start_body s).
Proof. unfold start_body. auto 20 with synced. Qed.
Lemma synced_start_commit n o c out : synced (start_commit n o c out).
Proof. unfold start_commit. auto 20 with synced. Qed.
Lemma synced_dead s x : synced (dead_confirmed s x).
Proof. unfold dead_confirmed. auto 20 with synced. Qed.
Lemma synced_poll n k : synced (poll_cgroup n k).
Proof. induction k; cbn [poll_cgroup]; auto 10 with synced. Qed.
#[local] Hint Resolve synced_start_body synced_start_commit synced_dead synced_poll : synced.
Lemma synced_pids n : synced (pids_or_none n).
Proof. unfold pids_or_none. auto 10 with synced. Qed.
#[local] Hint Resolve synced_pids : synced.
Lemma synced_sweep n : synced (stop_sweep n).
Proof. unfold stop_sweep. auto 30 with synced. Qed.
Lemma synced_verdict k n r : synced (stop_verdict k n r).
Proof. unfold stop_verdict. auto 10 with synced. Qed.
#[local] Hint Resolve synced_sweep synced_verdict : synced.
Lemma synced_stop_body s : synced (stop_body s).
Proof. unfold stop_body, stop_tier3_user, stop_tier2, stop_tier3s. auto 30 with synced. Qed.
Lemma synced_bad_uid us : synced (names_bad_uid us).
Proof. induction us; cbn [names_bad_uid]; auto 10 with synced. Qed.
#[local] Hint Resolve synced_stop_body synced_bad_uid : synced.
Lemma synced_purge_fragments want have : synced (purge_fragments want have).
Proof. induction have; cbn [purge_fragments]; unfold fragment_unsafe; auto 20 with synced. Qed.
#[local] Hint Resolve synced_purge_fragments : synced.
Lemma synced_purge : synced purge_unsafe_relay_fragments.
Proof. unfold purge_unsafe_relay_fragments. auto 10 with synced. Qed.
Lemma synced_rollback n : synced (rollback_account_transaction n).
Proof. unfold rollback_account_transaction. auto 20 with synced. Qed.
#[local] Hint Resolve synced_purge synced_rollback : synced.
Lemma synced_commit_row row : synced (commit_row row).
Proof. apply synced_resyncs. unfold commit_row. auto 20 with synced. Qed.
#[local] Hint Resolve synced_commit_row : synced.
Lemma synced_releasing {A} (m : M A) : synced m → synced (releasing m).
Proof. intros Hm. unfold releasing, release_accounts. auto 10 with synced. Qed.
#[local] Hint Resolve synced_releasing : synced.
Lemma synced_refuse o : synced (refuse_unless_deletable o).
Proof. unfold refuse_unless_deletable. auto with synced. Qed.
Lemma synced_refuse_creating n : synced (refuse_creating n).
Proof. unfold refuse_creating. auto with synced. Qed.
#[local] Hint Resolve synced_refuse synced_refuse_creating : synced.

Lemma synced_set_egress n e : synced (set_egress n e).
Proof.
  unfold set_egress. destruct (validate_egress_field e); [|auto with synced]. do 2 (apply synced_bind; [auto with synced|intros ?]).
  do 2 (apply synced_if; [auto with synced|]). apply synced_resyncs. auto 10 with synced.
Qed.
Lemma synced_finish n o failed : synced (delete_finish n o failed).
Proof.
  unfold delete_finish, release_accounts. apply synced_bind; [|auto 10 with synced]. apply synced_attempt.
  destruct failed; [auto with synced|]. apply synced_resyncs. auto 10 with synced.
Qed.
#[local] Hint Resolve synced_set_egress synced_finish : synced.

Lemma synced_begin c : synced (begin c).
Proof.
  destruct c; cbn [begin]; unfold create_begin, start_round, stop_begin, freeze_begin, observe_begin; auto 20 with synced.
Qed.
Lemma synced_region me n p : synced (region me n p).
Proof.
  destruct p; cbn [region]; unfold start_round, start_probe, start_verdict, stop_commit, freeze_commit, create_provision,
    provision_account, create_commit, create_undo, create_exit, delete_recheck, delete_purge, delete_commit, delete_teardown,
    observe_probe, observe_publish, take_accounts, release_accounts; auto 40 with synced.
Qed.

Lemma synced_audit a n r : synced (audit_end a n r).
Proof. unfold audit_end, audit_record. auto 10 with synced. Qed.

Lemma run_region_in_step w me a n m st : saves_ok w → synced m → in_step st → in_step (run_region w me a n m st).
Proof.
  intros Hw Hm Hs. unfold run_region. specialize (Hm w st Hw Hs). destruct (m w st) as [st' [[q|x]|e]]; [done|..].
  - exact (synced_audit a n x w st' Hw Hm).
  - exact (synced_audit a n (Err e) w st' Hw Hm).
Qed.

Definition move_world (m : move) : world := match m with Call w _ _ | Run w _ => w end.

Lemma exec_in_step m st : saves_ok (move_world m) → in_step st → in_step (exec m st).
Proof.
  destruct m as [w me c|w me]; simpl; intros Hw Hs.
  - destruct (st_threads st !! me); [done|]. apply run_region_in_step; auto using synced_begin.
  - unfold advance. destruct (st_threads st !! me); [|done]. apply run_region_in_step; auto using synced_region.
Qed.

Lemma boot_in_step rows log : in_step (boot rows log).
Proof.
  unfold in_step, table_rows. simpl. rewrite <- (length_fmap ro_name rows).
  assert (∀ k (h : gmap nat Silo), (∀ i r, rows !! i = Some r → h !! (k + i) = Some (new_silo r)) →
    omap (λ p : string * nat, to_row <$> h !! p.2) (zip (ro_name <$> rows) (seq k (length (ro_name <$> rows)))) = rows) as Hgen.
  { induction rows as [|r rows IH]; intros k h Hh; simpl; [done|]. pose proof (Hh 0 r eq_refl) as H0.
    rewrite Nat.add_0_r in H0. rewrite H0. simpl. rewrite IH; [by destruct r|].
    intros i r' Hr. specialize (Hh (S i) r' Hr). by rewrite <- Nat.add_succ_comm in Hh. }
  symmetry. apply Hgen. intros i r Hr. by rewrite Nat.add_0_l, lookup_map_seq_0, list_lookup_fmap, Hr.
Qed.

(** C16: While no save fails, silos.yaml is in step with the registry after every step of
    every interleaving: beside the rows [load] quarantined, which a save writes back
    unchanged and the model leaves out, it holds the persisted fields of exactly the rows in
    memory, in their order. *)
Theorem silos_yaml_in_step rows log l :
  Forall (λ m, saves_ok (move_world m)) l →
  st_disk (execs l (boot rows log)) = table_rows (execs l (boot rows log)).
Proof.
  intros Hl. pose proof (boot_in_step rows log) as Hs. generalize dependent (boot rows log).
  induction Hl as [|m l Hm _ IH]; intros st Hs; simpl; [done|]. by apply IH, exec_in_step.
Qed.

Lemma works_saves : saves_ok works.
Proof. intros log e. simpl. congruence. Qed.

(** A silo is started and stopped *)
Lemma silos_yaml_in_step_witness :
  st_disk (execs start_stop (boot [web] [])) = table_rows (execs start_stop (boot [web] [])).
Proof. apply (silos_yaml_in_step [web] [] start_stop). repeat constructor; exact works_saves. Defined.

(** ** A stop whose last save fails *)

(** What is refused on a row that is Stopping with no stop under way *)
Section stopping.
Context (w : world) (st : store) (n : string) (o : nat) (s : Silo).
Context (Ht : od_get (st_table st) n = Some o) (Ho : st_heap st !! o = Some s) (Hs : si_state s = STOPPING).
Context (Hi : st_inflight st !! n = None).

Lemma obj_run {A} (f : Silo → M A) : (s ← obj o; f s) w st = f s w st.
Proof. unfold obj, mbind, M_bind, gets. simpl. by rewrite Ho. Qed.
Lemma await_run {A} (f : nat → M A) : (o ← await_inflight_locked n; f o) w st = f o w st.
Proof.
  unfold await_inflight_locked, get, mbind, M_bind, gets. simpl. rewrite Ht. simpl. by rewrite Hi.
Qed.
Lemma get_run {A} (f : nat → M A) : (o ← get n; f o) w st = f o w st.
Proof. unfold get, mbind, M_bind, gets. simpl. by rewrite Ht. Qed.

Lemma stopping_refuses c :
  c ∈ [C_start n; C_stop n; C_freeze n; C_resume n] → ∃ e, (begin c w st).2 = Err e.
Proof.
  intros Hc. destruct (begin c w st) as [st' [nx|e]] eqn:H; [exfalso|by eauto].
  assert (c = C_start n ∨ c = C_stop n ∨ c = C_freeze n ∨ c = C_resume n) as Hc' by set_solver. clear Hc.
  destruct Hc' as [->|[->|[->| ->]]]; cbn [begin] in H.
  - unfold start_round in H. rewrite await_run, obj_run, Hs in H. rewrite (bool_decide_false (STOPPING = ACTIVE)) in H by done. cbn [negb] in H.
    apply bind_inv in H as [(? & _ & ?)|(c & st1 & Hc & _)]; [done|].
    destruct (claim_start_inv _ _ _ _ _ _ Ho Hc) as [(? & ? & _)|(s2 & _ & Hin & _)]; [done|]. rewrite Hs in Hin. set_solver.
  - unfold stop_begin in H. rewrite await_run, obj_run, Hs in H. done.
  - unfold freeze_begin in H. rewrite await_run, obj_run, Hs in H. case_bool_decide; done.
  - unfold freeze_begin in H. rewrite await_run, obj_run, Hs in H. case_bool_decide; done.
Qed.

Lemma stopping_not_deletable : ∃ e, (refuse_unless_deletable o w st).2 = Err e.
Proof. unfold refuse_unless_deletable. rewrite obj_run, Hs. by eauto. Qed.

End stopping.

(** The machine when silos.yaml cannot be written *)
Definition disk_full : world :=
  {| w_answer := λ l o, match o with O_save => A_raise (OSError "ENOSPC") | _ => w_answer works l o end;
     w_now := 100; w_mono := 5; w_admin := 1000; w_token := "t"; w_polls := 1 |}.

(** A start, and a stop whose last region meets the full disk *)
Definition wedging_stop : list move :=
  [Call works 0 (C_start "web"); Run works 0; Run works 0;
   Call works 1 (C_stop "web"); Run works 1; Run disk_full 1; Run works 1].

Lemma wedging_stop_row :
  let st := execs wedging_stop (boot [web] []) in
  od_get (st_table st) "web" = Some 0 ∧ st_inflight st !! "web" = None ∧
  ∃ s, st_heap st !! 0 = Some s ∧ si_state s = STOPPING.
Proof.
  cbv zeta. split; [by vm_compute|]. split; [by vm_compute|].
  assert (si_state <$> st_heap (execs wedging_stop (boot [web] [])) !! 0 = Some STOPPING) as Hs by (by vm_compute).
  by apply fmap_Some in Hs as (s & Ho & ->); eauto.
Qed.

(** A stop whose last save fails leaves the silo Stopping with nobody stopping it: the
    workload is gone and no thread is left, yet start, stop, freeze and resume are refused
    from then on, whatever the system answers, and so is the delete. *)
Theorem failed_save_wedges_stop :
  let st := execs wedging_stop (boot [web] []) in
  size (st_threads st) = 0 ∧ evidence_of (st_log st) "web" = Down ∧
  (∀ w c, c ∈ [C_start "web"; C_stop "web"; C_freeze "web"; C_resume "web"] → ∃ e, (begin c w st).2 = Err e) ∧
  (∀ w, ∃ e, (refuse_unless_deletable 0 w st).2 = Err e).
Proof.
  cbv zeta. destruct wedging_stop_row as (Ht & Hi & s & Ho & Hs). split; [by vm_compute|]. split; [by vm_compute|]. split.
  - intros w c. by eapply stopping_refuses.
  - intros w. by eapply stopping_not_deletable.
Qed.

End Disk.
