(* ===== verification/SiloUids.v ===== *)
(** * One uid, one tier-3 silo

    A tier-3 silo is a system user: two of them with one uid would share everything. [create]
    reserves the uid under the lock before it makes the account without it; the reservation
    and the rows never give one uid to two names. *)

From S2P Require Import Prelude SiloEgress SiloData SiloStore SiloRuns SiloWork SiloInv SiloRegions SiloRegistry SiloSafety.
From Stdlib Require Import ZArith.

Module Uids.
Import Silos Store Runs Work Inv Regions Registry Safety.

Definition tier3_uid_of (s : Silo) : option Z :=
  if bool_decide (si_kind s = KIND_TIER3_USER) then Some (si_uid s) else None.

(** The uid of the tier-3 row of a name *)
Definition tier3_uid (st : store) (n : string) : option Z :=
  o ← od_get (st_table st) n; s ← st_heap st !! o; tier3_uid_of s.

(** The rows and the reservations name every uid once *)
Record uids (st : store) : Prop := {
  u_rows : ∀ n1 n2 u, tier3_uid st n1 = Some u → tier3_uid st n2 = Some u → n1 = n2;
  u_mixed : ∀ n1 n2 u, st_creating st !! n1 = Some u → tier3_uid st n2 = Some u → n1 = n2;
  u_reserved : ∀ n1 n2 u, st_creating st !! n1 = Some u → st_creating st !! n2 = Some u → n1 = n2;
}.

(** ** Computations that leave names and uids alone *)

Definition same_ids (st st' : store) : Prop :=
  st_table st' = st_table st ∧ st_creating st' = st_creating st ∧
  ∀ o, tier3_uid_of <$> st_heap st' !! o = tier3_uid_of <$> st_heap st !! o.

Definition ident {A} (m : M A) : Prop := ∀ w st, same_ids st (m w st).1.

Lemma same_ids_refl st : same_ids st st.
Proof. by split. Qed.
Lemma same_ids_trans st1 st2 st3 : same_ids st1 st2 → same_ids st2 st3 → same_ids st1 st3.
Proof. intros (? & ? & H1) (? & ? & H2). split; [congruence|]. split; [congruence|]. intros o. by rewrite H2. Qed.

Lemma same_ids_uid st st' n : same_ids st st' → tier3_uid st' n = tier3_uid st n.
Proof.
  intros (Ht & _ & Hh). unfold tier3_uid. rewrite Ht. destruct (od_get (st_table st) n) as [o|]; [|done]. simpl.
  specialize (Hh o). by destruct (st_heap st !! o), (st_heap st' !! o); simplify_eq/=.
Qed.

Lemma same_ids_uids st st' : same_ids st st' → uids st → uids st'.
Proof.
  intros Hs [U1 U2 U3]. pose proof (same_ids_uid st st') as Hu. pose proof Hs as (_ & Hc & _).
  split; intros *; rewrite ?Hc, ?Hu by done; eauto.
Qed.

Lemma ident_quiet {A} (m : M A) : quiet m → ident m.
Proof.
  intros Hm w st. specialize (Hm w st). split; [apply (ev_table _ _ Hm)|]. split; [apply (ev_creating _ _ Hm)|].
  intros o. by rewrite (ev_heap _ _ Hm).
Qed.
Lemma ident_bind {A B} (m : M A) (f : A → M B) : ident m → (∀ a, ident (f a)) → ident (m ≫= f).
Proof.
  intros Hm Hf w st. specialize (Hm w st). unfold mbind, M_bind. destruct (m w st) as [st1 [a|e]]; [|done].
  eapply same_ids_trans; [exact Hm|apply Hf].
Qed.
Lemma ident_attempt {A} (m : M A) : ident m → ident (attempt m).
Proof. intros Hm w st. unfold attempt. specialize (Hm w st). by destruct (m w st). Qed.
Lemma ident_if {A} (b : bool) (m1 m2 : M A) : ident m1 → ident m2 → ident (if b then m1 else m2).
Proof. by destruct b. Qed.
Lemma ident_ops o : ident (ops o).
Proof. by intros w st. Qed.
Lemma ident_assign o f : (∀ s, tier3_uid_of (f s) = tier3_uid_of s) → ident (assign o f).
Proof.
  intros Hf w st. split; [done|]. split; [done|]. intros o'. simpl. destruct (decide (o = o')) as [<-|Hne].
  - rewrite lookup_alter_eq. destruct (st_heap st !! o); simpl; [by rewrite Hf|done].
  - by rewrite lookup_alter_ne.
Qed.
Lemma ident_modify f :
  (∀ st, st_table (f st) = st_table st ∧ st_creating (f st) = st_creating st ∧ st_heap (f st) = st_heap st) → ident (modify f).
Proof. intros Hf w st. destruct (Hf st) as (H1 & H2 & H3). split; [done|]. split; [done|]. intros o. simpl. by rewrite H3. Qed.

Create HintDb ident discriminated.
#[local] Hint Resolve ident_attempt ident_if ident_ops : ident.
#[local] Hint Extern 2 (ident (modify _)) => apply ident_modify; intros ?; first [done | by case_match] : ident.
#[local] Hint Extern 2 (ident (assign _ _)) => apply ident_assign; done : ident.
#[local] Hint Extern 3 (ident (mbind _ _)) => apply ident_bind; [|intros ?] : ident.
#[local] Hint Extern 4 (ident (match ?x with _ => _ end)) => destruct x : ident.
#[local] Hint Extern 1 (ident (mret _)) => apply ident_quiet, quiet_ret : ident.
#[local] Hint Extern 1 (ident (raise _)) => apply ident_quiet, quiet_raise : ident.
#[local] Hint Extern 1 (ident (gets _)) => apply ident_quiet, quiet_gets : ident.
#[local] Hint Extern 1 (ident (ask _)) => apply ident_quiet, quiet_ask : ident.

Lemma ident_obj o : ident (obj o).
Proof. apply ident_quiet, quiet_obj. Qed.
Lemma ident_get n : ident (get n).
Proof. apply ident_quiet, quiet_get. Qed.
Lemma ident_await n : ident (await_inflight_locked n).
Proof. apply ident_quiet, quiet_await. Qed.
Lemma ident_profile : ident require_tier3s_profile.
Proof. apply ident_quiet, quiet_profile. Qed.
Lemma ident_save : ident save.
Proof. apply ident_quiet, quiet_save. Qed.
Lemma ident_emit n what : ident (emit_change n what).
Proof. apply ident_quiet, quiet_emit. Qed.
Lemma ident_purge : ident purge_unsafe_relay_fragments.
Proof. apply ident_quiet, quiet_purge. Qed.
Lemma ident_sweep n : ident (stop_sweep n).
Proof. apply ident_quiet, quiet_sweep. Qed.
#[local] Hint Resolve ident_obj ident_get ident_await ident_profile ident_save ident_emit ident_purge ident_sweep : ident.

Lemma ident_calls o : ident (ops_ o) ∧ ident (ops_bool o) ∧ ident (ops_text o) ∧ ident (ops_status o) ∧ ident (best_effort o).
Proof. unfold best_effort, ops_, ops_bool, ops_text, ops_status. split_and!; auto 10 with ident. Qed.
#[local] Hint Extern 1 (ident (ops_ _)) => apply ident_calls : ident.
#[local] Hint Extern 1 (ident (ops_bool _)) => apply ident_calls : ident.
#[local] Hint Extern 1 (ident (ops_text _)) => apply ident_calls : ident.
#[local] Hint Extern 1 (ident (ops_status _)) => apply ident_calls : ident.
#[local] Hint Extern 1 (ident (best_effort _)) => apply ident_calls : ident.

Lemma ident_transition o new : ident (transition o new).
Proof. unfold transition, invalidate_observation. auto 20 with ident. Qed.
Lemma ident_force o new : ident (force_state o new).
Proof. unfold force_state, invalidate_observation. auto 20 with ident. Qed.
#[local] Hint Resolve ident_transition ident_force : ident.
Lemma ident_claim n : ident (claim_stop_inflight n).
Proof. unfold claim_stop_inflight. auto 10 with ident. Qed.
Lemma ident_claim_start o : ident (claim_start_locked o).
Proof. unfold claim_start_locked, claim_stop_inflight. auto 20 with ident. Qed.
Lemma ident_start_body s : ident (start_body s).
Proof. unfold start_body, launch_silo_body. auto 30 with ident. Qed.
Lemma ident_start_commit n o c out : ident (start_commit n o c out).
Proof. unfold start_commit, invalidate_observation, clear_stop_inflight. auto 20 with ident. Qed.
Lemma ident_stop_body s : ident (stop_body s).
Proof. unfold stop_body, stop_tier3_user, stop_tier2, stop_tier3s, stop_verdict. auto 30 with ident. Qed.
Lemma ident_rollback n : ident (rollback_account_transaction n).
Proof. unfold rollback_account_transaction. auto 20 with ident. Qed.
#[local] Hint Resolve ident_claim ident_claim_start ident_start_body ident_start_commit ident_stop_body ident_rollback : ident.
Lemma ident_provision n uid : ident (provision_account n uid).
Proof. unfold provision_account. auto 40 with ident. Qed.
#[local] Hint Resolve ident_provision : ident.

(** ** The regions *)

(** The regions that move names: the other ones do not *)
Definition moves_names (p : pc) : bool :=
  match p with P_create_commit _ | P_create_exit _ | P_delete_done _ _ => true | _ => false end.

Lemma ident_region me n p : moves_names p = false → ident (region me n p).
Proof.
  destruct p; intros Hp; try done; cbn [region];
  unfold start_round, start_probe, start_verdict, dead_confirmed, stop_commit, freeze_commit, clear_stop_inflight, create_provision,
    create_undo, delete_recheck, delete_purge, delete_commit, delete_teardown, releasing, refuse_creating, refuse_unless_deletable,
    observe_probe, observe_publish, take_accounts, release_accounts; auto 40 with ident.
Qed.
Lemma ident_begin c : (∀ n uid autostart k l e, c ≠ C_create n uid autostart k l e) → ident (begin c).
Proof.
  intros Hc. destruct c; [by destruct (Hc n uid autostart kind launch egress)|..]; cbn [begin];
    unfold start_round, stop_begin, freeze_begin, observe_begin, refuse_creating, set_egress; auto 20 with ident.
Qed.

(** A uid no row has *)
Lemma uid_holder_none st uid n : uid_holder uid st = None → base st → tier3_uid st n ≠ Some uid.
Proof.
  intros Hu Hb Hn. unfold tier3_uid in Hn. destruct (od_get (st_table st) n) as [o|] eqn:Ht; [|done]. simpl in Hn.
  destruct (st_heap st !! o) as [s|] eqn:Ho; [|done]. simpl in Hn. unfold tier3_uid_of in Hn. case_bool_decide as Hk; [|done].
  injection Hn as Hn. unfold uid_holder in Hu. apply head_None in Hu.
  assert (si_name s ∈ ([] : list string)) as []%not_elem_of_nil. rewrite <- Hu. apply list_elem_of_omap.
  exists (n, o). split; [by apply od_get_elem|]. simpl. rewrite Ho. by rewrite !bool_decide_true.
Qed.

(** What a committed row adds *)
Lemma committed_uid st row now t st' m :
  base st → eqv (committed st row now t) st' → (∀ m, m ≠ ro_name row → od_get t m = od_get (st_table st) m) → m ≠ ro_name row →
  tier3_uid st' m = tier3_uid st m.
Proof.
  intros Hb He Ht Hm. unfold tier3_uid. rewrite (ev_table _ _ He), (ev_heap _ _ He). simpl. rewrite Ht by done.
  destruct (od_get (st_table st) m) as [o|] eqn:Ho; [|done]. simpl. destruct (b_table _ Hb _ _ Ho) as (s & Hs & _).
  rewrite lookup_insert_ne; [done|]. intros <-. assert (st_fresh st < st_fresh st); [|lia]. apply (b_heap _ Hb). by eauto.
Qed.

Lemma commit_row_uids st row w st0 st' r :
  inv st → uids st → eqv st st0 → od_get (st_table st) (ro_name row) = None →
  (ro_kind row = KIND_TIER3_USER → st_creating st !! ro_name row = Some (ro_uid row)) →
  commit_row row w st0 = (st', r) → uids st'.
Proof.
  intros Hinv [U1 U2 U3] He0 Ht Hres H. pose proof (i_base _ Hinv) as Hb.
  assert (st_creating st' = st_creating st ∧ (∀ m, m ≠ ro_name row → tier3_uid st' m = tier3_uid st m) ∧
    (∀ u, tier3_uid st' (ro_name row) = Some u → ro_kind row = KIND_TIER3_USER ∧ u = ro_uid row)) as (Hc & Hm & Hn).
  { destruct (commit_row_inv st w row st0 st' r He0 H) as [[_ He]|(e & _ & He)].
    - split; [apply (ev_creating _ _ He)|]. split.
      + intros m Hm. eapply committed_uid; try done. intros m' Hm'. by rewrite od_get_set_ne.
      + intros u. unfold tier3_uid. rewrite (ev_table _ _ He), (ev_heap _ _ He). simpl. rewrite od_get_set_eq. simpl.
        rewrite lookup_insert_eq. simpl. unfold tier3_uid_of. simpl. case_bool_decide; [|done]. by intros [= <-].
    - split; [apply (ev_creating _ _ He)|]. split.
      + intros m Hm. eapply committed_uid; try done. intros m' Hm'. by rewrite od_get_del_ne, od_get_set_ne.
      + intros u. unfold tier3_uid. rewrite (ev_table _ _ He). simpl. by rewrite od_get_del_eq. }
  assert (∀ m u, tier3_uid st' m = Some u → (m ≠ ro_name row ∧ tier3_uid st m = Some u) ∨
    (m = ro_name row ∧ st_creating st !! ro_name row = Some u)) as Hcase.
  { intros m u Hu. destruct (decide (m = ro_name row)) as [->|Hne]; [|left; by rewrite <- Hm].
    destruct (Hn u Hu) as [Hk ->]. auto. }
  split.
  - intros n1 n2 u [[Hn1 H1]|[-> H1]]%Hcase [[Hn2 H2]|[-> H2]]%Hcase; eauto. symmetry. by eauto.
  - rewrite Hc. intros n1 n2 u H1 [[Hn2 H2]|[-> H2]]%Hcase; eauto.
  - by rewrite Hc.
Qed.

(** Reserving a uid *)
Lemma reserve_uids st st1 n uid :
  inv st → uids st → eqv st st1 → uid_holder uid st1 = None → uid ∉ (map_to_list (st_creating st1)).*2 →
  uids (set_creating (<[n := uid]> (st_creating st1)) st1).
Proof.
  intros Hinv Hu He Hh Hno. assert (base st1) as Hb by (eapply base_eqv; [done|apply Hinv]).
  assert (uids st1) as [U1 U2 U3].
  { eapply same_ids_uids; [|done]. split; [apply (ev_table _ _ He)|]. split; [apply (ev_creating _ _ He)|]. intros o. by rewrite (ev_heap _ _ He). }
  assert (∀ m, st_creating st1 !! m ≠ Some uid) as Hfree.
  { intros m Hm. apply Hno. apply list_elem_of_fmap. exists (m, uid). split; [done|]. by apply elem_of_map_to_list. }
  pose proof (λ m, uid_holder_none st1 uid m Hh Hb) as Hrow.
  split; simpl; [done|..].
  - intros n1 n2 u Hc H2. change (tier3_uid st1 n2 = Some u) in H2. destruct (decide (n1 = n)) as [->|Hne].
    + rewrite lookup_insert_eq in Hc. injection Hc as <-. by destruct (Hrow n2).
    + rewrite lookup_insert_ne in Hc by done. by eauto.
  - intros n1 n2 u H1 H2. destruct (decide (n1 = n)) as [->|Hn1], (decide (n2 = n)) as [->|Hn2]; [done|..].
    + rewrite lookup_insert_eq in H1. rewrite lookup_insert_ne in H2 by done. injection H1 as ->. by destruct (Hfree n2).
    + rewrite lookup_insert_eq in H2. rewrite lookup_insert_ne in H1 by done. injection H2 as ->. by destruct (Hfree n1).
    + rewrite lookup_insert_ne in H1, H2 by done. by eauto.
Qed.

Lemma create_begin_uids n uid autostart kind launch egress w st st' r :
  inv st → uids st → create_begin n uid autostart kind launch egress w st = (st', r) → uids st'.
Proof.
  intros Hinv Hu H. unfold create_begin in H. apply bind_inv in H as [(e & H & _)|(admin & st0 & H0 & H)]; [by apply ask_inv in H as [_ ?]|].
  apply ask_inv in H0 as [-> _]. cbv zeta in H.
  match type of H with match ?c with _ => _ end _ _ = _ => destruct c as [row|e] eqn:Hc end; [|by apply raise_inv in H as [-> _]].
  assert (ro_name row = n) as Hn by (clear -Hc; unfold result_bind in Hc; repeat case_match; by simplify_eq/=). clear Hc.
  assert (quiet (if bool_decide (ro_kind row = KIND_TIER3S) then require_tier3s_profile else mret tt)) as Hq by auto with quiet.
  assert (∀ st1, eqv st st1 → uids st1) as Hsame.
  { intros st1 He. eapply same_ids_uids; [|done]. split; [apply (ev_table _ _ He)|]. split; [apply (ev_creating _ _ He)|]. intros o. by rewrite (ev_heap _ _ He). }
  apply bind_inv in H as [(e & H & ->)|([] & st1 & H1 & H)]; [apply (quiet_run _ _ _ _ _ Hq) in H; auto|].
  apply (quiet_run _ _ _ _ _ Hq) in H1 as He. clear H1 Hq. rewrite bind_gets in H.
  destruct (name_taken n st1) eqn:Htk; [apply raise_inv in H as [-> _]; auto|].
  unfold name_taken in Htk. apply orb_false_iff in Htk as [Ht%bool_decide_eq_false _]. apply eq_None_not_Some in Ht.
  case_bool_decide as Hk; cbn [negb] in H.
  - rewrite bind_gets in H. destruct (uid_holder uid st1) eqn:Huh; [apply raise_inv in H as [-> _]; auto|].
    rewrite bind_gets in H. case_bool_decide as Hno; [apply raise_inv in H as [-> _]; auto|].
    apply bind_inv in H as [(e & H & _)|([] & st2 & H2 & H)]; [by apply modify_inv in H as [_ ?]|].
    apply modify_inv in H2 as [-> _]. apply mret_inv in H as [-> _]. by eapply reserve_uids.
  - assert (∃ r1, commit_row row w st1 = (st', r1)) as [r1 Hrun].
    { apply bind_inv in H as [(e & H & ->)|([] & st2 & H2 & H)]; [by eauto|]. apply mret_inv in H as [-> _]. by eauto. }
    eapply (commit_row_uids st); try done. by rewrite Hn, <- (ev_table _ _ He).
Qed.

(** Dropping a reservation, or a row *)
Lemma drop_reservation_uids st n : uids st → uids (set_creating (delete n (st_creating st)) st).
Proof.
  intros [U1 U2 U3]. split; simpl; [done|..].
  - intros n1 n2 u [_ H1]%lookup_delete_Some. by eauto.
  - intros n1 n2 u [_ H1]%lookup_delete_Some [_ H2]%lookup_delete_Some. by eauto.
Qed.

Lemma drop_row_uids st n : uids st → uids (set_table (od_del (st_table st) n) st).
Proof.
  intros [U1 U2 U3].
  assert (∀ m u, tier3_uid (set_table (od_del (st_table st) n) st) m = Some u → tier3_uid st m = Some u) as Hsub.
  { intros m u. unfold tier3_uid. simpl. destruct (decide (m = n)) as [->|Hne]; [by rewrite od_get_del_eq|by rewrite od_get_del_ne]. }
  split; simpl; [|by eauto..]. intros n1 n2 u H1%Hsub H2%Hsub. by eauto.
Qed.

Lemma begin_uids c w st : inv st → uids st → uids (begin c w st).1.
Proof.
  intros Hinv Hu. assert ((∃ n uid autostart k l e, c = C_create n uid autostart k l e) ∨
    (∀ n uid autostart k l e, c ≠ C_create n uid autostart k l e)) as [(n & uid & autostart & k & l & e & ->)|Hc]
    by (destruct c; eauto 10).
  - destruct (begin _ w st) as [st' r] eqn:H. by eapply create_begin_uids.
  - eapply same_ids_uids; [by apply ident_begin|done].
Qed.

Lemma finish_uids n o failed w st : uids st → uids (delete_finish n o failed w st).1.
Proof.
  intros Hu. destruct (delete_finish n o failed w st) as [st' r] eqn:H. simpl. unfold delete_finish in H.
  apply bind_inv in H as [(e & H & _)|(res & st1 & H1 & H)]; [by apply attempt_inv in H as (? & _ & ?)|].
  apply attempt_inv in H1 as (res' & H1 & _).
  assert (uids st1) as Hu1.
  { destruct failed as [e|].
    - assert (ident (force_state o STOPPED;; raise (SessionError (SE_delete_failed n)) : M unit)) as Hi by auto with ident.
      specialize (Hi w st). rewrite H1 in Hi. by eapply same_ids_uids.
    - apply bind_inv in H1 as [(? & H0 & _)|([] & st2 & H0 & H1)]; [by apply modify_inv in H0 as [_ ?]|].
      apply modify_inv in H0 as [-> _]. assert (ident (save;; emit_change n "Deleted")) as Hi by auto with ident.
      specialize (Hi w (set_table (od_del (st_table st) n) st)). rewrite H1 in Hi. eapply same_ids_uids; [exact Hi|]. by apply drop_row_uids. }
  assert (ident (release_accounts;; match res with Ok _ => mret (End (Ok "deleted")) | Err e => raise e end : M next)) as Hi
    by (unfold release_accounts; auto 10 with ident).
  specialize (Hi w st1). rewrite H in Hi. by eapply same_ids_uids.
Qed.

Lemma region_uids w me th st :
  inv st → uids st → st_threads st !! me = Some th → uids (region me (t_name th) (t_pc th) w st).1.
Proof.
  intros Hinv Hu Hth. pose proof (i_pc _ Hinv _ _ Hth) as Hpc.
  destruct (moves_names (t_pc th)) eqn:Hm; [|eapply same_ids_uids; [by apply ident_region|done]].
  destruct (t_pc th) as [| | | | | | | | | | |row| |r| | | | |o failed| |] eqn:Hp; try done; cbn [region].
  - destruct Hpc as (Hn & Hc & Ht & _). destruct (create_commit row w st) as [st' r] eqn:H. simpl. unfold create_commit in H.
    apply bind_inv in H as [(e & H & _)|(res & st1 & H1 & H)]; [by apply attempt_inv in H as (? & _ & ?)|].
    apply attempt_inv in H1 as (res' & H1 & _).
    assert (uids st1) as Hu1 by (eapply (commit_row_uids st); try done; rewrite Hn; done).
    assert (ident (match res with Err e => mret (Go (P_create_undo row e))
      | Ok _ => release_accounts;; mret (Go (P_create_exit (Ok ("uid=" +:+ pretty (ro_uid row))))) end)) as Hi
      by (unfold release_accounts; auto 10 with ident).
    specialize (Hi w st1). rewrite H in Hi. by eapply same_ids_uids.
  - by apply drop_reservation_uids.
  - by apply finish_uids.
Qed.

Lemma run_region_uids w me a n m st : uids (m w st).1 → uids (run_region w me a n m st).
Proof.
  intros Hm. unfold run_region.
  assert (∀ st1 x, uids st1 → uids (audit_end a n x w st1).1) as Ha.
  { intros st1 x Hx. eapply same_ids_uids; [apply (ident_quiet _ (quiet_audit a n x))|done]. }
  destruct (m w st) as [st' [[q|x]|e]]; [by destruct Hm|..].
  - by destruct (Ha st' x Hm).
  - by destruct (Ha st' (Err e) Hm).
Qed.

Lemma exec_uids m st : inv st → uids st → uids (exec m st).
Proof.
  intros Hinv Hu. destruct m as [w me c|w me]; simpl.
  - destruct (st_threads st !! me); [done|]. by apply run_region_uids, begin_uids.
  - unfold advance. destruct (st_threads st !! me) as [th|] eqn:Hth; [|done]. by apply run_region_uids, region_uids.
Qed.

Definition tier3_uid_row (r : Row) : option Z :=
  if bool_decide (ro_kind r = KIND_TIER3_USER) then Some (ro_uid r) else None.

Lemma boot_uids rows log : NoDup (omap tier3_uid_row rows) → uids (boot rows log).
Proof.
  intros Hnd.
  assert (∀ n u, tier3_uid (boot rows log) n = Some u → ∃ i r, rows !! i = Some r ∧ ro_name r = n ∧ tier3_uid_row r = Some u) as Hrow.
  { intros n u. unfold tier3_uid. simpl. rewrite <- (length_fmap ro_name rows).
    destruct (od_get _ n) as [o|] eqn:Ht; [|done]. simpl. apply boot_lookup in Ht as (i & -> & Hi).
    apply list_lookup_fmap_Some in Hi as (r & -> & Hi). rewrite Nat.add_0_l, lookup_map_seq_0, list_lookup_fmap, Hi. simpl.
    intros Hu. by exists i, r. }
  assert (∀ i j r1 r2 u, rows !! i = Some r1 → rows !! j = Some r2 → tier3_uid_row r1 = Some u → tier3_uid_row r2 = Some u → i = j) as Hinj.
  { clear Hrow. induction rows as [|r rows IH]; intros i j r1 r2 u Hi Hj H1 H2; [done|].
    assert (∀ k r', rows !! k = Some r' → tier3_uid_row r' = Some u → u ∈ omap tier3_uid_row rows) as Hin.
    { intros k r' Hk Hr'. apply list_elem_of_omap. exists r'. split; [by eapply list_elem_of_lookup_2|done]. }
    simpl in Hnd. destruct i as [|i], j as [|j]; simplify_eq/=; [done|..].
    - rewrite H1 in Hnd. apply NoDup_cons in Hnd as [Hno _]. destruct Hno. by eauto.
    - rewrite H2 in Hnd. apply NoDup_cons in Hnd as [Hno _]. destruct Hno. by eauto.
    - f_equal. eapply IH; try done. destruct (tier3_uid_row r); [by apply NoDup_cons in Hnd as [_ ?]|done]. }
  split; simpl; [|intros *; by rewrite lookup_empty..].
  intros n1 n2 u (i & r1 & Hi & <- & H1)%Hrow (j & r2 & Hj & <- & H2)%Hrow. assert (i = j) as -> by eauto. congruence.
Qed.

(** C15: In every store reachable, without starting a Frozen silo, from a boot_ok boot whose
    tier-3 rows have distinct uids, two tier-3 rows with one uid are the same row, and no row
    has the uid another name's create has reserved: concurrent creates never share an
    account. *)
Theorem tier3_uids_unique rows log st :
  reachable rows log st → NoDup (omap tier3_uid_row rows) →
  (∀ n1 n2 u, tier3_uid st n1 = Some u → tier3_uid st n2 = Some u → n1 = n2) ∧
  (∀ n1 n2 u, st_creating st !! n1 = Some u → tier3_uid st n2 = Some u → n1 = n2).
Proof.
  intros Hr Hnd. assert (uids st) as [U1 U2 _]; [|by split].
  induction Hr as [|st m Hr IH]; [by apply boot_uids|]. apply exec_uids; [by eapply reachable_store_inv|done].
Qed.

(** Two creates with one uid: the second is refused while the first is under way *)
Definition two_creates : list move :=
  [Call works 0 (C_create "a" 2002 false (PStr "tier3-user") PNone PNone);
   Call works 1 (C_create "b" 2002 false (PStr "tier3-user") PNone PNone);
   Run works 0; Run works 0; Run works 0].

Lemma two_creates_reachable : reachable [web] [] (execs two_creates (boot [web] [])).
Proof. apply reach_execs; [apply reach_boot, web_boot|by vm_compute]. Qed.

Lemma tier3_uids_unique_witness :
  let st := execs two_creates (boot [web] []) in
  tier3_uid st "a" = Some 2002%Z ∧ (∀ n, tier3_uid st n = Some 2002%Z → n = "a").
Proof.
  cbv zeta. assert (tier3_uid (execs two_creates (boot [web] [])) "a" = Some 2002%Z) as Ha by (by vm_compute).
  split; [exact Ha|]. intros n Hn.
  refine (proj1 (tier3_uids_unique [web] [] _ two_creates_reachable _) n "a" 2002%Z Hn Ha). apply NoDup_singleton.
Defined.

(** ** Accounts the store did not make *)

(** A container silo with the name of an account of the machine is created and deleted *)
Definition container_delete : list move :=
  [Call works 0 (C_create "alice" 1000 false (PStr "tier2-template")
     (PDict [(PStr "workload", PStr "firefox"); (PStr "template_silo", PStr "base")]) PNone);
   Call works 1 (C_delete "alice"); Run works 1; Run works 1; Run works 1; Run works 1].

(** Only a tier-3 silo has an account, yet the teardown of a delete calls userdel and
    removes the relay policy for every kind. [create] does not look at accounts for the
    other kinds, so deleting a container silo removes the account of its name, one the
    store never created. *)
Theorem container_delete_removes_account :
  let st := execs container_delete (boot [] []) in
  boot_ok [] [] ∧ head (st_log st) = Some (Ev (O_userdel "alice") A_done) ∧
  ∀ e uid, e ∈ st_log st → ev_op e ≠ O_useradd "alice" uid.
Proof.
  cbv zeta. split; [split; by try constructor|]. split; [by vm_compute|].
  assert (Forall (λ e, match ev_op e with O_useradd _ _ => false | _ => true end = true)
    (st_log (execs container_delete (boot [] [])))) as Hall by (vm_compute; repeat constructor).
  intros e uid He Heq. rewrite Forall_forall in Hall. specialize (Hall e He). by rewrite Heq in Hall.
Qed.

End Uids.
